(* ===== verification/_CoqProject ===== *)
-Q . S2P
Prelude.v
GoFloat.v
Metrics.v
Counters.v
Sha256.v
Types.v
State.v
Storage.v
SnapshotOps.v
ConfigChange.v
Log.v
RpcTransport.v
Samples.v
LogTheorems.v
Protocol.v
Election.v
ElectionTheorems.v
SnapshotTheorems.v
Control.v
ConfigTheorems.v
Node.v
Servers.v
SnapshotLoop.v
Handlers.v
Frames.v
Effects.v
NodeTheorems.v
Panics.v
Dispatch.v
Outbound.v
Membership.v
Races.v
Durability.v
Cluster.v
ClusterTheorems.v
Scenarios.v
Json.v
KVStore.v
