(* ===== verification/Prelude.v ===== *)
(** * raft-lib: a verified model of the Raft library

    raft-lib (src/, package raft and its supporting packages) implements the
    Raft consensus algorithm in Go: a node replicates a log of commands with
    its peers and applies the committed ones to a state machine. This
    development models the program definition by definition, in Gallina, and
    proves what each part guarantees, and where the code departs from what it
    means to do. Definitions keep the names of the source.

    ** The parts and their files

    Prelude, GoFloat, Sha256: Go's int (64-bit, wrapping), maps and arrays (a
    panic is [None]), float64 conversions, SHA-256. Types: the structs of
    types/types.go, and [StateMachine] as a class with its documented law; its
    [Apply] may panic, may fail, or gives a new state.

    State, Log, Election, SnapshotOps, ConfigChange: the [nodeState] of
    raft/state.go as a record, and its methods in state.go, log.go,
    election.go, snapshot.go and config_change.go as functions
    [args -> nodeState -> option (nodeState * result)]. The mutex of the struct
    is the atomicity of these functions. The log is the fixed array of the
    code with its fill level [nextLogIdx]; [live], [base] and [log_at] give the
    abstract log it stands for.

    Storage: the interface of storage/storage.go as a class with laws, and
    MemoryStorage as an instance. RpcTransport: transport/rpc_transport.go, the
    connections of a node and calls over them.

    Node: the [RaftNode] of raft/node.go and the [RaftNode] methods of the other
    files. The reaction of a goroutine to one message is a [Handler]: it reads
    and changes the node, may panic, and emits [effect]s (messages to peers,
    replies, signals to clients). [run] is one iteration of the main loop for
    the event its select received; [appendEntriesResponse],
    [installSnapshotResponse], [handleApplyRequest],
    [handleConfigurationMessage], [configApplied] and [snapshotLoopInstall] are
    one message of the other loops; [New] and [Start] construct a node.
    [persistState] is the two steps it has in the code, [readPersistent] and
    [savePersistent], and each call of the storage is an effect in its place
    among the others, so that what is said and what is saved are in one order.
    SnapshotLoop: the round trip of [takeSnapshot] over the two snapshot
    channels, step by step, with the loop that answers it.

    Metrics, Counters: raft/metrics.go, call by call and at its atomic
    operations.

    Dispatch, Outbound, Races, Cluster: the parts together, as step relations.
    Dispatch interleaves the callers of the Handle methods with the main loop
    over the unbuffered channels they share, and with [Stop], which closes
    [stopCh] and the transport: the loop looks at [stopCh] at the top of each
    iteration and in its select. Outbound interleaves a node with its transport,
    the goroutines that carry its messages, of which each call has a beginning
    and an end, and those of [connectToPeers]; Races opens three handlers between
    their steps; Cluster composes several nodes with the votes in flight,
    crashes and restarts.

    Json, KVStore: examples/kv-store/main.go, a user of the library. Json is the
    part of Go's encoding/json it needs (UTF-8, string literals, the grammar of
    texts); KVStore the state machine [KVSM], with [store] as an instance of
    [StateMachine] and its law, and the console of [main].

    ** What is proved

    - One operation (LogTheorems, ElectionTheorems, SnapshotTheorems,
      ConfigTheorems, Storage, Metrics, RpcTransport): its result on every
      branch. In Protocol, [handleAppendEntries_refines] shows that replication
      carries out the receiver rule of the Raft paper, stated on logs addressed
      by index, for every message that does not reach behind the receiver's
      snapshot, as [messageFor_well_sent] shows of those a leader builds;
      [merge_behind_snapshot] is what happens to the others. [replication_round],
      [handleAppendEntries_log_matching], [checkCommits_spec],
      [takeSnapshot_compacts] and [snapshot_transfer] are what it is for.
    - One node (Control, Handlers, Frames, Effects, NodeTheorems, Panics,
      Durability, Membership): [state_inv] is the invariant of a node's state
      and [runs_to] total correctness of a handler; Frames, Effects and
      Membership are three effect systems for handlers, of what they leave
      alone, what they emit, and whom they send to. [no_goroutine_panics]: from
      the start until [Stop], over a state machine that does not panic,
      everything received is handled to the end, after a wait for
      [snapshotLoop] at most. [checkLogsToApply_spec],
      [handleApplyRequest_spec]: commands are applied in log order and
      submitted, deduplicated and persisted. [answers_are_durable],
      [persist_then_restart]: an iteration of the main loop saves before it
      answers, and a restart brings back what was saved.
      [promoted_server_cut_off]: whom a leader never sends to again.
    - Goroutines and nodes together (Dispatch, Outbound, Counters, Cluster,
      ClusterTheorems): [callers_get_their_replies],
      [requests_are_answered], [recordApply_linearizable], and
      [election_safety], at most one winner per term over every execution with
      a fixed membership in which reactions are atomic and no InstallSnapshot is
      refused in its sender's own term; without the last two bounds it fails
      ([stale_persist], [handleInstallSnapshotResponse_forgets_vote]).
      SnapshotLoop: [round_trip_completes] while the loop runs, and
      [round_trip_stranded] after it has returned.
    - The example (KVStore): [snapshot_restores], a snapshot gives back the state
      it was taken of; [console_commands] and [set_then_get], what is typed is
      what is applied and read.
    - Where the code departs from the protocol or from its comments (Scenarios,
      Races, and single theorems of the other files): concrete or general
      executions, among them two leaders in one term that commit different
      entries ([committed_entries_diverge]), a client told that a lost command
      was applied, a compaction that makes the main loop apply the wrong entry,
      a client never answered, a vote saved and then overwritten by an older
      state ([stale_persist]), an unreachable peer that keeps a cluster from
      electing, a peer that is never contacted again after one error, and a
      console whose commands are answered but dropped after a restart.

    ** Conventions

    A loop whose recursion is not structural takes fuel, and running out of it
    is a panic: [applyLogs] gets one more unit than there are committed entries
    left to apply, which [no_goroutine_panics] and [checkLogsToApply_spec] show
    to be enough; the parser of JSON texts, where a refusal and lack of fuel are
    both [None], gets two units for each byte and two more, and by
    [parse_enough] any greater fuel gives the same result. The other loops recurse on a list or on the fill level of
    the array. Random numbers, clock readings, the outcome of a dial or a call,
    and the event a select receives are arguments. The conversion of an out of
    range float64 to int, which Go leaves to the platform, is the class
    [GoPlatform] with the instance [amd64].

    A handler is one step except where Dispatch, Outbound, Races, SnapshotLoop
    and Counters say otherwise. Inside a handler [takeSnapshot] is given the
    answer of [snapshotLoop], which [round_trip_answer] justifies while that loop
    runs; the send on [snapshotInstallChan], which has room for one snapshot,
    takes place when there is room ([enabled] in Panics). In Dispatch what an
    iteration does before its select is part of the step that receives. A crash
    comes between two handlers. [effect]s that stand for a goroutine that waits
    (AwaitApplied, AwaitConfig) are not run further.

    ** Not modelled

    The scanner of the console and the wording it prints (lines and what is
    printed are values); the value of JSON numbers, which no field holds; log
    output; the encoding net/rpc puts on the wire and the network below it; the
    passing of time, apart from timers that may fire whenever they run; handleConfigurationMessages dials before it
    sends, in Outbound the two may also happen in the other order;
    membership changes in Cluster, whose members are fixed. *)
From Stdlib Require Export ZArith Lia.
From Stdlib Require Export Strings.Byte.
From stdpp Require Export base gmap strings numbers option list.

#[export] Set Default Goal Selector "!".

Open Scope Z_scope.

#[global] Arguments Nat.div : simpl never.

(** ** Record update

    A field [f] of a record is given an [Setter f] instance built by the
    tactic [setter] from the record's eta expansion; [s <| f := v |>] is then
    the struct [s] after the Go assignment [s.f = v]. *)

Class Setter {R T : Type} (f : R -> T) := set_field : T -> R -> R.
Arguments set_field {R T} f {_} v s : simpl never.

Declare Scope go_scope.
Delimit Scope go_scope with go.
#[local] Set Warnings "-postfix-notation-not-level-1".
Notation "s <| f := v |>" := (set_field f v s)
  (at level 12, f at next level, v at level 200, left associativity,
   format "s  <| f  :=  v |>") : go_scope.
Open Scope go_scope.

Ltac setter eta f :=
  intros v s;
  let b := eval cbv beta delta [eta] in (eta s) in
  match eval pattern (f s) in b with
  | ?F _ => exact (F v)
  end.

(** [fields] simplifies every projection of an updated record, in the goal
    and in the hypotheses, by conversion. *)
Ltac field_in_goal :=
  match goal with
  | |- context [?p (@set_field ?R ?T ?f ?I ?v ?s)] =>
      first
        [ change (p (@set_field R T f I v s)) with v
        | change (p (@set_field R T f I v s)) with (p s) ]
  end.

Ltac field_in_hyps :=
  match goal with
  | H : context [?p (@set_field ?R ?T ?f ?I ?v ?s)] |- _ =>
      first
        [ change (p (@set_field R T f I v s)) with v in H
        | change (p (@set_field R T f I v s)) with (p s) in H ]
  end.

Ltac fields := repeat field_in_goal; repeat field_in_hyps.

(** ** Go's machine integers

    [int] and [int64] are 64-bit two's complement integers on the platforms
    the program builds for. *)

Definition min_int64 : Z := - 2 ^ 63.
Definition max_int64 : Z := 2 ^ 63 - 1.

Definition wrap64 (z : Z) : Z := (z + 2 ^ 63) mod 2 ^ 64 - 2 ^ 63.

Definition in_int64 (z : Z) : Prop := min_int64 <= z <= max_int64.

#[export] Instance in_int64_dec z : Decision (in_int64 z).
Proof. unfold in_int64. apply _. Defined.

Notation "a +! b" := (wrap64 (a + b)) (at level 50, left associativity) : go_scope.
Notation "a -! b" := (wrap64 (a - b)) (at level 50, left associativity) : go_scope.
Notation "a *! b" := (wrap64 (a * b)) (at level 40, left associativity) : go_scope.

(** Go's integer division truncates toward zero, and wraps on the single
    overflowing pair (the most negative value divided by -1). *)
Definition div64 (a b : Z) : Z := wrap64 (Z.quot a b).

(** ** Go's maps and arrays *)

(** Reading a missing key of a [map[K]int] gives the zero value. *)
Definition map_get {K} `{Countable K} (m : gmap K Z) (k : K) : Z := default 0 (m !! k).

(** A write [a[i] = x] to a Go array or slice: out of range it panics. A
    panic is [None] throughout the development; reads are stdpp's [l !! i]. *)
Definition array_set {A} (l : list A) (i : nat) (x : A) : option (list A) :=
  if decide (i < length l)%nat then Some (<[i := x]> l) else None.

(** ** Lemmas on integers *)

Lemma wrap64_id z : in_int64 z -> wrap64 z = z.
Proof.
  unfold in_int64, wrap64, min_int64, max_int64. intros H.
  rewrite Z.mod_small; lia.
Qed.

Lemma wrap64_range z : in_int64 (wrap64 z).
Proof.
  unfold in_int64, wrap64, min_int64, max_int64.
  pose proof (Z.mod_pos_bound (z + 2 ^ 63) (2 ^ 64)). lia.
Qed.

Lemma wrap64_succ z : in_int64 z -> z < max_int64 -> z +! 1 = z + 1.
Proof. intros H Hlt. apply wrap64_id. unfold in_int64, max_int64 in *. lia. Qed.

Lemma in_int64_nat (n : nat) : Z.of_nat n <= max_int64 -> in_int64 (Z.of_nat n).
Proof. unfold in_int64, min_int64. lia. Qed.

(** The votes exceed half of [n], with the program's truncating division. *)
Lemma majority_half (n : nat) v : Z.of_nat (n / 2) < v <-> Z.of_nat n < 2 * v.
Proof.
  rewrite Nat2Z.inj_div. change (Z.of_nat 2) with 2.
  pose proof (Z.div_mod (Z.of_nat n) 2). pose proof (Z.mod_pos_bound (Z.of_nat n) 2). lia.
Qed.

(** ** Lemmas on arrays *)

Lemma array_set_in {A} (l : list A) i x :
  (i < length l)%nat -> array_set l i x = Some (<[i := x]> l).
Proof. intros H. unfold array_set. by rewrite decide_True. Qed.

Lemma array_set_out {A} (l : list A) i x :
  (length l <= i)%nat -> array_set l i x = None.
Proof. intros H. unfold array_set. rewrite decide_False; [done | lia]. Qed.

Lemma array_set_Some {A} (l l' : list A) i x :
  array_set l i x = Some l' -> (i < length l)%nat /\ l' = <[i := x]> l.
Proof. unfold array_set. case_decide; intros; simplify_eq; auto. Qed.

(** The prefix of an array after a write at its end. *)
Lemma take_insert_snoc {A} (l : list A) n x :
  (n < length l)%nat -> take (S n) (<[n := x]> l) = take n l ++ [x].
Proof.
  intros H. erewrite take_S_r; [| by apply list_lookup_insert_eq].
  by rewrite take_insert_ge.
Qed.

Lemma lookup_take_last {A} (l : list A) n :
  (0 < n)%nat -> take n l !! (n - 1)%nat = l !! (n - 1)%nat.
Proof. intros H. apply lookup_take_lt. lia. Qed.

Lemma filter_all {A} (P : A -> Prop) `{!forall x, Decision (P x)} (l : list A) :
  (forall x, x ∈ l -> P x) -> filter P l = l.
Proof.
  induction l as [|x l IH]; intros HP; [done |].
  rewrite filter_cons, decide_True by (apply HP; left). f_equal. apply IH. intros y Hy. apply HP. by right.
Qed.

Lemma filter_none {A} (P : A -> Prop) `{!forall x, Decision (P x)} (l : list A) :
  (forall x, x ∈ l -> ~ P x) -> filter P l = [].
Proof.
  induction l as [|x l IH]; intros HP; [done |].
  rewrite filter_cons, decide_False by (apply HP; left). apply IH. intros y Hy. apply HP. by right.
Qed.

Lemma delete_out {A} (l : list A) i : l !! i = None -> delete i l = l.
Proof.
  revert i. induction l as [|x l IH]; intros [|i]; simpl; try done.
  intros Hi. f_equal. by apply IH.
Qed.

(** ** Lemmas on handlers' results *)

(** A computed observation of a result gives the result. *)
Lemma observe {A B C} (o : option (A * B)) (f : A -> B -> C) c :
  (fun p => f p.1 p.2) <$> o = Some c -> exists a b, o = Some (a, b) /\ f a b = c.
Proof. destruct o as [[a b]|]; simpl; intros; simplify_eq; eauto. Qed.

Lemma observe1 {A C} (o : option A) (f : A -> C) c :
  f <$> o = Some c -> exists a, o = Some a /\ f a = c.
Proof. destruct o as [a|]; simpl; intros; simplify_eq; eauto. Qed.

(** ** Lemmas on maps *)

Lemma map_get_insert {K} `{Countable K} (m : gmap K Z) k v : map_get (<[k := v]> m) k = v.
Proof. unfold map_get. by rewrite lookup_insert_eq. Qed.

Lemma map_get_insert_ne {K} `{Countable K} (m : gmap K Z) k k' v :
  k <> k' -> map_get (<[k := v]> m) k' = map_get m k'.
Proof. intros. unfold map_get. by rewrite lookup_insert_ne. Qed.

(** ** Automation shared by the components *)

Create HintDb raft.
#[export] Hint Resolve wrap64_range in_int64_nat : raft.
