(* ===== verification/GoFloat.v ===== *)
(** * GoFloat: the conversions between [int] and [float64]

    [handleAppendEntries] computes its new commit index through
    [int(math.Min(float64(a), float64(b)))] (src/raft/log.go). A float64 has a
    53-bit significand, so the detour is not the identity on large indices:
    this file models the conversions on the integers they produce. *)
From S2P Require Import Prelude.
From Stdlib Require Import Floats.SpecFloat.

(** Rounding of the integer [z] to the nearest float64, ties to even. The
    result of converting an [int] is always an integer, kept here as such. *)
Definition float64_of_int (z : Z) : Z :=
  let a := Z.abs z in
  if a <=? 2 ^ 53 then z
  else
    let e := Z.log2 a - 52 in
    let q := Z.shiftr a e in
    let r := a mod 2 ^ e in
    let half := 2 ^ (e - 1) in
    let q' := if (half <? r) || ((half =? r) && Z.odd q) then q + 1 else q in
    Z.sgn z * (q' * 2 ^ e).

(** Converting a float64 that does not fit an [int] (out of range, infinite or
    not a number): the Go specification leaves the result to the platform. *)
Class GoPlatform := { float_unrep : spec_float -> Z }.

(** Converting back an integral float64. The only value out of range that
    rounding can reach from an [int] is 2^63. *)
Definition float_overflow `{GoPlatform} : Z := float_unrep (S754_finite false (2 ^ 52) 11).

Definition int_of_float64 `{GoPlatform} (f : Z) : Z :=
  if decide (in_int64 f) then f else float_overflow.

(** [int(math.Min(float64(a), float64(b)))] *)
Definition go_float_min `{GoPlatform} (a b : Z) : Z :=
  int_of_float64 (Z.min (float64_of_int a) (float64_of_int b)).

(** [int(f)] truncates toward zero. *)
Definition trunc_float64 `{GoPlatform} (f : spec_float) : Z :=
  match f with
  | S754_zero _ => 0
  | S754_finite s m e =>
      let a := if 0 <=? e then Z.pos m * 2 ^ e else Z.pos m / 2 ^ (- e) in
      let z := if s then - a else a in
      if decide (in_int64 z) then z else float_unrep f
  | _ => float_unrep f
  end.

(** [float64(z)] as an IEEE 754 number, and the operations on such numbers. *)
Definition float64 (z : Z) : spec_float := binary_normalize 53 1024 z 0 false.
Definition float_div : spec_float -> spec_float -> spec_float := SFdiv 53 1024.
Definition float_mul : spec_float -> spec_float -> spec_float := SFmul 53 1024.

(** The two common platforms: amd64 gives the most negative integer, arm64
    saturates and maps what is not a number to 0. *)
Definition amd64 : GoPlatform := {| float_unrep := fun _ => min_int64 |}.
Definition arm64 : GoPlatform :=
  {| float_unrep := fun f =>
       match f with
       | S754_infinity s | S754_finite s _ _ => if s then min_int64 else max_int64
       | _ => 0
       end |}.

(** ** Cross-checks against the Standard Library's IEEE 754 model *)

(** The integral value of a [spec_float], for the comparison below. *)
Definition sf_to_Z (f : spec_float) : option Z :=
  match f with
  | S754_zero _ => Some 0
  | S754_finite s m e =>
      if 0 <=? e then Some ((if s then -1 else 1) * (Z.pos m * 2 ^ e))
      else if Z.pos m mod 2 ^ (- e) =? 0
           then Some ((if s then -1 else 1) * (Z.pos m / 2 ^ (- e)))
           else None
  | _ => None
  end.

Definition ieee_of_int (z : Z) : option Z := sf_to_Z (float64 z).

Example float64_agrees_with_ieee :
  Forall (fun z => ieee_of_int z = Some (float64_of_int z))
    [0; 1; -1; 2 ^ 53 - 1; 2 ^ 53; 2 ^ 53 + 1; 2 ^ 53 + 2; 2 ^ 53 + 3; 2 ^ 54 + 2;
     2 ^ 54 + 6; - (2 ^ 53 + 3); 2 ^ 62 + 12345; 2 ^ 63 - 1; - 2 ^ 63; - 2 ^ 63 + 513].
Proof. repeat constructor. Qed.

(** ** Lemmas *)

Section float_lemmas.
Context `{GoPlatform}.

Lemma float64_of_int_exact z : Z.abs z <= 2 ^ 53 -> float64_of_int z = z.
Proof. intros Hz. unfold float64_of_int. by rewrite (proj2 (Z.leb_le _ _) Hz). Qed.

(** Below 2^53 the detour through float64 is exact. *)
Lemma go_float_min_exact a b :
  Z.abs a <= 2 ^ 53 -> Z.abs b <= 2 ^ 53 -> go_float_min a b = Z.min a b.
Proof.
  intros Ha Hb. unfold go_float_min, int_of_float64.
  rewrite !float64_of_int_exact by done.
  rewrite decide_True; [done |].
  unfold in_int64, min_int64, max_int64. lia.
Qed.
End float_lemmas.

(** Above it, the result can exceed both arguments. *)
Example go_float_min_exceeds :
  @go_float_min amd64 (2 ^ 53 + 3) (2 ^ 53 + 3) = 2 ^ 53 + 4.
Proof. reflexivity. Qed.

#[export] Hint Rewrite @go_float_min_exact using lia : raft.
