(* ===== verification/Metrics.v ===== *)
(** * Metrics: performance counters (src/raft/metrics.go)

    The counters are int64 atomics; a call is one atomic update here, and
    [Counters] justifies that for concurrent calls. The
    percentile computation sorts a copy of the samples in place, modelled
    statement by statement on the array. *)
From S2P Require Import Prelude GoFloat.
From Stdlib Require Import Floats.SpecFloat.
From Stdlib Require Import Sorting.Sorted.
From stdpp Require Import sorting.
Open Scope Z_scope.

(** ** Data *)

(** [time.Hour] in nanoseconds, the sentinel of the minimum. *)
Definition hour : Z := 3600000000000.

(** The capacity of the sample buffer. *)
Definition histCapacity : Z := 8192.

Lemma histCapacity_pos : 0 < histCapacity.
Proof. done. Qed.

#[global] Opaque histCapacity.

Record Metrics := mkMetrics {
  applyCount : Z;
  applyTotalNs : Z;
  applyMinNs : Z;
  applyMaxNs : Z;
  electionCount : Z;
  lastElectionNs : Z;
  leaderChanges : Z;
  leaderSince : Z;
  committedEntries : Z;
  histData : list Z;
}.

Definition Metrics_eta (m : Metrics) : Metrics :=
  mkMetrics (applyCount m) (applyTotalNs m) (applyMinNs m) (applyMaxNs m) (electionCount m)
    (lastElectionNs m) (leaderChanges m) (leaderSince m) (committedEntries m) (histData m).

#[export] Instance set_applyCount : Setter applyCount := ltac:(setter Metrics_eta applyCount).
#[export] Instance set_applyTotalNs : Setter applyTotalNs := ltac:(setter Metrics_eta applyTotalNs).
#[export] Instance set_applyMinNs : Setter applyMinNs := ltac:(setter Metrics_eta applyMinNs).
#[export] Instance set_applyMaxNs : Setter applyMaxNs := ltac:(setter Metrics_eta applyMaxNs).
#[export] Instance set_electionCount : Setter electionCount := ltac:(setter Metrics_eta electionCount).
#[export] Instance set_lastElectionNs : Setter lastElectionNs := ltac:(setter Metrics_eta lastElectionNs).
#[export] Instance set_leaderChanges : Setter leaderChanges := ltac:(setter Metrics_eta leaderChanges).
#[export] Instance set_leaderSince : Setter leaderSince := ltac:(setter Metrics_eta leaderSince).
#[export] Instance set_committedEntries : Setter committedEntries := ltac:(setter Metrics_eta committedEntries).
#[export] Instance set_histData : Setter histData := ltac:(setter Metrics_eta histData).

Definition newMetrics : Metrics := mkMetrics 0 0 hour 0 0 0 0 0 0 [].

(** ** Recording *)

Definition recordApply (d : Z) (m : Metrics) : Metrics :=
  let m := m <| applyCount := applyCount m +! 1 |> <| applyTotalNs := applyTotalNs m +! d |> in
  let m := if applyMinNs m <=? d then m else m <| applyMinNs := d |> in
  let m := if d <=? applyMaxNs m then m else m <| applyMaxNs := d |> in
  if Z.of_nat (length (histData m)) <? histCapacity then m <| histData := histData m ++ [d] |> else m.

Definition recordElection (d : Z) (m : Metrics) : Metrics :=
  m <| electionCount := electionCount m +! 1 |> <| lastElectionNs := d |>
    <| leaderChanges := leaderChanges m +! 1 |>.

(** [now] is [time.Now().UnixNano()]. *)
Definition recordLeaderStart (now : Z) (m : Metrics) : Metrics := m <| leaderSince := now |>.
Definition recordLeaderStop (m : Metrics) : Metrics := m <| leaderSince := 0 |>.
Definition recordCommit (m : Metrics) : Metrics :=
  m <| committedEntries := committedEntries m +! 1 |>.

(** ** Reading *)

Definition ApplyCount (m : Metrics) : Z := applyCount m.
Definition ElectionCount (m : Metrics) : Z := electionCount m.
Definition LastElectionDuration (m : Metrics) : Z := lastElectionNs m.
Definition LeaderChanges (m : Metrics) : Z := leaderChanges m.
Definition CommittedEntries (m : Metrics) : Z := committedEntries m.

Definition ApplyAvg (m : Metrics) : Z :=
  if applyCount m =? 0 then 0 else div64 (applyTotalNs m) (applyCount m).

Definition ApplyMin (m : Metrics) : Z := if applyMinNs m =? hour then 0 else applyMinNs m.

Definition ApplyMax (m : Metrics) : Z := applyMaxNs m.

(** The inner loop of [sortDurations] with [j = j1 - 1], and the write of the
    key after it. *)
Fixpoint siftDown (key : Z) (j1 : nat) (d : list Z) : option (list Z) :=
  match j1 with
  | O => array_set d 0 key
  | S j =>
      x ← d !! j;
      if key <? x then d ← array_set d (S j) x; siftDown key j d
      else array_set d (S j) key
  end.

Fixpoint sortFrom (i todo : nat) (d : list Z) : option (list Z) :=
  match todo with
  | O => Some d
  | S todo' => key ← d !! i; d ← siftDown key i d; sortFrom (S i) todo' d
  end.

Definition sortDurations (d : list Z) : option (list Z) := sortFrom 1 (length d - 1) d.

(** [sorted[idx]] panics on a negative index. *)
Definition Percentile `{GoPlatform} (p : spec_float) (m : Metrics) : option Z :=
  let n := Z.of_nat (length (histData m)) in
  if n =? 0 then Some 0
  else
    sorted ← sortDurations (histData m);
    let idx := trunc_float64 (float_mul (float_div p (float64 100)) (float64 n)) in
    let idx := if n <=? idx then n - 1 else idx in
    if 0 <=? idx then sorted !! Z.to_nat idx else None.

(** ** Lemmas: the sort *)

(** One insertion: the hole at the end of [p] is filled, in order. *)
Lemma siftDown_spec key p h rest :
  exists q, siftDown key (length p) (p ++ h :: rest) = Some (q ++ rest) /\
    q ≡ₚ key :: p /\ (StronglySorted Z.le p -> StronglySorted Z.le q).
Proof.
  revert h rest. induction p as [|x p IH] using rev_ind; intros h rest.
  { exists [key]. split; [done |]. split; [done |]. intros _. repeat constructor. }
  rewrite length_app, Nat.add_1_r, <- app_assoc. simpl.
  rewrite list_lookup_middle by done. simpl.
  assert (forall v, <[S (length p) := v]> (p ++ x :: h :: rest) = p ++ x :: v :: rest) as Eset.
  { intros v. rewrite insert_app_r_alt by lia. by replace (S _ - _)%nat with 1%nat by lia. }
  destruct (Z.ltb_spec key x) as [Hlt|Hge]; rewrite array_set_in, Eset by (rewrite length_app; simpl; lia).
  - simpl. destruct (IH x (x :: rest)) as (q & -> & Hp & Hs).
    exists (q ++ [x]). split; [by rewrite <- app_assoc |].
    split; [by rewrite Hp |]. intros (Hle & Hsp & _)%StronglySorted_app.
    apply StronglySorted_app. split; [| split; [by apply Hs | repeat constructor]].
    intros a b Ha ->%list_elem_of_singleton. rewrite Hp in Ha.
    apply elem_of_cons in Ha as [->|Ha]; [lia |]. apply Hle; [done | by apply list_elem_of_singleton].
  - exists (p ++ [x; key]). split; [by rewrite <- app_assoc |].
    split; [by rewrite (Permutation_app_comm p [x; key]), (Permutation_app_comm p [x]); simpl; apply Permutation_swap |].
    intros Hsp. replace (p ++ [x; key]) with ((p ++ [x]) ++ [key]) by (by rewrite <- app_assoc).
    pose proof Hsp as (Hle & _ & _)%StronglySorted_app.
    apply StronglySorted_app. split; [| split; [done | repeat constructor]].
    intros a b Ha ->%list_elem_of_singleton. apply elem_of_app in Ha as [Ha| ->%list_elem_of_singleton]; [| lia].
    assert (a <= x); [| lia]. apply Hle; [done | by apply list_elem_of_singleton].
Qed.

Lemma sortFrom_spec todo p rest :
  length rest = todo -> StronglySorted Z.le p ->
  exists q, sortFrom (length p) todo (p ++ rest) = Some q /\
    q ≡ₚ p ++ rest /\ StronglySorted Z.le q.
Proof.
  revert p rest. induction todo as [|todo IH]; intros p [|h rest] Hlen Hs; simpl in *; try lia.
  { exists p. by rewrite app_nil_r. }
  rewrite list_lookup_middle by done. simpl.
  destruct (siftDown_spec h p h rest) as (q & -> & Hp & Hq). simpl.
  assert (S (length p) = length q) as -> by (by rewrite Hp).
  destruct (IH q rest) as (r & -> & Hr & Hsr); [lia | by apply Hq |].
  exists r. split; [done |]. split; [| done]. rewrite Hr, Hp. simpl.
  by rewrite Permutation_middle.
Qed.

Lemma sortDurations_sorts d :
  exists d', sortDurations d = Some d' /\ d' ≡ₚ d /\ StronglySorted Z.le d'.
Proof.
  unfold sortDurations. destruct d as [|x d].
  { exists []. split; [done |]. split; [done | constructor]. }
  simpl. rewrite Nat.sub_0_r.
  apply (sortFrom_spec (length d) [x] d); [done | repeat constructor].
Qed.

(** In a sorted list, at most [k] elements are below the one at position [k],
    and more than [k] do not exceed it. *)
Lemma sorted_rank l k x :
  StronglySorted Z.le l -> l !! k = Some x ->
  (length (filter (fun y => y < x)%Z l) <= k < length (filter (fun y => y <= x)%Z l))%nat.
Proof.
  intros Hs Hk. pose proof (lookup_lt_Some _ _ _ Hk) as Hlt.
  assert (length (take k l) = k) as Ek by (rewrite length_take; lia).
  rewrite <- (take_drop_middle l k x Hk) in Hs.
  rewrite <- (take_drop_middle l k x Hk) at 1 2.
  apply StronglySorted_app in Hs as (Hle & Hs1 & Hs2).
  apply StronglySorted_inv in Hs2 as [_ Hge]. rewrite Forall_forall in Hge.
  rewrite !filter_app, !filter_cons, !length_app.
  rewrite (decide_False (P := x < x)), (decide_True (P := x <= x)) by lia.
  assert (filter (fun y => y < x) (drop (S k) l) = []) as ->.
  { apply filter_none. intros y Hy. specialize (Hge y Hy). lia. }
  assert (filter (fun y => y <= x) (take k l) = take k l) as ->.
  { apply filter_all. intros y Hy. apply Hle; [done | by left]. }
  pose proof (length_filter (fun y => y < x) (take k l)). simpl. lia.
Qed.

(** ** Lemmas: the counters *)

Definition sum (ds : list Z) : Z := foldr Z.add 0 ds.

Definition record_all (ds : list Z) (m : Metrics) : Metrics := foldl (fun m d => recordApply d m) m ds.

Lemma sum_snoc ds d : sum (ds ++ [d]) = sum ds + d.
Proof. unfold sum. induction ds as [|x ds IH]; simpl; lia. Qed.

Lemma sum_nonneg ds : Forall (fun d => 0 <= d) ds -> 0 <= sum ds.
Proof. unfold sum. induction 1; simpl; lia. Qed.

(** What the counters hold after the samples [ds]. *)
Record stats (ds : list Z) (m : Metrics) : Prop := {
  st_count : applyCount m = Z.of_nat (length ds);
  st_total : applyTotalNs m = sum ds;
  st_min : applyMinNs m = foldr Z.min hour ds;
  st_max : applyMaxNs m = foldr Z.max 0 ds;
  st_hist : histData m = take (Z.to_nat histCapacity) ds;
}.

Lemma foldr_snoc_min ds d b : foldr Z.min b (ds ++ [d]) = Z.min (foldr Z.min b ds) d.
Proof. induction ds as [|x ds IH]; simpl; lia. Qed.

Lemma foldr_snoc_max ds d b : foldr Z.max b (ds ++ [d]) = Z.max (foldr Z.max b ds) d.
Proof. induction ds as [|x ds IH]; simpl; lia. Qed.

Lemma take_snoc {A} n (l : list A) x :
  take n (l ++ [x]) = if decide (length l < n)%nat then take n l ++ [x] else take n l.
Proof.
  case_decide as H.
  - rewrite !take_ge by (rewrite ?length_app; simpl; lia). done.
  - apply take_app_le. lia.
Qed.

Lemma recordApply_stats ds d m :
  stats ds m -> in_int64 (sum ds + d) -> Z.of_nat (length ds) < max_int64 ->
  stats (ds ++ [d]) (recordApply d m).
Proof.
  intros [Hc Ht Hn Hx Hh] Hsum Hlen. unfold recordApply.
  set (m1 := m <| applyCount := _ |> <| applyTotalNs := _ |>).
  set (m2 := if applyMinNs m1 <=? d then m1 else _).
  set (m3 := if d <=? applyMaxNs m2 then m2 else _).
  assert (histData m3 = histData m) as E by (unfold m3, m2; repeat case_match; done).
  assert (forall m', applyCount m' = applyCount m3 -> applyTotalNs m' = applyTotalNs m3 ->
            applyMinNs m' = applyMinNs m3 -> applyMaxNs m' = applyMaxNs m3 ->
            histData m' = take (Z.to_nat histCapacity) (ds ++ [d]) -> stats (ds ++ [d]) m') as Hstats.
  { intros m' E1 E2 E3 E4 E5. split; rewrite ?E1, ?E2, ?E3, ?E4, ?E5.
    - assert (applyCount m3 = applyCount m +! 1) as -> by (unfold m3, m2; repeat case_match; done).
      rewrite Hc, length_app, wrap64_succ by (done || apply in_int64_nat; lia). simpl. lia.
    - assert (applyTotalNs m3 = applyTotalNs m +! d) as -> by (unfold m3, m2; repeat case_match; done).
      by rewrite Ht, sum_snoc, wrap64_id.
    - assert (applyMinNs m3 = Z.min (applyMinNs m) d) as ->; [| by rewrite Hn, foldr_snoc_min].
      transitivity (applyMinNs m2); [unfold m3; by case_match |]. unfold m2.
      change (applyMinNs m1) with (applyMinNs m).
      destruct (Z.leb_spec (applyMinNs m) d); fields; [change (applyMinNs m1) with (applyMinNs m) |]; lia.
    - assert (applyMaxNs m3 = Z.max (applyMaxNs m) d) as ->; [| by rewrite Hx, foldr_snoc_max].
      unfold m3. assert (applyMaxNs m2 = applyMaxNs m) as E6 by (unfold m2; by case_match).
      rewrite E6. destruct (Z.leb_spec d (applyMaxNs m)); fields; lia.
    - done. }
  rewrite E, Hh, length_take.
  rewrite take_snoc in Hstats.
  pose proof histCapacity_pos.
  destruct (Z.ltb_spec (Z.of_nat (Z.to_nat histCapacity `min` length ds)) histCapacity); apply Hstats; try done; fields.
  - rewrite decide_True by lia. done.
  - rewrite decide_False by lia. by rewrite E.
Qed.

Lemma record_all_ok ds :
  Forall (fun d => 0 <= d) ds -> sum ds <= max_int64 -> Z.of_nat (length ds) < max_int64 ->
  stats ds (record_all ds newMetrics).
Proof.
  induction ds as [|d ds IH] using rev_ind; intros Hd Hsum Hlen; [by split |].
  apply Forall_app in Hd as [Hds Hd]. rewrite Forall_singleton in Hd.
  rewrite sum_snoc in Hsum. rewrite length_app in Hlen. simpl in Hlen.
  pose proof (sum_nonneg ds Hds). unfold record_all. rewrite foldl_app. simpl.
  apply recordApply_stats; [apply IH; [done | lia | lia] | | lia].
  unfold in_int64, min_int64. lia.
Qed.

Lemma foldr_min_in ds b :
  (forall d, d ∈ ds -> d < b) -> ds <> [] -> foldr Z.min b ds ∈ ds /\ forall d, d ∈ ds -> foldr Z.min b ds <= d.
Proof.
  induction ds as [|x ds IH]; intros Hb Hne; [done |]. simpl.
  destruct ds as [|y ds].
  { specialize (Hb x ltac:(left)). simpl. rewrite Z.min_l by lia. split; [left |].
    intros d Hd. apply list_elem_of_singleton in Hd. lia. }
  destruct IH as [Hin Hle]; [intros; apply Hb; by right | done |].
  split.
  - destruct (Z.min_spec x (foldr Z.min b (y :: ds))) as [[_ ->]|[_ ->]]; [left | by right].
  - intros d [->|Hd]%elem_of_cons; [lia | specialize (Hle d Hd); lia].
Qed.

Lemma foldr_max_ge ds b d : d ∈ ds -> d <= foldr Z.max b ds.
Proof.
  induction ds as [|x ds IH]; intros Hd; [by apply not_elem_of_nil in Hd |].
  apply elem_of_cons in Hd as [->|Hd]; simpl; [lia | specialize (IH Hd); lia].
Qed.

(** ** Properties *)

(** The Apply counters: after any sequence of nonnegative latencies below
    an hour whose sum fits an int64, the getters report their number, minimum,
    maximum and truncated average, and the sample buffer the first 8192. *)
Theorem record_all_stats ds :
  Forall (fun d => 0 <= d < hour) ds -> sum ds <= max_int64 -> Z.of_nat (length ds) < max_int64 ->
  let m := record_all ds newMetrics in
  ApplyCount m = Z.of_nat (length ds) /\ histData m = take (Z.to_nat histCapacity) ds /\
  ApplyMax m = foldr Z.max 0 ds /\
  (ds <> [] -> ApplyAvg m = sum ds / Z.of_nat (length ds) /\ ApplyMin m ∈ ds /\
               forall d, d ∈ ds -> ApplyMin m <= d <= ApplyMax m) /\
  (ds = [] -> ApplyAvg m = 0 /\ ApplyMin m = 0).
Proof.
  intros Hd Hsum Hlen m.
  assert (Forall (fun d => 0 <= d) ds) as Hpos by (eapply Forall_impl; [exact Hd | intros; simpl in *; lia]).
  destruct (record_all_ok ds Hpos Hsum Hlen) as [Hc Ht Hn Hx Hh]. fold m in Hc, Ht, Hn, Hx, Hh.
  pose proof (sum_nonneg ds Hpos). do 3 (split; [done |]). split; [| by intros ->].
  intros Hne. rewrite Forall_forall in Hd.
  destruct (foldr_min_in ds hour) as [Hin Hle]; [intros d Hdd; specialize (Hd d Hdd); lia | done |].
  assert (ApplyMin m = foldr Z.min hour ds) as Emin.
  { unfold ApplyMin. rewrite Hn. specialize (Hd _ Hin). by rewrite (proj2 (Z.eqb_neq _ _)) by lia. }
  assert (0 < Z.of_nat (length ds)) by (destruct ds; [done | simpl; lia]).
  split.
  { unfold ApplyAvg. rewrite Hc, Ht, (proj2 (Z.eqb_neq _ _)) by lia. unfold div64.
    rewrite Z.quot_div_nonneg by lia. apply wrap64_id.
    assert (0 <= sum ds / Z.of_nat (length ds) <= sum ds).
    { split; [apply Z.div_pos; lia | apply Z.div_le_upper_bound; nia]. }
    unfold in_int64, min_int64. lia. }
  rewrite Emin. split; [done |]. intros d Hdd. split; [by apply Hle |].
  unfold ApplyMax. rewrite Hx. by apply foldr_max_ge.
Qed.

(** [sortDurations] is a sort: the in-place insertion sort stays within the
    slice and computes what stdpp's merge sort does. *)
Theorem sortDurations_reference d : sortDurations d = Some (merge_sort Z.le d).
Proof.
  destruct (sortDurations_sorts d) as (d' & -> & Hp & Hs). f_equal.
  apply (StronglySorted_unique Z.le); [done | apply StronglySorted_merge_sort; apply _ |].
  by rewrite Hp, merge_sort_Permutation.
Qed.

(** [Percentile] returns an order statistic of the samples: with the index
    its float computation gives, clamped to the last sample, at most that many
    samples are below the result and more do not exceed it. A negative index
    panics; without samples the result is 0. *)
Theorem Percentile_rank `{GoPlatform} p m :
  let n := length (histData m) in
  let idx := trunc_float64 (float_mul (float_div p (float64 100)) (float64 (Z.of_nat n))) in
  if decide (n = 0)%nat then Percentile p m = Some 0
  else if decide (idx < 0) then Percentile p m = None
  else exists x, Percentile p m = Some x /\ x ∈ histData m /\
    let k := Z.min idx (Z.of_nat n - 1) in
    Z.of_nat (length (filter (fun y => y < x) (histData m))) <= k <
      Z.of_nat (length (filter (fun y => y <= x) (histData m))).
Proof.
  cbv zeta. unfold Percentile. set (n := length (histData m)). set (idx := trunc_float64 _).
  case_decide as Hn; [by rewrite Hn |].
  rewrite (proj2 (Z.eqb_neq _ _)) by lia.
  destruct (sortDurations_sorts (histData m)) as (d' & -> & Hp & Hs). simpl.
  assert ((if Z.of_nat n <=? idx then Z.of_nat n - 1 else idx) = Z.min idx (Z.of_nat n - 1)) as ->.
  { destruct (Z.leb_spec (Z.of_nat n) idx); lia. }
  case_decide as Hidx.
  { destruct (Z.leb_spec 0 (Z.min idx (Z.of_nat n - 1))); [lia | done]. }
  destruct (Z.leb_spec 0 (Z.min idx (Z.of_nat n - 1))); [| lia].
  set (k := Z.min idx (Z.of_nat n - 1)) in *.
  destruct (lookup_lt_is_Some_2 d' (Z.to_nat k)) as [x Hx]; [rewrite Hp; unfold k; lia |].
  exists x. split; [done |]. split; [rewrite <- Hp; by eapply list_elem_of_lookup_2 |].
  pose proof (sorted_rank d' _ x Hs Hx) as Hr. rewrite Hp in Hr. lia.
Qed.

(** ** Instances *)

Lemma record_all_stats_witness :
  ApplyCount (record_all [30; 10; 21] newMetrics) = 3 /\ ApplyAvg (record_all [30; 10; 21] newMetrics) = 20.
Proof.
  destruct (record_all_stats [30; 10; 21]) as (Hc & _ & _ & Havg & _).
  - repeat constructor; unfold hour; lia.
  - vm_compute. discriminate.
  - vm_compute. reflexivity.
  - split; [exact Hc |]. exact (proj1 (Havg ltac:(discriminate))).
Defined.

(** The median of five samples, and the largest; -1 panics. *)
Example percentiles :
  let m := record_all [50; 20; 40; 10; 30] newMetrics in
  @Percentile amd64 (float64 50) m = Some 30 /\ @Percentile amd64 (float64 100) m = Some 50 /\
  @Percentile amd64 (float64 (-100)) m = None.
Proof. vm_compute. repeat split. Qed.
