(* ===== verification/Counters.v ===== *)
(** * Counters: concurrent calls of recordApply (src/raft/metrics.go, 41-67)

    [Metrics] treats [recordApply] as one update. The code performs a sequence
    of atomic operations, with compare-and-swap loops for the minimum and the
    maximum and a mutex for the samples, and [Apply] may run in many goroutines
    at once. Here each atomic operation is a step, and any interleaving of
    calls has the effect of the calls one after the other. *)
From S2P Require Import Prelude Metrics.

(** ** The steps *)

(** What a call does next; the loops remember the value they have loaded. *)
Inductive pc :=
| AddCount | AddTotal
| LoadMin | SwapMin (cur : Z)
| LoadMax | SwapMax (cur : Z)
| Sample | Finished.

Definition CompareAndSwapMin (cur new : Z) (m : Metrics) : Metrics * bool :=
  if applyMinNs m =? cur then (m <| applyMinNs := new |>, true) else (m, false).

Definition CompareAndSwapMax (cur new : Z) (m : Metrics) : Metrics * bool :=
  if applyMaxNs m =? cur then (m <| applyMaxNs := new |>, true) else (m, false).

(** One atomic operation of the call with duration [ns]. *)
Definition recordStep (ns : Z) (p : pc) (m : Metrics) : Metrics * pc :=
  match p with
  | AddCount => (m <| applyCount := applyCount m +! 1 |>, AddTotal)
  | AddTotal => (m <| applyTotalNs := applyTotalNs m +! ns |>, LoadMin)
  | LoadMin => (m, if applyMinNs m <=? ns then LoadMax else SwapMin (applyMinNs m))
  | SwapMin cur => let '(m, ok) := CompareAndSwapMin cur ns m in (m, if ok : bool then LoadMax else LoadMin)
  | LoadMax => (m, if ns <=? applyMaxNs m then Sample else SwapMax (applyMaxNs m))
  | SwapMax cur => let '(m, ok) := CompareAndSwapMax cur ns m in (m, if ok : bool then Sample else LoadMax)
  | Sample =>
      (if Z.of_nat (length (histData m)) <? histCapacity then m <| histData := histData m ++ [ns] |> else m, Finished)
  | Finished => (m, Finished)
  end.

(** The calls in progress. *)
Notation calls := (list (Z * pc)).

Inductive mstep : Metrics * calls -> Metrics * calls -> Prop :=
| mstep_call m m' ts i ns p p' :
    ts !! i = Some (ns, p) -> p <> Finished -> recordStep ns p m = (m', p') ->
    mstep (m, ts) (m', <[i := (ns, p')]> ts).

Definition all_finished (ts : calls) : Prop := Forall (fun t => t.2 = Finished) ts.

Definition begin (ds : list Z) : calls := (fun d => (d, AddCount)) <$> ds.

(** ** How far the calls have come *)

Definition rank (p : pc) : nat :=
  match p with
  | AddCount => 0 | AddTotal => 1 | LoadMin | SwapMin _ => 2 | LoadMax | SwapMax _ => 3
  | Sample => 4 | Finished => 5
  end.

(** The durations of the calls that have completed stage [k]. *)
Definition past (k : nat) (ts : calls) : list Z :=
  omap (fun t => if (k <? rank t.2)%nat then Some t.1 else None) ts.

Lemma past_begin k ds : past k (begin ds) = [].
Proof. induction ds as [|d ds IH]; [done | exact IH]. Qed.

Lemma past_all k ds ts : all_finished ts -> (k < 5)%nat -> ts.*1 = ds -> past k ts = ds.
Proof.
  intros Hf Hk <-. induction Hf as [|[d p] ts Hp _ IH]; [done |]. simpl in *. subst p. simpl.
  rewrite (proj2 (Nat.ltb_lt k 5) Hk). by rewrite IH.
Qed.

(** A step moves one call. *)
Lemma past_step k ts i ns p p' :
  ts !! i = Some (ns, p) -> (rank p <= rank p')%nat ->
  past k (<[i := (ns, p')]> ts) ≡ₚ
    (if ((rank p <=? k) && (k <? rank p'))%nat then ns :: past k ts else past k ts).
Proof.
  intros Hi Hr. rewrite (insert_take_drop ts i) by (by eapply lookup_lt_Some).
  assert (past k ts = past k (take i ts ++ (ns, p) :: drop (S i) ts)) as -> by (by rewrite take_drop_middle).
  unfold past. rewrite !omap_app. simpl.
  destruct (Nat.leb_spec (rank p) k), (Nat.ltb_spec k (rank p')), (Nat.ltb_spec k (rank p)); try lia; simpl;
    try reflexivity; by rewrite <- Permutation_middle.
Qed.

(** ** The effect of complete calls *)

(** The counters after calls with these durations; the samples keep the order
    in which they were taken. *)
Definition tallied (m0 : Metrics) (c t mn mx h : list Z) (m : Metrics) : Prop :=
  applyCount m = wrap64 (applyCount m0 + Z.of_nat (length c)) /\
  applyTotalNs m = wrap64 (applyTotalNs m0 + sum t) /\
  applyMinNs m = foldr Z.min (applyMinNs m0) mn /\
  applyMaxNs m = foldr Z.max (applyMaxNs m0) mx /\
  histData m = take (Z.to_nat histCapacity) (histData m0 ++ h) /\
  m = m <| electionCount := electionCount m0 |> <| lastElectionNs := lastElectionNs m0 |>
        <| leaderChanges := leaderChanges m0 |> <| leaderSince := leaderSince m0 |>
        <| committedEntries := committedEntries m0 |>.

Lemma foldr_perm (f : Z -> Z -> Z) a l l' :
  (forall x y z, f x (f y z) = f y (f x z)) -> l ≡ₚ l' -> foldr f a l = foldr f a l'.
Proof. intros Hf Hp. by apply (foldr_permutation_proper (=) f a Hf). Qed.

(** Only the multisets of the first four lists matter. *)
Lemma tallied_perm m0 c c' t t' mn mn' mx mx' h m :
  c ≡ₚ c' -> t ≡ₚ t' -> mn ≡ₚ mn' -> mx ≡ₚ mx' -> tallied m0 c t mn mx h m -> tallied m0 c' t' mn' mx' h m.
Proof.
  intros Hc Ht Hmn Hmx (E1 & E2 & E3 & E4 & E5 & E6). split; [by rewrite E1, Hc |].
  split; [rewrite E2; unfold sum; by rewrite (foldr_perm Z.add 0 _ _ ltac:(lia) Ht) |].
  split; [rewrite E3; apply foldr_perm; [lia | done] |]. split; [rewrite E4; apply foldr_perm; [lia | done] |]. done.
Qed.

Lemma wrap64_add a b : wrap64 a +! b = wrap64 (a + b).
Proof.
  unfold wrap64. f_equal.
  replace ((a + 2 ^ 63) mod 2 ^ 64 - 2 ^ 63 + b + 2 ^ 63) with ((a + 2 ^ 63) mod 2 ^ 64 + b) by lia.
  rewrite Zplus_mod_idemp_l. f_equal. lia.
Qed.

Lemma tallied_count m0 c t mn mx h m d :
  tallied m0 c t mn mx h m -> tallied m0 (d :: c) t mn mx h (m <| applyCount := applyCount m +! 1 |>).
Proof.
  intros (E1 & E2 & E3 & E4 & E5 & E6). split; [fields; rewrite E1, wrap64_add; f_equal; simpl; lia |].
  do 4 (split; [done |]). rewrite E6. by destruct m.
Qed.

Lemma tallied_total m0 c t mn mx h m d :
  tallied m0 c t mn mx h m -> tallied m0 c (d :: t) mn mx h (m <| applyTotalNs := applyTotalNs m +! d |>).
Proof.
  intros (E1 & E2 & E3 & E4 & E5 & E6). split; [done |].
  split; [fields; rewrite E2, wrap64_add; f_equal; unfold sum; simpl; lia |].
  do 3 (split; [done |]). rewrite E6. by destruct m.
Qed.

Lemma tallied_min m0 c t mn mx h m d :
  tallied m0 c t mn mx h m ->
  tallied m0 c t (d :: mn) mx h (if applyMinNs m <=? d then m else m <| applyMinNs := d |>).
Proof.
  intros (E1 & E2 & E3 & E4 & E5 & E6). destruct (Z.leb_spec (applyMinNs m) d);
    (do 2 (split; [done |])); (split; [fields; simpl; lia |]); do 2 (split; [done |]); [done |].
  rewrite E6. by destruct m.
Qed.

Lemma tallied_max m0 c t mn mx h m d :
  tallied m0 c t mn mx h m ->
  tallied m0 c t mn (d :: mx) h (if d <=? applyMaxNs m then m else m <| applyMaxNs := d |>).
Proof.
  intros (E1 & E2 & E3 & E4 & E5 & E6). destruct (Z.leb_spec d (applyMaxNs m));
    (do 3 (split; [done |])); (split; [fields; simpl; lia |]); (split; [done |]); [done |].
  rewrite E6. by destruct m.
Qed.

Lemma tallied_sample m0 c t mn mx h m d :
  tallied m0 c t mn mx h m ->
  tallied m0 c t mn mx (h ++ [d])
    (if Z.of_nat (length (histData m)) <? histCapacity then m <| histData := histData m ++ [d] |> else m).
Proof.
  intros (E1 & E2 & E3 & E4 & E5 & E6). pose proof histCapacity_pos.
  rewrite E5, length_take. set (l := histData m0 ++ h) in *.
  assert (take (Z.to_nat histCapacity) (histData m0 ++ h ++ [d]) =
    if decide (length l < Z.to_nat histCapacity)%nat then take (Z.to_nat histCapacity) l ++ [d]
    else take (Z.to_nat histCapacity) l) as Et by (rewrite app_assoc; apply take_snoc).
  destruct (Z.ltb_spec (Z.of_nat (Z.to_nat histCapacity `min` length l)) histCapacity).
  - rewrite decide_True in Et by lia. do 4 (split; [done |]). split; [by rewrite Et |]. rewrite E6. by destruct m.
  - rewrite decide_False in Et by lia. do 4 (split; [done |]). split; [by rewrite Et |]. done.
Qed.

(** The tallies determine the counters. *)
Lemma tallied_unique m0 c t mn mx h m m' :
  tallied m0 c t mn mx h m -> tallied m0 c t mn mx h m' -> m = m'.
Proof.
  intros (E1 & E2 & E3 & E4 & E5 & E6) (E1' & E2' & E3' & E4' & E5' & E6').
  rewrite <- E1' in E1. rewrite <- E2' in E2. rewrite <- E3' in E3. rewrite <- E4' in E4. rewrite <- E5' in E5.
  assert (forall x, x = x <| electionCount := electionCount m0 |> <| lastElectionNs := lastElectionNs m0 |>
      <| leaderChanges := leaderChanges m0 |> <| leaderSince := leaderSince m0 |>
      <| committedEntries := committedEntries m0 |> ->
    electionCount x = electionCount m0 /\ lastElectionNs x = lastElectionNs m0 /\
    leaderChanges x = leaderChanges m0 /\ leaderSince x = leaderSince m0 /\
    committedEntries x = committedEntries m0) as Hf by (intros x ->; done).
  destruct (Hf m E6) as (F1 & F2 & F3 & F4 & F5), (Hf m' E6') as (F1' & F2' & F3' & F4' & F5').
  destruct m, m'. simpl in *. congruence.
Qed.

(** Counters to start from: in range, with the samples within the buffer. *)
Definition proper (m : Metrics) : Prop :=
  in_int64 (applyCount m) /\ in_int64 (applyTotalNs m) /\ Z.of_nat (length (histData m)) <= histCapacity.

Lemma tallied_start m0 : proper m0 -> tallied m0 [] [] [] [] [] m0.
Proof.
  intros (Hc & Ht & Hh). split; [rewrite wrap64_id; simpl; [lia | by rewrite Z.add_0_r] |].
  split; [rewrite wrap64_id; unfold sum; simpl; [lia | by rewrite Z.add_0_r] |].
  do 2 (split; [done |]). split; [rewrite app_nil_r, take_ge by lia; done |]. by destruct m0.
Qed.

(** One call after the other. *)
Lemma record_all_tallied m0 ds : proper m0 -> tallied m0 ds ds ds ds ds (record_all ds m0).
Proof.
  intros Hm. induction ds as [|d ds IH] using rev_ind; [by apply tallied_start |].
  unfold record_all. rewrite foldl_app. fold (record_all ds m0). simpl.
  assert (d :: ds ≡ₚ ds ++ [d]) as Hp by apply Permutation_cons_append.
  eapply tallied_perm; [exact Hp | exact Hp | exact Hp | exact Hp |].
  apply (tallied_count _ _ _ _ _ _ _ d) in IH. apply (tallied_total _ _ _ _ _ _ _ d) in IH.
  apply (tallied_min _ _ _ _ _ _ _ d) in IH. apply (tallied_max _ _ _ _ _ _ _ d) in IH.
  apply (tallied_sample _ _ _ _ _ _ _ d) in IH. exact IH.
Qed.

(** ** The invariant of the interleaving *)

(** A call about to swap has seen a worse value. *)
Definition sound (t : Z * pc) : Prop :=
  match t.2 with SwapMin cur => t.1 < cur | SwapMax cur => cur < t.1 | _ => True end.

Record counting (m0 : Metrics) (order : list Z) (m : Metrics) (ts : calls) : Prop := {
  cn_tallied : tallied m0 (past 0 ts) (past 1 ts) (past 2 ts) (past 3 ts) order m;
  cn_order : order ≡ₚ past 4 ts;
  cn_sound : Forall sound ts;
}.

Lemma counting_begin m0 ds : proper m0 -> counting m0 [] m0 (begin ds).
Proof.
  intros Hm. split; rewrite ?past_begin; [by apply tallied_start | done |].
  unfold begin. apply Forall_fmap, Forall_true. by intros.
Qed.

Lemma counting_step m0 order m ts m' ts' :
  counting m0 order m ts -> mstep (m, ts) (m', ts') -> exists order', counting m0 order' m' ts'.
Proof.
  intros [Ht Ho Hs] Hstep. inversion Hstep as [? ? ? i ns p p' Hi Hp E]; subst.
  assert (sound (ns, p)) as Hsp by (by eapply Forall_lookup_1).
  assert ((rank p <= rank p')%nat -> sound (ns, p') ->
    forall order', tallied m0 (if ((rank p <=? 0) && (0 <? rank p'))%nat then ns :: past 0 ts else past 0 ts)
      (if ((rank p <=? 1) && (1 <? rank p'))%nat then ns :: past 1 ts else past 1 ts)
      (if ((rank p <=? 2) && (2 <? rank p'))%nat then ns :: past 2 ts else past 2 ts)
      (if ((rank p <=? 3) && (3 <? rank p'))%nat then ns :: past 3 ts else past 3 ts) order' m' ->
    order' ≡ₚ (if ((rank p <=? 4) && (4 <? rank p'))%nat then ns :: past 4 ts else past 4 ts) ->
    exists order', counting m0 order' m' (<[i := (ns, p')]> ts)) as Hnext.
  { intros Hr Hsd order' Ht' Ho'. exists order'. split; [| | by apply Forall_insert].
    - eapply tallied_perm; [..| exact Ht']; symmetry; by apply (past_step _ ts i ns p p').
    - rewrite Ho'. symmetry. by apply (past_step _ ts i ns p p'). }
  destruct p; simpl in E.
  - injection E as <- <-. apply (Hnext ltac:(simpl; lia) I order); [by apply tallied_count | done].
  - injection E as <- <-. apply (Hnext ltac:(simpl; lia) I order); [by apply tallied_total | done].
  - injection E as <- <-. pose proof (tallied_min _ _ _ _ _ _ _ ns Ht) as Hmin.
    destruct (Z.leb_spec (applyMinNs m) ns).
    + apply (Hnext ltac:(simpl; lia) I order); done.
    + apply (Hnext ltac:(simpl; lia) ltac:(done) order); done.
  - unfold CompareAndSwapMin in E. unfold sound in Hsp. simpl in Hsp. destruct (Z.eqb_spec (applyMinNs m) cur); injection E as <- <-.
    + pose proof (tallied_min _ _ _ _ _ _ _ ns Ht) as Hmin. rewrite (proj2 (Z.leb_gt _ _)) in Hmin by lia.
      apply (Hnext ltac:(simpl; lia) I order); done.
    + apply (Hnext ltac:(simpl; lia) I order); done.
  - injection E as <- <-. pose proof (tallied_max _ _ _ _ _ _ _ ns Ht) as Hmax.
    destruct (Z.leb_spec ns (applyMaxNs m)).
    + apply (Hnext ltac:(simpl; lia) I order); done.
    + apply (Hnext ltac:(simpl; lia) ltac:(done) order); done.
  - unfold CompareAndSwapMax in E. unfold sound in Hsp. simpl in Hsp. destruct (Z.eqb_spec (applyMaxNs m) cur); injection E as <- <-.
    + pose proof (tallied_max _ _ _ _ _ _ _ ns Ht) as Hmax. rewrite (proj2 (Z.leb_gt _ _)) in Hmax by lia.
      apply (Hnext ltac:(simpl; lia) I order); done.
    + apply (Hnext ltac:(simpl; lia) I order); done.
  - injection E as <- <-. apply (Hnext ltac:(simpl; lia) I (order ++ [ns])); [by apply tallied_sample |].
    simpl. by rewrite <- Permutation_cons_append, Ho.
  - done.
Qed.

Lemma mstep_durations c c' : mstep c c' -> c'.2.*1 = c.2.*1.
Proof.
  intros [m m' ts i ns p p' Hi _ _]. simpl. rewrite list_fmap_insert. simpl.
  apply list_insert_id. by rewrite list_lookup_fmap, Hi.
Qed.

Lemma msteps_counting m0 order c c' :
  counting m0 order c.1 c.2 -> rtc mstep c c' ->
  (exists order', counting m0 order' c'.1 c'.2) /\ c'.2.*1 = c.2.*1.
Proof.
  intros Hc Hr. revert order Hc. induction Hr as [c|c c1 c2 Hs _ IH]; intros order Hc; [by split; [exists order |] |].
  destruct c as [m ts], c1 as [m1 ts1]. destruct (counting_step _ _ _ _ _ _ Hc Hs) as (order1 & Hc1).
  destruct (IH order1 Hc1) as [Hex Hd]. split; [done |]. rewrite Hd. exact (mstep_durations _ _ Hs).
Qed.

(** ** The calls can finish *)

(** Call [i] runs to its end while the others rest. *)
Definition finishes (m : Metrics) (ts : calls) (i : nat) (ns : Z) : Prop :=
  exists m', rtc mstep (m, ts) (m', <[i := (ns, Finished)]> ts).

Lemma finishes_step m ts i ns p :
  (i < length ts)%nat -> p <> Finished ->
  finishes (recordStep ns p m).1 (<[i := (ns, (recordStep ns p m).2)]> ts) i ns ->
  finishes m (<[i := (ns, p)]> ts) i ns.
Proof.
  intros Hi Hp (m' & Hr). rewrite list_insert_insert_eq in Hr. exists m'. rewrite list_insert_insert_eq.
  eapply rtc_l; [| exact Hr]. rewrite <- (list_insert_insert_eq ts i (ns, (recordStep ns p m).2) (ns, p)).
  econstructor; [by apply list_lookup_insert_eq | done | apply surjective_pairing].
Qed.

Lemma call_finishes m ts i ns p : (i < length ts)%nat -> finishes m (<[i := (ns, p)]> ts) i ns.
Proof.
  intros Hi.
  assert (forall m, finishes m (<[i := (ns, Finished)]> ts) i ns) as F0.
  { intros m1. exists m1. by rewrite list_insert_insert_eq. }
  assert (forall m, finishes m (<[i := (ns, Sample)]> ts) i ns) as F1.
  { intros m1. apply finishes_step; [done | done |]. simpl. apply F0. }
  assert (forall m, finishes m (<[i := (ns, LoadMax)]> ts) i ns) as F2.
  { intros m1. apply finishes_step; [done | done |]. simpl.
    case_match; [apply F1 |]. apply finishes_step; [done | done |]. simpl. unfold CompareAndSwapMax. rewrite Z.eqb_refl. apply F1. }
  assert (forall m cur, finishes m (<[i := (ns, SwapMax cur)]> ts) i ns) as F3.
  { intros m1 cur. apply finishes_step; [done | done |]. simpl.
    unfold CompareAndSwapMax. destruct (applyMaxNs m1 =? cur); [apply F1 | apply F2]. }
  assert (forall m, finishes m (<[i := (ns, LoadMin)]> ts) i ns) as F4.
  { intros m1. apply finishes_step; [done | done |]. simpl.
    case_match; [apply F2 |]. apply finishes_step; [done | done |]. simpl. unfold CompareAndSwapMin. rewrite Z.eqb_refl. apply F2. }
  assert (forall m cur, finishes m (<[i := (ns, SwapMin cur)]> ts) i ns) as F5.
  { intros m1 cur. apply finishes_step; [done | done |]. simpl.
    unfold CompareAndSwapMin. destruct (applyMinNs m1 =? cur); [apply F2 | apply F4]. }
  assert (forall m, finishes m (<[i := (ns, AddTotal)]> ts) i ns) as F6.
  { intros m1. apply finishes_step; [done | done |]. simpl. apply F4. }
  destruct p; auto. apply finishes_step; [done | done |]. simpl. apply F6.
Qed.

Lemma all_finish k m ts :
  (k <= length ts)%nat -> exists m' ts', rtc mstep (m, ts) (m', ts') /\ length ts' = length ts /\
    Forall (fun t => t.2 = Finished) (take k ts').
Proof.
  induction k as [|k IH]; intros Hk; [by exists m, ts |].
  destruct IH as (m1 & ts1 & Hr & Hlen & Hf); [lia |].
  destruct (lookup_lt_is_Some_2 ts1 k) as [[ns p] Hi]; [lia |].
  destruct (call_finishes m1 ts1 k ns p) as (m2 & Hr2); [lia |].
  rewrite list_insert_id in Hr2 by done.
  exists m2, (<[k := (ns, Finished)]> ts1). split; [by etrans |]. split; [by rewrite length_insert |].
  rewrite (take_S_r _ _ (ns, Finished)) by (apply list_lookup_insert_eq; lia).
  apply Forall_app. split; [| by constructor]. by rewrite take_insert_ge.
Qed.

(** ** Linearizability *)

(** C16. Concurrent calls of [recordApply] behave as calls one after the other.
    Whatever way the atomic operations of any number of calls interleave: the
    calls can always be run to their end, no call waits for another; and when
    all have ended, the metrics are those of the same calls made in some
    sequence. No update of the count, the total, the minimum, the maximum or
    the samples is lost. *)
Theorem recordApply_linearizable m0 ds m ts :
  proper m0 -> rtc mstep (m0, begin ds) (m, ts) ->
  (exists m' ts', rtc mstep (m, ts) (m', ts') /\ all_finished ts') /\
  (all_finished ts -> exists ds', ds' ≡ₚ ds /\ m = record_all ds' m0).
Proof.
  intros Hm Hr. split.
  { destruct (all_finish (length ts) m ts) as (m' & ts' & Hr' & Hlen & Hf); [done |].
    exists m', ts'. split; [done |]. by rewrite <- Hlen, firstn_all in Hf. }
  intros Hf. destruct (msteps_counting m0 [] (m0, begin ds) (m, ts) (counting_begin m0 ds Hm) Hr)
    as [(order & [Ht Ho _]) Hd]. simpl in *.
  assert (ts.*1 = ds) as Hds by (rewrite Hd; unfold begin; by rewrite <- list_fmap_compose, list_fmap_id).
  rewrite !(past_all _ ds ts) in Ht by (done || lia). rewrite (past_all 4 ds ts) in Ho by (done || lia).
  exists order. split; [done |]. eapply tallied_unique; [| apply record_all_tallied; exact Hm].
  by eapply tallied_perm; [symmetry; exact Ho .. | exact Ht].
Qed.

(** ** An instance *)

(** Two calls that both see the sentinel; the second to swap fails and retries. *)
Definition schedule : list nat := [0; 1; 0; 1; 0; 1; 1; 0; 0; 1; 1; 1; 0; 0; 0; 1; 1; 0; 0; 0]%nat.

Fixpoint interleave (s : list nat) (c : Metrics * calls) : Metrics * calls :=
  match s with
  | [] => c
  | i :: s' =>
      match c.2 !! i with
      | Some (ns, p) =>
          if decide (rank p = 5%nat) then interleave s' c
          else let '(m, p') := recordStep ns p c.1 in interleave s' (m, <[i := (ns, p')]> c.2)
      | None => interleave s' c
      end
  end.

Lemma interleave_steps s c : rtc mstep c (interleave s c).
Proof.
  revert c. induction s as [|i s IH]; intros [m ts]; simpl; [done |].
  destruct (ts !! i) as [[ns p]|] eqn:Hi; [| apply IH]. case_decide as Hp; [apply IH |].
  destruct (recordStep ns p m) as [m' p'] eqn:E. eapply rtc_l; [| apply IH].
  econstructor; [exact Hi | | exact E]. by intros ->.
Qed.

Lemma recordApply_linearizable_witness :
  exists m ts ds', interleave schedule (newMetrics, begin [30; 20]) = (m, ts) /\
    ds' ≡ₚ [30; 20] /\ m = record_all ds' newMetrics /\ applyMinNs m = 20 /\ applyMaxNs m = 30.
Proof.
  destruct (interleave schedule (newMetrics, begin [30; 20])) as [m ts] eqn:E.
  assert (rtc mstep (newMetrics, begin [30; 20]) (m, ts)) as Hr by (rewrite <- E; apply interleave_steps).
  destruct (recordApply_linearizable newMetrics [30; 20] m ts) as [_ Hlin].
  - split; [vm_compute; split; discriminate | split; [vm_compute; split; discriminate | vm_compute; discriminate]].
  - exact Hr.
  - destruct Hlin as (ds' & Hp & Hm).
    + assert (ts = (interleave schedule (newMetrics, begin [30; 20])).2) as -> by (by rewrite E).
      unfold all_finished. vm_compute. repeat constructor.
    + exists m, ts, ds'. split; [done |]. split; [done |]. split; [done |].
      assert (m = (interleave schedule (newMetrics, begin [30; 20])).1) as -> by (by rewrite E).
      split; vm_compute; reflexivity.
Defined.
