(* ===== verification/Sha256.v ===== *)
(** * Sha256: the standard library's [sha256.Sum256]

    The program chains its log entries with SHA-256 (src/raft/state.go,
    [getLogHash]). The function is Go's standard library, defined here from
    FIPS 180-4 so that the hashes of the model are the program's hashes. *)
From S2P Require Import Prelude.

Definition byte_to_Z (b : byte) : Z := Z.of_N (Byte.to_N b).

Definition byte_of_Z (z : Z) : byte :=
  match Byte.of_N (Z.to_N (z mod 256)) with Some b => b | None => Byte.x00 end.

Lemma byte_to_of_Z z : byte_to_Z (byte_of_Z z) = z mod 256.
Proof.
  unfold byte_to_Z, byte_of_Z.
  pose proof (Z.mod_pos_bound z 256) as Hb.
  destruct (Byte.of_N (Z.to_N (z mod 256))) as [b|] eqn:E.
  - rewrite (Byte.to_of_N _ E). lia.
  - apply Byte.of_N_None_iff in E. lia.
Qed.

(** ** 32-bit words *)

Definition w32 (z : Z) : Z := Z.land z 0xffffffff.

Definition add32 (a b : Z) : Z := w32 (a + b).

Definition rotr (n x : Z) : Z :=
  Z.lor (Z.shiftr x n) (w32 (Z.shiftl x (32 - n))).

Definition not32 (x : Z) : Z := Z.lxor x 0xffffffff.

Definition Ch (x y z : Z) : Z := Z.lxor (Z.land x y) (Z.land (not32 x) z).
Definition Maj (x y z : Z) : Z :=
  Z.lxor (Z.lxor (Z.land x y) (Z.land x z)) (Z.land y z).
Definition Sigma0 (x : Z) : Z := Z.lxor (Z.lxor (rotr 2 x) (rotr 13 x)) (rotr 22 x).
Definition Sigma1 (x : Z) : Z := Z.lxor (Z.lxor (rotr 6 x) (rotr 11 x)) (rotr 25 x).
Definition sigma0 (x : Z) : Z := Z.lxor (Z.lxor (rotr 7 x) (rotr 18 x)) (Z.shiftr x 3).
Definition sigma1 (x : Z) : Z := Z.lxor (Z.lxor (rotr 17 x) (rotr 19 x)) (Z.shiftr x 10).

(** The constants are the first 32 bits of the fractional parts of the roots of
    the first primes: cube roots for the rounds, square roots for the initial
    hash. [Z.sqrt] and [icbrt] compute the roots of the scaled primes. *)
Definition is_prime (n : nat) : bool :=
  (1 <? n)%nat && forallb (fun d => negb (n mod d =? 0)%nat) (seq 2 (n - 2)).

Definition primes : list Z := Z.of_nat <$> filter is_prime (seq 2 310).

(** The integer cube root of a number below [2 ^ (3 * bits)], bit by bit. *)
Fixpoint icbrt (bits : nat) (acc n : Z) : Z :=
  match bits with
  | O => acc
  | S bits' =>
      let next := Z.lor acc (Z.shiftl 1 (Z.of_nat bits')) in
      icbrt bits' (if next * next * next <=? n then next else acc) n
  end.

Definition round_constants : list Z :=
  Eval vm_compute in (fun p => w32 (icbrt 36 0 (p * 2 ^ 96))) <$> primes.

Definition initial_hash : list Z :=
  Eval vm_compute in (fun p => w32 (Z.sqrt (p * 2 ^ 64))) <$> take 8 primes.

(** ** Big-endian words *)

Fixpoint be_bytes (n : nat) (z : Z) : list byte :=
  match n with
  | O => []
  | S n' => be_bytes n' (Z.shiftr z 8) ++ [byte_of_Z z]
  end.

Fixpoint be_words (bs : list byte) : list Z :=
  match bs with
  | a :: b :: c :: d :: bs' =>
      (((byte_to_Z a * 256 + byte_to_Z b) * 256 + byte_to_Z c) * 256 + byte_to_Z d)
        :: be_words bs'
  | _ => []
  end.

(** ** Padding, message schedule and compression *)

Definition pad (msg : list byte) : list byte :=
  let len := Z.of_nat (length msg) in
  msg ++ [Byte.x80] ++ replicate (Z.to_nat ((55 - len) mod 64)) Byte.x00
      ++ be_bytes 8 (len * 8).

(** The schedule is grown backwards: [rev_w] holds W(t-1), W(t-2), ... *)
Fixpoint extend (k : nat) (rev_w : list Z) : list Z :=
  match k with
  | O => rev_w
  | S k' =>
      let at_ i := nth i rev_w 0 in
      let w := add32 (add32 (sigma1 (at_ 1%nat)) (at_ 6%nat))
                     (add32 (sigma0 (at_ 14%nat)) (at_ 15%nat)) in
      extend k' (w :: rev_w)
  end.

Definition schedule (block : list Z) : list Z := rev (extend 48 (rev block)).

Definition sha_round (st : list Z) (kw : Z * Z) : list Z :=
  match st with
  | [a; b; c; d; e; f; g; h] =>
      let t1 := add32 (add32 (add32 h (Sigma1 e)) (Ch e f g)) (add32 (fst kw) (snd kw)) in
      let t2 := add32 (Sigma0 a) (Maj a b c) in
      [add32 t1 t2; a; b; c; add32 d t1; e; f; g]
  | _ => st
  end.

Definition compress (h : list Z) (block : list Z) : list Z :=
  zip_with add32 h (foldl sha_round h (zip round_constants (schedule block))).

Fixpoint chunks (fuel : nat) (ws : list Z) : list (list Z) :=
  match fuel with
  | O => []
  | S fuel' => match ws with [] => [] | _ => take 16 ws :: chunks fuel' (drop 16 ws) end
  end.

(** Every block takes sixteen words, so the number of words is enough fuel. *)
Definition sha256 (msg : list byte) : list byte :=
  let ws := be_words (pad msg) in
  concat (map (be_bytes 4) (foldl compress initial_hash (chunks (length ws) ws))).

(** ** Test vectors of FIPS 180-4 *)

Definition hex_of (bs : list byte) : list Z := be_words bs.

Example sha256_empty :
  hex_of (sha256 []) =
  [0xe3b0c442; 0x98fc1c14; 0x9afbf4c8; 0x996fb924; 0x27ae41e4; 0x649b934c; 0xa495991b; 0x7852b855].
Proof. vm_compute. reflexivity. Qed.

Example sha256_abc :
  hex_of (sha256 [Byte.x61; Byte.x62; Byte.x63]) =
  [0xba7816bf; 0x8f01cfea; 0x414140de; 0x5dae2223; 0xb00361a3; 0x96177a9c; 0xb410ff61; 0xf20015ad].
Proof. vm_compute. reflexivity. Qed.

(** Two blocks: sixty-four bytes 'a'. *)
Example sha256_64a :
  hex_of (sha256 (replicate 64 Byte.x61)) =
  [0xffe054fe; 0x7ae0cb6d; 0xc65c3af9; 0xb61d5209; 0xf439851d; 0xb43d0ba5; 0x997337df; 0x154668eb].
Proof. vm_compute. reflexivity. Qed.

(** ** The digest always has 32 bytes *)

Lemma length_be_bytes n z : length (be_bytes n z) = n.
Proof.
  revert z; induction n as [|n IH]; intros z; simpl; [done |].
  rewrite length_app, IH. simpl. lia.
Qed.

Lemma length_sha_round st kw : length (sha_round st kw) = length st.
Proof. by destruct st as [|a [|b [|c [|d [|e [|f [|g [|h [|i st]]]]]]]]]. Qed.

Lemma length_compress h block : length (compress h block) = length h.
Proof.
  unfold compress. rewrite length_zip_with.
  enough (forall l st, length (foldl sha_round st l) = length st) as -> by lia.
  induction l as [|kw l IH]; intros st; simpl; [done |].
  by rewrite IH, length_sha_round.
Qed.

Lemma length_sha256 msg : length (sha256 msg) = 32%nat.
Proof.
  unfold sha256. generalize (chunks (length (be_words (pad msg))) (be_words (pad msg))).
  intros bl.
  assert (length (foldl compress initial_hash bl) = 8%nat) as Hl.
  { change 8%nat with (length initial_hash). generalize initial_hash.
    induction bl as [|b bl IH]; intros h; simpl; [done |].
    by rewrite IH, length_compress. }
  revert Hl. generalize (foldl compress initial_hash bl). intros ws Hws.
  rewrite length_concat, !map_map.
  rewrite (map_ext _ (fun _ => 4%nat)) by (intros; apply length_be_bytes).
  do 8 (destruct ws as [|? ws]; [discriminate |]). by destruct ws.
Qed.

#[export] Hint Resolve length_sha256 : raft.
