(* ===== verification/Types.v ===== *)
(** * Types: the shared data types (src/types/types.go)

    Structs are records with the source's field names, [LogType] an integer,
    pointers that may be nil [option], byte slices [list byte], and
    [map[ServerID]bool] a [gmap]. *)
From S2P Require Import Prelude.

(** [ServerID] is a string such as "host:port"; a Go string and a byte slice
    both hold arbitrary bytes. *)
Abbreviation ServerID := string (only parsing).
Abbreviation bytes := (list byte) (only parsing).

(** Any integer may come off the wire; three are named. *)
Definition LogType : Set := Z.
Definition LogCommand : LogType := 0.
Definition LogConfiguration : LogType := 1.
Definition LogNoop : LogType := 2.

Record ConfigChange := mkConfigChange { Add : bool; Server : ServerID }.

Record RaftLog := mkRaftLog {
  Index : Z;
  Term : Z;
  Type_ : LogType;
  Data : bytes;
  Config : ConfigChange;
  ClientID : string;
  SeqNum : Z;
}.

Module NodeConfig.
(** [types.Config], the startup configuration. *)
Record Config := mkConfig {
  ID : ServerID;
  Peers : list ServerID;
  HeartbeatMs : Z;
  ElectionMinMs : Z;
  ElectionMaxMs : Z;
}.

Definition DefaultConfig (id : ServerID) (peers : list ServerID) : Config :=
  {| ID := id; Peers := peers; HeartbeatMs := 20; ElectionMinMs := 150; ElectionMaxMs := 300 |}.
End NodeConfig.

Record PersistentState := mkPersistentState {
  CurrentTerm : Z;
  VotedFor : ServerID;
  Logs : list RaftLog;
}.

Record Snapshot := mkSnapshot {
  LastIncludedIndex : Z;
  LastIncludedTerm : Z;
  SnapData : bytes;
  ServerConfig : gmap ServerID bool;
  Hash : bytes;
}.

(** ** RPC wire types *)

Record AppendEntriesArgs := mkAppendEntriesArgs {
  ae_Term : Z;
  ae_LeaderID : ServerID;
  ae_PrevLogIndex : Z;
  ae_PrevLogTerm : Z;
  ae_Entries : list RaftLog;
  ae_LeaderCommit : Z;
}.

Record AppendEntriesResponse := mkAppendEntriesResponse {
  aer_ID : ServerID;
  aer_Term : Z;
  aer_Success : bool;
  aer_LastIndex : Z;
}.

Record RequestVoteArgs := mkRequestVoteArgs {
  rv_Term : Z;
  rv_CandidateID : ServerID;
  rv_LastLogIndex : Z;
  rv_LastLogTerm : Z;
}.

Record RequestVoteResponse := mkRequestVoteResponse {
  rvr_ID : ServerID;
  rvr_Term : Z;
  rvr_VoteGranted : bool;
}.

Record InstallSnapshotArgs := mkInstallSnapshotArgs {
  is_ID : ServerID;
  is_Term : Z;
  is_LastIncludedIndex : Z;
  is_LastIncludedTerm : Z;
  is_Data : bytes;
  is_ServerConfiguration : gmap ServerID bool;
  is_Hash : bytes;
}.

Record InstallSnapshotResponse := mkInstallSnapshotResponse {
  isr_ID : ServerID;
  isr_Term : Z;
  isr_Success : bool;
  isr_LastIncludedIndex : Z;
  isr_LastIncludedTerm : Z;
}.

(** ** Client-facing types *)

Record ApplyArgs := mkApplyArgs {
  aa_ClientID : string;
  aa_SeqNum : Z;
  aa_Command : bytes;
}.

Record ApplyResponse := mkApplyResponse {
  ar_Success : bool;
  ar_LeaderID : ServerID;
}.

Record AddRemoveServerArgs := mkAddRemoveServerArgs {
  ars_Server : ServerID;
  ars_Add : bool;
}.

Record AddRemoveServerResponse := mkAddRemoveServerResponse {
  arsr_Success : bool;
  arsr_LeaderID : ServerID;
}.

(** ** The StateMachine interface

    Application code: a class over the type of its states. [Apply] may panic
    ([None]), which takes the process down; [None] of [Snapshot] is a returned
    error. The state a failing [Apply] or [Restore] leaves behind is part of
    the result, since the library keeps using the machine. [Snapshot] and
    [Restore] are taken to return. *)
Class StateMachine (S : Type) := {
  sm_Apply : bytes -> S -> option (S * bool);  (* None: panic; false: error *)
  sm_Snapshot : S -> option bytes;
  sm_Restore : bytes -> S -> S * bool;
}.

(** The documented contract of [Snapshot]/[Restore]: restoring what
    [Snapshot] captured succeeds and gives back the captured state. *)
Class StateMachineLaws (S : Type) `{StateMachine S} : Prop := {
  sm_restore_snapshot : forall (s s' : S) data,
    sm_Snapshot s = Some data -> sm_Restore data s' = (s, true);
}.

(** ** Zero values and decidable equality *)

Definition ConfigChange_zero : ConfigChange := mkConfigChange false "".

Definition RaftLog_zero : RaftLog :=
  mkRaftLog 0 0 LogCommand [] ConfigChange_zero "" 0.

Definition PersistentState_zero : PersistentState := mkPersistentState 0 "" [].

#[export] Instance byte_eq_dec : EqDecision byte := Byte.byte_eq_dec.
#[export] Instance LogType_eq_dec : EqDecision LogType := Z.eq_dec.
#[export] Instance ConfigChange_eq_dec : EqDecision ConfigChange.
Proof. solve_decision. Defined.
#[export] Instance RaftLog_eq_dec : EqDecision RaftLog.
Proof. solve_decision. Defined.
#[export] Instance PersistentState_eq_dec : EqDecision PersistentState.
Proof. solve_decision. Defined.
#[export] Instance Snapshot_eq_dec : EqDecision Snapshot.
Proof. solve_decision. Defined.
#[export] Instance AppendEntriesArgs_eq_dec : EqDecision AppendEntriesArgs.
Proof. solve_decision. Defined.
#[export] Instance AppendEntriesResponse_eq_dec : EqDecision AppendEntriesResponse.
Proof. solve_decision. Defined.
#[export] Instance RequestVoteArgs_eq_dec : EqDecision RequestVoteArgs.
Proof. solve_decision. Defined.
#[export] Instance RequestVoteResponse_eq_dec : EqDecision RequestVoteResponse.
Proof. solve_decision. Defined.
#[export] Instance InstallSnapshotArgs_eq_dec : EqDecision InstallSnapshotArgs.
Proof. solve_decision. Defined.
#[export] Instance InstallSnapshotResponse_eq_dec : EqDecision InstallSnapshotResponse.
Proof. solve_decision. Defined.

#[export] Instance ApplyResponse_eq_dec : EqDecision ApplyResponse.
Proof. solve_decision. Defined.
#[export] Instance AddRemoveServerResponse_eq_dec : EqDecision AddRemoveServerResponse.
Proof. solve_decision. Defined.

#[export] Instance RaftLog_inhabited : Inhabited RaftLog := populate RaftLog_zero.
