(* ===== verification/State.v ===== *)
(** * State: the state of one node (src/raft/state.go)

    [nodeState] with the source's fields, its constructor, the timer helpers,
    the getters, the log-array helpers and the hash chain. A handler that can
    panic returns an [option]; [None] is the panic. *)
From S2P Require Import Prelude Sha256 Types.

(** ** Data *)

Inductive nodeRole := Follower | Candidate | Leader.

#[export] Instance nodeRole_eq_dec : EqDecision nodeRole.
Proof. solve_decision. Defined.

Definition logArrayCapacity : nat := 1024.
#[global] Opaque logArrayCapacity.

(** A channel is the identity of the channel: two entries share a channel when
    they carry the same one. *)
Definition chan := nat.

Record configEntry := mkConfigEntry {
  msg : ConfigChange;
  chanApplied : chan;
  resultCh : chan;
}.

#[export] Instance configEntry_eq_dec : EqDecision configEntry.
Proof. solve_decision. Defined.

(** A [time.Timer]: its duration in nanoseconds, whether it is running, and
    whether its one-element channel holds the expiry. *)
Record Timer := mkTimer { tm_duration : Z; tm_running : bool; tm_C : bool }.

(** The snapshot channels are not fields here: what comes back on
    [snapshotResponseChan] is an argument of [takeSnapshot], and what is sent
    on [snapshotInstallChan] is queued in the field of that name. *)
Record nodeState := mkNodeState {
  currentTerm : Z;
  votedFor : ServerID;
  logs : list RaftLog;
  logHashes : list bytes;
  nextLogIdx : nat;
  role : nodeRole;
  commitIndex : Z;
  lastApplied : Z;
  currentLeader : ServerID;
  lastSnapshot : option Snapshot;
  nextIndex : gmap ServerID Z;
  matchIndex : gmap ServerID Z;
  lastSentLogIndex : gmap ServerID Z;
  electionTimeoutStarted : bool;
  electionTimer : option Timer;
  electionVotes : Z;
  serverConfig : gmap ServerID bool;
  oldServerConfig : gmap ServerID bool;
  lastConfigLogIndex : Z;
  inConfigChange : bool;
  pendingConfigs : Z;
  configQueue : list configEntry;
  unvotingServers : gmap ServerID configEntry;
  clientLastSeq : gmap ServerID Z;
  snapshotInstallChan : list bytes;
  electionMinMs : Z;
  electionMaxMs : Z;
}.

Definition nodeState_eta (s : nodeState) : nodeState :=
  mkNodeState (currentTerm s) (votedFor s) (logs s) (logHashes s) (nextLogIdx s) (role s)
    (commitIndex s) (lastApplied s) (currentLeader s) (lastSnapshot s) (nextIndex s)
    (matchIndex s) (lastSentLogIndex s) (electionTimeoutStarted s) (electionTimer s)
    (electionVotes s) (serverConfig s) (oldServerConfig s) (lastConfigLogIndex s)
    (inConfigChange s) (pendingConfigs s) (configQueue s) (unvotingServers s)
    (clientLastSeq s) (snapshotInstallChan s) (electionMinMs s) (electionMaxMs s).

#[export] Instance set_currentTerm : Setter currentTerm := ltac:(setter nodeState_eta currentTerm).
#[export] Instance set_votedFor : Setter votedFor := ltac:(setter nodeState_eta votedFor).
#[export] Instance set_logs : Setter logs := ltac:(setter nodeState_eta logs).
#[export] Instance set_logHashes : Setter logHashes := ltac:(setter nodeState_eta logHashes).
#[export] Instance set_nextLogIdx : Setter nextLogIdx := ltac:(setter nodeState_eta nextLogIdx).
#[export] Instance set_role : Setter role := ltac:(setter nodeState_eta role).
#[export] Instance set_commitIndex : Setter commitIndex := ltac:(setter nodeState_eta commitIndex).
#[export] Instance set_lastApplied : Setter lastApplied := ltac:(setter nodeState_eta lastApplied).
#[export] Instance set_currentLeader : Setter currentLeader := ltac:(setter nodeState_eta currentLeader).
#[export] Instance set_lastSnapshot : Setter lastSnapshot := ltac:(setter nodeState_eta lastSnapshot).
#[export] Instance set_nextIndex : Setter nextIndex := ltac:(setter nodeState_eta nextIndex).
#[export] Instance set_matchIndex : Setter matchIndex := ltac:(setter nodeState_eta matchIndex).
#[export] Instance set_lastSentLogIndex : Setter lastSentLogIndex := ltac:(setter nodeState_eta lastSentLogIndex).
#[export] Instance set_electionTimeoutStarted : Setter electionTimeoutStarted := ltac:(setter nodeState_eta electionTimeoutStarted).
#[export] Instance set_electionTimer : Setter electionTimer := ltac:(setter nodeState_eta electionTimer).
#[export] Instance set_electionVotes : Setter electionVotes := ltac:(setter nodeState_eta electionVotes).
#[export] Instance set_serverConfig : Setter serverConfig := ltac:(setter nodeState_eta serverConfig).
#[export] Instance set_oldServerConfig : Setter oldServerConfig := ltac:(setter nodeState_eta oldServerConfig).
#[export] Instance set_lastConfigLogIndex : Setter lastConfigLogIndex := ltac:(setter nodeState_eta lastConfigLogIndex).
#[export] Instance set_inConfigChange : Setter inConfigChange := ltac:(setter nodeState_eta inConfigChange).
#[export] Instance set_pendingConfigs : Setter pendingConfigs := ltac:(setter nodeState_eta pendingConfigs).
#[export] Instance set_configQueue : Setter configQueue := ltac:(setter nodeState_eta configQueue).
#[export] Instance set_unvotingServers : Setter unvotingServers := ltac:(setter nodeState_eta unvotingServers).
#[export] Instance set_clientLastSeq : Setter clientLastSeq := ltac:(setter nodeState_eta clientLastSeq).
#[export] Instance set_snapshotInstallChan : Setter snapshotInstallChan := ltac:(setter nodeState_eta snapshotInstallChan).

(** ** Construction *)

Definition newNodeState (id : ServerID) (peers : list ServerID) (minMs maxMs : Z) : nodeState :=
  let s :=
    {| currentTerm := 0; votedFor := "";
       logs := replicate logArrayCapacity RaftLog_zero;
       logHashes := replicate logArrayCapacity (replicate 32 Byte.x00);
       nextLogIdx := 0; role := Follower; commitIndex := -1; lastApplied := -1;
       currentLeader := ""; lastSnapshot := None;
       nextIndex := ∅; matchIndex := ∅; lastSentLogIndex := ∅;
       electionTimeoutStarted := false; electionTimer := None; electionVotes := 0;
       serverConfig := {[id := true]}; oldServerConfig := {[id := true]};
       lastConfigLogIndex := 0; inConfigChange := false; pendingConfigs := 0;
       configQueue := []; unvotingServers := ∅; clientLastSeq := ∅;
       snapshotInstallChan := []; electionMinMs := minMs; electionMaxMs := maxMs |} in
  foldl (fun s p =>
    s <| nextIndex := <[p := 0]> (nextIndex s) |>
      <| matchIndex := <[p := -1]> (matchIndex s) |>
      <| lastSentLogIndex := <[p := -1]> (lastSentLogIndex s) |>
      <| serverConfig := <[p := true]> (serverConfig s) |>
      <| oldServerConfig := <[p := true]> (oldServerConfig s) |>) s peers.

(** ** Timer helpers *)

Definition millisecond : Z := 1000000.

(** [rand.Intn(n)] panics unless [n > 0]; [r] stands for the generator's state. *)
Definition Intn (r n : Z) : option Z := if n <=? 0 then None else Some (r mod n).

Definition checkElectionTimeout (r : Z) (s : nodeState) : option nodeState :=
  if electionTimeoutStarted s then Some s
  else
    x ← Intn r (electionMaxMs s -! electionMinMs s);
    let d := (x +! electionMinMs s) *! millisecond in
    Some (s <| electionTimeoutStarted := true |>
            <| electionTimer := Some (mkTimer d true false) |>).

(** [Stop] reports whether it stopped a running timer; when it did not, the
    channel is drained without blocking. *)
Definition stopTimer (t : Timer) : Timer :=
  if tm_running t then mkTimer (tm_duration t) false (tm_C t)
  else mkTimer (tm_duration t) false false.

Definition stopElectionTimeoutLocked (s : nodeState) : nodeState :=
  match electionTimer s with
  | None => s
  | Some t => s <| electionTimer := Some (stopTimer t) |>
                <| electionTimeoutStarted := false |>
  end.

Definition stopElectionTimeout (s : nodeState) : nodeState := stopElectionTimeoutLocked s.

(** ** Getters and setters *)

Definition getRole (s : nodeState) : nodeRole := role s.
Definition getCurrentLeader (s : nodeState) : ServerID := currentLeader s.
Definition getCommitIndex (s : nodeState) : Z := commitIndex s.
Definition getClientLastSeq (id : ServerID) (s : nodeState) : Z := map_get (clientLastSeq s) id.
Definition setClientLastSeq (id : ServerID) (seq : Z) (s : nodeState) : nodeState :=
  s <| clientLastSeq := <[id := seq]> (clientLastSeq s) |>.
Definition getLastSnapshot (s : nodeState) : option Snapshot := lastSnapshot s.
Definition getLastConfigLogIndex (s : nodeState) : Z := lastConfigLogIndex s.

(** The slice [logs[:nextLogIdx]] panics when [nextLogIdx] exceeds the array. *)
Definition getPersistentState (s : nodeState) : option PersistentState :=
  if (nextLogIdx s <=? length (logs s))%nat then
    Some {| CurrentTerm := currentTerm s; VotedFor := votedFor s;
            Logs := take (nextLogIdx s) (logs s) |}
  else None.

(** ** Log array helpers *)

Definition getLastLogIdxTerm (s : nodeState) : option (Z * Z) :=
  if (0 <? nextLogIdx s)%nat then
    last ← logs s !! (nextLogIdx s - 1)%nat;
    Some (Index last, Term last)
  else
    match lastSnapshot s with
    | Some snap => Some (LastIncludedIndex snap, LastIncludedTerm snap)
    | None => Some (-1, -1)
    end.

(** The backwards scan. The pair [(true, i)] is [Some i], [(false, -1)] is [None]. *)
Fixpoint findDown (l : list RaftLog) (logIdx : Z) (n : nat) : option (option nat) :=
  match n with
  | O => Some None
  | S i =>
      e ← l !! i;
      if Index e =? logIdx then Some (Some i) else findDown l logIdx i
  end.

Definition findArrayIdxByLogIndex (logIdx : Z) (s : nodeState) : option (option nat) :=
  findDown (logs s) logIdx (nextLogIdx s).

(** ** The hash chain *)

(** [binary.Write(buf, binary.LittleEndian, int64(z))] *)
Fixpoint le_bytes (n : nat) (z : Z) : bytes :=
  match n with
  | O => []
  | S n' => byte_of_Z z :: le_bytes n' (Z.shiftr z 8)
  end.

Definition int64_bytes (z : Z) : bytes := le_bytes 8 z.

Definition bool_bytes (b : bool) : bytes := [if b then Byte.x01 else Byte.x00].

Definition raftLogBytes (rl : RaftLog) : bytes :=
  int64_bytes (Index rl) ++ int64_bytes (Term rl) ++ int64_bytes (Type_ rl)
    ++ Data rl ++ bool_bytes (Add (Config rl)) ++ String.list_byte_of_string (Server (Config rl)).

Definition getLogHash (rl : RaftLog) (s : nodeState) : option bytes :=
  let b := raftLogBytes rl in
  found ← findArrayIdxByLogIndex (Index rl) s;
  match found with
  | Some (S i) => prev ← logHashes s !! i; Some (sha256 (b ++ prev))
  | _ =>
      match lastSnapshot s with
      | Some snap => Some (sha256 (b ++ Hash snap))
      | None => Some (sha256 b)
      end
  end.

(** ** Compaction and terms *)

(** The loop moves [logs[startLog..]] down one entry at a time, in place, so
    it reads only entries it has not yet overwritten. *)
Fixpoint copyDown (startLog dst todo : nat) (l : list RaftLog) (h : list bytes)
    : option (list RaftLog * list bytes) :=
  match todo with
  | O => Some (l, h)
  | S todo' =>
      e ← l !! (startLog + dst)%nat;
      l' ← array_set l dst e;
      x ← h !! (startLog + dst)%nat;
      h' ← array_set h dst x;
      copyDown startLog (S dst) todo' l' h'
  end.

Definition copyLogsToBeginning (startLog : nat) (s : nodeState) : option nodeState :=
  let n := (nextLogIdx s - startLog)%nat in
  '(l, h) ← copyDown startLog 0 n (logs s) (logHashes s);
  Some (s <| logs := l |> <| logHashes := h |> <| nextLogIdx := n |>).

Definition updateCurrentTerm (term : Z) (s : nodeState) : nodeState :=
  s <| currentTerm := term |> <| votedFor := "" |>.

(** [copyConfig] (src/raft/config_change.go) builds a fresh map with the
    entries of [src]; maps are values here, so the copy is the map itself,
    rebuilt entry by entry. *)
Definition copyConfig (src : gmap ServerID bool) : gmap ServerID bool :=
  map_fold (fun k v dst => <[k := v]> dst) ∅ src.

(** ** Abstraction: the live log

    The array keeps stale entries beyond [nextLogIdx]; the log of the protocol
    is the prefix before it, and it starts just after the last snapshot. *)

Definition live (s : nodeState) : list RaftLog := take (nextLogIdx s) (logs s).

Definition liveHashes (s : nodeState) : list bytes := take (nextLogIdx s) (logHashes s).

Definition base (s : nodeState) : Z :=
  match lastSnapshot s with
  | Some snap => LastIncludedIndex snap + 1
  | None => 0
  end.

Definition snapTerm (s : nodeState) : Z :=
  match lastSnapshot s with Some snap => LastIncludedTerm snap | None => -1 end.

Definition lastIdx (s : nodeState) : Z := base s + Z.of_nat (nextLogIdx s) - 1.

Definition lastTerm (s : nodeState) : Z :=
  match live s !! (nextLogIdx s - 1)%nat with Some e => Term e | None => snapTerm s end.

(** The arrays have their static length and the cursor stays inside them. *)
Record array_ok (s : nodeState) : Prop := {
  ok_logs : length (logs s) = logArrayCapacity;
  ok_hashes : length (logHashes s) = logArrayCapacity;
  ok_next : (nextLogIdx s <= logArrayCapacity)%nat;
}.

(** Entry [i] of a list has log index [b + i]. *)
Definition contiguous_from (b : Z) (l : list RaftLog) : Prop :=
  forall i e, l !! i = Some e -> Index e = b + Z.of_nat i.

Definition contiguous (s : nodeState) : Prop := contiguous_from (base s) (live s).

Definition log_ok (s : nodeState) : Prop := array_ok s /\ contiguous s.

(** On a contiguous log the backwards scan is index arithmetic. *)
Definition position (s : nodeState) (k : Z) : option nat :=
  if decide (base s <= k < base s + Z.of_nat (nextLogIdx s))
  then Some (Z.to_nat (k - base s)) else None.

(** An array after the entries from [startLog + dst] on have been copied to
    position [dst], [todo] of them. *)
Definition moved {A} (startLog dst todo : nat) (l : list A) : list A :=
  take dst l ++ take todo (drop (startLog + dst) l) ++ drop (dst + todo) l.

#[export] Hint Constructors array_ok : raft.
#[export] Hint Resolve ok_logs ok_hashes ok_next : raft.

(** ** Lemmas on the log array *)

Section log_array.
Implicit Types s : nodeState.

Lemma length_live s : array_ok s -> length (live s) = nextLogIdx s.
Proof. intros [Hl _ Hn]. unfold live. rewrite length_take. lia. Qed.

Lemma length_liveHashes s : array_ok s -> length (liveHashes s) = nextLogIdx s.
Proof. intros [_ Hl Hn]. unfold liveHashes. rewrite length_take. lia. Qed.

Lemma lookup_live s i : (i < nextLogIdx s)%nat -> live s !! i = logs s !! i.
Proof. intros. by apply lookup_take_lt. Qed.

Lemma lookup_live_Some s i e :
  live s !! i = Some e -> (i < nextLogIdx s)%nat /\ logs s !! i = Some e.
Proof. intros [? ?]%lookup_take_Some. done. Qed.

Lemma live_lookup_lt s i :
  array_ok s -> (i < nextLogIdx s)%nat -> exists e, logs s !! i = Some e.
Proof. intros [Hl _ Hn] Hi. apply lookup_lt_is_Some_2. lia. Qed.

(** The scan never leaves the array, and returns the greatest position. *)
Lemma findDown_spec l k n :
  (n <= length l)%nat ->
  exists r, findDown l k n = Some r /\
    match r with
    | Some i => (i < n)%nat /\ (exists e, l !! i = Some e /\ Index e = k) /\
                forall j e, (i < j < n)%nat -> l !! j = Some e -> Index e <> k
    | None => forall j e, (j < n)%nat -> l !! j = Some e -> Index e <> k
    end.
Proof.
  induction n as [|n IH]; intros Hn; simpl.
  { exists None. split; [done |]. intros; lia. }
  destruct (lookup_lt_is_Some_2 l n) as [x Hx]; [lia |].
  rewrite Hx. simpl. destruct (Z.eqb_spec (Index x) k) as [Heq|Hne].
  { exists (Some n). split; [done |]. split; [lia |]. split; [eauto |]. intros; lia. }
  destruct IH as (r & -> & Hr); [lia |]. exists r. split; [done |].
  destruct r as [i|].
  - destruct Hr as (? & ? & Hlast). split; [lia |]. split; [done |].
    intros j e Hj He. destruct (decide (j = n)) as [->|]; [congruence |].
    apply (Hlast j); [lia | done].
  - intros j e Hj He. destruct (decide (j = n)) as [->|]; [congruence |].
    apply (Hr j); [lia | done].
Qed.

Lemma find_position s k :
  log_ok s -> findArrayIdxByLogIndex k s = Some (position s k).
Proof.
  intros [Hok Hc]. unfold findArrayIdxByLogIndex.
  destruct (findDown_spec (logs s) k (nextLogIdx s)) as (r & -> & Hr).
  { destruct Hok; lia. }
  assert (Hidx : forall j e, (j < nextLogIdx s)%nat -> logs s !! j = Some e ->
                   Index e = base s + Z.of_nat j).
  { intros j e Hj He. apply (Hc j). by rewrite lookup_live. }
  f_equal. unfold position. case_decide as Hk; destruct r as [i|]; f_equal.
  - destruct Hr as (Hi & (e & He & <-) & _). rewrite (Hidx _ _ Hi He). lia.
  - set (j := Z.to_nat (k - base s)). assert (j < nextLogIdx s)%nat as Hj by lia.
    destruct (live_lookup_lt s j Hok Hj) as [e He].
    exfalso. apply (Hr j e Hj He). rewrite (Hidx _ _ Hj He). lia.
  - destruct Hr as (Hi & (e & He & <-) & _). exfalso. apply Hk.
    rewrite (Hidx _ _ Hi He). lia.
Qed.

Lemma getLastLogIdxTerm_ok s :
  log_ok s -> getLastLogIdxTerm s = Some (lastIdx s, lastTerm s).
Proof.
  intros [Hok Hc]. unfold getLastLogIdxTerm, lastIdx, lastTerm.
  destruct (Nat.ltb_spec 0 (nextLogIdx s)) as [Hpos|Hz].
  - destruct (live_lookup_lt s (nextLogIdx s - 1) Hok) as [e He]; [lia |].
    rewrite lookup_live by lia. rewrite He. simpl.
    rewrite (Hc (nextLogIdx s - 1)%nat e) by (rewrite lookup_live by lia; done).
    f_equal. f_equal. lia.
  - replace (nextLogIdx s) with 0%nat by lia. unfold live, base, snapTerm.
    replace (nextLogIdx s) with 0%nat by lia. rewrite take_0, lookup_nil.
    destruct (lastSnapshot s); do 2 f_equal; lia.
Qed.

(** Without contiguity, the helper still never panics. *)
Lemma getLastLogIdxTerm_total s :
  array_ok s -> exists i t, getLastLogIdxTerm s = Some (i, t).
Proof.
  intros Hok. unfold getLastLogIdxTerm.
  destruct (Nat.ltb_spec 0 (nextLogIdx s)).
  - destruct (live_lookup_lt s (nextLogIdx s - 1) Hok) as [e ->]; [lia |]. simpl. eauto.
  - destruct (lastSnapshot s); eauto.
Qed.

Lemma find_total s k :
  array_ok s -> exists r, findArrayIdxByLogIndex k s = Some r /\
    forall i, r = Some i -> (i < nextLogIdx s)%nat.
Proof.
  intros Hok. unfold findArrayIdxByLogIndex.
  destruct (findDown_spec (logs s) k (nextLogIdx s)) as (r & -> & Hr).
  { destruct Hok; lia. }
  exists r. split; [done |]. intros i ->. by destruct Hr.
Qed.

Lemma getLogHash_total s rl :
  array_ok s -> exists h, getLogHash rl s = Some h.
Proof.
  intros Hok. unfold getLogHash.
  destruct (find_total s (Index rl) Hok) as (r & -> & Hr). simpl.
  destruct r as [[|i]|]; try (destruct (lastSnapshot s); eauto; fail).
  destruct (lookup_lt_is_Some_2 (logHashes s) i) as [h ->].
  { specialize (Hr _ eq_refl). destruct Hok. lia. }
  simpl. eauto.
Qed.
End log_array.

(** ** Compaction moves the suffix to the front *)

Lemma moved_step {A} startLog dst todo (l : list A) e :
  (startLog + dst + S todo <= length l)%nat -> l !! (startLog + dst)%nat = Some e ->
  moved startLog (S dst) todo (<[dst := e]> l) = moved startLog dst (S todo) l.
Proof.
  intros Hlen He. unfold moved.
  rewrite take_insert_snoc by lia.
  rewrite !drop_insert_lt by lia.
  replace (startLog + S dst)%nat with (S (startLog + dst)) by lia.
  rewrite (drop_S l e (startLog + dst)) by done. simpl.
  replace (dst + S todo)%nat with (S (dst + todo)) by lia.
  by rewrite <- app_assoc.
Qed.

Lemma length_moved {A} startLog dst todo (l : list A) :
  (startLog + dst + todo <= length l)%nat -> length (moved startLog dst todo l) = length l.
Proof.
  intros. unfold moved. rewrite !length_app, !length_take, !length_drop. lia.
Qed.

Lemma take_moved {A} startLog todo (l : list A) :
  (startLog + todo <= length l)%nat ->
  take todo (moved startLog 0 todo l) = drop startLog (take (startLog + todo) l).
Proof.
  intros. unfold moved. rewrite take_0, Nat.add_0_r. simpl.
  rewrite take_app_le by (rewrite length_take, length_drop; lia).
  rewrite take_take, Nat.min_id. by rewrite take_drop_commute.
Qed.

Lemma copyDown_moved startLog dst todo l h :
  (startLog + dst + todo <= length l)%nat -> length h = length l ->
  copyDown startLog dst todo l h = Some (moved startLog dst todo l, moved startLog dst todo h).
Proof.
  revert dst l h. induction todo as [|todo IH]; intros dst l h Hl Hh; simpl.
  { unfold moved. rewrite !take_0, !Nat.add_0_r. simpl. by rewrite !take_drop. }
  destruct (lookup_lt_is_Some_2 l (startLog + dst)) as [e He]; [lia |].
  destruct (lookup_lt_is_Some_2 h (startLog + dst)) as [x Hx]; [lia |].
  rewrite He, Hx. simpl. rewrite !array_set_in by lia. simpl.
  rewrite IH by (rewrite !length_insert; lia).
  by rewrite !(moved_step startLog) by (done || lia).
Qed.

(** Compaction keeps the suffix of the live log, and its hashes, in place. *)
Lemma copyLogsToBeginning_spec startLog s :
  array_ok s -> (startLog <= nextLogIdx s)%nat ->
  exists s', copyLogsToBeginning startLog s = Some s' /\
    s' = s <| logs := logs s' |> <| logHashes := logHashes s' |> <| nextLogIdx := nextLogIdx s' |> /\
    nextLogIdx s' = (nextLogIdx s - startLog)%nat /\ array_ok s' /\
    live s' = drop startLog (live s) /\ liveHashes s' = drop startLog (liveHashes s).
Proof.
  intros [Hl Hh Hn] Hst. unfold copyLogsToBeginning.
  rewrite copyDown_moved by lia. simpl. eexists. split; [done |]. fields.
  split; [done |]. split; [done |]. split.
  { constructor; fields; rewrite ?length_moved; lia. }
  unfold live, liveHashes. fields.
  rewrite !take_moved by lia.
  by replace (startLog + (nextLogIdx s - startLog))%nat with (nextLogIdx s) by lia.
Qed.

(** ** The serialization the hash covers is unambiguous on well-formed entries *)

(** The shape of the entries the leader builds: configuration entries carry no
    data, the others no change. *)
Definition payload_ok (e : RaftLog) : Prop :=
  in_int64 (Index e) /\ in_int64 (Term e) /\ in_int64 (Type_ e) /\
  if decide (Type_ e = LogConfiguration) then Data e = [] else Config e = ConfigChange_zero.

(** The inverse of [int64_bytes] on the unsigned value. *)
Definition le_val (bs : bytes) : Z := foldr (fun b acc => byte_to_Z b + 256 * acc) 0 bs.

Lemma length_le_bytes n z : length (le_bytes n z) = n.
Proof. revert z; induction n; intros; simpl; auto. Qed.

Lemma length_int64_bytes z : length (int64_bytes z) = 8%nat.
Proof. apply length_le_bytes. Qed.

Lemma le_val_le_bytes n z : le_val (le_bytes n z) = z mod 2 ^ (8 * Z.of_nat n).
Proof.
  revert z; induction n as [|n IH]; intros z; [by rewrite Z.mod_1_r |].
  simpl le_bytes. unfold le_val in *. simpl foldr. rewrite IH, byte_to_of_Z.
  replace (8 * Z.of_nat (S n)) with (8 + 8 * Z.of_nat n) by lia.
  rewrite Z.pow_add_r, Z.shiftr_div_pow2 by lia.
  change (2 ^ 8) with 256.
  rewrite Z.rem_mul_r by lia. done.
Qed.

Lemma int64_bytes_inj a b :
  in_int64 a -> in_int64 b -> int64_bytes a = int64_bytes b -> a = b.
Proof.
  intros Ha Hb E. apply (f_equal le_val) in E. unfold int64_bytes in E.
  rewrite !le_val_le_bytes in E. change (8 * Z.of_nat 8) with 64 in E.
  pose proof (wrap64_id a Ha) as Wa. pose proof (wrap64_id b Hb) as Wb.
  unfold wrap64 in *. rewrite <- Wa, <- Wb.
  rewrite (Z.add_mod a), (Z.add_mod b) by discriminate. by rewrite E.
Qed.

Lemma list_byte_of_string_inj a b :
  String.list_byte_of_string a = String.list_byte_of_string b -> a = b.
Proof.
  intros E. rewrite <- (String.string_of_list_byte_of_string a), E.
  apply String.string_of_list_byte_of_string.
Qed.

Lemma raftLogBytes_header a b :
  raftLogBytes a = raftLogBytes b ->
  int64_bytes (Index a) = int64_bytes (Index b) /\
  int64_bytes (Term a) = int64_bytes (Term b) /\
  int64_bytes (Type_ a) = int64_bytes (Type_ b) /\
  Data a ++ bool_bytes (Add (Config a)) ++ String.list_byte_of_string (Server (Config a)) =
  Data b ++ bool_bytes (Add (Config b)) ++ String.list_byte_of_string (Server (Config b)).
Proof.
  unfold raftLogBytes. intros E.
  apply app_inj_1 in E as [E1 E]; [| by rewrite !length_int64_bytes].
  apply app_inj_1 in E as [E2 E]; [| by rewrite !length_int64_bytes].
  apply app_inj_1 in E as [E3 E]; [| by rewrite !length_int64_bytes].
  done.
Qed.

Lemma config_bytes_inj c d :
  bool_bytes (Add c) ++ String.list_byte_of_string (Server c) =
  bool_bytes (Add d) ++ String.list_byte_of_string (Server d) -> c = d.
Proof.
  destruct c as [ca cs], d as [da ds]. simpl. intros [=Ha Hs].
  apply list_byte_of_string_inj in Hs as ->. by destruct ca, da.
Qed.

(** C38. What the hash of an entry covers. Two well-formed entries have the same
    hashed bytes exactly when they agree on index, term, type, data and
    configuration change: nothing of these can be altered unnoticed, although
    the fields are concatenated without lengths. The client and its sequence
    number, which deduplication relies on, are not covered. *)
Theorem raftLogBytes_injective a b :
  payload_ok a -> payload_ok b ->
  raftLogBytes a = raftLogBytes b <->
  Index a = Index b /\ Term a = Term b /\ Type_ a = Type_ b /\
  Data a = Data b /\ Config a = Config b.
Proof.
  intros (Ia & Ta & Ya & Pa) (Ib & Tb & Yb & Pb). split.
  2: { intros (E1 & E2 & E3 & E4 & E5). unfold raftLogBytes. by rewrite E1, E2, E3, E4, E5. }
  intros E.
  apply raftLogBytes_header in E as (E1 & E2 & E3 & E4).
  apply int64_bytes_inj in E1; [| done..]. apply int64_bytes_inj in E2; [| done..].
  apply int64_bytes_inj in E3; [| done..]. do 3 (split; [done |]).
  rewrite <- E3 in Pb. destruct (decide (Type_ a = LogConfiguration)).
  - rewrite Pa, Pb in *. simpl in E4. by apply config_bytes_inj in E4.
  - rewrite Pa, Pb in *. apply app_inj_2 in E4 as [? _]; [done | done].
Qed.

Lemma raftLogBytes_injective_witness :
  let e client := mkRaftLog 3 2 LogCommand [Byte.x61] ConfigChange_zero client 1 in
  raftLogBytes (e "alice") = raftLogBytes (e "bob").
Proof.
  cbv zeta. apply raftLogBytes_injective; [repeat split; vm_compute; discriminate || reflexivity.. |]. repeat split.
Defined.

(** ** copyConfig copies *)

Lemma copyConfig_id (m : gmap ServerID bool) : copyConfig m = m.
Proof.
  unfold copyConfig. apply (map_fold_weak_ind (fun r m => r = m)); [done |].
  intros k v m' r _ ->. done.
Qed.

#[export] Hint Rewrite copyConfig_id : raft.

(** ** States that differ in the log only

    The log operations change the arrays, the cursor and the configuration
    fields; [frame] is equality of everything else. *)

Definition erase_log (s : nodeState) : nodeState :=
  s <| logs := [] |> <| logHashes := [] |> <| nextLogIdx := 0%nat |>
    <| serverConfig := ∅ |> <| oldServerConfig := ∅ |> <| lastConfigLogIndex := 0 |>.

Definition frame (s s' : nodeState) : Prop := erase_log s = erase_log s'.

#[export] Instance frame_equivalence : Equivalence frame.
Proof. unfold frame. split; red; congruence. Qed.

#[export] Instance frame_currentTerm : Proper (frame ==> eq) currentTerm.
Proof. intros s s' H. exact (f_equal currentTerm H). Qed.
#[export] Instance frame_votedFor : Proper (frame ==> eq) votedFor.
Proof. intros s s' H. exact (f_equal votedFor H). Qed.
#[export] Instance frame_role : Proper (frame ==> eq) role.
Proof. intros s s' H. exact (f_equal role H). Qed.
#[export] Instance frame_commitIndex : Proper (frame ==> eq) commitIndex.
Proof. intros s s' H. exact (f_equal commitIndex H). Qed.
#[export] Instance frame_lastApplied : Proper (frame ==> eq) lastApplied.
Proof. intros s s' H. exact (f_equal lastApplied H). Qed.
#[export] Instance frame_currentLeader : Proper (frame ==> eq) currentLeader.
Proof. intros s s' H. exact (f_equal currentLeader H). Qed.
#[export] Instance frame_lastSnapshot : Proper (frame ==> eq) lastSnapshot.
Proof. intros s s' H. exact (f_equal lastSnapshot H). Qed.
#[export] Instance frame_base : Proper (frame ==> eq) base.
Proof. intros s s' H. unfold base. by rewrite (frame_lastSnapshot _ _ H). Qed.
#[export] Instance frame_snapTerm : Proper (frame ==> eq) snapTerm.
Proof. intros s s' H. unfold snapTerm. by rewrite (frame_lastSnapshot _ _ H). Qed.
#[export] Instance frame_electionVotes : Proper (frame ==> eq) electionVotes.
Proof. intros s s' H. exact (f_equal electionVotes H). Qed.
#[export] Instance frame_matchIndex : Proper (frame ==> eq) matchIndex.
Proof. intros s s' H. exact (f_equal matchIndex H). Qed.

Lemma array_ok_update s s' :
  array_ok s -> logs s' = logs s -> logHashes s' = logHashes s -> nextLogIdx s' = nextLogIdx s ->
  array_ok s'.
Proof. intros [? ? ?] Hl Hh Hn. constructor; by rewrite ?Hl, ?Hh, ?Hn. Qed.

(** Updates outside the log keep it. *)
Lemma log_ok_update s s' :
  log_ok s -> logs s' = logs s -> logHashes s' = logHashes s -> nextLogIdx s' = nextLogIdx s ->
  lastSnapshot s' = lastSnapshot s -> log_ok s'.
Proof.
  intros [Hok Hc] Hl Hh Hn Hs. split; [by eapply array_ok_update |].
  unfold contiguous, live, base in *. by rewrite Hl, Hn, Hs.
Qed.

Lemma contiguous_take b l n : contiguous_from b l -> contiguous_from b (take n l).
Proof. intros H i e [? ?]%lookup_take_Some. by apply H. Qed.

Lemma contiguous_drop b l n :
  contiguous_from b l -> contiguous_from (b + Z.of_nat n) (drop n l).
Proof. intros H i e He. rewrite lookup_drop in He. rewrite (H _ _ He). lia. Qed.

Lemma contiguous_app b l1 l2 :
  contiguous_from b l1 -> contiguous_from (b + Z.of_nat (length l1)) l2 ->
  contiguous_from b (l1 ++ l2).
Proof.
  intros H1 H2 i e [He|[Hlen He]]%lookup_app_Some; [by apply H1 |].
  rewrite (H2 _ _ He). lia.
Qed.

Lemma contiguous_nil b : contiguous_from b [].
Proof. intros i e He. by rewrite lookup_nil in He. Qed.

Lemma contiguous_singleton b e : Index e = b -> contiguous_from b [e].
Proof. intros <- [|i] x Hx; simpl in Hx; simplify_eq; lia. Qed.

#[export] Hint Resolve contiguous_take contiguous_nil contiguous_singleton : raft.

(** What [getLastLogIdxTerm] reads is a function of the live log. *)
Lemma lastIdx_live s : array_ok s -> lastIdx s = base s + Z.of_nat (length (live s)) - 1.
Proof. intros Hok. unfold lastIdx. by rewrite length_live. Qed.

(** ** The log as a map from log indices *)

Definition log_at (s : nodeState) (k : Z) : option RaftLog :=
  if decide (base s <= k) then live s !! Z.to_nat (k - base s) else None.

Definition hash_at (s : nodeState) (k : Z) : option bytes :=
  if decide (base s <= k) then liveHashes s !! Z.to_nat (k - base s) else None.

Lemma log_at_Some s k e :
  contiguous s -> log_at s k = Some e -> base s <= k <= lastIdx s /\ Index e = k.
Proof.
  intros Hc. unfold log_at. case_decide; [| done]. intros He.
  rewrite (Hc _ _ He). apply lookup_live_Some in He as [? _]. unfold lastIdx. lia.
Qed.

Lemma log_at_is_Some s k :
  array_ok s -> base s <= k <= lastIdx s -> exists e, log_at s k = Some e.
Proof.
  intros Hok Hk. unfold log_at. rewrite decide_True by lia.
  apply lookup_lt_is_Some_2. rewrite length_live by done. unfold lastIdx in Hk. lia.
Qed.

Lemma log_at_position s k i :
  position s k = Some i -> log_at s k = logs s !! i /\ k = base s + Z.of_nat i /\ (i < nextLogIdx s)%nat.
Proof.
  unfold position, log_at. case_decide; intros; simplify_eq.
  rewrite decide_True by lia. rewrite lookup_live by lia. split; [done | lia].
Qed.

Lemma lastTerm_log_at s e : log_at s (lastIdx s) = Some e -> lastTerm s = Term e.
Proof.
  unfold log_at, lastTerm, lastIdx. case_decide; [| done]. intros He.
  replace (Z.to_nat _) with (nextLogIdx s - 1)%nat in He; [by rewrite He |].
  apply lookup_live_Some in He. lia.
Qed.

(** ** The initial state *)

Lemma newNodeState_frame id peers minMs maxMs :
  let s := newNodeState id peers minMs maxMs in
  logs s = replicate logArrayCapacity RaftLog_zero /\
  logHashes s = replicate logArrayCapacity (replicate 32 Byte.x00) /\
  nextLogIdx s = 0%nat /\ lastSnapshot s = None /\ currentTerm s = 0 /\ votedFor s = "" /\
  role s = Follower /\ commitIndex s = -1 /\ lastApplied s = -1 /\ electionVotes s = 0.
Proof.
  cbv zeta. unfold newNodeState.
  match goal with |- context [foldl ?f ?x peers] => set (g := f); set (s0 := x) end.
  enough (forall ps s, let s' := foldl g s ps in
    (logs s', logHashes s', nextLogIdx s', lastSnapshot s', currentTerm s', votedFor s', role s',
     commitIndex s', lastApplied s', electionVotes s') =
    (logs s, logHashes s, nextLogIdx s, lastSnapshot s, currentTerm s, votedFor s, role s,
     commitIndex s, lastApplied s, electionVotes s)) as Hg.
  { specialize (Hg peers s0). cbv zeta in Hg. by simplify_eq Hg. }
  induction ps as [|p ps IH]; intros s s'; [done |].
  unfold s'. simpl foldl. rewrite IH. done.
Qed.

Lemma newNodeState_log_ok id peers minMs maxMs : log_ok (newNodeState id peers minMs maxMs).
Proof.
  destruct (newNodeState_frame id peers minMs maxMs) as (El & Eh & En & Es & _).
  split.
  - constructor; rewrite ?El, ?Eh, ?En, ?length_replicate; lia.
  - unfold contiguous, live. rewrite En, take_0. apply contiguous_nil.
Qed.

#[export] Hint Resolve newNodeState_log_ok : raft.

(** What the hash of the first entry after the snapshot is chained to. *)
Definition chain_seed (s : nodeState) : bytes :=
  match lastSnapshot s with Some snap => Hash snap | None => [] end.

(** The hash of an entry that is not found in the live log, or is its first,
    covers the entry and the snapshot only. *)
Lemma getLogHash_seed s rl :
  findArrayIdxByLogIndex (Index rl) s = Some None \/ findArrayIdxByLogIndex (Index rl) s = Some (Some 0%nat) ->
  getLogHash rl s = Some (sha256 (raftLogBytes rl ++ chain_seed s)).
Proof.
  unfold getLogHash, chain_seed.
  intros [-> | ->]; simpl; destruct (lastSnapshot s); by rewrite ?app_nil_r.
Qed.

Lemma getLogHash_chained s rl i h :
  findArrayIdxByLogIndex (Index rl) s = Some (Some (S i)) -> logHashes s !! i = Some h ->
  getLogHash rl s = Some (sha256 (raftLogBytes rl ++ h)).
Proof. unfold getLogHash. intros -> Hh. simpl. by rewrite Hh. Qed.

(** A live log extended at its end. *)
Lemma snoc_log_at s s' e :
  array_ok s -> base s' = base s -> live s' = live s ++ [e] -> array_ok s' ->
  (base s <= lastIdx s + 1 -> log_at s' (lastIdx s + 1) = Some e) /\
  lastIdx s' = lastIdx s + 1 /\
  (forall k, k <= lastIdx s -> log_at s' k = log_at s k).
Proof.
  intros Hok Eb El Hok'. pose proof (length_live s Hok) as Hlen. split; [| split].
  - intros Hb. unfold log_at, lastIdx. rewrite Eb, El, decide_True by lia.
    rewrite lookup_app_r by lia. replace (_ - _)%nat with 0%nat by lia. done.
  - rewrite !lastIdx_live by done. rewrite Eb, El, length_app. simpl. lia.
  - intros k Hk. unfold log_at. rewrite Eb, El. case_decide; [| done].
    apply lookup_app_l. unfold lastIdx in Hk. lia.
Qed.

Lemma lastIdx_base s : base s <= lastIdx s + 1.
Proof. unfold lastIdx. lia. Qed.

(** The term at a log index, the snapshot's boundary included. *)
Definition termAt (s : nodeState) (k : Z) : Z :=
  if decide (k = base s - 1) then snapTerm s
  else match log_at s k with Some e => Term e | None => 0 end.

Lemma lastTerm_termAt s : array_ok s -> lastTerm s = termAt s (lastIdx s).
Proof.
  intros Hok. unfold termAt. case_decide as Hb.
  - assert (nextLogIdx s = 0%nat) as E by (unfold lastIdx in Hb; lia).
    unfold lastTerm, live. by rewrite E, take_0, lookup_nil.
  - destruct (log_at_is_Some s (lastIdx s) Hok) as [e He].
    { unfold lastIdx in *. lia. }
    rewrite He. by apply lastTerm_log_at.
Qed.
