(* ===== verification/Storage.v ===== *)
(** * Storage: the persistence abstraction (src/storage/storage.go,
    src/storage/memory_storage.go)

    The [Storage] interface as a class over the type of its states, the
    contract its comments document, and the in-memory implementation with the
    proof that it meets the contract. *)
From S2P Require Import Prelude Types State.

(** ** The interface *)

(** A returned error is [false], or [None] for a load; [Some None] is a nil
    pointer without an error. *)
Class Storage (ST : Type) := {
  SaveState : PersistentState -> ST -> ST * bool;
  LoadState : ST -> option (option PersistentState);
  SaveSnapshot : Snapshot -> ST -> ST * bool;
  LoadSnapshot : ST -> option (option Snapshot);
}.

(** What the interface documents: a load returns what the last successful save
    persisted, and the two kinds of data are independent. *)
Class StorageLaws (ST : Type) `{Storage ST} : Prop := {
  load_saved_state : forall ps (st st' : ST),
    SaveState ps st = (st', true) -> LoadState st' = Some (Some ps);
  state_keeps_snapshot : forall ps (st st' : ST) ok,
    SaveState ps st = (st', ok) -> LoadSnapshot st' = LoadSnapshot st;
  load_saved_snapshot : forall snap (st st' : ST),
    SaveSnapshot snap st = (st', true) -> LoadSnapshot st' = Some (Some snap);
  snapshot_keeps_state : forall snap (st st' : ST) ok,
    SaveSnapshot snap st = (st', ok) -> LoadState st' = LoadState st;
}.

(** ** The in-memory implementation *)

Module MemoryStorage.
Record t := mk { state : option PersistentState; snapshot : option Snapshot }.

Definition NewMemoryStorage : t := mk None None.

(** Copies: the log and the data are copied element by element, the
    configuration entry by entry. *)
Definition copyState (ps : PersistentState) : PersistentState :=
  mkPersistentState (CurrentTerm ps) (VotedFor ps) (map (fun e => e) (Logs ps)).

Definition copySnapshot (snap : Snapshot) : Snapshot :=
  mkSnapshot (LastIncludedIndex snap) (LastIncludedTerm snap) (map (fun b => b) (SnapData snap))
    (copyConfig (ServerConfig snap)) (Hash snap).

Definition saveState (ps : PersistentState) (m : t) : t * bool :=
  (mk (Some (copyState ps)) (snapshot m), true).

Definition loadState (m : t) : option (option PersistentState) :=
  match state m with
  | None => Some (Some PersistentState_zero)
  | Some ps => Some (Some (copyState ps))
  end.

Definition saveSnapshot (snap : Snapshot) (m : t) : t * bool :=
  (mk (state m) (Some (copySnapshot snap)), true).

Definition loadSnapshot (m : t) : option (option Snapshot) :=
  match snapshot m with
  | None => Some None
  | Some snap => Some (Some (copySnapshot snap))
  end.

#[global] Instance storage : Storage t := {
  SaveState := saveState;
  LoadState := loadState;
  SaveSnapshot := saveSnapshot;
  LoadSnapshot := loadSnapshot;
}.

Lemma copyState_id ps : copyState ps = ps.
Proof. destruct ps. unfold copyState. simpl. by rewrite map_id. Qed.

Lemma copySnapshot_id snap : copySnapshot snap = snap.
Proof. destruct snap. unfold copySnapshot. simpl. by rewrite map_id, copyConfig_id. Qed.

#[global] Instance laws : StorageLaws t.
Proof.
  split; simpl; unfold saveState, saveSnapshot, loadState, loadSnapshot; intros; simplify_eq; simpl;
    by rewrite ?copyState_id, ?copySnapshot_id.
Qed.

(** A call of the interface. *)
Inductive call := CallState (ps : PersistentState) | CallSnapshot (snap : Snapshot).

Definition perform (m : t) (c : call) : t :=
  match c with
  | CallState ps => (SaveState ps m).1
  | CallSnapshot snap => (SaveSnapshot snap m).1
  end.

Definition states (cs : list call) : list PersistentState :=
  omap (fun c => match c with CallState ps => Some ps | _ => None end) cs.

Definition snapshots (cs : list call) : list Snapshot :=
  omap (fun c => match c with CallSnapshot s => Some s | _ => None end) cs.

(** C40. The last write wins: after any sequence of saves a fresh store loads
    the last state saved (the empty state when there is none) and the last
    snapshot (nil when there is none). *)
Theorem last_write cs :
  let m := foldl perform NewMemoryStorage cs in
  LoadState m = Some (Some (default PersistentState_zero (last (states cs)))) /\
  LoadSnapshot m = Some (last (snapshots cs)).
Proof.
  induction cs as [|c cs [IH1 IH2]] using rev_ind; [done |].
  simpl in *. rewrite foldl_app. unfold states, snapshots in *. rewrite !omap_app.
  destruct c as [ps|snap]; simpl; rewrite ?app_nil_r, ?last_snoc; simpl;
    unfold loadState, loadSnapshot in *; simpl; rewrite ?copyState_id, ?copySnapshot_id; done.
Qed.
End MemoryStorage.
