(* ===== verification/SnapshotOps.v ===== *)
(** * SnapshotOps: log compaction and snapshot transfer (src/raft/snapshot.go)

    The methods of [nodeState]; the goroutines of [RaftNode] that drive them
    are in Node.v. *)
From S2P Require Import Prelude Sha256 Types State.

(** [takeSnapshot] asks the state machine for a snapshot over the channels and
    compacts the log up to the last applied entry. [gameState] is what
    [snapshotLoop] sends back (nil, the empty slice, when the state machine
    failed). The two channel operations are the subject of SnapshotLoop.v: while
    the loop runs the round trip ends with that answer, and after the loop has
    returned it never ends. *)
Definition takeSnapshot (gameState : bytes) (s : nodeState) : option (nodeState * bool) :=
  found ← findArrayIdxByLogIndex (lastApplied s) s;
  match found with
  | None => Some (s, false)
  | Some i =>
      e ← logs s !! i;
      h ← logHashes s !! i;
      let snap :=
        {| LastIncludedIndex := Index e; LastIncludedTerm := Term e; SnapData := gameState;
           ServerConfig := copyConfig (serverConfig s); Hash := h |} in
      s' ← copyLogsToBeginning (S i) (s <| lastSnapshot := Some snap |>);
      Some (s', true)
  end.

(** Dereferences the snapshot: panics when there is none. *)
Definition prepareInstallSnapshotRPC (leaderID : ServerID) (s : nodeState)
    : option InstallSnapshotArgs :=
  snap ← lastSnapshot s;
  Some {| is_ID := leaderID; is_Term := currentTerm s;
          is_LastIncludedIndex := LastIncludedIndex snap;
          is_LastIncludedTerm := LastIncludedTerm snap;
          is_Data := SnapData snap;
          is_ServerConfiguration := copyConfig (ServerConfig snap);
          is_Hash := Hash snap |}.

(** The send on [snapshotInstallChan] waits while the channel holds
    [snapshotInstallCap] snapshots, with the lock held: [enabled] in Panics.v
    says when it can take place. *)
Definition handleInstallSnapshotRequest (myID : ServerID) (isa : InstallSnapshotArgs)
    (s : nodeState) : nodeState * InstallSnapshotResponse :=
  if is_Term isa <? currentTerm s then
    (s, {| isr_ID := myID; isr_Term := currentTerm s; isr_Success := false;
           isr_LastIncludedIndex := 0; isr_LastIncludedTerm := 0 |})
  else
    let s := if currentTerm s <? is_Term isa then updateCurrentTerm (is_Term isa) s else s in
    let ack :=
      {| isr_ID := myID; isr_Term := currentTerm s; isr_Success := true;
         isr_LastIncludedIndex := is_LastIncludedIndex isa;
         isr_LastIncludedTerm := is_LastIncludedTerm isa |} in
    if is_LastIncludedIndex isa <=? lastApplied s then (s, ack)
    else
      let newSnap :=
        {| LastIncludedIndex := is_LastIncludedIndex isa;
           LastIncludedTerm := is_LastIncludedTerm isa;
           SnapData := is_Data isa;
           ServerConfig := copyConfig (is_ServerConfiguration isa);
           Hash := is_Hash isa |} in
      (s <| lastSnapshot := Some newSnap |>
         <| nextLogIdx := 0%nat |>
         <| commitIndex := is_LastIncludedIndex isa |>
         <| lastApplied := is_LastIncludedIndex isa |>
         <| snapshotInstallChan := snapshotInstallChan s ++ [is_Data isa] |>, ack).

Definition handleInstallSnapshotResponse (myID : ServerID) (isr : InstallSnapshotResponse)
    (s : nodeState) : nodeState * Z :=
  if negb (isr_Success isr) then
    if currentTerm s <=? isr_Term isr then
      (updateCurrentTerm (isr_Term isr) (s <| role := Follower |>)
         <| currentLeader := isr_ID isr |>, -1)
    else (s, -1)
  else
    let s :=
      s <| lastSentLogIndex := <[isr_ID isr := isr_LastIncludedIndex isr]> (lastSentLogIndex s) |>
        <| nextIndex := <[isr_ID isr := isr_LastIncludedIndex isr +! 1]> (nextIndex s) |>
        <| matchIndex := <[isr_ID isr := isr_LastIncludedIndex isr]> (matchIndex s) |> in
    (s, map_get (matchIndex s) (isr_ID isr)).

(** The number of leading entries at or below the snapshot. *)
Fixpoint purgeCount (lastSnapIdx : Z) (es : list RaftLog) : nat :=
  match es with
  | e :: es' => if Index e <=? lastSnapIdx then S (purgeCount lastSnapIdx es') else O
  | [] => O
  end.

(** Returns the arguments the call leaves behind in [*aea]. *)
Definition purgeEntriesFromSnapshot (s : nodeState) (aea : AppendEntriesArgs)
    : option AppendEntriesArgs :=
  match lastSnapshot s with
  | None => Some aea
  | Some snap =>
      match purgeCount (LastIncludedIndex snap) (ae_Entries aea) with
      | O => Some aea
      | S k =>
          e ← ae_Entries aea !! k;
          Some {| ae_Term := ae_Term aea; ae_LeaderID := ae_LeaderID aea;
                  ae_PrevLogIndex := Index e; ae_PrevLogTerm := Term e;
                  ae_Entries := drop (S k) (ae_Entries aea);
                  ae_LeaderCommit := ae_LeaderCommit aea |}
      end
  end.

(** ** Lemmas *)

Section snapshot.
Implicit Types s : nodeState.

(** The snapshot [takeSnapshot] builds from the entry and hash it stops at. *)
Definition snapshotOf (gameState : bytes) (s : nodeState) (e : RaftLog) (h : bytes) : Snapshot :=
  {| LastIncludedIndex := Index e; LastIncludedTerm := Term e; SnapData := gameState;
     ServerConfig := serverConfig s; Hash := h |}.

Lemma takeSnapshot_out gameState s :
  log_ok s -> position s (lastApplied s) = None -> takeSnapshot gameState s = Some (s, false).
Proof. intros Hok Hp. unfold takeSnapshot. by rewrite find_position, Hp. Qed.

Lemma takeSnapshot_in gameState s i :
  log_ok s -> position s (lastApplied s) = Some i ->
  exists s' e h, takeSnapshot gameState s = Some (s', true) /\
    log_at s (lastApplied s) = Some e /\ hash_at s (lastApplied s) = Some h /\
    s' = s <| lastSnapshot := Some (snapshotOf gameState s e h) |>
           <| logs := logs s' |> <| logHashes := logHashes s' |>
           <| nextLogIdx := (nextLogIdx s - S i)%nat |> /\
    log_ok s' /\ live s' = drop (S i) (live s) /\ liveHashes s' = drop (S i) (liveHashes s).
Proof.
  intros Hlog Hp. unfold takeSnapshot. rewrite find_position, Hp by done. simpl.
  destruct (log_at_position _ _ _ Hp) as (Hat & Hk & Hi).
  destruct Hlog as [Hok Hc]. destruct (live_lookup_lt s i Hok Hi) as [e He].
  destruct (lookup_lt_is_Some_2 (logHashes s) i) as [h Hh]; [destruct Hok; lia |].
  rewrite He, Hh. simpl. rewrite copyConfig_id. fold (snapshotOf gameState s e h).
  set (s1 := s <| lastSnapshot := Some (snapshotOf gameState s e h) |>).
  destruct (copyLogsToBeginning_spec (S i) s1) as (s' & Hrun & Es' & En & Hok' & Hl & Hhs).
  { by eapply array_ok_update. }
  { change (nextLogIdx s1) with (nextLogIdx s). lia. }
  rewrite Hrun. simpl. exists s', e, h. split; [done |]. split; [by rewrite Hat |].
  split.
  { unfold hash_at, liveHashes. rewrite decide_True by lia.
    rewrite lookup_take_lt by lia. by replace (Z.to_nat _) with i by lia. }
  split; [rewrite En in Es'; exact Es' |].
  split; [| done]. split; [done |].
  unfold contiguous. rewrite Hl. rewrite Es'. unfold base at 1. fields.
  change (lastSnapshot s1) with (Some (snapshotOf gameState s e h)). simpl.
  assert (Index e = base s + Z.of_nat i) as -> by (apply Hc; by rewrite lookup_live).
  replace (base s + Z.of_nat i + 1) with (base s + Z.of_nat (S i)) by lia.
  by apply contiguous_drop.
Qed.

(** It never panics, whatever the log holds. *)
Lemma takeSnapshot_total gameState s :
  array_ok s -> exists s' ok, takeSnapshot gameState s = Some (s', ok) /\ array_ok s' /\
    currentTerm s' = currentTerm s /\ votedFor s' = votedFor s /\ role s' = role s.
Proof.
  intros Hok. unfold takeSnapshot.
  destruct (find_total s (lastApplied s) Hok) as (r & -> & Hr). simpl.
  destruct r as [i|]; [| by exists s, false].
  specialize (Hr i eq_refl).
  destruct (live_lookup_lt s i Hok Hr) as [e ->]. simpl.
  destruct (lookup_lt_is_Some_2 (logHashes s) i) as [h ->]; [destruct Hok; lia |]. simpl.
  match goal with |- context [copyLogsToBeginning _ ?x] => set (s1 := x) end.
  destruct (copyLogsToBeginning_spec (S i) s1) as (s' & -> & Es' & _ & Hok' & _).
  { by eapply array_ok_update. }
  { change (nextLogIdx s1) with (nextLogIdx s). lia. }
  simpl. exists s', true. split; [done |]. split; [done |]. by rewrite Es'.
Qed.
End snapshot.
