(* ===== verification/ConfigChange.v ===== *)
(** * ConfigChange: cluster membership (src/raft/config_change.go)

    The methods of [nodeState] that queue, start and finish single-server
    membership changes. *)
From S2P Require Import Prelude Sha256 Types State SnapshotOps.

(** ** Appending one entry to the leader's log

    The statements shared by [addCommandLog], [addNoopLogLocked] and
    [addConfigLog]: store the entry and its hash at [nextLogIdx], advance the
    cursor, and move the node's own replication cursors. The hash is computed
    before the cursor moves. *)
Definition storeEntry (entry : RaftLog) (s : nodeState) : option nodeState :=
  l ← array_set (logs s) (nextLogIdx s) entry;
  let s := s <| logs := l |> in
  h ← getLogHash entry s;
  hs ← array_set (logHashes s) (nextLogIdx s) h;
  Some (s <| logHashes := hs |> <| nextLogIdx := S (nextLogIdx s) |>).

Definition trackOwn (id : ServerID) (idx : Z) (s : nodeState) : nodeState :=
  s <| matchIndex := <[id := idx]> (matchIndex s) |>
    <| lastSentLogIndex := <[id := idx]> (lastSentLogIndex s) |>
    <| nextIndex := <[id := idx +! 1]> (nextIndex s) |>.

Definition appendEntry (id : ServerID) (entry : RaftLog) (s : nodeState) : option nodeState :=
  s ← storeEntry entry s;
  Some (trackOwn id (Index entry) s).

(** ** Configurations *)

Definition applyConfigurationLocked (logIdx : Z) (cfg : ConfigChange) (s : nodeState) : nodeState :=
  let s := s <| oldServerConfig := copyConfig (serverConfig s) |> in
  let s :=
    if Add cfg then s <| serverConfig := <[Server cfg := true]> (serverConfig s) |>
    else s <| serverConfig := delete (Server cfg) (serverConfig s) |> in
  s <| lastConfigLogIndex := logIdx |>.

Definition configLogEntry (lastIdx term : Z) (cfg : ConfigChange) : RaftLog :=
  mkRaftLog (lastIdx +! 1) term LogConfiguration [] cfg "" 0.

Definition addConfigLog (gameState : bytes) (leaderID : ServerID) (cfg : ConfigChange)
    (s : nodeState) : option (nodeState * bool) :=
  '(lastIdx, _) ← getLastLogIdxTerm s;
  let entry := configLogEntry lastIdx (currentTerm s) cfg in
  let s := applyConfigurationLocked (lastIdx +! 1) cfg s in
  '(s, full) ←
    (if (logArrayCapacity <=? nextLogIdx s)%nat then
       '(s, ok) ← takeSnapshot gameState s;
       Some (s, negb ok || (logArrayCapacity <=? nextLogIdx s)%nat)
     else Some (s, false));
  if full : bool then Some (s, false)
  else
    s ← appendEntry leaderID entry s;
    Some (s, true).

Definition addConfigLogUnlocked (leaderID : ServerID) (cfg : ConfigChange) (s : nodeState)
    : option nodeState :=
  '(lastIdx, _) ← getLastLogIdxTerm s;
  let entry := configLogEntry lastIdx (currentTerm s) cfg in
  let s := applyConfigurationLocked (lastIdx +! 1) cfg s in
  if (logArrayCapacity <=? nextLogIdx s)%nat then Some s
  else appendEntry leaderID entry s.

(** [(true, entry)] is [Some entry]; popping an empty queue panics. *)
Definition handleNextConfigurationChange (s : nodeState)
    : option (nodeState * option configEntry) :=
  if inConfigChange s || (pendingConfigs s =? 0) then Some (s, None)
  else
    let s := s <| inConfigChange := true |> in
    entry ← configQueue s !! 0%nat;
    let s := s <| configQueue := drop 1 (configQueue s) |>
               <| pendingConfigs := pendingConfigs s -! 1 |> in
    s ← addConfigLogUnlocked (currentLeader s) (msg entry) s;
    Some (s, Some entry).

(** The lock is released between the two halves; [enqueueConfig] is the first. *)
Definition enqueueConfig (entry : configEntry) (s : nodeState) : nodeState :=
  s <| configQueue := configQueue s ++ [entry] |>
    <| pendingConfigs := pendingConfigs s +! 1 |>.

Definition handleConfigurationRPC (entry : configEntry) (s : nodeState)
    : option (nodeState * option configEntry) :=
  handleNextConfigurationChange (enqueueConfig entry s).

Definition unlockNextConfiguration (s : nodeState) : nodeState := s <| inConfigChange := false |>.

(** ** Servers *)

Definition addNewServer (id : ServerID) (s : nodeState) : nodeState :=
  match nextIndex s !! id with
  | Some _ => s
  | None =>
      s <| lastSentLogIndex := <[id := 0]> (lastSentLogIndex s) |>
        <| nextIndex := <[id := 0]> (nextIndex s) |>
        <| matchIndex := <[id := 0]> (matchIndex s) |>
  end.

Definition removeServer (id : ServerID) (s : nodeState) : nodeState :=
  s <| serverConfig := delete id (serverConfig s) |>
    <| clientLastSeq := delete id (clientLastSeq s) |>.

Definition serverInConfiguration (id : ServerID) (s : nodeState) : bool :=
  bool_decide (is_Some (serverConfig s !! id)).

Definition addUnvotingServer (entry : configEntry) (s : nodeState) : nodeState :=
  s <| unvotingServers := <[Server (msg entry) := entry]> (unvotingServers s) |>.

Definition removeUnvotingServer (id : ServerID) (s : nodeState)
    : nodeState * option configEntry :=
  match unvotingServers s !! id with
  | Some entry => (s <| unvotingServers := delete id (unvotingServers s) |>, Some entry)
  | None => (s, None)
  end.

(** Go ranges over a map in an unspecified order; stdpp's order stands for it. *)
Definition getUnvotingServerIDs (s : nodeState) : list ServerID :=
  (map_to_list (unvotingServers s)).*1.

(** ** Lemmas on appending *)

Section appending.
Implicit Types s : nodeState.

Lemma storeEntry_spec e s :
  log_ok s -> (nextLogIdx s < logArrayCapacity)%nat -> Index e = lastIdx s + 1 ->
  exists s', storeEntry e s = Some s' /\ log_ok s' /\
    s' = s <| logs := logs s' |> <| logHashes := logHashes s' |>
           <| nextLogIdx := S (nextLogIdx s) |> /\
    live s' = live s ++ [e] /\
    liveHashes s' = liveHashes s ++ [sha256 (raftLogBytes e ++ chain_seed s)].
Proof.
  intros [Hok Hc] Hcap Hidx. pose proof Hok as [Hl Hh Hn]. unfold storeEntry.
  rewrite array_set_in by lia. simpl.
  set (s1 := s <| logs := <[nextLogIdx s := e]> (logs s) |>).
  assert (live s1 = live s) as Hlive by (unfold live, s1; fields; by rewrite take_insert_ge).
  assert (log_ok s1) as Hlog1.
  { split; [constructor; unfold s1; fields; rewrite ?length_insert; done |].
    unfold contiguous. by rewrite Hlive. }
  assert (position s1 (Index e) = None) as Hpos.
  { unfold position. rewrite decide_False; [done |]. rewrite Hidx. unfold lastIdx.
    change (base s1) with (base s). change (nextLogIdx s1) with (nextLogIdx s). lia. }
  rewrite getLogHash_seed by (left; by rewrite find_position, Hpos). simpl.
  set (h := sha256 (raftLogBytes e ++ chain_seed s1)).
  rewrite array_set_in by (change (logHashes s1) with (logHashes s);
                           change (nextLogIdx s1) with (nextLogIdx s); lia).
  simpl. eexists. split; [done |]. fields.
  change (nextLogIdx s1) with (nextLogIdx s). change (logHashes s1) with (logHashes s).
  assert (take (S (nextLogIdx s)) (<[nextLogIdx s := e]> (logs s)) = live s ++ [e]) as Et
    by (apply take_insert_snoc; lia).
  split.
  { split; [constructor; unfold s1; fields; rewrite ?length_insert; lia |].
    unfold contiguous, live, s1. fields. rewrite Et.
    change (contiguous_from (base s) (live s ++ [e])).
    apply contiguous_app; [done |]. rewrite length_live by done.
    apply contiguous_singleton. rewrite Hidx. unfold lastIdx. lia. }
  split; [done |]. unfold live, liveHashes, s1. fields. split; [exact Et |].
  apply take_insert_snoc. lia.
Qed.

Lemma appendEntry_spec id e s :
  log_ok s -> (nextLogIdx s < logArrayCapacity)%nat -> Index e = lastIdx s + 1 ->
  exists s', appendEntry id e s = Some (trackOwn id (Index e) s') /\
    log_ok (trackOwn id (Index e) s') /\
    s' = s <| logs := logs s' |> <| logHashes := logHashes s' |>
           <| nextLogIdx := S (nextLogIdx s) |> /\
    live s' = live s ++ [e] /\
    liveHashes s' = liveHashes s ++ [sha256 (raftLogBytes e ++ chain_seed s)].
Proof.
  intros Hlog Hcap Hidx. unfold appendEntry.
  destruct (storeEntry_spec e s Hlog Hcap Hidx) as (s' & -> & Hlog' & Es' & Hl & Hh). simpl.
  exists s'. split; [done |]. split; [| done].
  by eapply log_ok_update.
Qed.

(** Without contiguity: no panic, and the arrays keep their bounds. *)
Lemma appendEntry_total id e s :
  array_ok s -> (nextLogIdx s < logArrayCapacity)%nat ->
  exists s', appendEntry id e s = Some s' /\ array_ok s' /\
    currentTerm s' = currentTerm s /\ votedFor s' = votedFor s /\ role s' = role s /\
    serverConfig s' = serverConfig s.
Proof.
  intros [Hl Hh Hn] Hcap. unfold appendEntry, storeEntry.
  rewrite array_set_in by lia. simpl.
  set (s1 := s <| logs := <[nextLogIdx s := e]> (logs s) |>).
  assert (array_ok s1) as Hok1.
  { constructor; unfold s1; fields; rewrite ?length_insert; done. }
  destruct (getLogHash_total s1 e Hok1) as [h ->]. simpl.
  rewrite array_set_in by (change (logHashes s1) with (logHashes s);
                           change (nextLogIdx s1) with (nextLogIdx s); lia).
  simpl. eexists. split; [done |]. unfold trackOwn, s1. fields.
  split; [constructor; fields; rewrite ?length_insert; lia |]. done.
Qed.
End appending.
