(* ===== verification/Log.v ===== *)
(** * Log: log replication (src/raft/log.go)

    The methods of [nodeState] that append, replicate, merge, commit and apply
    log entries. *)
From S2P Require Import Prelude GoFloat Sha256 Types State SnapshotOps ConfigChange.

(** ** The leader appends *)

Definition addCommandLog (gameState : bytes) (id : ServerID) (clientID : string) (seqNum : Z)
    (data : bytes) (s : nodeState) : option (nodeState * Z) :=
  '(lastIdx, _) ← getLastLogIdxTerm s;
  let entry := mkRaftLog (lastIdx +! 1) (currentTerm s) LogCommand data ConfigChange_zero clientID seqNum in
  '(s, full) ←
    (if (logArrayCapacity <=? nextLogIdx s)%nat then
       '(s, ok) ← takeSnapshot gameState s;
       Some (s, negb ok || (logArrayCapacity <=? nextLogIdx s)%nat)
     else Some (s, false));
  if full : bool then Some (s, -1)
  else
    s ← appendEntry id entry s;
    Some (s, Index entry).

Definition addNoopLogLocked (id : ServerID) (s : nodeState) : option nodeState :=
  '(lastIdx, _) ← getLastLogIdxTerm s;
  let entry := mkRaftLog (lastIdx +! 1) (currentTerm s) LogNoop [] ConfigChange_zero "" 0 in
  if (logArrayCapacity <=? nextLogIdx s)%nat then Some s
  else appendEntry id entry s.

(** ** The leader sends *)

Definition getAppendEntriesArgs (id : ServerID) (s : nodeState)
    : option (nodeState * option AppendEntriesArgs) :=
  '(myLastIdx, myLastTerm) ← getLastLogIdxTerm s;
  let serverNextIdx := map_get (nextIndex s) id in
  found ← findArrayIdxByLogIndex serverNextIdx s;
  if bool_decide (found = None) && (serverNextIdx <=? myLastIdx) then Some (s, None)
  else
    logsToSend ←
      match found with
      | Some i => if (nextLogIdx s <=? length (logs s))%nat
                  then Some (drop i (take (nextLogIdx s) (logs s))) else None
      | None => Some []
      end;
    '(prevLogIdx, prevLogTerm) ←
      match found with
      | None => Some (myLastIdx, myLastTerm)
      | Some O =>
          match lastSnapshot s with
          | Some snap => Some (LastIncludedIndex snap, LastIncludedTerm snap)
          | None => Some (-1, -1)
          end
      | Some (S i) => prev ← logs s !! i; Some (Index prev, Term prev)
      end;
    let sent :=
      match logsToSend !! (length logsToSend - 1)%nat with
      | Some lst => Index lst
      | None => serverNextIdx -! 1
      end in
    Some (s <| lastSentLogIndex := <[id := sent]> (lastSentLogIndex s) |>,
          Some {| ae_Term := currentTerm s; ae_LeaderID := currentLeader s;
                  ae_PrevLogIndex := prevLogIdx; ae_PrevLogTerm := prevLogTerm;
                  ae_Entries := logsToSend; ae_LeaderCommit := commitIndex s |}).

(** ** The follower merges *)

(** [s.logs[pos] = entry; s.nextLogIdx = pos + 1; s.logHashes[pos] = s.getLogHash(entry)],
    and the configuration when the entry carries one: both branches of the merge
    loop end with these statements. *)
Definition placeEntry (pos : nat) (entry : RaftLog) (s : nodeState) : option nodeState :=
  l ← array_set (logs s) pos entry;
  let s := s <| logs := l |> <| nextLogIdx := S pos |> in
  h ← getLogHash entry s;
  hs ← array_set (logHashes s) pos h;
  let s := s <| logHashes := hs |> in
  Some (if decide (Type_ entry = LogConfiguration)
        then applyConfigurationLocked (Z.of_nat pos) (Config entry) s else s).

Definition mergeEntry (pos : nat) (entry : RaftLog) (s : nodeState) : option nodeState :=
  if (nextLogIdx s <=? pos)%nat then placeEntry pos entry s
  else
    cur ← logs s !! pos;
    if negb (Index cur =? Index entry) || negb (Term cur =? Term entry) then
      let s := if Index cur <=? lastConfigLogIndex s
               then s <| serverConfig := copyConfig (oldServerConfig s) |> else s in
      placeEntry pos entry s
    else Some s.

Fixpoint mergeEntries (pos : nat) (entries : list RaftLog) (s : nodeState) : option nodeState :=
  match entries with
  | [] => Some s
  | entry :: rest => s ← mergeEntry pos entry s; mergeEntries (S pos) rest s
  end.

(** Step 2: [None] rejects, [Some p] accepts with the array position [p] from
    which the entries are merged ([prevLogArrIdx + 1]). *)
Definition checkPrevLog (aea : AppendEntriesArgs) (s : nodeState) : option (option nat) :=
  if 0 <=? ae_PrevLogIndex aea then
    found ← findArrayIdxByLogIndex (ae_PrevLogIndex aea) s;
    match found with
    | None =>
        match lastSnapshot s with
        | None => Some None
        | Some snap =>
            if LastIncludedIndex snap <? ae_PrevLogIndex aea then Some None else Some (Some O)
        end
    | Some arrIdx =>
        e ← logs s !! arrIdx;
        if negb (Term e =? ae_PrevLogTerm aea) then Some None else Some (Some (S arrIdx))
    end
  else Some (Some O).

(** Step 5. *)
Definition advanceCommit `{GoPlatform} (aea : AppendEntriesArgs) (s : nodeState) : nodeState :=
  if commitIndex s <? ae_LeaderCommit aea then
    match ae_Entries aea !! (length (ae_Entries aea) - 1)%nat with
    | Some lastEntry => s <| commitIndex := go_float_min (ae_LeaderCommit aea) (Index lastEntry) |>
    | None => s <| commitIndex := ae_LeaderCommit aea |>
    end
  else s.

Definition stepDown (s : nodeState) : nodeState :=
  match role s with
  | Candidate | Leader => stopElectionTimeoutLocked s <| role := Follower |>
  | Follower => s
  end.

Definition handleAppendEntries `{GoPlatform} (gameState : bytes) (myID : ServerID)
    (aea : AppendEntriesArgs) (s : nodeState) : option (nodeState * AppendEntriesResponse) :=
  '(lastIdx, _) ← getLastLogIdxTerm s;
  let reply s ok := mkAppendEntriesResponse myID (currentTerm s) ok lastIdx in
  if ae_Term aea <? currentTerm s then Some (s, reply s false)
  else
    let s := if currentTerm s <? ae_Term aea then updateCurrentTerm (ae_Term aea) s else s in
    let s := stepDown s in
    prev ← checkPrevLog aea s;
    match prev with
    | None => Some (s, reply s false)
    | Some startNext =>
        let s := s <| currentLeader := ae_LeaderID aea |> in
        let full := (logArrayCapacity <=? startNext + length (ae_Entries aea))%nat in
        '(s, rejected) ←
          (if full then '(s, ok) ← takeSnapshot gameState s; Some (s, negb ok || full)
           else Some (s, false));
        if rejected : bool then Some (s, reply s false)
        else
          s ← mergeEntries startNext (ae_Entries aea) s;
          let s := advanceCommit aea s in
          Some (s, reply s true)
    end.

(** ** The leader collects *)

Definition handleAppendEntriesResponse (myID : ServerID) (aer : AppendEntriesResponse)
    (s : nodeState) : nodeState * (Z * bool) :=
  if negb (aer_Success aer) then
    if currentTerm s <? aer_Term aer then
      (updateCurrentTerm (aer_Term aer) (s <| role := Follower |>)
         <| currentLeader := aer_ID aer |>, (-1, false))
    else
      let next := if 0 <=? aer_LastIndex aer then aer_LastIndex aer else 0 in
      let s := s <| nextIndex := <[aer_ID aer := next]> (nextIndex s) |> in
      let needSnapshot :=
        match lastSnapshot s with
        | Some snap => map_get (nextIndex s) (aer_ID aer) <=? LastIncludedIndex snap
        | None => false
        end in
      (s, (-1, needSnapshot))
  else
    let sent := map_get (lastSentLogIndex s) (aer_ID aer) in
    (s <| nextIndex := <[aer_ID aer := sent +! 1]> (nextIndex s) |>
       <| matchIndex := <[aer_ID aer := sent]> (matchIndex s) |>, (sent, false)).

(** How many tracked servers have replicated log index [idx]. *)
Definition replicated (idx : Z) (m : gmap ServerID Z) : nat :=
  size (filter (fun kv => idx <= kv.2) m).

Definition committable (s : nodeState) (e : RaftLog) : bool :=
  (size (serverConfig s) / 2 <? replicated (Index e) (matchIndex s))%nat
    && (Term e =? currentTerm s).

Fixpoint checkCommitsFrom (n : nat) (s : nodeState) : option nodeState :=
  match n with
  | O => Some s
  | S i =>
      e ← logs s !! i;
      if Index e <=? commitIndex s then Some s
      else if committable s e then Some (s <| commitIndex := Index e |>)
      else checkCommitsFrom i s
  end.

Definition checkCommits (s : nodeState) : option nodeState := checkCommitsFrom (nextLogIdx s) s.

(** ** Applying *)

Definition updateLastApplied (s : nodeState) : option (nodeState * option nat) :=
  if commitIndex s <=? lastApplied s then Some (s, None)
  else
    found ← findArrayIdxByLogIndex (lastApplied s +! 1) s;
    match found with
    | Some i => Some (s <| lastApplied := lastApplied s +! 1 |>, Some i)
    | None => Some (s, None)
    end.

Definition getLog (i : nat) (s : nodeState) : option RaftLog := logs s !! i.

(** ** Abstract specification of the follower's log

    A log is a snapshot boundary and the list of entries after it. The
    protocol's AppendEntries rule on such logs, without arrays: check the
    entry at [PrevLogIndex], then merge. *)

Record AbsLog := mkAbsLog { a_base : Z; a_entries : list RaftLog }.

Definition abs (s : nodeState) : AbsLog := mkAbsLog (base s) (live s).

Definition same_entry (x e : RaftLog) : bool := (Index x =? Index e) && (Term x =? Term e).

(** Keep matching entries; at the first difference drop the tail and take the
    rest of the message. *)
Fixpoint mergeTail (tail es : list RaftLog) : list RaftLog :=
  match es, tail with
  | [], _ => tail
  | _, [] => es
  | e :: es', x :: tail' => if same_entry x e then x :: mergeTail tail' es' else es
  end.

(** The number of entries kept in front of the merge, or a rejection. *)
Definition abs_prev (prevIdx prevTerm : Z) (l : AbsLog) : option nat :=
  if decide (prevIdx < 0 \/ prevIdx < a_base l) then Some 0%nat
  else
    match a_entries l !! Z.to_nat (prevIdx - a_base l) with
    | Some e => if Term e =? prevTerm then Some (S (Z.to_nat (prevIdx - a_base l))) else None
    | None => None
    end.

Definition abs_merge (start : nat) (es : list RaftLog) (l : AbsLog) : AbsLog :=
  mkAbsLog (a_base l) (take start (a_entries l) ++ mergeTail (drop start (a_entries l)) es).

(** The commit index after step 5. *)
Definition commit_after `{GoPlatform} (aea : AppendEntriesArgs) (commit : Z) : Z :=
  if commit <? ae_LeaderCommit aea then
    match ae_Entries aea !! (length (ae_Entries aea) - 1)%nat with
    | Some lastEntry => go_float_min (ae_LeaderCommit aea) (Index lastEntry)
    | None => ae_LeaderCommit aea
    end
  else commit.

(** Adopting the term of a message that is not stale, as a follower. *)
Definition acceptTerm (t : Z) (s : nodeState) : nodeState :=
  stepDown (if currentTerm s <? t then updateCurrentTerm t s else s).

(** ** Lemmas on the merge *)

Lemma mergeTail_nil_l es : mergeTail [] es = es.
Proof. by destruct es. Qed.

Lemma mergeTail_nil_r l : mergeTail l [] = l.
Proof. by destruct l. Qed.

Lemma same_entry_spec x e :
  same_entry x e = true <-> Index x = Index e /\ Term x = Term e.
Proof. unfold same_entry. rewrite andb_true_iff, !Z.eqb_eq. done. Qed.

(** Every entry of the message is in the result, up to the fields the code
    compares. *)
Lemma mergeTail_agrees tail es i e :
  es !! i = Some e ->
  exists x, mergeTail tail es !! i = Some x /\ Index x = Index e /\ Term x = Term e.
Proof.
  revert tail i. induction es as [|e0 es IH]; intros tail i He; [done |].
  destruct tail as [|x tail]; simpl; [by eauto |].
  destruct (same_entry x e0) eqn:E; [| by eauto].
  destruct i as [|i]; simpl in *; simplify_eq.
  - apply same_entry_spec in E. eauto.
  - by apply IH.
Qed.

Lemma mergeTail_contiguous b tail es :
  contiguous_from b tail -> contiguous_from b es -> contiguous_from b (mergeTail tail es).
Proof.
  revert b es. induction tail as [|x tail IH]; intros b [|e es] Ht He; simpl; try done.
  destruct (same_entry x e) eqn:E; [| done].
  change (x :: mergeTail tail es) with ([x] ++ mergeTail tail es).
  apply contiguous_app; simpl.
  - apply contiguous_singleton. rewrite (Ht 0%nat x eq_refl). lia.
  - apply IH; intros i y Hy; [rewrite (Ht (S i) y Hy) | rewrite (He (S i) y Hy)]; lia.
Qed.

Section merge.
Implicit Types s : nodeState.

Lemma applyConfigurationLocked_frame k c s :
  frame s (applyConfigurationLocked k c s) /\
  logs (applyConfigurationLocked k c s) = logs s /\
  logHashes (applyConfigurationLocked k c s) = logHashes s /\
  nextLogIdx (applyConfigurationLocked k c s) = nextLogIdx s.
Proof. unfold applyConfigurationLocked. destruct (Add c); by repeat split. Qed.

Lemma placeEntry_spec pos e s :
  array_ok s -> (pos <= nextLogIdx s)%nat -> (pos < logArrayCapacity)%nat ->
  exists s', placeEntry pos e s = Some s' /\ array_ok s' /\ frame s s' /\
    nextLogIdx s' = S pos /\ live s' = take pos (live s) ++ [e].
Proof.
  intros [Hl Hh Hn] Hpos Hcap. unfold placeEntry.
  rewrite array_set_in by lia. simpl.
  set (s1 := s <| logs := <[pos := e]> (logs s) |> <| nextLogIdx := S pos |>).
  assert (array_ok s1) as Hok1.
  { constructor; unfold s1; fields; rewrite ?length_insert; lia. }
  destruct (getLogHash_total s1 e Hok1) as [h Hhash]. rewrite Hhash. simpl.
  rewrite array_set_in by (change (logHashes s1) with (logHashes s); lia). simpl.
  set (s2 := s1 <| logHashes := <[pos := h]> (logHashes s1) |>).
  assert (array_ok s2) as Hok2.
  { destruct Hok1. constructor; unfold s2; fields; rewrite ?length_insert; done. }
  assert (live s2 = take pos (live s) ++ [e]) as Hlive.
  { unfold live, s2, s1. fields. rewrite take_insert_snoc by lia.
    by rewrite take_take, Nat.min_l by lia. }
  case_decide.
  - destruct (applyConfigurationLocked_frame (Z.of_nat pos) (Config e) s2) as (Hf & El & Eh & En).
    exists (applyConfigurationLocked (Z.of_nat pos) (Config e) s2).
    split; [done |]. split; [by eapply array_ok_update |].
    split; [by etrans; [| exact Hf] |]. rewrite En. split; [done |].
    unfold live. by rewrite El, En.
  - exists s2. do 4 (split; [done |]). done.
Qed.

Lemma mergeEntry_spec pos e s :
  array_ok s -> (pos <= nextLogIdx s)%nat -> (pos < logArrayCapacity)%nat ->
  exists s', mergeEntry pos e s = Some s' /\ array_ok s' /\ frame s s' /\
    ((live s !! pos = None \/ exists x, live s !! pos = Some x /\ same_entry x e = false) /\
       nextLogIdx s' = S pos /\ live s' = take pos (live s) ++ [e]
     \/ (exists x, live s !! pos = Some x /\ same_entry x e = true) /\ s' = s).
Proof.
  intros Hok Hpos Hcap. unfold mergeEntry.
  destruct (Nat.leb_spec (nextLogIdx s) pos) as [Hge|Hlt].
  { destruct (placeEntry_spec pos e s Hok Hpos Hcap) as (s' & ? & ? & ? & ? & ?).
    exists s'. do 3 (split; [done |]). left. split; [| done]. left.
    apply lookup_ge_None. rewrite length_live; done. }
  destruct (live_lookup_lt s pos Hok Hlt) as [x Hx]. rewrite Hx. simpl.
  rewrite <- negb_andb. change ((Index x =? Index e) && (Term x =? Term e)) with (same_entry x e).
  rewrite <- lookup_live in Hx by done.
  destruct (same_entry x e) eqn:E; simpl.
  { exists s. do 3 (split; [done |]). right. eauto. }
  set (s1 := if Index x <=? lastConfigLogIndex s then _ else _).
  assert (frame s s1 /\ logs s1 = logs s /\ logHashes s1 = logHashes s /\ nextLogIdx s1 = nextLogIdx s)
    as (Hf & El & Eh & En) by (unfold s1; by case_match).
  assert (array_ok s1) as Hok1 by (by eapply array_ok_update).
  destruct (placeEntry_spec pos e s1 Hok1) as (s' & ? & ? & ? & ? & Hlive); [lia | done |].
  exists s'. split; [done |]. split; [done |]. split; [by etrans |]. left.
  split; [eauto |]. split; [done |]. unfold live in Hlive |- *. by rewrite Hlive, El, En.
Qed.

(** The loop refines the list merge, and stays inside the arrays. *)
Lemma mergeEntries_spec es pos s :
  array_ok s -> (pos <= nextLogIdx s)%nat -> (pos + length es <= logArrayCapacity)%nat ->
  exists s', mergeEntries pos es s = Some s' /\ array_ok s' /\ frame s s' /\
    live s' = take pos (live s) ++ mergeTail (drop pos (live s)) es.
Proof.
  revert pos s. induction es as [|e es IH]; intros pos s Hok Hpos Hcap; simpl in *.
  { exists s. by rewrite mergeTail_nil_r, take_drop. }
  destruct (mergeEntry_spec pos e s Hok Hpos) as (s1 & -> & Hok1 & Hf & Hcase); [lia |]. simpl.
  pose proof (length_live s Hok) as Hlen.
  destruct Hcase as [(Hat & Hn1 & Hl1)|((x & Hx & Ex) & ->)].
  - destruct (IH (S pos) s1 Hok1) as (s' & Heq & Hok' & Hf' & Hl'); [lia.. |].
    exists s'. split; [done |]. split; [done |]. split; [by etrans |].
    rewrite Hl', (take_ge (live s1)), (drop_ge (live s1))
      by (rewrite length_live by done; lia).
    rewrite mergeTail_nil_l, Hl1, <- app_assoc. simpl. f_equal.
    destruct Hat as [Hnone|(x & Hx & Ex)].
    + apply lookup_ge_None in Hnone. by rewrite drop_ge.
    + rewrite (drop_S _ _ _ Hx). simpl. by rewrite Ex.
  - assert (pos < nextLogIdx s)%nat by apply (lookup_live_Some _ _ _ Hx).
    destruct (IH (S pos) s Hok1) as (s' & Heq & Hok' & Hf' & Hl'); [lia.. |].
    exists s'. split; [done |]. split; [done |]. split; [done |].
    rewrite Hl', (take_S_r _ _ _ Hx), <- app_assoc. simpl.
    rewrite (drop_S _ _ _ Hx). simpl. by rewrite Ex.
Qed.
End merge.

(** ** handleAppendEntries *)

Section append_entries.
Context `{GoPlatform}.
Implicit Types s : nodeState.

Lemma acceptTerm_fields t s :
  currentTerm s <= t ->
  currentTerm (acceptTerm t s) = t /\ role (acceptTerm t s) = Follower /\
  logs (acceptTerm t s) = logs s /\ logHashes (acceptTerm t s) = logHashes s /\
  nextLogIdx (acceptTerm t s) = nextLogIdx s /\ lastSnapshot (acceptTerm t s) = lastSnapshot s /\
  commitIndex (acceptTerm t s) = commitIndex s /\ lastApplied (acceptTerm t s) = lastApplied s.
Proof.
  intros Ht. unfold acceptTerm.
  set (s1 := if currentTerm s <? t then updateCurrentTerm t s else s).
  assert (currentTerm s1 = t) as E1.
  { unfold s1. destruct (Z.ltb_spec (currentTerm s) t); [done | lia]. }
  assert (logs s1 = logs s /\ logHashes s1 = logHashes s /\ nextLogIdx s1 = nextLogIdx s /\
          lastSnapshot s1 = lastSnapshot s /\ commitIndex s1 = commitIndex s /\
          lastApplied s1 = lastApplied s) as (E2 & E3 & E4 & E5 & E6 & E7)
    by (unfold s1; by case_match).
  rewrite <- E1, <- E2, <- E3, <- E4, <- E5, <- E6, <- E7. clearbody s1.
  unfold stepDown, stopElectionTimeoutLocked.
  destruct (role s1) eqn:Er, (electionTimer s1); fields; by rewrite ?Er.
Qed.

Lemma acceptTerm_log_ok t s : currentTerm s <= t -> log_ok s -> log_ok (acceptTerm t s).
Proof.
  intros (_ & _ & El & Eh & En & Es & _)%acceptTerm_fields Hok. by eapply log_ok_update.
Qed.

Lemma abs_update s s' :
  logs s' = logs s -> nextLogIdx s' = nextLogIdx s -> lastSnapshot s' = lastSnapshot s ->
  abs s' = abs s.
Proof. intros El En Es. unfold abs, base, live. by rewrite El, En, Es. Qed.

Lemma checkPrevLog_abs aea s :
  log_ok s ->
  checkPrevLog aea s = Some (abs_prev (ae_PrevLogIndex aea) (ae_PrevLogTerm aea) (abs s)).
Proof.
  intros Hok. unfold checkPrevLog, abs_prev. simpl.
  set (p := ae_PrevLogIndex aea).
  destruct (Z.leb_spec 0 p) as [Hp|Hp]; [| rewrite decide_True; [done | lia]].
  rewrite find_position by done. simpl. unfold position.
  destruct Hok as [Hok Hc].
  destruct (decide (base s <= p < base s + Z.of_nat (nextLogIdx s))) as [Hin|Hout].
  - rewrite decide_False by lia.
    destruct (live_lookup_lt s (Z.to_nat (p - base s)) Hok) as [e He]; [lia |].
    rewrite lookup_live by lia. rewrite He. simpl.
    by destruct (Term e =? ae_PrevLogTerm aea).
  - destruct (decide (p < 0 \/ p < base s)) as [Hlo|Hhi].
    + assert (p < base s) as Hb by lia. unfold base in Hb.
      destruct (lastSnapshot s) as [snap|]; [| lia].
      destruct (Z.ltb_spec (LastIncludedIndex snap) p); [lia | done].
    + rewrite (proj2 (lookup_ge_None (live s) _)) by (rewrite length_live by done; lia).
      unfold base in Hhi. destruct (lastSnapshot s) as [snap|]; [| done].
      destruct (Z.ltb_spec (LastIncludedIndex snap) p); [done | lia].
Qed.

Lemma abs_prev_bound prevIdx prevTerm s start :
  array_ok s -> abs_prev prevIdx prevTerm (abs s) = Some start -> (start <= nextLogIdx s)%nat.
Proof.
  intros Hok. unfold abs_prev. simpl. case_decide; intros; simplify_eq; [lia |].
  case_match eqn:He; [| done]. case_match; simplify_eq.
  apply lookup_live_Some in He as [? _]. lia.
Qed.

(** One non-stale call, unfolded up to the merge. *)
Lemma handleAppendEntries_unfold gameState myID aea s :
  log_ok s -> currentTerm s <= ae_Term aea ->
  let s1 := acceptTerm (ae_Term aea) s in
  let reply ok := mkAppendEntriesResponse myID (ae_Term aea) ok (lastIdx s) in
  handleAppendEntries gameState myID aea s =
  match abs_prev (ae_PrevLogIndex aea) (ae_PrevLogTerm aea) (abs s) with
  | None => Some (s1, reply false)
  | Some start =>
      let s2 := s1 <| currentLeader := ae_LeaderID aea |> in
      if (logArrayCapacity <=? start + length (ae_Entries aea))%nat then
        '(s3, _) ← takeSnapshot gameState s2;
        Some (s3, mkAppendEntriesResponse myID (currentTerm s3) false (lastIdx s))
      else
        s3 ← mergeEntries start (ae_Entries aea) s2;
        Some (advanceCommit aea s3,
              mkAppendEntriesResponse myID (currentTerm (advanceCommit aea s3)) true (lastIdx s))
  end.
Proof.
  intros Hok Ht s1 reply. unfold handleAppendEntries.
  rewrite getLastLogIdxTerm_ok by done. simpl.
  destruct (Z.ltb_spec (ae_Term aea) (currentTerm s)); [lia |].
  change (stepDown (if currentTerm s <? ae_Term aea then _ else _)) with s1.
  pose proof (acceptTerm_fields (ae_Term aea) s Ht) as (Et & _ & El & _ & En & Es & _).
  rewrite checkPrevLog_abs by (by apply acceptTerm_log_ok).
  rewrite (abs_update s s1) by done. simpl. unfold reply. fold s1 in Et. rewrite Et.
  destruct (abs_prev _ _ _) as [start|]; [| done].
  destruct (logArrayCapacity <=? start + length (ae_Entries aea))%nat; [| done].
  destruct (takeSnapshot gameState _) as [[s3 ok]|]; [| done]. simpl. by rewrite orb_true_r.
Qed.
Lemma checkPrevLog_total aea s :
  array_ok s -> exists r, checkPrevLog aea s = Some r /\
    forall p, r = Some p -> (p <= nextLogIdx s)%nat.
Proof.
  intros Hok. unfold checkPrevLog. case_match; [| exists (Some 0%nat); split; [done |]; intros; simplify_eq; lia].
  destruct (find_total s (ae_PrevLogIndex aea) Hok) as (r & -> & Hr). simpl.
  destruct r as [i|].
  - destruct (live_lookup_lt s i Hok) as [e ->]; [by apply Hr |]. simpl.
    case_match; eexists; (split; [done |]); intros p Hp; simplify_eq. by apply Hr.
  - repeat case_match; eexists; (split; [done |]); intros p Hp; simplify_eq; lia.
Qed.

Lemma advanceCommit_fields aea s :
  advanceCommit aea s = s <| commitIndex := commit_after aea (commitIndex s) |>.
Proof.
  unfold advanceCommit, commit_after. destruct (commitIndex s <? ae_LeaderCommit aea).
  - by case_match.
  - by destruct s.
Qed.

(** The accepting path: what the merge leaves. *)
Lemma handleAppendEntries_accept gameState myID aea s start :
  log_ok s -> currentTerm s <= ae_Term aea ->
  abs_prev (ae_PrevLogIndex aea) (ae_PrevLogTerm aea) (abs s) = Some start ->
  (start + length (ae_Entries aea) < logArrayCapacity)%nat ->
  exists s',
    handleAppendEntries gameState myID aea s =
      Some (s', mkAppendEntriesResponse myID (ae_Term aea) true (lastIdx s)) /\
    array_ok s' /\ abs s' = abs_merge start (ae_Entries aea) (abs s) /\
    currentTerm s' = ae_Term aea /\ role s' = Follower /\
    currentLeader s' = ae_LeaderID aea /\ lastApplied s' = lastApplied s /\
    lastSnapshot s' = lastSnapshot s /\
    commitIndex s' = commit_after aea (commitIndex s).
Proof.
  intros Hlog Ht Hp Hcap. rewrite handleAppendEntries_unfold by done. cbv zeta. rewrite Hp.
  destruct (Nat.leb_spec logArrayCapacity (start + length (ae_Entries aea))); [lia |].
  pose proof (acceptTerm_fields _ _ Ht) as (Et & Er & El & Eh & En & Es & Ec & Ea).
  set (s2 := acceptTerm (ae_Term aea) s <| currentLeader := ae_LeaderID aea |>).
  assert (array_ok s2) as Hok2.
  { eapply array_ok_update; [apply Hlog | ..]; assumption. }
  pose proof (abs_prev_bound _ _ _ _ (proj1 Hlog) Hp) as Hb.
  destruct (mergeEntries_spec (ae_Entries aea) start s2 Hok2) as (s3 & -> & Hok3 & Hf & Hl).
  { change (nextLogIdx s2) with (nextLogIdx (acceptTerm (ae_Term aea) s)). lia. }
  { lia. }
  simpl. rewrite advanceCommit_fields. fields.
  exists (s3 <| commitIndex := commit_after aea (commitIndex s3) |>). fields.
  rewrite <- (frame_currentTerm _ _ Hf), <- (frame_role _ _ Hf), <- (frame_currentLeader _ _ Hf),
    <- (frame_lastApplied _ _ Hf), <- (frame_lastSnapshot _ _ Hf), <- (frame_commitIndex _ _ Hf).
  unfold s2. fields. rewrite Et, Er, Ec, Ea, Es.
  split; [done |]. split; [by eapply array_ok_update |]. split; [| done].
  unfold abs, abs_merge. f_equal.
  - change (base (s3 <| commitIndex := commit_after aea (commitIndex s3) |>)) with (base s3).
    rewrite <- (frame_base _ _ Hf). unfold base, s2. fields. by rewrite Es.
  - change (live s3 = take start (live s) ++ mergeTail (drop start (live s)) (ae_Entries aea)).
    rewrite Hl. unfold live, s2. fields. by rewrite El, En.
Qed.

(** Every log index of the merged log. *)
Lemma abs_merge_log_at s s' start es b :
  log_ok s -> array_ok s' -> abs s' = abs_merge start es (abs s) -> (start <= nextLogIdx s)%nat ->
  b = base s + Z.of_nat start -> contiguous_from b es ->
  log_ok s' /\ base s' = base s /\
  (forall k, k < b -> log_at s' k = log_at s k) /\
  (forall i e, es !! i = Some e ->
     exists x, log_at s' (b + Z.of_nat i) = Some x /\ Index x = Index e /\ Term x = Term e).
Proof.
  intros [Hok Hc] Hok' Habs Hst -> Hes. unfold abs, abs_merge in Habs. simpl in Habs.
  injection Habs as Eb El.
  assert (length (take start (live s)) = start) as Elen.
  { rewrite length_take, length_live by done. lia. }
  split; [split; [done |] |].
  { unfold contiguous. rewrite Eb, El. apply contiguous_app; [by apply contiguous_take |].
    rewrite Elen. apply mergeTail_contiguous; [by apply contiguous_drop | done]. }
  split; [done |]. split.
  - intros k Hk. unfold log_at. rewrite Eb, El. case_decide; [| done].
    rewrite lookup_app_l by lia. apply lookup_take_lt. lia.
  - intros i e He. unfold log_at. rewrite Eb, El, decide_True by lia.
    destruct (mergeTail_agrees (drop start (live s)) es i e He) as (x & Hx & ? & ?).
    exists x. split; [| done]. rewrite lookup_app_r by lia.
    by replace (Z.to_nat _ - _)%nat with i by lia.
Qed.

Lemma abs_prev_start prevIdx prevTerm s start :
  log_ok s -> abs_prev prevIdx prevTerm (abs s) = Some start ->
  -1 <= prevIdx -> 0 <= base s -> base s - 1 <= prevIdx ->
  start = Z.to_nat (prevIdx + 1 - base s) /\
  (base s <= prevIdx -> 0 <= prevIdx -> exists e, log_at s prevIdx = Some e /\ Term e = prevTerm).
Proof.
  intros Hlog. unfold abs_prev, log_at. simpl. case_decide as Hd; intros E Hm H0 Hb.
  - simplify_eq. split; lia.
  - case_match eqn:He; [| done]. destruct (Z.eqb_spec (Term r) prevTerm); [| done]. simplify_eq.
    split; [lia |]. intros ? ?. rewrite decide_True by lia. eauto.
Qed.
(** An accepted message passed the three tests. *)
Lemma accepted_fits gameState myID aea s s' r :
  log_ok s -> handleAppendEntries gameState myID aea s = Some (s', r) -> aer_Success r = true ->
  exists start, currentTerm s <= ae_Term aea /\
    abs_prev (ae_PrevLogIndex aea) (ae_PrevLogTerm aea) (abs s) = Some start /\
    (start + length (ae_Entries aea) < logArrayCapacity)%nat.
Proof.
  intros Hlog Hrun Hok.
  destruct (Z.leb_spec (currentTerm s) (ae_Term aea)) as [Ht|Ht].
  2: { unfold handleAppendEntries in Hrun. rewrite getLastLogIdxTerm_ok in Hrun by done.
       simpl in Hrun. destruct (Z.ltb_spec (ae_Term aea) (currentTerm s)); [| lia].
       by simplify_eq. }
  rewrite handleAppendEntries_unfold in Hrun by done. cbv zeta in Hrun.
  destruct (abs_prev (ae_PrevLogIndex aea) (ae_PrevLogTerm aea) (abs s)) as [start|];
    [| by simplify_eq].
  exists start. do 2 (split; [done |]).
  destruct (Nat.leb_spec logArrayCapacity (start + length (ae_Entries aea))) as [Hfull|]; [| done].
  destruct (takeSnapshot _ _) as [[s3 ok]|]; [| done]. simpl in Hrun. by simplify_eq.
Qed.

Lemma accepted_log_matching gameState myID aea s s' r :
  log_ok s -> 0 <= base s ->
  -1 <= ae_PrevLogIndex aea -> base s - 1 <= ae_PrevLogIndex aea ->
  contiguous_from (ae_PrevLogIndex aea + 1) (ae_Entries aea) ->
  handleAppendEntries gameState myID aea s = Some (s', r) -> aer_Success r = true ->
  log_ok s' /\ base s' = base s /\
  (forall k, k <= ae_PrevLogIndex aea -> log_at s' k = log_at s k) /\
  (forall i e, ae_Entries aea !! i = Some e ->
     exists x, log_at s' (Index e) = Some x /\ Index x = Index e /\ Term x = Term e).
Proof.
  intros Hlog H0 Hm Hb Hes Hrun Hok.
  destruct (accepted_fits gameState myID aea s s' r Hlog Hrun Hok) as (start & Ht & Hp & Hcap).
  destruct (abs_prev_start _ _ _ _ Hlog Hp Hm H0 Hb) as [Hst _].
  destruct (handleAppendEntries_accept gameState myID aea s start Hlog Ht Hp Hcap)
    as (s2 & Hrun2 & Hok2 & Habs & _).
  rewrite Hrun2 in Hrun. assert (s2 = s') as -> by congruence.
  pose proof (abs_prev_bound _ _ _ _ (proj1 Hlog) Hp) as Hbound.
  assert (base s + Z.of_nat start = ae_PrevLogIndex aea + 1) as Est by lia.
  destruct (abs_merge_log_at s s' start (ae_Entries aea) (ae_PrevLogIndex aea + 1))
    as (? & ? & Hlow & Hat); try done.
  split; [done |]. split; [done |]. split; [intros k Hk; apply Hlow; lia |].
  intros i e He. destruct (Hat _ _ He) as (x & Hx & ? & ?).
  exists x. split; [by rewrite (Hes _ _ He) | done].
Qed.
Lemma handleAppendEntries_total_aux gameState myID aea s :
  array_ok s ->
  exists s' r, handleAppendEntries gameState myID aea s = Some (s', r) /\
    array_ok s' /\ currentTerm s' = Z.max (currentTerm s) (ae_Term aea) /\
    aer_Term r = currentTerm s' /\ aer_ID r = myID /\
    (aer_Success r = true -> role s' = Follower /\ currentLeader s' = ae_LeaderID aea).
Proof.
  intros Hok. unfold handleAppendEntries.
  destruct (getLastLogIdxTerm_total s Hok) as (li & lt & ->). simpl.
  destruct (Z.ltb_spec (ae_Term aea) (currentTerm s)) as [Hlt|Hge].
  { do 2 eexists. split; [done |]. simpl. split; [done |]. split; [lia |]. done. }
  change (stepDown (if currentTerm s <? ae_Term aea then _ else _)) with (acceptTerm (ae_Term aea) s).
  pose proof (acceptTerm_fields _ _ Hge) as (Et & Er & El & Eh & En & _).
  set (s1 := acceptTerm (ae_Term aea) s) in *.
  assert (array_ok s1) as Hok1 by (by eapply array_ok_update).
  destruct (checkPrevLog_total aea s1 Hok1) as (prev & -> & Hprev). simpl.
  destruct prev as [start|].
  2: { do 2 eexists. split; [done |]. simpl. split; [done |]. split; [lia |]. done. }
  set (s2 := s1 <| currentLeader := ae_LeaderID aea |>).
  assert (array_ok s2) as Hok2 by (by eapply array_ok_update).
  assert (currentTerm s2 = Z.max (currentTerm s) (ae_Term aea)) as Et2.
  { change (currentTerm s2) with (currentTerm s1). lia. }
  specialize (Hprev start eq_refl).
  destruct (Nat.leb_spec logArrayCapacity (start + length (ae_Entries aea))) as [Hfull|Hfit].
  - destruct (takeSnapshot_total gameState s2 Hok2) as (s3 & ok & -> & Hok3 & Et3 & _). simpl.
    rewrite orb_true_r. do 2 eexists. split; [done |]. simpl. split; [done |].
    split; [by rewrite Et3 |]. done.
  - simpl. destruct (mergeEntries_spec (ae_Entries aea) start s2 Hok2) as (s3 & -> & Hok3 & Hf & _).
    { change (nextLogIdx s2) with (nextLogIdx s1). lia. }
    { lia. }
    simpl. rewrite advanceCommit_fields.
    do 2 eexists. split; [done |]. simpl. fields.
    rewrite <- (frame_currentTerm _ _ Hf), <- (frame_role _ _ Hf), <- (frame_currentLeader _ _ Hf).
    split; [by eapply array_ok_update |]. done.
Qed.
End append_entries.

(** ** checkCommits *)

Lemma checkCommitsFrom_spec n s :
  log_ok s -> (n <= nextLogIdx s)%nat ->
  exists s', checkCommitsFrom n s = Some s' /\ s' = s <| commitIndex := commitIndex s' |> /\
    commitIndex s <= commitIndex s' /\
    (commitIndex s' = commitIndex s \/
     exists i e, (i < n)%nat /\ live s !! i = Some e /\ commitIndex s' = Index e /\
       committable s e = true /\ commitIndex s < Index e) /\
    (forall j e, (j < n)%nat -> live s !! j = Some e -> commitIndex s' < Index e ->
       committable s e = false).
Proof.
  intros [Hok Hc]. induction n as [|n IH]; intros Hn; simpl.
  { exists s. split; [done |]. split; [by destruct s |]. split; [lia |]. split; [by left |].
    intros; lia. }
  destruct (live_lookup_lt s n Hok) as [e He]; [lia |]. rewrite He. simpl.
  rewrite <- lookup_live in He by lia. pose proof (Hc _ _ He) as Hidx.
  destruct (Z.leb_spec (Index e) (commitIndex s)) as [Hle|Hgt].
  { exists s. split; [done |]. split; [by destruct s |]. split; [lia |]. split; [by left |].
    intros j x Hj Hx Hlt. rewrite (Hc _ _ Hx) in Hlt. lia. }
  destruct (committable s e) eqn:Hcom.
  { exists (s <| commitIndex := Index e |>). fields. split; [done |]. split; [done |].
    split; [lia |]. split; [right; exists n, e; auto with lia |].
    intros j x Hj Hx Hlt. rewrite (Hc _ _ Hx) in Hlt. lia. }
  destruct IH as (s' & Hrun & Es & Hmono & Hnew & Hno); [lia |].
  exists s'. split; [done |]. split; [done |]. split; [done |]. split.
  - destruct Hnew as [?|(i & x & Hi & Hrest)]; [by left | right].
    exists i, x. split; [lia | done].
  - intros j x Hj Hx Hlt. destruct (decide (j = n)) as [->|]; [by simplify_eq |].
    apply (Hno j x); [lia | done..].
Qed.

(** ** getAppendEntriesArgs *)

(** The message for a follower whose next index is [next]. *)
Definition messageFor (next : Z) (s : nodeState) : AppendEntriesArgs :=
  let prev := Z.min (next - 1) (lastIdx s) in
  {| ae_Term := currentTerm s; ae_LeaderID := currentLeader s;
     ae_PrevLogIndex := prev; ae_PrevLogTerm := termAt s prev;
     ae_Entries := drop (Z.to_nat (prev + 1 - base s)) (live s);
     ae_LeaderCommit := commitIndex s |}.

Lemma getAppendEntriesArgs_run id s :
  log_ok s ->
  let next := map_get (nextIndex s) id in
  getAppendEntriesArgs id s =
  if decide (next < base s) then Some (s, None)
  else Some (s <| lastSentLogIndex :=
                 <[id := if decide (next <= lastIdx s) then lastIdx s else next -! 1]> (lastSentLogIndex s) |>,
             Some (messageFor next s)).
Proof.
  intros Hlog next. unfold getAppendEntriesArgs. fold next.
  rewrite getLastLogIdxTerm_ok, find_position by done. simpl.
  pose proof Hlog as [Hok Hc]. pose proof (length_live s Hok) as Hlen.
  pose proof (ok_logs _ Hok) as Hl. pose proof (ok_next _ Hok) as Hn.
  destruct (position s next) as [i|] eqn:Hp.
  - rewrite bool_decide_eq_false_2 by done. simpl.
    destruct (log_at_position _ _ _ Hp) as (_ & Hk & Hi).
    rewrite (decide_False (P := next < base s)) by lia.
    rewrite (decide_True (P := next <= lastIdx s)) by (unfold lastIdx; lia).
    destruct (Nat.leb_spec (nextLogIdx s) (length (logs s))); [| lia]. simpl.
    change (take (nextLogIdx s) (logs s)) with (live s).
    assert (drop i (live s) !! (length (drop i (live s)) - 1)%nat = live s !! (nextLogIdx s - 1)%nat) as ->.
    { rewrite lookup_drop, length_drop, Hlen. f_equal. lia. }
    destruct (live_lookup_lt s (nextLogIdx s - 1) Hok) as [y Hy]; [lia |].
    rewrite <- lookup_live in Hy by lia. rewrite Hy, (Hc _ _ Hy).
    replace (base s + Z.of_nat (nextLogIdx s - 1)) with (lastIdx s) by (unfold lastIdx; lia).
    unfold messageFor. rewrite Z.min_l by (unfold lastIdx; lia).
    replace (Z.to_nat (next - 1 + 1 - base s)) with i by lia.
    destruct i as [|i].
    + unfold termAt. rewrite decide_True by lia. unfold snapTerm.
      replace (next - 1) with (base s - 1) by lia. unfold base.
      destruct (lastSnapshot s); simpl; repeat f_equal; lia.
    + destruct (live_lookup_lt s i Hok) as [x Hx]; [lia |].
      rewrite Hx. simpl. rewrite <- lookup_live in Hx by lia.
      unfold termAt. rewrite decide_False by lia. unfold log_at. rewrite decide_True by lia.
      replace (Z.to_nat (next - 1 - base s)) with i by lia. rewrite Hx.
      rewrite (Hc _ _ Hx). replace (base s + Z.of_nat i) with (next - 1) by lia. done.
  - rewrite bool_decide_eq_true_2 by done. simpl.
    assert (~ (base s <= next < base s + Z.of_nat (nextLogIdx s))) as Hout.
    { unfold position in Hp. by case_decide. }
    destruct (decide (next < base s)) as [Hlt|Hge].
    { destruct (Z.leb_spec next (lastIdx s)); [done | unfold lastIdx in *; lia]. }
    destruct (Z.leb_spec next (lastIdx s)) as [Hle|Hgt]; [unfold lastIdx in *; lia |].
    simpl. rewrite (decide_False (P := next <= lastIdx s)) by lia.
    unfold messageFor. rewrite Z.min_r by lia. rewrite <- lastTerm_termAt by done.
    rewrite (drop_ge (live s)); [done |]. rewrite Hlen. unfold lastIdx. lia.
Qed.

Lemma messageFor_contiguous next s :
  log_ok s -> base s <= next ->
  contiguous_from (ae_PrevLogIndex (messageFor next s) + 1) (ae_Entries (messageFor next s)).
Proof.
  intros [Hok Hc] Hb. simpl. set (p := Z.min (next - 1) (lastIdx s)).
  replace (p + 1) with (base s + Z.of_nat (Z.to_nat (p + 1 - base s)))
    by (unfold p, lastIdx in *; lia).
  rewrite Nat2Z.id || idtac.
  replace (base s + Z.of_nat (Z.to_nat (p + 1 - base s)) - base s)
    with (p + 1 - base s) by (unfold p, lastIdx in *; lia).
  by apply contiguous_drop.
Qed.

Lemma messageFor_lookup next s k e :
  log_ok s -> base s <= next -> next <= k -> log_at s k = Some e ->
  exists i, ae_Entries (messageFor next s) !! i = Some e /\ Index e = k.
Proof.
  intros [Hok Hc] Hb Hk He. pose proof (log_at_Some _ _ _ Hc He) as [Hin Hidx].
  exists (Z.to_nat (k - next)). split; [| done]. simpl. rewrite lookup_drop.
  unfold log_at in He. rewrite decide_True in He by lia. rewrite <- He. f_equal.
  unfold lastIdx in *. lia.
Qed.

(** ** Applying and hashing *)

Lemma updateLastApplied_run s :
  log_ok s -> in_int64 (lastApplied s) -> in_int64 (commitIndex s) -> base s - 1 <= lastApplied s ->
  updateLastApplied s =
    (if decide (lastApplied s < commitIndex s /\ lastApplied s < lastIdx s)
     then Some (s <| lastApplied := lastApplied s + 1 |>, position s (lastApplied s + 1))
     else Some (s, None)) /\
  (lastApplied s < commitIndex s /\ lastApplied s < lastIdx s ->
   exists i e, position s (lastApplied s + 1) = Some i /\ log_at s (lastApplied s + 1) = Some e).
Proof.
  intros Hlog Hint Hcommit Hb. unfold updateLastApplied.
  assert (lastApplied s < lastIdx s ->
          position s (lastApplied s + 1) = Some (Z.to_nat (lastApplied s + 1 - base s))) as Hpos.
  { intros Hl. unfold position. rewrite decide_True; [done |]. unfold lastIdx in Hl. lia. }
  destruct (Z.leb_spec (commitIndex s) (lastApplied s)).
  { rewrite decide_False by lia. split; [done | lia]. }
  rewrite wrap64_succ by (done || unfold in_int64 in *; lia).
  rewrite find_position by done. simpl. case_decide as Hd.
  - destruct (log_at_is_Some s (lastApplied s + 1) (proj1 Hlog)) as [e He]; [lia |].
    rewrite Hpos by lia. split; [done |]. intros _. by eexists _, e.
  - assert (position s (lastApplied s + 1) = None) as ->.
    { unfold position. rewrite decide_False; [done |]. unfold lastIdx in Hd. lia. }
    split; [done | by intros].
Qed.

(** Hashing on the follower's side, one entry past the end. *)
Lemma mergeEntry_hash s e h :
  log_ok s -> (0 < nextLogIdx s < logArrayCapacity)%nat -> Index e = lastIdx s + 1 ->
  Type_ e <> LogConfiguration -> hash_at s (lastIdx s) = Some h ->
  exists sf, mergeEntry (nextLogIdx s) e s = Some sf /\ live sf = live s ++ [e] /\
    base sf = base s /\ liveHashes sf = liveHashes s ++ [sha256 (raftLogBytes e ++ h)].
Proof.
  intros Hlog Hn Hidx Hty Hh. pose proof Hlog as [Hok Hc]. pose proof Hok as [Hl Hhs Hnx].
  unfold mergeEntry. rewrite (proj2 (Nat.leb_le _ _)) by lia. unfold placeEntry.
  rewrite array_set_in by lia. simpl.
  set (s1 := s <| logs := <[nextLogIdx s := e]> (logs s) |> <| nextLogIdx := S (nextLogIdx s) |>).
  assert (live s1 = live s ++ [e]) as Hl1 by (apply take_insert_snoc; lia).
  assert (log_ok s1) as Hlog1.
  { split; [constructor; unfold s1; fields; rewrite ?length_insert; lia |].
    unfold contiguous. rewrite Hl1. change (base s1) with (base s).
    apply contiguous_app; [done |]. rewrite length_live by done.
    apply contiguous_singleton. rewrite Hidx. unfold lastIdx. lia. }
  assert (hash_at s (lastIdx s) = logHashes s !! (nextLogIdx s - 1)%nat) as Ehash.
  { unfold hash_at, liveHashes. rewrite decide_True by (unfold lastIdx; lia).
    rewrite lookup_take_lt by (unfold lastIdx; lia). f_equal. unfold lastIdx. lia. }
  rewrite (getLogHash_chained s1 e (nextLogIdx s - 1) h).
  - simpl. rewrite array_set_in by (change (logHashes s1) with (logHashes s); lia). simpl.
    rewrite decide_False by done. eexists. split; [done |].
    split; [exact Hl1 |]. split; [done |]. apply take_insert_snoc. lia.
  - rewrite find_position by done. unfold position. change (base s1) with (base s).
    change (nextLogIdx s1) with (S (nextLogIdx s)). rewrite decide_True by (unfold lastIdx in Hidx; lia).
    do 2 f_equal. unfold lastIdx in Hidx. lia.
  - change (logHashes s1) with (logHashes s). by rewrite <- Ehash.
Qed.
