(* ===== verification/RpcTransport.v ===== *)
(** * RpcTransport: the net/rpc transport (src/transport/rpc_transport.go)

    The connections of a node and the calls over them. What the network does is
    an argument of each operation: whether a dial succeeds, and how a call over
    an open client ends. *)
From S2P Require Import Prelude GoFloat Types.

Module RPC.

(** ** Data *)

(** [*rpc.Client]s are pointers; a client stays closed once it is closed. A
    call over a closed client fails at once with [rpc.ErrShutdown]. *)
Definition client_ptr := nat.

Record rpcConn := mkRpcConn { client : option client_ptr }.

Section transport.
(** The [TransportHandler] and its five methods. *)
Context {H : Type}.

Record RPCTransport := mkRPCTransport {
  myID : ServerID;
  handler : option H;
  connections : gmap ServerID rpcConn;
  listener : option string;
  clients : list bool;       (* every client dialled so far: open? *)
}.

Implicit Types t : RPCTransport.

Definition with_connections (m : gmap ServerID rpcConn) (cs : list bool) t : RPCTransport :=
  mkRPCTransport (myID t) (handler t) m (listener t) cs.

(** ** Construction *)

Definition NewRPCTransport (id : ServerID) : RPCTransport := mkRPCTransport id None ∅ None [].

Definition RegisterHandler (h : H) t : RPCTransport :=
  mkRPCTransport (myID t) (Some h) (connections t) (listener t) (clients t).

Definition Addr t : option string := listener t.

(** [bound] is the address [net.Listen] binds, if it succeeds. Registering the
    listener object with a fresh server cannot fail. *)
Definition Listen (bound : option string) t : RPCTransport * bool :=
  match bound with
  | None => (t, false)
  | Some addr => (mkRPCTransport (myID t) (handler t) (connections t) (Some addr) (clients t), true)
  end.

(** ** Connections *)

Definition open_client (c : client_ptr) t : bool := default false (clients t !! c).

Definition close_client (c : client_ptr) (cs : list bool) : list bool := <[c := false]> cs.

(** The error of closing a client that is closed already is [false]. *)
Definition Disconnect (id : ServerID) t : RPCTransport * bool :=
  match connections t !! id with
  | Some conn =>
      match client conn with
      | Some c => (with_connections (delete id (connections t)) (close_client c (clients t)) t, open_client c t)
      | None => (with_connections (delete id (connections t)) (clients t) t, true)
      end
  | None => (t, true)
  end.

Definition Connect (id : ServerID) (dialled : bool) t : RPCTransport * bool :=
  let t := (Disconnect id t).1 in
  if dialled then
    (with_connections (<[id := mkRpcConn (Some (length (clients t)))]> (connections t)) (clients t ++ [true]) t, true)
  else (t, false).

(** The goroutine of [ConnectWithRetry] over the outcomes of its dials: [true]
    once it has reported on [done]. *)
Fixpoint ConnectWithRetry (id : ServerID) (dials : list bool) t : RPCTransport * bool :=
  match dials with
  | [] => (t, false)
  | dialled :: rest =>
      let '(t, ok) := Connect id dialled t in
      if ok : bool then (t, true) else ConnectWithRetry id rest t
  end.

Definition close_all (m : gmap ServerID rpcConn) (cs : list bool) : list bool :=
  foldr (fun kv cs => match client kv.2 with Some c => close_client c cs | None => cs end) cs (map_to_list m).

(** Closing the listener does not clear the field. *)
Definition Close t : RPCTransport := with_connections ∅ (close_all (connections t) (clients t)) t.

(** ** Calls *)

(** How a call over an open client ends: with a reply, with an error (of the
    connection or of the remote method), or not before the deadline. *)
Inductive outcome (R : Type) := Replied (reply : R) | Failed | Late.
Arguments Replied {R}. Arguments Failed {R}. Arguments Late {R}.

Inductive callError := NoConnection | NilConnection | CallFailed | TimedOut.

(** A call has two halves. It loads the connection and starts the call with
    [client.Go]; *)
Definition begin_call (target : ServerID) t : client_ptr + callError :=
  match connections t !! target with
  | None => inr NoConnection
  | Some conn => match client conn with None => inr NilConnection | Some c => inl c end
  end.

(** then it waits without any lock, and on an error deletes whatever connection
    the server has by then. *)
Definition end_call {R} (target : ServerID) (o : outcome R) t : RPCTransport * (R + callError) :=
  match o with
  | Replied reply => (t, inl reply)
  | Failed => (with_connections (delete target (connections t)) (clients t) t, inr CallFailed)
  | Late => (t, inr TimedOut)
  end.

(** The halves with nothing in between; a closed client fails at once. *)
Definition call {R} (target : ServerID) (o : outcome R) t : RPCTransport * (R + callError) :=
  match begin_call target t with
  | inl c => end_call target (if open_client c t then o else Failed) t
  | inr e => (t, inr e)
  end.

(** The five calls differ in the method and the types. *)
Definition SendRequestVote : ServerID -> outcome RequestVoteResponse -> RPCTransport -> _ := call.
Definition SendAppendEntries : ServerID -> outcome AppendEntriesResponse -> RPCTransport -> _ := call.
Definition SendInstallSnapshot : ServerID -> outcome InstallSnapshotResponse -> RPCTransport -> _ := call.
Definition SendApply : ServerID -> outcome ApplyResponse -> RPCTransport -> _ := call.
Definition SendAddRemoveServer : ServerID -> outcome AddRemoveServerResponse -> RPCTransport -> _ := call.

(** The inbound side: each method of [rpcListener] calls its method of the
    handler, and reports an error when there is none. *)
Definition dispatch {A R} (m : H -> A -> R) (args : A) t : option R :=
  h ← handler t; Some (m h args).

(** ** Sequences of operations *)

Inductive op :=
| DoConnect (id : ServerID) (dialled : bool)
| DoDisconnect (id : ServerID)
| DoCall (id : ServerID) (o : outcome unit)
| DoEndCall (id : ServerID) (o : outcome unit)    (* of a call begun at any time before *)
| DoRegister (h : H)
| DoListen (bound : option string)
| DoClose.

Definition perform (o : op) t : RPCTransport :=
  match o with
  | DoConnect id dialled => (Connect id dialled t).1
  | DoDisconnect id => (Disconnect id t).1
  | DoCall id out => (call id out t).1
  | DoEndCall id out => (end_call id out t).1
  | DoRegister h => RegisterHandler h t
  | DoListen bound => (Listen bound t).1
  | DoClose => Close t
  end.

(** The map holds open clients, a different one for each server. *)
Record transport_ok t : Prop := {
  to_open : forall id conn, connections t !! id = Some conn ->
    exists c, client conn = Some c /\ open_client c t = true;
  to_distinct : forall i j conn, connections t !! i = Some conn -> connections t !! j = Some conn -> i = j;
}.

Definition connected t id : bool := bool_decide (is_Some (connections t !! id)).

(** ** Lemmas *)

Lemma Disconnect_lookup id t j :
  connections (Disconnect id t).1 !! j = if decide (j = id) then None else connections t !! j.
Proof.
  unfold Disconnect. destruct (connections t !! id) as [conn|] eqn:E.
  - destruct (client conn); simpl; (case_decide; [subst; by rewrite lookup_delete_eq | by rewrite lookup_delete_ne]).
  - simpl. case_decide; by subst.
Qed.

Lemma Connect_lookup id dialled t j :
  connected (Connect id dialled t).1 j = if decide (j = id) then dialled else connected t j.
Proof.
  unfold Connect, connected. destruct dialled; simpl.
  - case_decide as Hj; [subst; rewrite lookup_insert_eq; by apply bool_decide_true |].
    rewrite lookup_insert_ne, Disconnect_lookup, decide_False by done. done.
  - rewrite Disconnect_lookup. by case_decide.
Qed.

Lemma end_call_lookup {R} target (o : outcome R) t j :
  connected (end_call target o t).1 j = true -> connected t j = true.
Proof.
  unfold connected. destruct o; simpl; try done. rewrite !bool_decide_eq_true.
  intros [x [_ Hx]%lookup_delete_Some]. by eexists.
Qed.

(** What a call does is what its second half does, or nothing. *)
Lemma call_end {R} target (o : outcome R) t :
  (call target o t).1 = t \/ exists o' : outcome R, (call target o t).1 = (end_call target o' t).1.
Proof. unfold call. destruct (begin_call target t); [right; by eexists | by left]. Qed.

(** A failure is final: whatever was dialled while the call was under way, the
    server has no connection after it. *)
Lemma end_call_failed {R} target t : connected (end_call target (@Failed R) t).1 target = false.
Proof. unfold connected. simpl. by rewrite lookup_delete_eq. Qed.

(** ** The invariant *)

Lemma open_client_lt c t : open_client c t = true -> (c < length (clients t))%nat.
Proof.
  unfold open_client. destruct (clients t !! c) as [b|] eqn:E; [| done]. intros _. by eapply lookup_lt_Some.
Qed.

Lemma open_close c d t m :
  open_client c (with_connections m (close_client d (clients t)) t) =
  if decide (c = d) then false else open_client c t.
Proof.
  unfold open_client, close_client. simpl. case_decide as Hcd.
  - subst. destruct (decide (d < length (clients t))%nat).
    + by rewrite list_lookup_insert_eq.
    + by rewrite list_insert_ge, lookup_ge_None_2 by lia.
  - by rewrite list_lookup_insert_ne.
Qed.

(** Removing a connection, and closing its client or not. *)
Lemma transport_ok_delete id t :
  transport_ok t -> transport_ok (with_connections (delete id (connections t)) (clients t) t).
Proof.
  intros [Ho Hd]. split; simpl.
  - intros j conn [_ Hj]%lookup_delete_Some. exact (Ho j conn Hj).
  - intros i j conn [_ Hi]%lookup_delete_Some [_ Hj]%lookup_delete_Some. by eapply Hd.
Qed.

Lemma Disconnect_ok id t : transport_ok t -> transport_ok (Disconnect id t).1.
Proof.
  intros Ht. unfold Disconnect. destruct (connections t !! id) as [conn|] eqn:E; [| done].
  destruct (to_open _ Ht id conn E) as (c & Hc & _). rewrite Hc. pose proof Ht as [Ho Hd].
  split; cbn [fst connections with_connections].
  - intros j conn' Hj. apply lookup_delete_Some in Hj as [Hne Hj].
    destruct (Ho j conn' Hj) as (c' & Hc' & Hopen). exists c'. split; [done |].
    rewrite open_close, decide_False; [done |]. intros ->. apply Hne. apply (Hd id j conn); [done |].
    rewrite Hj. destruct conn, conn'; simpl in *. congruence.
  - intros i j conn' Hi Hj. apply lookup_delete_Some in Hi as [_ Hi]. apply lookup_delete_Some in Hj as [_ Hj].
    by eapply Hd.
Qed.

Lemma Connect_ok id dialled t : transport_ok t -> transport_ok (Connect id dialled t).1.
Proof.
  intros Ht. unfold Connect. apply (Disconnect_ok id) in Ht. set (t1 := (Disconnect id t).1) in *.
  destruct dialled; [| done]. simpl. set (c := length (clients t1)).
  assert (forall conn, client conn = Some c -> forall j, connections t1 !! j <> Some conn) as Hfresh.
  { intros conn Hc j Hj. destruct (to_open _ Ht j conn Hj) as (c' & Hc' & Hopen).
    apply open_client_lt in Hopen. assert (c' = c) by congruence. unfold c in *. lia. }
  split; cbn [fst connections with_connections].
  - intros j conn Hj. apply lookup_insert_Some in Hj as [[<- <-]|[_ Hj]].
    + exists c. split; [done |]. unfold open_client. simpl. by rewrite lookup_app_r, Nat.sub_diag by done.
    + destruct (to_open _ Ht j conn Hj) as (c' & Hc' & Hopen). exists c'. split; [done |].
      unfold open_client. simpl. rewrite lookup_app_l by (by apply open_client_lt). exact Hopen.
  - intros i j conn Hi Hj.
    apply lookup_insert_Some in Hi as [[<- <-]|[_ Hi]]; apply lookup_insert_Some in Hj as [[<- Ej]|[_ Hj]]; try done.
    + by destruct (Hfresh (mkRpcConn (Some c)) eq_refl j).
    + rewrite <- Ej in Hi. by destruct (Hfresh (mkRpcConn (Some c)) eq_refl i).
    + by eapply (to_distinct _ Ht).
Qed.

Lemma end_call_ok {R} target (o : outcome R) t : transport_ok t -> transport_ok (end_call target o t).1.
Proof. intros Ht. destruct o; [done | by apply transport_ok_delete | done]. Qed.

Lemma call_ok {R} target (o : outcome R) t : transport_ok t -> transport_ok (call target o t).1.
Proof. intros Ht. destruct (call_end target o t) as [->|[o' ->]]; [done | by apply end_call_ok]. Qed.

Lemma perform_ok o t : transport_ok t -> transport_ok (perform o t).
Proof.
  intros Ht. destruct o as [id b|id|id o|id o|h|[addr|]|]; simpl;
    [by apply Connect_ok | by apply Disconnect_ok | by apply call_ok | by apply end_call_ok | | | done |].
  - destruct Ht. by split.
  - destruct Ht. by split.
  - split; simpl; intros i; intros *; by rewrite lookup_empty.
Qed.

Lemma performs_ok os t : transport_ok t -> transport_ok (foldl (fun t o => perform o t) t os).
Proof. revert t. induction os as [|o os IH]; intros t Ht; [done |]. apply IH. by apply perform_ok. Qed.

(** C29. A call on every branch. After any sequence of operations on a new
    transport, calls that others began and end meanwhile included: a call to a server without a connection fails at once; with one,
    the client is open, so that the reply, the error or the deadline is the
    network's; and only an error changes the transport: it forgets the
    connection to that server and leaves the others. *)
Theorem call_spec {R} me os target (o : outcome R) :
  let t := foldl (fun t o => perform o t) (NewRPCTransport me) os in
  if connected t target then
    match o with
    | Replied reply => call target o t = (t, inl reply)
    | Late => call target o t = (t, inr TimedOut)
    | Failed => exists t', call target o t = (t', inr CallFailed) /\
        forall id, connected t' id = (connected t id && negb (bool_decide (id = target)))
    end
  else call target o t = (t, inr NoConnection).
Proof.
  cbv zeta. set (t := foldl _ _ os).
  assert (transport_ok t) as Ht by (apply performs_ok; split; simpl; intros *; by rewrite lookup_empty).
  unfold connected at 1. unfold call, begin_call. case_bool_decide as Hc.
  - destruct Hc as [conn Hc]. rewrite Hc. destruct (to_open _ Ht target conn Hc) as (c & -> & ->).
    destruct o; [done | | done]. eexists. split; [done |]. intros id. unfold connected. simpl.
    destruct (decide (id = target)) as [->|Hne].
    + by rewrite lookup_delete_eq, (bool_decide_true (target = target)), andb_false_r.
    + by rewrite lookup_delete_ne, (bool_decide_false (id = target)), andb_true_r.
  - apply eq_None_not_Some in Hc. by rewrite Hc.
Qed.

(** ** Losing a server *)

(** The operations that dial a server. *)
Definition dials (id : ServerID) (o : op) : bool :=
  match o with DoConnect id' dialled => bool_decide (id' = id) && dialled | _ => false end.

Lemma perform_lost id o t : connected t id = false -> dials id o = false -> connected (perform o t) id = false.
Proof.
  intros Ht Hd. destruct o as [id' b|id'|id' o|id' o|h|[addr|]|]; simpl in *; try done.
  - rewrite Connect_lookup. destruct (decide (id = id')) as [->|]; [| done].
    by rewrite bool_decide_true in Hd.
  - unfold connected in *. rewrite Disconnect_lookup. case_decide; [by apply bool_decide_false; intros [? ?] | done].
  - destruct (connected (call id' o t).1 id) eqn:E; [| done].
    destruct (call_end id' o t) as [E'|[o' E']]; rewrite E' in E; [| apply end_call_lookup in E]; congruence.
  - destruct (connected (end_call id' o t).1 id) eqn:E; [| done]. apply end_call_lookup in E. congruence.
Qed.

(** A late failure takes a newer connection with it: a call begun over the first
    connection fails after the server has been dialled again; the new client
    stays open, and the server is without a connection. *)
Lemma late_failure_disconnects id t :
  let t' := (end_call id (@Failed unit) (Connect id true t).1).1 in
  connected t' id = false /\ open_client (length (clients (Disconnect id t).1)) t' = true.
Proof.
  cbv zeta. split; [apply end_call_failed |]. unfold open_client. simpl.
  by rewrite lookup_app_r, Nat.sub_diag by done.
Qed.

(** ** Closing *)

Lemma close_all_closed (l : list (ServerID * rpcConn)) cs id conn c :
  (id, conn) ∈ l -> client conn = Some c ->
  default false (foldr (fun kv cs => match client kv.2 with Some c => close_client c cs | None => cs end) cs l !! c)
    = false.
Proof.
  induction l as [|[id' conn'] l IH]; intros Hin Hc; [by apply elem_of_nil in Hin |]. simpl.
  set (cs' := foldr _ cs l) in *. apply elem_of_cons in Hin as [[= <- <-]|Hin].
  - rewrite Hc. unfold close_client. destruct (decide (c < length cs')%nat).
    + by rewrite list_lookup_insert_eq.
    + by rewrite list_insert_ge, lookup_ge_None_2 by lia.
  - specialize (IH Hin Hc). destruct (client conn') as [d|]; [| done]. unfold close_client.
    destruct (decide (d = c)) as [->|Hne]; [| by rewrite list_lookup_insert_ne].
    destruct (decide (c < length cs')%nat); [by rewrite list_lookup_insert_eq |].
    by rewrite list_insert_ge by lia.
Qed.

(** After [Close] there is no connection, and no client is left open behind
    one that was. *)
Lemma Close_spec t id conn c :
  connections t !! id = Some conn -> client conn = Some c ->
  connections (Close t) = ∅ /\ open_client c (Close t) = false.
Proof.
  intros Hid Hc. split; [done |]. apply (close_all_closed _ _ id conn); [| done].
  by apply elem_of_map_to_list.
Qed.

End transport.
Arguments RPCTransport : clear implicits.
Arguments Replied {R}.
Arguments Failed {R}.
Arguments Late {R}.
End RPC.
