(* ===== verification/Samples.v ===== *)
(** * Samples: concrete nodes for the instances of the theorems

    Small logs loaded into fresh nodes through the program's own merge. *)
From S2P Require Import Prelude GoFloat Sha256 Types State SnapshotOps ConfigChange Log.

(** [contiguous_from], decided. *)
Fixpoint contiguousb (b : Z) (l : list RaftLog) : bool :=
  match l with
  | [] => true
  | e :: l' => (Index e =? b) && contiguousb (b + 1) l'
  end.

Definition cmd (idx term : Z) : RaftLog :=
  mkRaftLog idx term LogCommand [Byte.x61] ConfigChange_zero "client" 1.

Definition fresh (id : string) : nodeState :=
  newNodeState id (filter (fun p => p <> id) ["n1"; "n2"; "n3"]) 150 300.

Definition load (es : list RaftLog) (s : nodeState) : nodeState := default s (mergeEntries 0 es s).

(** Node [id] in term [t] with the given log. *)
Definition node (id : string) (t : Z) (es : list RaftLog) : nodeState :=
  load es (fresh id) <| currentTerm := t |>.

(** The same with a snapshot up to [idx] in term [st]. *)
Definition node_snap (id : string) (t idx st : Z) (es : list RaftLog) : nodeState :=
  load es (fresh id <| lastSnapshot := Some (mkSnapshot idx st [Byte.x73] ∅ (replicate 32 Byte.x07)) |>
             <| lastApplied := idx |> <| commitIndex := idx |>)
    <| currentTerm := t |>.

Definition leading (next : Z) (s : nodeState) (id peer : string) : nodeState :=
  s <| role := Leader |> <| currentLeader := id |> <| nextIndex := <[peer := next]> (nextIndex s) |>.

Lemma contiguousb_spec b l : contiguousb b l = true -> contiguous_from b l.
Proof.
  revert b; induction l as [|e l IH]; intros b; [intros; apply contiguous_nil |]. simpl.
  intros [He Hl]%andb_true_iff. apply Z.eqb_eq in He.
  change (e :: l) with ([e] ++ l).
  apply contiguous_app; [by apply contiguous_singleton | by apply IH].
Qed.

Lemma load_spec es s :
  log_ok s -> nextLogIdx s = 0%nat -> contiguousb (base s) es = true ->
  (length es <= 1024)%nat -> log_ok (load es s) /\ live (load es s) = es /\ frame s (load es s).
Proof.
  intros [Hok Hc] Hn Hes Hlen. unfold load.
  destruct (mergeEntries_spec es 0 s Hok) as (s' & -> & Hok' & Hf & Hl); [lia | done |].
  simpl. assert (live s' = es) as El.
  { rewrite Hl. unfold live. by rewrite Hn, !take_0, drop_nil, mergeTail_nil_l. }
  split; [| done]. split; [done |]. unfold contiguous. rewrite El, <- (frame_base _ _ Hf).
  by apply contiguousb_spec.
Qed.

Lemma fresh_log_ok id : log_ok (fresh id) /\ nextLogIdx (fresh id) = 0%nat /\ base (fresh id) = 0.
Proof.
  split; [apply newNodeState_log_ok |].
  destruct (newNodeState_frame id (filter (fun p => p <> id) ["n1"; "n2"; "n3"]) 150 300)
    as (_ & _ & En & Es & _).
  split; [exact En |]. unfold base, fresh. by rewrite Es.
Qed.

Lemma node_log_ok id t es :
  contiguousb 0 es = true -> (length es <= 1024)%nat -> log_ok (node id t es).
Proof.
  intros Hes Hlen. destruct (fresh_log_ok id) as (Hlog & Hn & Hb).
  destruct (load_spec es (fresh id) Hlog Hn) as (Hl & _); [by rewrite Hb | done |].
  by apply (log_ok_update (load es (fresh id))).
Qed.

Lemma node_snap_log_ok id t idx st es :
  contiguousb (idx + 1) es = true -> (length es <= 1024)%nat -> log_ok (node_snap id t idx st es).
Proof.
  intros Hes Hlen. destruct (fresh_log_ok id) as (Hlog & Hn & _). unfold node_snap.
  match goal with |- log_ok (load es ?x <| currentTerm := t |>) => set (s := x) end.
  assert (log_ok s) as Hs.
  { split; [by apply (array_ok_update (fresh id)); [apply Hlog | ..] |].
    unfold contiguous, live. change (nextLogIdx s) with (nextLogIdx (fresh id)).
    rewrite Hn, take_0. apply contiguous_nil. }
  destruct (load_spec es s Hs) as (Hl & _); [done | done | done |].
  by apply (log_ok_update (load es s)).
Qed.

Lemma leading_log_ok next s id peer : log_ok s -> log_ok (leading next s id peer).
Proof. intros. by apply (log_ok_update s). Qed.

Lemma matching_log_ok s m : log_ok s -> log_ok (s <| matchIndex := m |>).
Proof. intros. by apply (log_ok_update s). Qed.

Lemma committed_log_ok s c : log_ok s -> log_ok (s <| commitIndex := c |>).
Proof. intros. by apply (log_ok_update s). Qed.

#[export] Hint Resolve node_log_ok node_snap_log_ok leading_log_ok : raft.

(** [sample] proves that a sample node is well formed. *)
Ltac sample :=
  lazymatch goal with
  | |- log_ok (leading _ _ _ _) => apply leading_log_ok; sample
  | |- log_ok (set_field matchIndex _ _) => apply matching_log_ok; sample
  | |- log_ok (set_field commitIndex _ _) => apply committed_log_ok; sample
  | |- log_ok (node _ _ _) => apply node_log_ok; [reflexivity | simpl; lia]
  | |- log_ok (node_snap _ _ _ _ _) => apply node_snap_log_ok; [reflexivity | simpl; lia]
  | |- log_ok ?c => unfold c; sample
  end.
