(* ===== verification/LogTheorems.v ===== *)
(** * LogTheorems: what log replication guarantees

    The properties of Log.v, their instances on concrete nodes, and the places
    where the replication code does not do what it means to. *)
From S2P Require Import Prelude GoFloat Sha256 Types State SnapshotOps ConfigChange Log Samples.

(** ** Back-off: one rejected round trip *)

(** The leader sends to [f], [f] answers, and the leader processes the answer;
    [None] if a handler panics, the leader has nothing to send, or the answer
    needs no back-off. *)
Definition backoff_round `{GoPlatform} (gameState : bytes) (me : ServerID)
    (lf : nodeState * nodeState) : option (nodeState * nodeState) :=
  let '(l, f) := lf in
  '(l1, args) ← getAppendEntriesArgs me l;
  args ← args;
  '(f1, r) ← handleAppendEntries gameState me args f;
  if aer_Success r then None
  else let '(l2, _) := handleAppendEntriesResponse (currentLeader l) r l1 in Some (l2, f1).

Fixpoint backoff_rounds `{GoPlatform} (n : nat) (gameState : bytes) (me : ServerID)
    (lf : nodeState * nodeState) : option (nodeState * nodeState) :=
  match n with
  | O => Some lf
  | S n' => lf ← backoff_round gameState me lf; backoff_rounds n' gameState me lf
  end.

(** The leader's next index for [me] is [me]'s own last index, and the two logs
    disagree just before it. *)
Record stuck (me : ServerID) (l f : nodeState) : Prop := {
  st_l : log_ok l;
  st_f : log_ok f;
  st_base : base f = 0;
  st_term : currentTerm f <= currentTerm l;
  st_last : 1 <= lastIdx f <= max_int64;
  st_next : map_get (nextIndex l) me = lastIdx f;
  st_lbase : base l <= lastIdx f <= lastIdx l + 1;
  st_diff : forall e, log_at f (lastIdx f - 1) = Some e -> Term e <> termAt l (lastIdx f - 1);
}.

(** ** Properties of log replication *)

Section log_properties.
Context `{GoPlatform}.

(** C23. Log matching step. On a message that is contiguous after its previous
    index, and does not reach behind the receiver's snapshot, an accepted
    AppendEntries leaves a contiguous log in which every index up to
    [PrevLogIndex] is untouched and every index of the message holds an entry
    with the message's index and term. *)
Theorem handleAppendEntries_log_matching gameState myID aea s s' r :
  log_ok s -> 0 <= base s ->
  -1 <= ae_PrevLogIndex aea -> base s - 1 <= ae_PrevLogIndex aea ->
  contiguous_from (ae_PrevLogIndex aea + 1) (ae_Entries aea) ->
  handleAppendEntries gameState myID aea s = Some (s', r) -> aer_Success r = true ->
  log_ok s' /\ base s' = base s /\
  (forall k, k <= ae_PrevLogIndex aea -> log_at s' k = log_at s k) /\
  (forall i e, ae_Entries aea !! i = Some e ->
     exists x, log_at s' (Index e) = Some x /\ Index x = Index e /\ Term x = Term e).
Proof. apply accepted_log_matching. Qed.

(** A message that does not fit the array is refused even after the
    compaction it triggers: the position of the merge is not recomputed, so the
    test that follows [takeSnapshot] repeats the one before it. *)
Theorem handleAppendEntries_full gameState myID aea s start :
  log_ok s -> currentTerm s <= ae_Term aea ->
  abs_prev (ae_PrevLogIndex aea) (ae_PrevLogTerm aea) (abs s) = Some start ->
  (logArrayCapacity <= start + length (ae_Entries aea))%nat ->
  exists s' ok,
    takeSnapshot gameState (acceptTerm (ae_Term aea) s <| currentLeader := ae_LeaderID aea |>)
      = Some (s', ok) /\
    handleAppendEntries gameState myID aea s =
      Some (s', mkAppendEntriesResponse myID (ae_Term aea) false (lastIdx s)).
Proof.
  intros Hlog Ht Hp Hcap. rewrite handleAppendEntries_unfold by done. cbv zeta. rewrite Hp.
  destruct (Nat.leb_spec logArrayCapacity (start + length (ae_Entries aea))); [| lia].
  pose proof (acceptTerm_fields _ _ Ht) as (Et & _).
  set (s2 := acceptTerm (ae_Term aea) s <| currentLeader := ae_LeaderID aea |>).
  destruct (takeSnapshot_total gameState s2) as (s' & ok & Hrun & _ & Es & _).
  { eapply array_ok_update; [apply (acceptTerm_log_ok (ae_Term aea) s Ht Hlog) | done..]. }
  exists s', ok. split; [done |]. rewrite Hrun. simpl. do 3 f_equal.
  rewrite Es. exact Et.
Qed.

(** No panic, whatever the message: from any state whose cursor is inside
    its arrays, the handler returns, keeps that invariant, never lowers the
    term, and answers with the node's term. *)
Theorem handleAppendEntries_total gameState myID aea s :
  array_ok s ->
  exists s' r, handleAppendEntries gameState myID aea s = Some (s', r) /\
    array_ok s' /\ currentTerm s' = Z.max (currentTerm s) (ae_Term aea) /\
    aer_Term r = currentTerm s' /\ aer_ID r = myID /\
    (aer_Success r = true -> role s' = Follower /\ currentLeader s' = ae_LeaderID aea).
Proof. apply handleAppendEntries_total_aux. Qed.

(** C13. [checkCommits] finds the quorum boundary: it changes only
    [commitIndex], never lowers it, moves it only to an entry of the current
    term that is held by more servers than half the size of the configuration,
    and leaves no committable entry above it. The servers that count are those
    the leader tracks, members or not: they are a majority of the configuration
    when only members are tracked, which joining and removed servers break. *)
Theorem checkCommits_spec s :
  log_ok s ->
  exists s', checkCommits s = Some s' /\ s' = s <| commitIndex := commitIndex s' |> /\
    commitIndex s <= commitIndex s' /\
    (commitIndex s' <> commitIndex s ->
       exists e (Q : gset ServerID), log_at s (commitIndex s') = Some e /\ Term e = currentTerm s /\
         (forall id, id ∈ Q <-> exists m, matchIndex s !! id = Some m /\ commitIndex s' <= m) /\
         (size (serverConfig s) < 2 * size Q)%nat /\
         (dom (matchIndex s) ⊆ dom (serverConfig s) -> Q ⊆ dom (serverConfig s))) /\
    (forall k e, commitIndex s' < k -> log_at s k = Some e -> committable s e = false).
Proof.
  intros Hlog. unfold checkCommits.
  destruct (checkCommitsFrom_spec (nextLogIdx s) s Hlog) as (s' & Hrun & Es & Hle & Hnew & Hno); [lia |].
  exists s'. split; [done |]. split; [done |]. split; [done |]. split.
  - intros Hne. destruct Hnew as [?|(i & e & Hi & He & -> & Hcom & _)]; [done |].
    unfold committable in Hcom. apply andb_true_iff in Hcom as [Hmaj Ht].
    exists e, (dom (filter (fun kv => Index e <= kv.2) (matchIndex s))).
    split; [| split; [by apply Z.eqb_eq | split; [| split]]].
    + rewrite (proj2 Hlog _ _ He). unfold log_at. rewrite decide_True by lia.
      by replace (Z.to_nat _) with i by lia.
    + intros id. rewrite elem_of_dom. unfold is_Some.
      setoid_rewrite map_lookup_filter_Some. simpl. done.
    + apply Nat.ltb_lt in Hmaj. unfold replicated in Hmaj. rewrite size_dom.
      pose proof (Nat.div_mod_eq (size (serverConfig s)) 2).
      pose proof (Nat.mod_upper_bound (size (serverConfig s)) 2). lia.
    + intros Hdom. etrans; [| exact Hdom]. apply dom_filter_subseteq.
  - intros k e Hk He. pose proof (log_at_Some _ _ _ (proj2 Hlog) He) as [Hin Hidx].
    unfold log_at in He. rewrite decide_True in He by lia.
    eapply (Hno (Z.to_nat (k - base s))); [| exact He | lia].
    by apply lookup_live_Some in He as [? _].
Qed.

(** The snapshot after a command was submitted: a full log was compacted up to
    the last applied entry. *)
Definition compacted (gameState : bytes) (s s' : nodeState) : Prop :=
  if decide (nextLogIdx s < logArrayCapacity)%nat then lastSnapshot s' = lastSnapshot s
  else exists snap, lastSnapshot s' = Some snap /\ LastIncludedIndex snap = lastApplied s /\
         SnapData snap = gameState.

Lemma compacted_base gameState s s' :
  (logArrayCapacity <= nextLogIdx s)%nat -> compacted gameState s s' -> base s' = lastApplied s + 1.
Proof.
  intros Hf Hc. unfold compacted in Hc. rewrite decide_False in Hc by lia.
  destruct Hc as (snap & E & <- & _). unfold base. by rewrite E.
Qed.

(** Submitting a command. As long as the array has room, or compaction can
    make some (the last applied entry is in it), the command gets the next log
    index, its entry is the last one of the log, every earlier entry still in
    the array is unchanged, and the leader's own cursors point at it; otherwise
    the call answers -1 and changes nothing. *)
Lemma addCommandLog_run gameState id clientID seqNum data s :
  log_ok s -> in_int64 (lastIdx s) -> lastIdx s < max_int64 ->
  if decide ((nextLogIdx s < logArrayCapacity)%nat \/ base s <= lastApplied s <= lastIdx s) then
    exists s', addCommandLog gameState id clientID seqNum data s = Some (s', lastIdx s + 1) /\
      log_ok s' /\ lastIdx s' = lastIdx s + 1 /\ currentTerm s' = currentTerm s /\
      log_at s' (lastIdx s + 1) =
        Some (mkRaftLog (lastIdx s + 1) (currentTerm s) LogCommand data ConfigChange_zero clientID seqNum) /\
      (forall k, base s' <= k <= lastIdx s -> log_at s' k = log_at s k) /\
      map_get (matchIndex s') id = lastIdx s + 1 /\
      map_get (lastSentLogIndex s') id = lastIdx s + 1 /\
      compacted gameState s s' /\ lastApplied s' = lastApplied s /\
      commitIndex s' = commitIndex s /\ role s' = role s
  else addCommandLog gameState id clientID seqNum data s = Some (s, -1).
Proof.
  intros Hlog Hint Hmax. unfold addCommandLog. rewrite getLastLogIdxTerm_ok by done. simpl.
  rewrite (wrap64_succ _ Hint Hmax).
  set (e := mkRaftLog (lastIdx s + 1) _ _ _ _ _ _).
  pose proof (ok_next _ (proj1 Hlog)) as Hn.
  destruct (Nat.leb_spec logArrayCapacity (nextLogIdx s)) as [Hfull|Hroom]; simpl.
  - destruct (position s (lastApplied s)) as [i|] eqn:Hp.
    + rewrite decide_True.
      2: { right. unfold position in Hp. case_decide; [unfold lastIdx; lia | done]. }
      destruct (log_at_position _ _ _ Hp) as (_ & Hk & Hi).
      destruct (takeSnapshot_in gameState s i Hlog Hp)
        as (s1 & x & h & -> & Hx & _ & Es1 & Hlog1 & Hl1 & _). simpl.
      assert (nextLogIdx s1 = (nextLogIdx s - S i)%nat) as En by (by rewrite Es1).
      destruct (Nat.leb_spec logArrayCapacity (nextLogIdx s1)); [lia |]. simpl.
      assert (Index x = lastApplied s) as Hidx by apply (log_at_Some _ _ _ (proj2 Hlog) Hx).
      assert (base s1 = lastApplied s + 1) as Eb.
      { rewrite Es1. unfold base. fields. simpl. lia. }
      assert (lastIdx s1 = lastIdx s) as Ela by (unfold lastIdx; lia).
      destruct (appendEntry_spec id e s1 Hlog1) as (s2 & -> & Hlog2 & Es2 & Hl2 & _); [lia | by rewrite Ela |].
      simpl. eexists. split; [done |]. split; [done |].
      destruct (snoc_log_at s1 (trackOwn id (Index e) s2) e (proj1 Hlog1)) as (H1 & H2 & H3);
        [by rewrite Es2 | done | apply Hlog2 |].
      rewrite Ela in H1, H2, H3. split; [done |]. split; [by rewrite Es2, Es1 |].
      split; [apply H1; rewrite <- Ela; apply lastIdx_base |].
      split; [| split; [unfold trackOwn; fields; by rewrite map_get_insert |]].
      2: { split; [unfold trackOwn; fields; by rewrite map_get_insert |].
           unfold compacted, trackOwn. rewrite decide_False by lia. fields. rewrite Es2, Es1. fields.
           split; [| done]. by exists (snapshotOf gameState s x h). }
      intros k Hkk. rewrite H3 by lia.
      assert (base s1 <= k) by (rewrite Es2 in Hkk; exact (proj1 Hkk)).
      unfold log_at. rewrite Hl1, !decide_True by lia. rewrite lookup_drop. f_equal. lia.
    + rewrite decide_False; [by rewrite takeSnapshot_out |].
      intros [?|Hin]; [lia |]. unfold position in Hp. case_decide; [done | unfold lastIdx in Hin; lia].
  - rewrite decide_True by (by left).
    destruct (appendEntry_spec id e s Hlog Hroom) as (s2 & -> & Hlog2 & Es2 & Hl2 & _); [done |].
    simpl. eexists. split; [done |]. split; [done |].
    destruct (snoc_log_at s (trackOwn id (Index e) s2) e (proj1 Hlog)) as (H1 & H2 & H3);
      [by rewrite Es2 | done | apply Hlog2 |].
    split; [done |]. split; [by rewrite Es2 |]. split; [apply H1; apply lastIdx_base |].
    split; [intros k [_ Hk]; by apply H3 |].
    split; [unfold trackOwn; fields; by rewrite map_get_insert |].
    split; [unfold trackOwn; fields; by rewrite map_get_insert |].
    unfold compacted, trackOwn. rewrite decide_True by done. fields. by rewrite Es2.
Qed.

(** What the leader sends. A follower behind the snapshot gets no
    AppendEntries at all; any other gets the whole live log from its next index
    on, preceded by the index and term of the entry (or snapshot) just before,
    and the leader records the last index it sent. *)
Theorem getAppendEntriesArgs_spec id s :
  log_ok s ->
  let next := map_get (nextIndex s) id in
  if decide (next < base s) then getAppendEntriesArgs id s = Some (s, None)
  else
    exists s' args, getAppendEntriesArgs id s = Some (s', Some args) /\
      s' = s <| lastSentLogIndex := lastSentLogIndex s' |> /\
      ae_Term args = currentTerm s /\ ae_LeaderCommit args = commitIndex s /\
      ae_PrevLogIndex args = Z.min (next - 1) (lastIdx s) /\
      ae_PrevLogTerm args = termAt s (ae_PrevLogIndex args) /\
      contiguous_from (ae_PrevLogIndex args + 1) (ae_Entries args) /\
      (forall k e, next <= k -> log_at s k = Some e -> exists i, ae_Entries args !! i = Some e) /\
      (next <= lastIdx s -> map_get (lastSentLogIndex s') id = lastIdx s).
Proof.
  intros Hlog next. pose proof (getAppendEntriesArgs_run id s Hlog) as Hrun. fold next in Hrun.
  cbv zeta in Hrun. case_decide as Hb; [done |].
  do 2 eexists. split; [exact Hrun |]. split; [done |]. do 4 (split; [done |]).
  split; [apply messageFor_contiguous; [done | lia] |]. split.
  - intros k e Hk He. destruct (messageFor_lookup next s k e Hlog) as (i & Hi & _); [lia | done.. |].
    by exists i.
  - intros Hle. fields. rewrite map_get_insert. by rewrite decide_True.
Qed.

(** C12. One replication round, end to end: when a follower accepts the message
    the leader built for it, every index from the leader's next index for that
    follower up to the end of the leader's log then holds, on the follower, an
    entry with the leader's index and term; the follower's log is contiguous
    again, nothing before the message changed, and it follows that leader. *)
Theorem replication_round gameState follower l l' args f f' r :
  log_ok l -> log_ok f ->
  getAppendEntriesArgs follower l = Some (l', Some args) ->
  0 <= base f -> base f <= Z.min (map_get (nextIndex l) follower) (lastIdx l + 1) ->
  handleAppendEntries gameState follower args f = Some (f', r) -> aer_Success r = true ->
  log_ok f' /\ currentLeader f' = currentLeader l /\
  (forall k, map_get (nextIndex l) follower <= k <= lastIdx l ->
     exists e x, log_at l k = Some e /\ log_at f' k = Some x /\ Index x = k /\ Term x = Term e) /\
  (forall k, k < Z.min (map_get (nextIndex l) follower) (lastIdx l + 1) -> log_at f' k = log_at f k).
Proof.
  intros Hl Hf Hargs H0 Hb Hrun Hok.
  pose proof (getAppendEntriesArgs_run follower l Hl) as Hget. cbv zeta in Hget.
  rewrite Hargs in Hget. set (next := map_get (nextIndex l) follower) in *.
  destruct (decide (next < base l)) as [|Hbl]; [done |].
  assert (args = messageFor next l) as -> by congruence.
  destruct (accepted_log_matching gameState follower (messageFor next l) f f' r)
    as (Hf' & Eb & Hlow & Hat); try done; simpl; try lia.
  { apply messageFor_contiguous; [done | lia]. }
  split; [done |]. split.
  { destruct (handleAppendEntries_total_aux gameState follower (messageFor next l) f (proj1 Hf))
      as (f2 & r2 & Hrun2 & _ & _ & _ & _ & Hlead).
    rewrite Hrun in Hrun2. simplify_eq. by apply Hlead. }
  split.
  - intros k Hk. destruct (log_at_is_Some l k (proj1 Hl)) as [e He]; [lia |].
    destruct (messageFor_lookup next l k e Hl) as (i & Hi & Hidx); [lia | lia | done |].
    destruct (Hat i e Hi) as (x & Hx & Ex & Et).
    exists e, x. rewrite Hidx in Hx, Ex. done.
  - intros k Hk. apply Hlow. simpl. lia.
Qed.

(** Applying in order: [updateLastApplied] moves by exactly one index, to
    the position of the next committed entry, and stops when nothing is
    committed beyond [lastApplied] or the log ends there. *)
Theorem updateLastApplied_spec s :
  log_ok s -> in_int64 (lastApplied s) -> in_int64 (commitIndex s) -> base s - 1 <= lastApplied s ->
  if decide (lastApplied s < commitIndex s /\ lastApplied s < lastIdx s) then
    exists i e, updateLastApplied s = Some (s <| lastApplied := lastApplied s + 1 |>, Some i) /\
      getLog i s = Some e /\ log_at s (lastApplied s + 1) = Some e /\ Index e = lastApplied s + 1
  else updateLastApplied s = Some (s, None).
Proof.
  intros Hlog Hint Hcommit Hb.
  destruct (updateLastApplied_run s Hlog Hint Hcommit Hb) as [-> Hrun].
  case_decide as Hd; [| done]. destruct Hrun as (i & e & Hi & He); [done |].
  exists i, e. rewrite Hi. split; [done |].
  split; [| split; [done | apply (log_at_Some _ _ _ (proj2 Hlog) He)]].
  unfold getLog. destruct (log_at_position _ _ _ Hi) as (<- & _). done.
Qed.

(** The hash chain differs between the two sides. Appending the same entry
    to the same log, the leader hashes it before the cursor covers it, so the
    hash is chained to the snapshot (or to nothing), while the follower hashes
    it after, chained to the previous entry's hash. *)
Theorem hash_chain_sides s e id h :
  log_ok s -> (0 < nextLogIdx s < logArrayCapacity)%nat ->
  Index e = lastIdx s + 1 -> Type_ e <> LogConfiguration -> hash_at s (lastIdx s) = Some h ->
  exists sl sf,
    appendEntry id e s = Some sl /\ mergeEntry (nextLogIdx s) e s = Some sf /\
    live sl = live sf /\
    hash_at sl (lastIdx s + 1) = Some (sha256 (raftLogBytes e ++ chain_seed s)) /\
    hash_at sf (lastIdx s + 1) = Some (sha256 (raftLogBytes e ++ h)).
Proof.
  intros Hlog Hn Hidx Hty Hh. pose proof Hlog as [Hok Hc].
  destruct (appendEntry_spec id e s Hlog) as (sl & Hrun & _ & Esl & Hl & Hhl); [lia | done |].
  destruct (mergeEntry_hash s e h Hlog Hn Hidx Hty Hh) as (sf & Hrunf & Hlf & Hbf & Hhf).
  pose proof (length_liveHashes s Hok) as Hlen.
  exists (trackOwn id (Index e) sl), sf. do 2 (split; [done |]).
  split; [by rewrite Hlf |].
  assert (Z.to_nat (lastIdx s + 1 - base s) = nextLogIdx s) as Epos by (unfold lastIdx; lia).
  unfold hash_at. rewrite Hbf, Hhf, Epos, (decide_True (P := base s <= _)) by apply lastIdx_base.
  change (base (trackOwn id (Index e) sl)) with (base sl).
  change (liveHashes (trackOwn id (Index e) sl)) with (liveHashes sl).
  assert (base sl = base s) as -> by (by rewrite Esl).
  rewrite Epos, decide_True by apply lastIdx_base. rewrite Hhl, <- Hlen.
  by rewrite !list_lookup_middle by done.
Qed.

End log_properties.

(** ** Where replication falls short *)

Section shortcomings.
Context `{GoPlatform}.

Lemma backoff_round_stuck gameState me l f :
  stuck me l f ->
  exists l' f', backoff_round gameState me (l, f) = Some (l', f') /\ stuck me l' f' /\
    live l' = live l /\ live f' = live f /\ lastIdx f' = lastIdx f.
Proof.
  intros [Hl Hf Hb Ht Hlast Hnext Hlb Hdiff]. unfold backoff_round.
  rewrite getAppendEntriesArgs_run by done. rewrite Hnext, decide_False by lia. simpl.
  set (n := lastIdx f) in *. set (args := messageFor n l).
  assert (ae_PrevLogIndex args = n - 1) as Hprev by (simpl; lia).
  assert (abs_prev (ae_PrevLogIndex args) (ae_PrevLogTerm args) (abs f) = None) as Hp.
  { unfold abs_prev. simpl a_base. simpl a_entries. rewrite Hprev, Hb, decide_False by lia.
    destruct (log_at_is_Some f (n - 1) (proj1 Hf)) as [e He]; [lia |].
    pose proof (Hdiff e He) as Hne.
    unfold log_at in He. rewrite Hb, decide_True in He by lia. rewrite He.
    assert (ae_PrevLogTerm args = termAt l (n - 1)) as -> by (simpl; f_equal; lia).
    by rewrite (proj2 (Z.eqb_neq _ _) Hne). }
  assert (currentTerm f <= ae_Term args) as Htm by done.
  rewrite handleAppendEntries_unfold by done. cbv zeta. rewrite Hp. simpl.
  unfold handleAppendEntriesResponse. simpl. fields.
  rewrite Z.ltb_irrefl, (proj2 (Z.leb_le 0 (lastIdx f))) by (fold n; lia).
  pose proof (acceptTerm_fields _ _ Htm) as (Et & _ & El & Eh & En & Es & _).
  set (f1 := acceptTerm (ae_Term args) f) in *.
  assert (lastIdx f1 = n) as Elast by (unfold lastIdx, base; by rewrite Es, En).
  assert (log_ok f1) as Hf1 by (by apply acceptTerm_log_ok).
  eexists _, f1. split; [done |]. split; [| split; [done |]; split; [| done]].
  2: { unfold live. by rewrite El, En. }
  constructor; fields; rewrite ?Elast, ?map_get_insert; try done.
  - by apply (log_ok_update l).
  - unfold base. by rewrite Es.
  - simpl in Et. lia.
  - intros e. unfold log_at, base, live. rewrite Es, El, En. apply Hdiff.
Qed.

(** C35. Back-off can stand still. [nextIndex] is rolled back to the follower's
    last index, not below it: when the two logs disagree just before that index,
    every round is rejected and leaves [nextIndex] and both logs as they were,
    for any number of rounds. *)
Theorem backoff_stands_still n gameState me l f :
  stuck me l f ->
  exists l' f', backoff_rounds n gameState me (l, f) = Some (l', f') /\
    map_get (nextIndex l') me = map_get (nextIndex l) me /\ live l' = live l /\ live f' = live f.
Proof.
  revert l f. induction n as [|n IH]; intros l f Hst; [by exists l, f |].
  destruct (backoff_round_stuck gameState me l f Hst) as (l1 & f1 & E1 & Hst1 & El & Ef & Eidx).
  destruct (IH l1 f1 Hst1) as (l2 & f2 & E2 & Hn & El2 & Ef2).
  exists l2, f2. cbn [backoff_rounds]. rewrite E1. simpl. split; [done |].
  rewrite Hn, (st_next _ _ _ Hst1), (st_next _ _ _ Hst), El2, Ef2. done.
Qed.

(** C36. A message that starts behind the receiver's snapshot is merged at the
    front of the array anyway: once accepted, the log no longer continues the
    snapshot, since its first entry has the message's first index. *)
Theorem merge_behind_snapshot gameState myID aea s s' r e0 :
  log_ok s -> ae_PrevLogIndex aea + 1 < base s ->
  contiguous_from (ae_PrevLogIndex aea + 1) (ae_Entries aea) -> ae_Entries aea !! 0%nat = Some e0 ->
  handleAppendEntries gameState myID aea s = Some (s', r) -> aer_Success r = true ->
  base s' = base s /\ (exists x, live s' !! 0%nat = Some x /\ Index x = Index e0) /\ ~ contiguous s'.
Proof.
  intros Hlog Hb Hes He0 Hrun Hok.
  destruct (accepted_fits gameState myID aea s s' r Hlog Hrun Hok) as (start & Ht & Hp & Hcap).
  assert (start = 0%nat) as ->.
  { unfold abs_prev in Hp. simpl in Hp. rewrite decide_True in Hp by lia. congruence. }
  destruct (handleAppendEntries_accept gameState myID aea s 0 Hlog Ht Hp Hcap)
    as (s2 & Hrun2 & _ & Habs & _).
  rewrite Hrun in Hrun2. assert (s2 = s') as -> by congruence.
  unfold abs, abs_merge in Habs. simpl in Habs. injection Habs as Eb El.
  destruct (mergeTail_agrees (drop 0 (live s)) _ _ _ He0) as (x & Hx & Ex & _). rewrite <- El in Hx.
  split; [done |]. split; [by exists x |].
  intros Hc. pose proof (Hc _ _ Hx) as E. rewrite Ex, (Hes _ _ He0), Eb in E. lia.
Qed.

End shortcomings.

(** Bounds of the commit index after an accepted message: with indices
    below 2^53 it never exceeds the leader's commit index nor the last entry of
    the message, and it does not go back if the message reaches that far. *)
Theorem commit_after_bounds `{GoPlatform} aea commit :
  Z.abs (ae_LeaderCommit aea) <= 2 ^ 53 ->
  Forall (fun e => Z.abs (Index e) <= 2 ^ 53) (ae_Entries aea) ->
  let last := ae_Entries aea !! (length (ae_Entries aea) - 1)%nat in
  let commit' := commit_after aea commit in
  commit' <= Z.max commit (ae_LeaderCommit aea) /\
  (forall e, last = Some e -> commit < ae_LeaderCommit aea -> commit' = Z.min (ae_LeaderCommit aea) (Index e)) /\
  ((forall e, last = Some e -> commit <= Index e) -> commit <= commit').
Proof.
  intros Hlc Hes last commit'. unfold commit', commit_after. fold last.
  destruct (Z.ltb_spec commit (ae_LeaderCommit aea)) as [Hlt|Hge].
  2: { repeat split; intros; lia. }
  destruct last as [e|] eqn:Elast.
  2: { repeat split; intros; simplify_eq; lia. }
  assert (Z.abs (Index e) <= 2 ^ 53) as He.
  { apply (Forall_lookup_1 _ _ _ _ Hes Elast). }
  rewrite go_float_min_exact by done. repeat split; intros; simplify_eq; [lia | done |].
  specialize (H0 e eq_refl). lia.
Qed.

(** The bound is tight in the other direction: a delayed message takes the
    commit index back, here from 4 to 1. *)
Example commit_goes_back :
  let f := node "n2" 1 [cmd 0 1; cmd 1 1; cmd 2 1; cmd 3 1; cmd 4 1] <| commitIndex := 4 |> in
  let aea := mkAppendEntriesArgs 1 "n1" 0 1 [cmd 1 1] 5 in
  (fun '(s, r) => (commitIndex s, aer_Success r)) <$> handleAppendEntries (H := amd64) [] "n2" aea f
  = Some (1, true).
Proof. vm_compute. reflexivity. Qed.

(** And beyond 2^53 the float64 detour commits past what the leader committed. *)
Example commit_exceeds_leader :
  let k := 2 ^ 53 + 3 in
  commit_after (H := amd64) (mkAppendEntriesArgs 1 "n1" (k - 1) 1 [cmd k 1] k) 0 = k + 1.
Proof. vm_compute. reflexivity. Qed.

(** The hashes really differ: the same entry at index 1, appended by a leader
    and merged by a follower. *)
Example hash_sides_differ :
  let s := node "n1" 1 [cmd 0 1] in
  (s' ← appendEntry "n1" (cmd 1 1) s; hash_at s' 1) <> (s' ← mergeEntry 1 (cmd 1 1) s; hash_at s' 1).
Proof. vm_compute. discriminate. Qed.

(** ** Instances *)

#[local] Existing Instance amd64.

Definition follower3 : nodeState := node "n2" 1 [cmd 0 1; cmd 1 1; cmd 2 1].

(** A message that conflicts with [follower3] at index 1. *)
Definition conflict : AppendEntriesArgs := mkAppendEntriesArgs 2 "n1" 0 1 [cmd 1 2; cmd 2 2] 2.

Lemma handleAppendEntries_log_matching_witness :
  exists s' r, handleAppendEntries [] "n2" conflict follower3 = Some (s', r) /\ aer_Success r = true /\
    log_ok s' /\ exists x, log_at s' 2 = Some x /\ Term x = 2.
Proof.
  destruct (observe (handleAppendEntries [] "n2" conflict follower3) (fun _ r => aer_Success r) true
              ltac:(vm_compute; reflexivity)) as (s' & r & Hrun & Hok).
  exists s', r.
  destruct (handleAppendEntries_log_matching [] "n2" conflict follower3 s' r) as (Hl & _ & _ & Hat).
  - sample.
  - vm_compute. discriminate.
  - vm_compute. discriminate.
  - vm_compute. discriminate.
  - apply contiguousb_spec. reflexivity.
  - exact Hrun.
  - exact Hok.
  - destruct (Hat 1%nat (cmd 2 2) eq_refl) as (x & Hx & _ & Ht).
    split; [exact Hrun |]. split; [exact Hok |]. split; [exact Hl |].
    exists x. exact (conj Hx Ht).
Defined.

(** 1024 entries do not fit the array, which must stay one short of full. *)
Definition oversized : AppendEntriesArgs :=
  mkAppendEntriesArgs 2 "n1" (-1) (-1) (replicate 1024 (cmd 0 2)) 0.

Lemma handleAppendEntries_full_witness :
  exists s' ok,
    takeSnapshot [] (acceptTerm 2 follower3 <| currentLeader := "n1" |>) = Some (s', ok) /\
    handleAppendEntries [] "n2" oversized follower3 =
      Some (s', mkAppendEntriesResponse "n2" 2 false (lastIdx follower3)).
Proof.
  apply (handleAppendEntries_full [] "n2" oversized follower3 0%nat).
  - sample.
  - vm_compute. discriminate.
  - vm_compute. reflexivity.
  - vm_compute. lia.
Defined.

Lemma handleAppendEntries_total_witness :
  exists s' r, handleAppendEntries [] "n2" oversized follower3 = Some (s', r) /\ array_ok s'.
Proof.
  destruct (handleAppendEntries_total [] "n2" oversized follower3) as (s' & r & Hrun & Hok & _).
  - refine (proj1 (_ : log_ok follower3)). sample.
  - exists s', r. exact (conj Hrun Hok).
Defined.

(** A leader in term 1 whose entry 1 is on one of its two peers. *)
Definition leader2 : nodeState :=
  leading 1 (node "n1" 1 [cmd 0 1; cmd 1 1]) "n1" "n2" <| matchIndex := {["n1" := 1; "n2" := 1; "n3" := -1]} |>.

Lemma leader2_ok : log_ok leader2.
Proof. unfold leader2. sample. Qed.

Lemma checkCommits_spec_witness :
  exists s', checkCommits leader2 = Some s' /\ commitIndex leader2 <= commitIndex s' /\ commitIndex s' = 1.
Proof.
  destruct (checkCommits_spec leader2 leader2_ok) as (s' & Hrun & _ & Hle & _).
  destruct (observe1 (checkCommits leader2) commitIndex 1 ltac:(vm_compute; reflexivity))
    as (s2 & Hrun2 & Hc).
  exists s'. split; [exact Hrun |]. split; [exact Hle |]. congruence.
Defined.

Lemma submitted :
  exists s', addCommandLog [] "n1" "client" 2 [Byte.x62] leader2 = Some (s', 2) /\
    log_ok s' /\ lastIdx s' = 2.
Proof.
  pose proof (addCommandLog_run [] "n1" "client" 2 [Byte.x62] leader2 leader2_ok) as Hth.
  rewrite decide_True in Hth by (left; vm_compute; lia).
  destruct (Hth ltac:(vm_compute; split; discriminate) ltac:(vm_compute; reflexivity))
    as (s' & Hrun & Hok & Hl & _).
  exists s'. exact (conj Hrun (conj Hok Hl)).
Defined.

Lemma getAppendEntriesArgs_spec_witness :
  exists s' args, getAppendEntriesArgs "n2" leader2 = Some (s', Some args) /\ ae_PrevLogIndex args = 0.
Proof.
  pose proof (getAppendEntriesArgs_spec "n2" leader2 leader2_ok) as Hth. cbv zeta in Hth.
  rewrite decide_False in Hth by (vm_compute; discriminate).
  destruct Hth as (s' & args & Hrun & _ & _ & _ & Hp & _).
  exists s', args. exact (conj Hrun Hp).
Defined.

Lemma replication_round_witness :
  exists l' args f' r, getAppendEntriesArgs "n2" leader2 = Some (l', Some args) /\
    handleAppendEntries [] "n2" args (node "n2" 0 [cmd 0 1]) = Some (f', r) /\
    exists e x, log_at leader2 1 = Some e /\ log_at f' 1 = Some x /\ Term x = Term e.
Proof.
  pose (args := messageFor 1 leader2).
  destruct (observe (getAppendEntriesArgs "n2" leader2) (fun _ a => a) (Some args)
              ltac:(vm_compute; reflexivity)) as (l' & args' & Ha & ->).
  destruct (observe (handleAppendEntries [] "n2" args (node "n2" 0 [cmd 0 1]))
              (fun _ r => aer_Success r) true ltac:(vm_compute; reflexivity)) as (f' & r & Hf & Hok).
  exists l', args, f', r. split; [exact Ha |]. split; [exact Hf |].
  destruct (replication_round [] "n2" leader2 l' args (node "n2" 0 [cmd 0 1]) f' r) as (_ & _ & Hk & _).
  - apply leader2_ok.
  - sample.
  - exact Ha.
  - vm_compute. discriminate.
  - vm_compute. discriminate.
  - exact Hf.
  - exact Hok.
  - destruct (Hk 1 ltac:(vm_compute; split; discriminate)) as (e & x & He & Hx & _ & Ht).
    exists e, x. exact (conj He (conj Hx Ht)).
Defined.

Lemma updateLastApplied_spec_witness :
  exists i e, updateLastApplied (leader2 <| commitIndex := 1 |>) =
                Some (leader2 <| commitIndex := 1 |> <| lastApplied := 0 |>, Some i) /\
    getLog i (leader2 <| commitIndex := 1 |>) = Some e /\ Index e = 0.
Proof.
  pose proof (updateLastApplied_spec (leader2 <| commitIndex := 1 |>)) as Hth.
  rewrite decide_True in Hth by (vm_compute; split; reflexivity).
  destruct Hth as (i & e & Hrun & Hg & _ & Hi).
  - apply committed_log_ok. apply leader2_ok.
  - vm_compute. split; discriminate.
  - vm_compute. split; discriminate.
  - vm_compute. discriminate.
  - exists i, e. exact (conj Hrun (conj Hg Hi)).
Defined.

Lemma hash_chain_sides_witness :
  exists h sl sf, hash_at leader2 1 = Some h /\
    appendEntry "n1" (cmd 2 1) leader2 = Some sl /\ mergeEntry 2 (cmd 2 1) leader2 = Some sf /\
    hash_at sl 2 = Some (sha256 (raftLogBytes (cmd 2 1) ++ [])) /\
    hash_at sf 2 = Some (sha256 (raftLogBytes (cmd 2 1) ++ h)).
Proof.
  destruct (hash_at leader2 1) as [h|] eqn:Hh; [| vm_compute in Hh; discriminate].
  destruct (hash_chain_sides leader2 (cmd 2 1) "n1" h) as (sl & sf & H1 & H2 & _ & H3 & H4).
  - apply leader2_ok.
  - vm_compute. lia.
  - vm_compute. reflexivity.
  - discriminate.
  - exact Hh.
  - exists h, sl, sf. exact (conj eq_refl (conj H1 (conj H2 (conj H3 H4)))).
Defined.

(** Terms 1,1,3 on the leader against 1,2,2 on the follower. *)
Definition stuck_leader : nodeState := leading 2 (node "n1" 3 [cmd 0 1; cmd 1 1; cmd 2 3]) "n1" "n2".
Definition stuck_follower : nodeState := node "n2" 2 [cmd 0 1; cmd 1 2; cmd 2 2].

Lemma backoff_stands_still_witness :
  exists l' f', backoff_rounds 1000 [] "n2" (stuck_leader, stuck_follower) = Some (l', f') /\
    map_get (nextIndex l') "n2" = 2.
Proof.
  destruct (backoff_stands_still 1000 [] "n2" stuck_leader stuck_follower) as (l' & f' & Hrun & Hn & _).
  - constructor.
    + sample.
    + sample.
    + vm_compute. reflexivity.
    + vm_compute. discriminate.
    + vm_compute. split; discriminate.
    + vm_compute. reflexivity.
    + vm_compute. split; discriminate.
    + intros e He. vm_compute in He. injection He as <-. vm_compute. discriminate.
  - exists l', f'. exact (conj Hrun Hn).
Defined.

(** A follower with a snapshot up to 5 and entries 6, 7 receives 4, 5, 6. *)
Definition snap_follower : nodeState := node_snap "n2" 1 5 1 [cmd 6 1; cmd 7 1].
Definition late : AppendEntriesArgs := mkAppendEntriesArgs 1 "n1" 3 1 [cmd 4 1; cmd 5 1; cmd 6 1] 5.

Lemma merge_behind_snapshot_witness :
  exists s' r, handleAppendEntries [] "n2" late snap_follower = Some (s', r) /\ ~ contiguous s'.
Proof.
  destruct (observe (handleAppendEntries [] "n2" late snap_follower) (fun _ r => aer_Success r) true
              ltac:(vm_compute; reflexivity)) as (s' & r & Hrun & Hok).
  exists s', r. split; [exact Hrun |].
  apply (merge_behind_snapshot [] "n2" late snap_follower s' r (cmd 4 1)).
  - sample.
  - vm_compute. reflexivity.
  - apply contiguousb_spec. reflexivity.
  - reflexivity.
  - exact Hrun.
  - exact Hok.
Defined.

Lemma commit_after_bounds_witness :
  commit_after conflict 0 = Z.min 2 2.
Proof.
  destruct (commit_after_bounds conflict 0) as (_ & Hmin & _).
  - vm_compute. discriminate.
  - repeat constructor; vm_compute; discriminate.
  - exact (Hmin (cmd 2 2) eq_refl eq_refl).
Defined.
