(* ===== verification/Protocol.v ===== *)
(** * Protocol: the AppendEntries rule of the Raft paper, and its refinement

    The rule for the receiver of AppendEntries as the paper states it (figure 2,
    with the snapshot of section 7), on logs that are addressed by index: without
    arrays, positions, hashes or floating point. [handleAppendEntries] carries it
    out on every message that does not reach behind the receiver's snapshot; what
    it does with the others is [merge_behind_snapshot] of LogTheorems.v. *)
From S2P Require Import Prelude GoFloat Types State SnapshotOps ConfigChange Log Samples LogTheorems.

(** ** The rule *)

(** A log: the entries from index [first] on, and the term of the last entry the
    snapshot covers, if there is a snapshot. *)
Record RaftView := mkRaftView { first : Z; snapshotTerm : option Z; entries : list RaftLog }.

Definition entry_of (l : RaftView) (k : Z) : option RaftLog :=
  if decide (first l <= k) then entries l !! Z.to_nat (k - first l) else None.

(** The term of the entry at an index: of the snapshot's last one too. *)
Definition term_of (l : RaftView) (k : Z) : option Z :=
  if decide (k = first l - 1) then snapshotTerm l else Term <$> entry_of l k.

(** The log contains an entry at [prevIdx] with term [prevTerm]; what comes
    before the first entry of all is contained in every log. *)
Definition consistent (l : RaftView) (prevIdx prevTerm : Z) : Prop :=
  prevIdx = -1 \/ term_of l prevIdx = Some prevTerm.

#[export] Instance consistent_dec l prevIdx prevTerm : Decision (consistent l prevIdx prevTerm).
Proof. unfold consistent. apply _. Defined.

(** One new entry: an existing entry with the same index and another term is
    deleted with all that follow it; an entry not in the log is appended. *)
Definition add_entry (l : RaftView) (e : RaftLog) : RaftView :=
  match entry_of l (Index e) with
  | Some x =>
      if decide (Term x = Term e) then l
      else mkRaftView (first l) (snapshotTerm l) (take (Z.to_nat (Index e - first l)) (entries l) ++ [e])
  | None => mkRaftView (first l) (snapshotTerm l) (entries l ++ [e])
  end.

Definition add_entries (l : RaftView) (es : list RaftLog) : RaftView := foldl add_entry l es.

(** If the leader's commit index is greater, the smaller of it and the index of
    the last new entry. *)
Definition last_new (aea : AppendEntriesArgs) : Z :=
  match last (ae_Entries aea) with Some e => Index e | None => ae_PrevLogIndex aea end.

Definition new_commit (aea : AppendEntriesArgs) (commit : Z) : Z :=
  if commit <? ae_LeaderCommit aea then Z.min (ae_LeaderCommit aea) (last_new aea) else commit.

(** ** The refinement *)

(** What the arrays hold. *)
Definition view (s : nodeState) : RaftView :=
  mkRaftView (base s) (LastIncludedTerm <$> lastSnapshot s) (live s).

(** A message as a leader sends it to a node that has not compacted past it: the
    entries follow the previous index; that index is not behind the node's
    snapshot, and at the snapshot's last entry it comes with that entry's term
    (the entry is committed, so every later leader has it); a message without
    entries says nothing about commits beyond the previous index; and the
    indices are exact as float64. *)
Record well_sent (aea : AppendEntriesArgs) (s : nodeState) : Prop := {
  ws_prev : -1 <= ae_PrevLogIndex aea;
  ws_entries : contiguous_from (ae_PrevLogIndex aea + 1) (ae_Entries aea);
  ws_behind : base s - 1 <= ae_PrevLogIndex aea;
  ws_boundary : forall snap, lastSnapshot s = Some snap -> ae_PrevLogIndex aea = LastIncludedIndex snap ->
    ae_PrevLogTerm aea = LastIncludedTerm snap;
  ws_heartbeat : ae_Entries aea = [] -> ae_LeaderCommit aea <= ae_PrevLogIndex aea;
  ws_exact : Z.abs (ae_LeaderCommit aea) <= 2 ^ 53 /\
    ae_PrevLogIndex aea + Z.of_nat (length (ae_Entries aea)) <= 2 ^ 53;
}.

(** The positional merge is the rule, entry by entry. *)
Lemma add_entries_merge b t pre tail es :
  contiguous_from b (pre ++ tail) -> contiguous_from (b + Z.of_nat (length pre)) es ->
  add_entries (mkRaftView b t (pre ++ tail)) es = mkRaftView b t (pre ++ mergeTail tail es).
Proof.
  revert pre tail. induction es as [|e es IH]; intros pre tail Hc Hes; [by rewrite mergeTail_nil_r |].
  assert (Index e = b + Z.of_nat (length pre)) as Hidx.
  { rewrite (Hes 0%nat e eq_refl). lia. }
  assert (contiguous_from (b + Z.of_nat (length (pre ++ [e]))) es) as Hes'.
  { intros i x Hx. rewrite length_app. simpl. rewrite (Hes (S i) x Hx). lia. }
  assert (Z.to_nat (Index e - b) = length pre) as Hpos by lia.
  unfold add_entries. cbn [foldl]. unfold add_entry at 2, entry_of. cbn [first entries].
  rewrite decide_True by lia. rewrite Hpos.
  assert (contiguous_from b (pre ++ [e])) as Hce.
  { apply contiguous_app; [| by apply contiguous_singleton].
    intros i x Hx. apply Hc. by apply lookup_app_l_Some. }
  destruct tail as [|x tail].
  - rewrite app_nil_r, (proj2 (lookup_ge_None pre _)) by done. cbn [snapshotTerm].
    pose proof (IH (pre ++ [e]) [] ltac:(by rewrite app_nil_r) Hes') as E.
    rewrite app_nil_r, mergeTail_nil_l, <- app_assoc in E. exact E.
  - rewrite lookup_app_r, Nat.sub_diag by done. cbn [lookup list_lookup mergeTail].
    assert (Index x = Index e) as Hx.
    { rewrite Hidx. apply Hc. by rewrite lookup_app_r, Nat.sub_diag. }
    unfold same_entry. rewrite Hx, Z.eqb_refl. cbn [andb snapshotTerm]. case_decide as Ht.
    + rewrite Ht, Z.eqb_refl.
      pose proof (IH (pre ++ [x]) tail) as E. rewrite <- !app_assoc, length_app in E. cbn [app length] in E.
      apply E; [done |]. rewrite length_app in Hes'. exact Hes'.
    + rewrite (proj2 (Z.eqb_neq _ _)) by done. rewrite take_app_length.
      pose proof (IH (pre ++ [e]) [] ltac:(by rewrite app_nil_r) Hes') as E.
      rewrite app_nil_r, mergeTail_nil_l, <- app_assoc in E. exact E.
Qed.

Section refinement.
Context `{GoPlatform}.
Implicit Types s : nodeState.

Lemma term_of_boundary s : term_of (view s) (base s - 1) = LastIncludedTerm <$> lastSnapshot s.
Proof. unfold term_of. by rewrite decide_True. Qed.

Lemma term_of_inside s k : base s <= k -> term_of (view s) k = Term <$> live s !! Z.to_nat (k - base s).
Proof.
  intros Hk. unfold term_of, entry_of. cbn [first entries view].
  rewrite decide_False by lia. by rewrite decide_True.
Qed.

(** The check: from which array position the code merges. *)
Lemma consistent_abs_prev aea s :
  0 <= base s -> well_sent aea s ->
  abs_prev (ae_PrevLogIndex aea) (ae_PrevLogTerm aea) (abs s) =
    if decide (consistent (view s) (ae_PrevLogIndex aea) (ae_PrevLogTerm aea))
    then Some (Z.to_nat (ae_PrevLogIndex aea + 1 - base s)) else None.
Proof.
  intros Hb [Hprev _ Hbeh Hbd _ _]. unfold abs_prev. cbn [a_base a_entries abs].
  destruct (decide (ae_PrevLogIndex aea < base s)) as [Hlt|Hge].
  - assert (ae_PrevLogIndex aea = base s - 1) as Hp by lia. rewrite decide_True by auto.
    rewrite decide_True; [f_equal; lia |]. unfold consistent. rewrite Hp, term_of_boundary.
    unfold base in Hp, Hb |- *. destruct (lastSnapshot s) as [snap|] eqn:Es; [right | left; lia].
    assert (ae_PrevLogIndex aea = LastIncludedIndex snap) as Hi by lia. cbn. by rewrite (Hbd snap eq_refl Hi).
  - rewrite decide_False by lia.
    assert (consistent (view s) (ae_PrevLogIndex aea) (ae_PrevLogTerm aea) <->
      Term <$> live s !! Z.to_nat (ae_PrevLogIndex aea - base s) = Some (ae_PrevLogTerm aea)) as Hc.
    { unfold consistent. rewrite term_of_inside by lia. split; [by intros [?|?]; [lia |] | by right]. }
    destruct (live s !! Z.to_nat (ae_PrevLogIndex aea - base s)) as [e|]; cbn in Hc.
    + destruct (Z.eqb_spec (Term e) (ae_PrevLogTerm aea)) as [Ht|Ht].
      * rewrite decide_True by (apply Hc; by rewrite Ht). f_equal. lia.
      * rewrite decide_False; [done |]. by intros [= ?]%Hc.
    + rewrite decide_False; [done |]. by intros ?%Hc.
Qed.

Lemma commit_after_new aea s commit :
  0 <= base s -> well_sent aea s -> commit_after aea commit = new_commit aea commit.
Proof.
  intros Hb [Hprev Hes _ _ Hhb [Hx1 Hx2]]. unfold commit_after, new_commit, last_new.
  destruct (Z.ltb_spec commit (ae_LeaderCommit aea)) as [Hlt|]; [| done].
  rewrite last_lookup, <- Nat.sub_1_r.
  destruct (ae_Entries aea !! (length (ae_Entries aea) - 1)%nat) as [e|] eqn:El.
  - apply lookup_lt_Some in El as Hl. rewrite (Hes _ _ El) at 2.
    rewrite go_float_min_exact; rewrite ?(Hes _ _ El); [lia | done | lia].
  - apply lookup_ge_None in El. destruct (ae_Entries aea) as [|x l]; [| simpl in El; lia].
    specialize (Hhb eq_refl). lia.
Qed.

(** What a leader whose commit index is within its log sends is such a message,
    for a receiver that has compacted at most up to the previous entry, and
    agrees with the leader on the last one it has compacted. *)
Lemma messageFor_well_sent next l s :
  log_ok l -> 0 <= base l <= next -> -1 <= commitIndex l <= lastIdx l -> lastIdx l <= 2 ^ 53 ->
  let prev := Z.min (next - 1) (lastIdx l) in
  base s - 1 <= prev ->
  (forall snap, lastSnapshot s = Some snap -> LastIncludedIndex snap = prev -> termAt l prev = LastIncludedTerm snap) ->
  well_sent (messageFor next l) s.
Proof.
  intros Hlog [Hb Hn] Hc H53 prev Hs Hbd. pose proof (lastIdx_base l) as Hlb.
  pose proof (length_live l (proj1 Hlog)) as Hlen.
  assert (base l - 1 <= prev) as Hp by (unfold prev; lia).
  assert (lastIdx l = base l + Z.of_nat (nextLogIdx l) - 1) as Hidx by reflexivity.
  split; cbn [messageFor ae_PrevLogIndex ae_PrevLogTerm ae_Entries ae_LeaderCommit]; fold prev.
  - lia.
  - apply (messageFor_contiguous next l); done || lia.
  - done.
  - intros snap Es Ei. by apply Hbd.
  - intros Hd. apply (f_equal length) in Hd. rewrite length_drop, Hlen in Hd. cbn in Hd. lia.
  - rewrite length_drop, Hlen. lia.
Qed.

(** C3. The follower's side of AppendEntries refines the paper's rule. A message
    from an older term is refused with the current one and changes nothing. For
    any other that is [well_sent]: the node becomes a follower in the message's
    term; when its log is not consistent with the previous entry the message is
    refused and the log stays; otherwise, when the result fits the array, the
    call succeeds, the log is the one with the new entries added as the rule
    says, the sender is the leader, and [commitIndex] is the rule's. *)
Theorem handleAppendEntries_refines gameState myID aea s :
  log_ok s -> 0 <= base s -> well_sent aea s ->
  if decide (ae_Term aea < currentTerm s) then
    handleAppendEntries gameState myID aea s =
      Some (s, mkAppendEntriesResponse myID (currentTerm s) false (lastIdx s))
  else if decide (consistent (view s) (ae_PrevLogIndex aea) (ae_PrevLogTerm aea)) then
    ae_PrevLogIndex aea + 1 - base s + Z.of_nat (length (ae_Entries aea)) < Z.of_nat logArrayCapacity ->
    exists s',
      handleAppendEntries gameState myID aea s =
        Some (s', mkAppendEntriesResponse myID (ae_Term aea) true (lastIdx s)) /\
      array_ok s' /\ view s' = add_entries (view s) (ae_Entries aea) /\
      currentTerm s' = ae_Term aea /\ role s' = Follower /\
      currentLeader s' = ae_LeaderID aea /\ lastApplied s' = lastApplied s /\
      commitIndex s' = new_commit aea (commitIndex s)
  else
    exists s',
      handleAppendEntries gameState myID aea s =
        Some (s', mkAppendEntriesResponse myID (ae_Term aea) false (lastIdx s)) /\
      log_ok s' /\ view s' = view s /\ currentTerm s' = ae_Term aea /\ role s' = Follower /\
      lastApplied s' = lastApplied s /\ commitIndex s' = commitIndex s.
Proof.
  intros Hlog Hb Hws. destruct (decide _) as [Hst|Ht%Z.nlt_ge].
  { unfold handleAppendEntries. rewrite getLastLogIdxTerm_ok by done. simpl.
    by rewrite (proj2 (Z.ltb_lt _ _) Hst). }
  pose proof (consistent_abs_prev aea s Hb Hws) as Hp. destruct (decide (consistent _ _ _)) as [Hc|Hc].
  - intros Hcap. set (start := Z.to_nat (ae_PrevLogIndex aea + 1 - base s)) in *.
    pose proof (ws_behind _ _ Hws) as Hbeh.
    destruct (handleAppendEntries_accept gameState myID aea s start Hlog Ht Hp ltac:(unfold start; lia))
      as (s' & Hrun & Hok & Habs & ? & ? & ? & ? & Hsnap & Hcm).
    exists s'. split; [done |]. split; [done |]. split.
    + pose proof (abs_prev_bound _ _ _ _ (proj1 Hlog) Hp) as Hbound.
      unfold abs, abs_merge in Habs. cbn [a_base a_entries] in Habs. injection Habs as Ebase Elive.
      unfold view. rewrite Hsnap, Ebase, Elive. symmetry. rewrite <- (take_drop start (live s)) at 1.
      apply add_entries_merge; [rewrite take_drop; apply Hlog |].
      rewrite length_take, Nat.min_l by (rewrite length_live by apply Hlog; lia).
      replace (base s + Z.of_nat start) with (ae_PrevLogIndex aea + 1) by (unfold start; lia).
      apply Hws.
    + do 4 (split; [done |]). rewrite Hcm. by apply (commit_after_new aea s).
  - rewrite handleAppendEntries_unfold by done. cbv zeta. rewrite Hp.
    pose proof (acceptTerm_fields _ _ Ht) as (Et & Er & El & Eh & En & Es & Ec & Ea).
    eexists. split; [done |]. split; [by apply acceptTerm_log_ok |]. split; [| done].
    assert (abs (acceptTerm (ae_Term aea) s) = abs s) as Habs by (by apply abs_update).
    unfold abs in Habs. injection Habs as Eb Elv. unfold view. by rewrite Es, Eb, Elv.
Qed.
End refinement.

(** ** An instance *)

#[local] Existing Instance amd64.

(** The message that conflicts with [follower3] at index 1. *)
Lemma handleAppendEntries_refines_witness :
  exists s', handleAppendEntries [] "n2" conflict follower3 =
               Some (s', mkAppendEntriesResponse "n2" 2 true (lastIdx follower3)) /\
    entries (view s') = [cmd 0 1; cmd 1 2; cmd 2 2].
Proof.
  assert (well_sent conflict follower3) as Hws.
  { split.
    - vm_compute. discriminate.
    - apply contiguousb_spec. vm_compute. reflexivity.
    - vm_compute. discriminate.
    - vm_compute. discriminate.
    - vm_compute. discriminate.
    - split; vm_compute; discriminate. }
  pose proof (handleAppendEntries_refines [] "n2" conflict follower3 ltac:(sample) ltac:(vm_compute; discriminate) Hws) as Hth.
  rewrite decide_False in Hth by (vm_compute; discriminate).
  rewrite decide_True in Hth by (right; vm_compute; reflexivity).
  destruct (Hth ltac:(vm_compute; reflexivity)) as (s' & Hrun & _ & Hview & _).
  exists s'. split; [exact Hrun |]. rewrite Hview. vm_compute. reflexivity.
Defined.
