(* ===== verification/Election.v ===== *)
(** * Election: leader election (src/raft/election.go) *)
From S2P Require Import Prelude GoFloat Sha256 Types State SnapshotOps ConfigChange Log.

Definition startElection (id : ServerID) (s : nodeState) : nodeState :=
  s <| currentTerm := currentTerm s +! 1 |>
    <| role := Candidate |>
    <| votedFor := id |>
    <| electionVotes := 1 |>.

Definition prepareRequestVoteRPC (id : ServerID) (s : nodeState) : option RequestVoteArgs :=
  '(lastIdx, lastTerm) ← getLastLogIdxTerm s;
  Some {| rv_Term := currentTerm s; rv_CandidateID := id;
          rv_LastLogIndex := lastIdx; rv_LastLogTerm := lastTerm |}.

(** The candidate's log is at least as up to date as one that ends at
    [lastIdx] in [lastTerm]. *)
Definition logOK (rva : RequestVoteArgs) (lastIdx lastTerm : Z) : bool :=
  (lastTerm <? rv_LastLogTerm rva)
    || ((rv_LastLogTerm rva =? lastTerm) && (lastIdx <=? rv_LastLogIndex rva)).

Definition canVote (rva : RequestVoteArgs) (s : nodeState) : bool :=
  bool_decide (votedFor s = "") || bool_decide (votedFor s = rv_CandidateID rva).

Definition handleRequestToVote (id : ServerID) (rva : RequestVoteArgs) (s : nodeState)
    : option (nodeState * RequestVoteResponse) :=
  '(lastIdx, lastTerm) ← getLastLogIdxTerm s;
  if rv_Term rva <? currentTerm s then
    Some (s, mkRequestVoteResponse id (currentTerm s) false)
  else
    let s := if currentTerm s <? rv_Term rva then updateCurrentTerm (rv_Term rva) s else s in
    if canVote rva s && logOK rva lastIdx lastTerm then
      let s := stopElectionTimeoutLocked s
                 <| role := Follower |>
                 <| votedFor := rv_CandidateID rva |>
                 <| currentLeader := rv_CandidateID rva |> in
      Some (s, mkRequestVoteResponse id (currentTerm s) true)
    else Some (s, mkRequestVoteResponse id (currentTerm s) false).

(** Returns whether the node has just won. *)
Definition updateElection (resp : RequestVoteResponse) (s : nodeState) : nodeState * bool :=
  if currentTerm s <? rvr_Term resp then
    let s := stopElectionTimeoutLocked s <| electionVotes := 0 |> in
    (updateCurrentTerm (rvr_Term resp) s <| role := Follower |>, false)
  else if (rvr_Term resp =? currentTerm s) && rvr_VoteGranted resp then
    let s := s <| electionVotes := electionVotes s +! 1 |> in
    (s, Z.of_nat (size (serverConfig s) / 2) <? electionVotes s)
  else (s, false).

Definition winElection (id : ServerID) (s : nodeState) : option nodeState :=
  '(lastIdx, _) ← getLastLogIdxTerm s;
  let s := s <| electionVotes := 0 |> <| role := Leader |> <| currentLeader := id |> in
  let s := s <| nextIndex := (fun _ => lastIdx +! 1) <$> nextIndex s |>
             <| matchIndex := <[id := -1]> (matchIndex s) |>
             <| lastSentLogIndex := <[id := -1]> (lastSentLogIndex s) |> in
  addNoopLogLocked id s.
