(* ===== verification/ElectionTheorems.v ===== *)
(** * ElectionTheorems: what one node does in elections

    The election handlers branch by branch, and the two places where they keep
    state that a new term or a new leadership should have cleared. The theorem
    about several nodes is in Cluster.v. *)
From S2P Require Import Prelude GoFloat Sha256 Types State SnapshotOps ConfigChange Log Samples Election.

(** ** Specification *)

(** The log order of the protocol: later term, or same term and no shorter. *)
Definition up_to_date (candTerm candIdx myTerm myIdx : Z) : Prop :=
  myTerm < candTerm \/ (candTerm = myTerm /\ myIdx <= candIdx).

Definition may_vote (rva : RequestVoteArgs) (s : nodeState) : Prop :=
  currentTerm s < rv_Term rva \/
  (currentTerm s = rv_Term rva /\ (votedFor s = "" \/ votedFor s = rv_CandidateID rva)).

(** ** Lemmas *)

Lemma logOK_spec rva i t :
  logOK rva i t = true <-> up_to_date (rv_LastLogTerm rva) (rv_LastLogIndex rva) t i.
Proof.
  unfold logOK, up_to_date. rewrite orb_true_iff, andb_true_iff, Z.ltb_lt, Z.eqb_eq, Z.leb_le. done.
Qed.

Lemma canVote_spec rva s :
  canVote rva s = true <-> votedFor s = "" \/ votedFor s = rv_CandidateID rva.
Proof. unfold canVote. by rewrite orb_true_iff, !bool_decide_eq_true. Qed.

Lemma stopElectionTimeout_frame s :
  frame (s <| electionTimer := electionTimer (stopElectionTimeoutLocked s) |>
           <| electionTimeoutStarted := electionTimeoutStarted (stopElectionTimeoutLocked s) |>)
        (stopElectionTimeoutLocked s) /\
  logs (stopElectionTimeoutLocked s) = logs s /\
  logHashes (stopElectionTimeoutLocked s) = logHashes s /\
  nextLogIdx (stopElectionTimeoutLocked s) = nextLogIdx s /\
  serverConfig (stopElectionTimeoutLocked s) = serverConfig s.
Proof.
  unfold stopElectionTimeoutLocked. destruct s. simpl.
  by match goal with |- context [match ?t with _ => _ end] => destruct t end.
Qed.

(** The handler's outcome, from which the properties read off. *)
Lemma handleRequestToVote_run id rva s :
  log_ok s ->
  exists s' g, handleRequestToVote id rva s =
      Some (s', mkRequestVoteResponse id (currentTerm s') g) /\
    currentTerm s' = Z.max (currentTerm s) (rv_Term rva) /\
    log_ok s' /\ live s' = live s /\ base s' = base s /\ serverConfig s' = serverConfig s /\
    (g = true <-> may_vote rva s /\
       up_to_date (rv_LastLogTerm rva) (rv_LastLogIndex rva) (lastTerm s) (lastIdx s)) /\
    (if g then votedFor s' = rv_CandidateID rva /\ role s' = Follower /\
               currentLeader s' = rv_CandidateID rva
     else role s' = role s /\ electionVotes s' = electionVotes s /\
          votedFor s' = if decide (currentTerm s < rv_Term rva) then "" else votedFor s).
Proof.
  intros Hlog. unfold handleRequestToVote. rewrite getLastLogIdxTerm_ok by done. simpl.
  destruct (Z.ltb_spec (rv_Term rva) (currentTerm s)) as [Hlt|Hge].
  { exists s, false. split; [done |]. split; [lia |]. do 4 (split; [done |]).
    split; [| by rewrite decide_False by lia].
    split; [done |]. unfold may_vote. intros [[?|[? _]] _]; lia. }
  set (s1 := if currentTerm s <? rv_Term rva then updateCurrentTerm (rv_Term rva) s else s).
  assert (currentTerm s1 = Z.max (currentTerm s) (rv_Term rva) /\ log_ok s1 /\ live s1 = live s /\
          base s1 = base s /\ serverConfig s1 = serverConfig s /\ role s1 = role s /\
          electionVotes s1 = electionVotes s /\
          votedFor s1 = (if decide (currentTerm s < rv_Term rva) then "" else votedFor s) /\
          (canVote rva s1 = true <-> may_vote rva s))
    as (Et & Hlog1 & El & Eb & Ec & Er & Ev & Evf & Hcan).
  { rewrite canVote_spec. unfold s1, may_vote.
    destruct (Z.ltb_spec (currentTerm s) (rv_Term rva)) as [Hterm|Hterm].
    - rewrite decide_True by done. unfold updateCurrentTerm. fields.
      split; [lia |]. split; [by apply (log_ok_update s) |]. do 6 (split; [done |]).
      split; [by left | by left].
    - rewrite decide_False by lia. split; [lia |]. do 7 (split; [done |]).
      assert (currentTerm s = rv_Term rva) by lia.
      split; [by right | intros [?|[_ ?]]; [lia | done]]. }
  clearbody s1.
  destruct (canVote rva s1 && logOK rva (lastIdx s) (lastTerm s)) eqn:Hg.
  - destruct (stopElectionTimeout_frame s1) as (Hf & Hl & Hh & Hn & Hc).
    pose proof (frame_currentTerm _ _ Hf) as Ft. pose proof (frame_lastSnapshot _ _ Hf) as Fs.
    exists (stopElectionTimeoutLocked s1 <| role := Follower |> <| votedFor := rv_CandidateID rva |>
              <| currentLeader := rv_CandidateID rva |>), true.
    split; [done |]. fields. rewrite <- Ft, Hc.
    split; [done |].
    split; [by apply (log_ok_update s1) |].
    split; [unfold live in *; by rewrite <- El; fields; rewrite Hl, Hn |].
    split; [unfold base in *; fields; by rewrite <- Fs |]. split; [done |]. split; [| done].
    apply andb_true_iff in Hg as [Hg1 Hg2]. rewrite logOK_spec in Hg2.
    split; [intros _; split; [by apply Hcan | done] | done].
  - exists s1, false. split; [done |]. do 5 (split; [done |]). split; [| done].
    split; [done |]. intros [Hm Hu]. apply Hcan in Hm. apply logOK_spec in Hu.
    by rewrite Hm, Hu in Hg.
Qed.

Lemma startElection_log_ok id s : log_ok s -> log_ok (startElection id s).
Proof. intros. by apply (log_ok_update s). Qed.

(** The outcome of a leader's append, for [winElection]. *)
Lemma addNoopLogLocked_run id s :
  log_ok s -> in_int64 (lastIdx s) -> lastIdx s < max_int64 ->
  exists s', addNoopLogLocked id s = Some s' /\ log_ok s' /\
    currentTerm s' = currentTerm s /\ role s' = role s /\ votedFor s' = votedFor s /\
    currentLeader s' = currentLeader s /\ electionVotes s' = electionVotes s /\
    serverConfig s' = serverConfig s /\
    (forall p, p <> id -> matchIndex s' !! p = matchIndex s !! p /\ nextIndex s' !! p = nextIndex s !! p) /\
    (forall k, k <= lastIdx s -> log_at s' k = log_at s k) /\
    if decide (nextLogIdx s < logArrayCapacity)%nat then
      lastIdx s' = lastIdx s + 1 /\
      log_at s' (lastIdx s + 1) =
        Some (mkRaftLog (lastIdx s + 1) (currentTerm s) LogNoop [] ConfigChange_zero "" 0) /\
      map_get (matchIndex s') id = lastIdx s + 1
    else s' = s.
Proof.
  intros Hlog Hint Hmax. unfold addNoopLogLocked. rewrite getLastLogIdxTerm_ok by done. simpl.
  rewrite (wrap64_succ _ Hint Hmax).
  set (e := mkRaftLog (lastIdx s + 1) _ _ _ _ _ _).
  destruct (Nat.leb_spec logArrayCapacity (nextLogIdx s)) as [Hfull|Hroom].
  { exists s. rewrite decide_False by lia. do 8 (split; [done |]). done. }
  destruct (appendEntry_spec id e s Hlog Hroom eq_refl) as (s2 & -> & Hlog2 & Es2 & Hl2 & _).
  exists (trackOwn id (Index e) s2). rewrite decide_True by done.
  destruct (snoc_log_at s (trackOwn id (Index e) s2) e (proj1 Hlog)) as (H1 & H2 & H3);
    [by rewrite Es2 | done | apply Hlog2 |].
  split; [done |]. split; [done |]. do 6 (split; [by rewrite Es2 |]).
  split.
  { intros p Hp. unfold trackOwn. fields. rewrite !lookup_insert_ne by done. by rewrite Es2. }
  split; [done |]. split; [done |]. split; [apply H1; apply lastIdx_base |].
  unfold trackOwn. fields. by rewrite map_get_insert.
Qed.

(** ** Properties *)

(** C24. A vote is granted exactly when the request's term is newer, or equal
    with no vote cast for another candidate, and the candidate's log is at
    least as up to date. Granting makes the node a follower that has voted for
    the candidate; refusing changes at most the term, and the vote only
    together with it. Neither touches the log. *)
Theorem handleRequestToVote_spec id rva s :
  log_ok s ->
  exists s' r, handleRequestToVote id rva s = Some (s', r) /\
    rvr_ID r = id /\ rvr_Term r = currentTerm s' /\
    currentTerm s' = Z.max (currentTerm s) (rv_Term rva) /\
    live s' = live s /\ base s' = base s /\
    (rvr_VoteGranted r = true <-> may_vote rva s /\
       up_to_date (rv_LastLogTerm rva) (rv_LastLogIndex rva) (lastTerm s) (lastIdx s)) /\
    (rvr_VoteGranted r = true -> votedFor s' = rv_CandidateID rva /\ role s' = Follower) /\
    (rvr_VoteGranted r = false ->
       votedFor s' = if decide (currentTerm s < rv_Term rva) then "" else votedFor s).
Proof.
  intros Hlog. destruct (handleRequestToVote_run id rva s Hlog)
    as (s' & g & Hrun & Ht & _ & El & Eb & _ & Hg & Hcase).
  exists s', (mkRequestVoteResponse id (currentTerm s') g). simpl.
  do 7 (split; [done |]). destruct g; destruct Hcase as (? & ? & ?); split; done.
Qed.

(** One vote per term: between two requests handled in the same term, the
    node grants at most one candidate. *)
Theorem one_vote_per_term id rva1 rva2 s s1 s2 r1 r2 :
  log_ok s -> rv_CandidateID rva1 <> "" ->
  handleRequestToVote id rva1 s = Some (s1, r1) ->
  handleRequestToVote id rva2 s1 = Some (s2, r2) ->
  rvr_VoteGranted r1 = true -> rvr_VoteGranted r2 = true -> rvr_Term r1 = rvr_Term r2 ->
  rv_CandidateID rva1 = rv_CandidateID rva2.
Proof.
  intros Hlog Hne H1 H2 Hg1 Hg2 Ht.
  destruct (handleRequestToVote_run id rva1 s Hlog) as (t1 & g1 & E1 & T1 & Hlog1 & _ & _ & _ & G1 & C1).
  rewrite H1 in E1. simplify_eq. simpl in *. subst g1.
  destruct (handleRequestToVote_run id rva2 t1 Hlog1) as (t2 & g2 & E2 & T2 & _ & _ & _ & _ & G2 & C2).
  rewrite H2 in E2. simplify_eq. simpl in *. subst g2.
  destruct C1 as (V1 & _). destruct (proj1 G2 eq_refl) as [[Hlt|(_ & [Hv|Hv])] _].
  - lia.
  - by rewrite V1 in Hv.
  - by rewrite V1 in Hv.
Qed.

(** C26. The election count: [updateElection] reports a win exactly when it
    counts a granted vote of the current term and the votes then exceed half of
    the configuration; a newer term makes the node a follower without a vote;
    anything else changes nothing. *)
Theorem updateElection_spec resp s :
  in_int64 (electionVotes s) -> electionVotes s < max_int64 ->
  let '(s', won) := updateElection resp s in
  (won = true <-> rvr_Term resp = currentTerm s /\ rvr_VoteGranted resp = true /\
                  Z.of_nat (size (serverConfig s)) < 2 * (electionVotes s + 1)) /\
  currentTerm s' = Z.max (currentTerm s) (rvr_Term resp) /\
  (currentTerm s < rvr_Term resp -> role s' = Follower /\ votedFor s' = "" /\ electionVotes s' = 0) /\
  (rvr_Term resp <= currentTerm s -> role s' = role s /\ votedFor s' = votedFor s /\
     electionVotes s' =
       electionVotes s + if decide (rvr_Term resp = currentTerm s /\ rvr_VoteGranted resp = true)
                         then 1 else 0).
Proof.
  intros Hint Hmax. unfold updateElection.
  destruct (Z.ltb_spec (currentTerm s) (rvr_Term resp)) as [Hlt|Hge].
  { unfold updateCurrentTerm. fields. split; [split; [done | lia] |]. split; [lia |].
    split; [done | lia]. }
  destruct (Z.eqb_spec (rvr_Term resp) (currentTerm s)) as [Heq|Hne]; simpl.
  2: { rewrite decide_False by (intros [? _]; lia). split; [split; [done | lia] |].
       split; [lia |]. split; [lia |]. intros _. repeat split; lia. }
  destruct (rvr_VoteGranted resp) eqn:Hv.
  2: { rewrite decide_False by (intros [_ ?]; done). split; [split; [done | by intros (_ & ? & _)] |].
       split; [lia |]. split; [lia |]. intros _. repeat split; lia. }
  fields. rewrite (wrap64_succ _ Hint Hmax), decide_True by done.
  split; [| split; [lia |]; split; [lia |]; done].
  rewrite Z.ltb_lt, majority_half. split; [done | by intros (_ & _ & ?)].
Qed.

(** C27. Winning: the node leads, every tracked server's next index is the end
    of the log, a no-op of the current term is appended there when the array
    has room, and nothing before it changes. The match index of the other
    servers is not reset: what an earlier leadership recorded for them counts
    towards the next commits. *)
Theorem winElection_spec id s :
  log_ok s -> in_int64 (lastIdx s) -> lastIdx s < max_int64 ->
  exists s', winElection id s = Some s' /\ log_ok s' /\
    role s' = Leader /\ currentLeader s' = id /\ currentTerm s' = currentTerm s /\
    votedFor s' = votedFor s /\
    (forall p n, p <> id -> nextIndex s !! p = Some n -> nextIndex s' !! p = Some (lastIdx s + 1)) /\
    (forall p, p <> id -> matchIndex s' !! p = matchIndex s !! p) /\
    (forall k, k <= lastIdx s -> log_at s' k = log_at s k) /\
    ((nextLogIdx s < logArrayCapacity)%nat ->
       log_at s' (lastIdx s + 1) =
         Some (mkRaftLog (lastIdx s + 1) (currentTerm s) LogNoop [] ConfigChange_zero "" 0) /\
       map_get (matchIndex s') id = lastIdx s + 1).
Proof.
  intros Hlog Hint Hmax. unfold winElection. rewrite getLastLogIdxTerm_ok by done. simpl.
  rewrite (wrap64_succ _ Hint Hmax).
  match goal with |- context [addNoopLogLocked id ?x] => set (s1 := x) end.
  assert (log_ok s1) as Hlog1 by (by apply (log_ok_update s)).
  destruct (addNoopLogLocked_run id s1 Hlog1 Hint Hmax)
    as (s' & -> & Hlog' & Et & Er & Ev & Ecl & _ & _ & Hmaps & Hat & Hroom).
  exists s'. do 3 (split; [done |]). split; [by rewrite Ecl |]. do 2 (split; [done |]).
  split.
  { intros p n Hp Hn. rewrite (proj2 (Hmaps p Hp)). unfold s1. fields.
    rewrite lookup_fmap. change (nextIndex _) with (nextIndex s). by rewrite Hn. }
  split.
  { intros p Hp. rewrite (proj1 (Hmaps p Hp)). unfold s1. fields. by rewrite lookup_insert_ne. }
  split; [exact Hat |]. intros Hcap. rewrite decide_True in Hroom by exact Hcap.
  destruct Hroom as (_ & ? & ?). done.
Qed.

(** Not stepping down: a leader (or candidate) that learns of a newer term
    from a vote request it refuses adopts the term and keeps its role. *)
Theorem refused_request_keeps_role id rva s :
  log_ok s -> currentTerm s < rv_Term rva ->
  ~ up_to_date (rv_LastLogTerm rva) (rv_LastLogIndex rva) (lastTerm s) (lastIdx s) ->
  exists s' r, handleRequestToVote id rva s = Some (s', r) /\ rvr_VoteGranted r = false /\
    currentTerm s' = rv_Term rva /\ role s' = role s /\ votedFor s' = "".
Proof.
  intros Hlog Ht Hu. destruct (handleRequestToVote_run id rva s Hlog)
    as (s' & g & Hrun & Et & _ & _ & _ & _ & Hg & Hcase).
  destruct g; [by destruct (proj1 Hg eq_refl) |]. destruct Hcase as (Er & _ & Ev).
  rewrite decide_True in Ev by done.
  do 2 eexists. split; [exact Hrun |]. split; [done |]. split; [lia | done].
Qed.

(** C39. The election timer: with sane bounds (0 <= min < max, in milliseconds,
    within the range of a duration) a timer that is not running is started
    with a duration in [min, max); with max <= min the call panics. *)
Theorem checkElectionTimeout_spec r s :
  electionTimeoutStarted s = false ->
  0 <= electionMinMs s -> 0 <= electionMaxMs s <= 9223372036854 ->
  if decide (electionMinMs s < electionMaxMs s) then
    exists d, checkElectionTimeout r s =
        Some (s <| electionTimeoutStarted := true |> <| electionTimer := Some (mkTimer d true false) |>) /\
      electionMinMs s * millisecond <= d < electionMaxMs s * millisecond
  else electionMinMs s <= max_int64 -> checkElectionTimeout r s = None.
Proof.
  intros Hst Hmin Hmax. unfold checkElectionTimeout. rewrite Hst. unfold Intn, millisecond.
  case_decide as Hd.
  - rewrite (wrap64_id (electionMaxMs s - electionMinMs s))
      by (unfold in_int64, min_int64, max_int64; lia).
    destruct (Z.leb_spec (electionMaxMs s - electionMinMs s) 0); [lia |]. simpl.
    pose proof (Z.mod_pos_bound r (electionMaxMs s - electionMinMs s)).
    rewrite (wrap64_id (_ + electionMinMs s)) by (unfold in_int64, min_int64, max_int64; lia).
    rewrite (wrap64_id (_ * 1000000)) by (unfold in_int64, min_int64, max_int64; lia).
    eexists. split; [done |]. lia.
  - intros Hb. rewrite (wrap64_id (electionMaxMs s - electionMinMs s))
      by (unfold in_int64, min_int64, max_int64 in *; lia).
    destruct (Z.leb_spec (electionMaxMs s - electionMinMs s) 0); [done | lia].
Qed.

(** ** Instances *)

(** A server of term 1 whose log ends at index 1 in term 1. *)
Definition voter : nodeState := node "n2" 1 [cmd 0 0; cmd 1 1].

Definition old_leader : nodeState := leading 2 (node "n1" 1 [cmd 0 0; cmd 1 1]) "n1" "n2".

(** A request of term 2 from a server with the same log. *)
Definition ballot : RequestVoteArgs := mkRequestVoteArgs 2 "n3" 1 1.

(** One from a server that lacks entry 1. *)
Definition behind : RequestVoteArgs := mkRequestVoteArgs 2 "n3" 0 0.

Lemma voter_ok : log_ok voter.
Proof. sample. Qed.

Lemma handleRequestToVote_spec_witness :
  exists s' r, handleRequestToVote "n2" ballot voter = Some (s', r) /\
    rvr_VoteGranted r = true /\ votedFor s' = "n3".
Proof.
  destruct (handleRequestToVote_spec "n2" ballot voter voter_ok)
    as (s' & r & Hrun & _ & _ & _ & _ & _ & Hg & Hyes & _).
  assert (rvr_VoteGranted r = true) as G.
  { apply Hg. split; [left; vm_compute; reflexivity | right; vm_compute; split; [reflexivity | discriminate]]. }
  exists s', r. exact (conj Hrun (conj G (proj1 (Hyes G)))).
Defined.

Lemma one_vote_per_term_witness :
  exists s1 s2 r1 r2, handleRequestToVote "n2" ballot voter = Some (s1, r1) /\
    handleRequestToVote "n2" ballot s1 = Some (s2, r2) /\
    rvr_VoteGranted r1 = true /\ rvr_VoteGranted r2 = true /\
    rv_CandidateID ballot = rv_CandidateID ballot.
Proof.
  pose (again := fun s => (fun p => (rvr_VoteGranted p.2, rvr_Term p.2)) <$> handleRequestToVote "n2" ballot s).
  assert ((fun p => (rvr_VoteGranted p.2, rvr_Term p.2, again p.1)) <$> handleRequestToVote "n2" ballot voter
          = Some (true, 2, Some (true, 2))) as H by (vm_compute; reflexivity).
  destruct (observe (handleRequestToVote "n2" ballot voter)
      (fun s r => (rvr_VoteGranted r, rvr_Term r, again s)) _ H) as (s1 & r1 & H1 & E1).
  injection E1 as G1 T1 E2.
  destruct (observe (handleRequestToVote "n2" ballot s1) (fun _ r => (rvr_VoteGranted r, rvr_Term r))
      (true, 2) E2) as (s2 & r2 & H2 & E3).
  injection E3 as G2 T2.
  exists s1, s2, r1, r2. do 4 (split; [assumption |]).
  apply (one_vote_per_term "n2" ballot ballot voter s1 s2 r1 r2 voter_ok);
    [vm_compute; discriminate | assumption .. | congruence].
Defined.

(** Two votes of three win. *)
Lemma updateElection_spec_witness :
  let resp := mkRequestVoteResponse "n3" 2 true in
  (updateElection resp (startElection "n2" voter)).2 = true /\
  currentTerm (updateElection resp (startElection "n2" voter)).1 = 2.
Proof.
  cbv zeta. pose proof (updateElection_spec (mkRequestVoteResponse "n3" 2 true) (startElection "n2" voter)) as Hth.
  destruct (updateElection _ _) as [s' won].
  destruct Hth as (Hw & Ht & _); [split; vm_compute; discriminate | vm_compute; reflexivity |].
  split.
  - apply (proj2 Hw). vm_compute. repeat split.
  - transitivity (Z.max (currentTerm (startElection "n2" voter)) 2); [exact Ht | vm_compute; reflexivity].
Defined.

Lemma winElection_spec_witness :
  exists s', winElection "n2" (startElection "n2" voter) = Some s' /\ role s' = Leader /\
    map_get (matchIndex s') "n2" = 2.
Proof.
  destruct (winElection_spec "n2" (startElection "n2" voter))
    as (s' & Hrun & _ & Hr & _ & _ & _ & _ & _ & _ & Hroom).
  - apply startElection_log_ok, voter_ok.
  - vm_compute. split; discriminate.
  - vm_compute. reflexivity.
  - exists s'. split; [exact Hrun |]. split; [exact Hr |].
    destruct Hroom as [_ Hm]; [vm_compute; lia |].
    transitivity (lastIdx (startElection "n2" voter) + 1); [exact Hm | vm_compute; reflexivity].
Defined.

(** The leader of term 1 is the leader of term 2 after refusing a vote in it. *)
Lemma refused_request_keeps_role_witness :
  exists s' r, handleRequestToVote "n1" behind old_leader = Some (s', r) /\
    rvr_VoteGranted r = false /\ currentTerm s' = 2 /\ role s' = Leader.
Proof.
  destruct (refused_request_keeps_role "n1" behind old_leader) as (s' & r & Hrun & Hg & Ht & Hr & _).
  - sample.
  - vm_compute. reflexivity.
  - intros [H | [H _]]; vm_compute in H; discriminate H.
  - exists s', r. do 2 (split; [assumption |]). split; [exact Ht |].
    transitivity (role old_leader); [exact Hr | vm_compute; reflexivity].
Defined.

Lemma checkElectionTimeout_spec_witness :
  exists d, checkElectionTimeout 1000 voter =
      Some (voter <| electionTimeoutStarted := true |> <| electionTimer := Some (mkTimer d true false) |>) /\
    150000000 <= d < 300000000.
Proof.
  pose proof (checkElectionTimeout_spec 1000 voter) as Hth.
  rewrite decide_True in Hth by (vm_compute; reflexivity).
  destruct Hth as (d & Hrun & Hd).
  - vm_compute. reflexivity.
  - vm_compute. discriminate.
  - vm_compute. split; discriminate.
  - exists d. split; [exact Hrun |].
    assert (electionMinMs voter = 150) as E1 by (vm_compute; reflexivity).
    assert (electionMaxMs voter = 300) as E2 by (vm_compute; reflexivity).
    rewrite E1, E2 in Hd. unfold millisecond in Hd. lia.
Defined.
