(* ===== verification/SnapshotTheorems.v ===== *)
(** * SnapshotTheorems: what compaction and snapshot transfer guarantee

    [takeSnapshot] and the InstallSnapshot handlers of SnapshotOps.v, branch by
    branch, and the places where a snapshot overrides more than it should. *)
From S2P Require Import Prelude GoFloat Sha256 Types State SnapshotOps ConfigChange Log Samples Election.

(** ** Properties *)

(** C22. Compaction loses nothing the protocol still needs: when the last
    applied entry is in the array, [takeSnapshot] succeeds, records that
    entry's index, term and hash with the state machine's bytes and the current
    configuration, and every later log index still holds the same entry and
    the same hash. *)
Theorem takeSnapshot_compacts gameState s :
  log_ok s -> base s <= lastApplied s <= lastIdx s ->
  exists s' snap,
    takeSnapshot gameState s = Some (s', true) /\ log_ok s' /\
    lastSnapshot s' = Some snap /\ LastIncludedIndex snap = lastApplied s /\
    SnapData snap = gameState /\ ServerConfig snap = serverConfig s /\
    hash_at s (lastApplied s) = Some (Hash snap) /\
    Term <$> log_at s (lastApplied s) = Some (LastIncludedTerm snap) /\
    lastIdx s' = lastIdx s /\ lastTerm s' = lastTerm s /\
    forall k, lastApplied s < k -> log_at s' k = log_at s k /\ hash_at s' k = hash_at s k.
Proof.
  intros Hlog Hin.
  assert (position s (lastApplied s) = Some (Z.to_nat (lastApplied s - base s))) as Hp.
  { unfold position. rewrite decide_True; [done | unfold lastIdx in Hin; lia]. }
  destruct (takeSnapshot_in gameState s _ Hlog Hp)
    as (s' & e & h & Hrun & He & Hh & Es' & Hlog' & Hl & Hhs).
  pose proof (log_at_Some _ _ _ (proj2 Hlog) He) as [_ Hidx].
  set (i := Z.to_nat (lastApplied s - base s)) in *.
  assert (lastSnapshot s' = Some (snapshotOf gameState s e h)) as Esnap by (by rewrite Es').
  assert (base s' = lastApplied s + 1) as Eb by (unfold base; rewrite Esnap; simpl; lia).
  assert (nextLogIdx s' = (nextLogIdx s - S i)%nat) as En by (by rewrite Es').
  assert (lastIdx s' = lastIdx s) as Elast.
  { unfold lastIdx in *. rewrite Eb, En. lia. }
  assert (forall k, lastApplied s < k -> log_at s' k = log_at s k /\ hash_at s' k = hash_at s k)
    as Hat.
  { intros k Hk. unfold log_at, hash_at. rewrite Eb, Hl, Hhs, !decide_True by lia.
    rewrite !lookup_drop. by replace (S i + _)%nat with (Z.to_nat (k - base s)) by lia. }
  exists s', (snapshotOf gameState s e h).
  do 6 (split; [done |]). split; [by rewrite Hh |]. split; [by rewrite He |].
  split; [done |]. split; [| done].
  destruct (decide (lastApplied s = lastIdx s)) as [Heq|Hne].
  - unfold lastTerm at 1, live. rewrite En.
    assert (nextLogIdx s - S i = 0)%nat as -> by (unfold lastIdx in *; lia).
    rewrite take_0, lookup_nil. unfold snapTerm. rewrite Esnap. simpl.
    symmetry. apply lastTerm_log_at. by rewrite <- Heq.
  - destruct (log_at_is_Some s (lastIdx s) (proj1 Hlog)) as [x Hx]; [lia |].
    rewrite (lastTerm_log_at s x Hx). apply lastTerm_log_at.
    rewrite Elast. rewrite (proj1 (Hat (lastIdx s) ltac:(lia))). done.
Qed.

(** C31. [handleInstallSnapshotRequest], branch by branch: a stale term is
    refused without effect; a snapshot at or below [lastApplied] is
    acknowledged and changes at most the term and the vote; any other replaces
    the whole log, so that the log ends exactly at the snapshot, and moves
    [commitIndex] and [lastApplied] there. *)
Theorem handleInstallSnapshotRequest_spec myID isa s :
  array_ok s ->
  let '(s', r) := handleInstallSnapshotRequest myID isa s in
  array_ok s' /\ currentTerm s' = Z.max (currentTerm s) (is_Term isa) /\
  isr_Term r = currentTerm s' /\
  if is_Term isa <? currentTerm s then s' = s /\ isr_Success r = false
  else
    isr_Success r = true /\ isr_LastIncludedIndex r = is_LastIncludedIndex isa /\
    if is_LastIncludedIndex isa <=? lastApplied s then
      live s' = live s /\ lastSnapshot s' = lastSnapshot s /\
      commitIndex s' = commitIndex s /\ lastApplied s' = lastApplied s /\
      snapshotInstallChan s' = snapshotInstallChan s
    else
      log_ok s' /\ live s' = [] /\ lastIdx s' = is_LastIncludedIndex isa /\
      lastTerm s' = is_LastIncludedTerm isa /\
      commitIndex s' = is_LastIncludedIndex isa /\ lastApplied s' = is_LastIncludedIndex isa /\
      snapshotInstallChan s' = snapshotInstallChan s ++ [is_Data isa].
Proof.
  intros Hok. unfold handleInstallSnapshotRequest.
  destruct (Z.ltb_spec (is_Term isa) (currentTerm s)) as [Hlt|Hge].
  { split; [done |]. simpl. split; [lia |]. done. }
  set (s1 := if currentTerm s <? is_Term isa then _ else s).
  assert (currentTerm s1 = Z.max (currentTerm s) (is_Term isa)) as Et.
  { unfold s1. destruct (Z.ltb_spec (currentTerm s) (is_Term isa)); [| lia].
    unfold updateCurrentTerm. fields. lia. }
  assert (frame (s <| currentTerm := currentTerm s1 |> <| votedFor := votedFor s1 |>) s1 /\
          logs s1 = logs s /\ logHashes s1 = logHashes s /\ nextLogIdx s1 = nextLogIdx s)
    as (Hf & El & Eh & En).
  { unfold s1. case_match; destruct s; done. }
  assert (array_ok s1) as Hok1 by (by eapply array_ok_update).
  pose proof (frame_lastApplied _ _ Hf) as Ea. pose proof (frame_commitIndex _ _ Hf) as Ec.
  pose proof (frame_lastSnapshot _ _ Hf) as Es.
  assert (snapshotInstallChan s1 = snapshotInstallChan s) as Ech by (unfold s1; by case_match).
  fields. rewrite <- Ea. clearbody s1.
  destruct (is_LastIncludedIndex isa <=? lastApplied s) eqn:Ele; simpl.
  - unfold live. rewrite El, En. done.
  - fields. split.
    { destruct Hok1. constructor; fields; lia || done. }
    do 4 (split; [done |]). unfold log_ok, contiguous, lastIdx, lastTerm, live, base, snapTerm.
    fields. rewrite take_0, Ech. simpl. split.
    { split; [| apply contiguous_nil]. destruct Hok1. constructor; fields; lia || done. }
    repeat split; lia.
Qed.

(** C28. Snapshot transfer round trip: the arguments the leader builds,
    installed by a follower that has applied less, give the follower the
    leader's snapshot, and its acknowledgement makes the leader continue with
    the entry just after it. *)
Theorem snapshot_transfer leaderID followerID sl sf isa :
  prepareInstallSnapshotRPC leaderID sl = Some isa ->
  currentTerm sf <= currentTerm sl ->
  lastApplied sf < is_LastIncludedIndex isa ->
  let '(sf', r) := handleInstallSnapshotRequest followerID isa sf in
  let '(sl', m) := handleInstallSnapshotResponse leaderID r sl in
  lastSnapshot sf' = lastSnapshot sl /\ currentTerm sf' = currentTerm sl /\
  m = is_LastIncludedIndex isa /\
  map_get (matchIndex sl') followerID = lastIdx sf' /\
  map_get (nextIndex sl') followerID = wrap64 (base sf').
Proof.
  unfold prepareInstallSnapshotRPC. intros Hp Ht Ha.
  destruct (lastSnapshot sl) as [snap|] eqn:Es; [| done].
  simpl in Hp. injection Hp as <-. simpl in *.
  unfold handleInstallSnapshotRequest. simpl.
  destruct (Z.ltb_spec (currentTerm sl) (currentTerm sf)); [lia |].
  set (s1 := if currentTerm sf <? currentTerm sl then _ else sf).
  assert (lastApplied s1 = lastApplied sf) as -> by (unfold s1; by case_match).
  assert (currentTerm s1 = currentTerm sl) as Et.
  { unfold s1. destruct (Z.ltb_spec (currentTerm sf) (currentTerm sl)); [done | lia]. }
  destruct (Z.leb_spec (LastIncludedIndex snap) (lastApplied sf)); [lia |].
  unfold handleInstallSnapshotResponse. simpl. fields.
  rewrite !map_get_insert, !copyConfig_id. unfold lastIdx, base. fields. simpl.
  repeat split; [by destruct snap | done | lia].
Qed.

(** [purgeEntriesFromSnapshot] turns a contiguous message that reaches
    back behind the receiver's snapshot into an equivalent one that does not:
    the entries left are those above the snapshot, still contiguous after the
    new previous index, and that index is the snapshot's whenever the message
    reached it. *)
Theorem purgeEntriesFromSnapshot_spec s aea :
  contiguous_from (ae_PrevLogIndex aea + 1) (ae_Entries aea) ->
  ae_PrevLogIndex aea + 1 <= base s ->
  exists aea',
    purgeEntriesFromSnapshot s aea = Some aea' /\
    contiguous_from (ae_PrevLogIndex aea' + 1) (ae_Entries aea') /\
    ae_PrevLogIndex aea <= ae_PrevLogIndex aea' < base s /\
    (base s <= ae_PrevLogIndex aea + 1 + Z.of_nat (length (ae_Entries aea)) ->
       lastSnapshot s <> None -> ae_PrevLogIndex aea' = base s - 1) /\
    forall k e, (exists i, ae_Entries aea' !! i = Some e /\ ae_PrevLogIndex aea' + 1 + Z.of_nat i = k) <->
      (exists i, ae_Entries aea !! i = Some e /\ ae_PrevLogIndex aea + 1 + Z.of_nat i = k) /\
      (lastSnapshot s <> None -> base s <= k).
Proof.
  intros Hc Hb. unfold purgeEntriesFromSnapshot, base in *.
  destruct (lastSnapshot s) as [snap|].
  2: { exists aea. do 2 (split; [done |]). split; [lia |]. split; [done |]. intros k e. split; [by intros | by intros [? _]]. }
  set (p := ae_PrevLogIndex aea) in *. set (es := ae_Entries aea) in *.
  set (L := LastIncludedIndex snap) in *.
  assert (forall l b, contiguous_from b l ->
            purgeCount L l = Nat.min (length l) (Z.to_nat (L + 1 - b))) as Hcount.
  { induction l as [|e l IH]; intros b Hl; cbn [purgeCount length]; [done |].
    pose proof (Hl 0%nat e eq_refl) as E.
    destruct (Z.leb_spec (Index e) L).
    - rewrite (IH (b + 1)); [lia |]. intros i x Hx. rewrite (Hl (S i) x Hx). lia.
    - lia. }
  pose proof (Hcount es _ Hc) as Hn. clear Hcount.
  destruct (purgeCount L es) as [|k].
  { exists aea. do 2 (split; [done |]). split; [lia |]. split; [lia |].
    intros k e. split; [| by intros [? _]]. intros (i & Hi & Hk). split; [eauto |].
    intros _. apply lookup_lt_Some in Hi. fold es p in Hi, Hk. lia. }
  destruct (lookup_lt_is_Some_2 es k) as [x Hx]; [lia |]. rewrite Hx. simpl.
  eexists. split; [done |]. simpl. rewrite (Hc _ _ Hx).
  replace (p + 1 + Z.of_nat k + 1) with (p + 1 + Z.of_nat (S k)) by lia.
  split; [by apply contiguous_drop |]. split; [lia |]. split; [lia |].
  intros q e. fold es p. setoid_rewrite lookup_drop. split.
  - intros (i & Hi & Hq). pose proof (lookup_lt_Some _ _ _ Hi). split; [| intros _; lia]. exists (S k + i)%nat. split; [done | lia].
  - intros ((i & Hi & Hq) & Hge). specialize (Hge ltac:(done)).
    apply lookup_lt_Some in Hi as Hlt.
    exists (i - S k)%nat. replace (S k + (i - S k))%nat with i by lia. split; [done | lia].
Qed.

(** C37. A refusal of InstallSnapshot in the node's own term makes it forget its
    vote: it stays in the term with no vote recorded, and grants a request of
    that term from any candidate whose log is up to date, whoever it had voted
    for. *)
Theorem handleInstallSnapshotResponse_forgets_vote id isr rva s :
  log_ok s -> isr_Success isr = false -> isr_Term isr = currentTerm s ->
  rv_Term rva = currentTerm s -> logOK rva (lastIdx s) (lastTerm s) = true ->
  let s' := (handleInstallSnapshotResponse id isr s).1 in
  currentTerm s' = currentTerm s /\ votedFor s' = "" /\
  exists s2, handleRequestToVote id rva s' = Some (s2, mkRequestVoteResponse id (currentTerm s) true) /\
    votedFor s2 = rv_CandidateID rva.
Proof.
  intros Hlog Hno Ht Hrv Hup. unfold handleInstallSnapshotResponse. rewrite Hno. cbn [negb].
  rewrite Ht, (proj2 (Z.leb_le _ _)) by lia. cbn [fst].
  set (s' := _ <| currentLeader := _ |>).
  assert (log_ok s') as Hlog' by (by apply (log_ok_update s)).
  split; [done |]. split; [done |]. unfold handleRequestToVote.
  rewrite getLastLogIdxTerm_ok by done. cbn [mbind option_bind].
  change (lastIdx s') with (lastIdx s). change (lastTerm s') with (lastTerm s).
  change (currentTerm s') with (currentTerm s).
  rewrite Hrv, Z.ltb_irrefl, Hup, andb_true_r. change (canVote rva s') with true.
  unfold stopElectionTimeoutLocked. destruct (electionTimer s'); (eexists; split; [reflexivity | done]).
Qed.

(** ** Instances *)

(** A follower with entries 0..2, having applied two of them. *)
Definition applied2 : nodeState :=
  node "n2" 2 [cmd 0 1; cmd 1 1; cmd 2 2] <| commitIndex := 1 |> <| lastApplied := 1 |>.

Lemma applied_log_ok s c a : log_ok s -> log_ok (s <| commitIndex := c |> <| lastApplied := a |>).
Proof. intros. by apply (log_ok_update s). Qed.

Lemma voting_log_ok s v r : log_ok s -> log_ok (s <| votedFor := v |> <| role := r |>).
Proof. intros. by apply (log_ok_update s). Qed.

Lemma applied2_ok : log_ok applied2.
Proof. apply applied_log_ok. sample. Qed.

Lemma takeSnapshot_compacts_witness :
  exists s' snap, takeSnapshot [Byte.x41] applied2 = Some (s', true) /\ lastSnapshot s' = Some snap /\
    LastIncludedIndex snap = 1 /\ log_at s' 2 = log_at applied2 2.
Proof.
  destruct (takeSnapshot_compacts [Byte.x41] applied2 applied2_ok) as
    (s' & snap & Hrun & _ & Hs & Hi & _ & _ & _ & _ & _ & _ & Hat);
    [vm_compute; split; discriminate |].
  assert (lastApplied applied2 = 1) as E by (vm_compute; reflexivity). rewrite E in Hi, Hat.
  exists s', snap. split; [exact Hrun |]. split; [exact Hs |]. split; [exact Hi |].
  apply Hat. lia.
Defined.

Definition transferred : InstallSnapshotArgs :=
  mkInstallSnapshotArgs "n1" 2 5 2 [Byte.x42] ∅ (replicate 32 Byte.x00).

Lemma handleInstallSnapshotRequest_spec_witness :
  lastIdx (handleInstallSnapshotRequest "n2" transferred applied2).1 = 5 /\
  isr_Success (handleInstallSnapshotRequest "n2" transferred applied2).2 = true.
Proof.
  pose proof (handleInstallSnapshotRequest_spec "n2" transferred applied2 (proj1 applied2_ok)) as Hth.
  destruct (handleInstallSnapshotRequest "n2" transferred applied2) as [s' r].
  destruct Hth as (_ & _ & _ & Hcase).
  assert ((is_Term transferred <? currentTerm applied2) = false) as E1 by (vm_compute; reflexivity).
  assert ((is_LastIncludedIndex transferred <=? lastApplied applied2) = false) as E2 by (vm_compute; reflexivity).
  rewrite E1, E2 in Hcase. destruct Hcase as (Hok & _ & _ & _ & Hl & _).
  exact (conj Hl Hok).
Defined.

Definition sender : nodeState := node_snap "n1" 3 5 2 [cmd 6 3].

Lemma snapshot_transfer_witness :
  exists isa, prepareInstallSnapshotRPC "n1" sender = Some isa /\
    lastSnapshot (handleInstallSnapshotRequest "n2" isa applied2).1 = lastSnapshot sender.
Proof.
  destruct (observe1 (prepareInstallSnapshotRPC "n1" sender)
    (fun a => (is_LastIncludedIndex a, is_Term a)) (5, 3) ltac:(vm_compute; reflexivity)) as (isa & Hp & E).
  injection E as Ei Et. exists isa. split; [exact Hp |].
  pose proof (snapshot_transfer "n1" "n2" sender applied2 isa Hp) as Hth.
  assert (currentTerm applied2 <= currentTerm sender) as H1 by (vm_compute; discriminate).
  assert (lastApplied applied2 < is_LastIncludedIndex isa) as H2 by (rewrite Ei; vm_compute; reflexivity).
  specialize (Hth H1 H2).
  destruct (handleInstallSnapshotRequest "n2" isa applied2) as [sf' r].
  destruct (handleInstallSnapshotResponse "n1" r sender) as [sl' m]. apply Hth.
Defined.

(** Entries 4..7 sent to a server whose snapshot ends at 5. *)
Lemma purgeEntriesFromSnapshot_spec_witness :
  exists aea', purgeEntriesFromSnapshot sender
      (mkAppendEntriesArgs 3 "n1" 3 2 [cmd 4 2; cmd 5 2; cmd 6 3; cmd 7 3] 0) = Some aea' /\
    ae_PrevLogIndex aea' = 5.
Proof.
  destruct (purgeEntriesFromSnapshot_spec sender
    (mkAppendEntriesArgs 3 "n1" 3 2 [cmd 4 2; cmd 5 2; cmd 6 3; cmd 7 3] 0)) as (aea' & Hrun & _ & _ & Hp & _).
  - apply contiguousb_spec. reflexivity.
  - vm_compute. discriminate.
  - assert (base sender = 6) as Eb by (vm_compute; reflexivity). rewrite Eb in Hp.
    exists aea'. split; [exact Hrun |]. apply Hp; [vm_compute; discriminate | vm_compute; discriminate].
Defined.

(** A leader of term 2 that has voted for itself, and a late refusal. *)
Lemma handleInstallSnapshotResponse_forgets_vote_witness :
  let s := applied2 <| votedFor := "n2" |> <| role := Leader |> in
  let s' := (handleInstallSnapshotResponse "n2" (mkInstallSnapshotResponse "n3" 2 false 0 0) s).1 in
  exists s2, handleRequestToVote "n2" (mkRequestVoteArgs 2 "n3" 2 2) s' =
      Some (s2, mkRequestVoteResponse "n2" (currentTerm s) true) /\ votedFor s2 = "n3".
Proof.
  cbv zeta.
  destruct (handleInstallSnapshotResponse_forgets_vote "n2" (mkInstallSnapshotResponse "n3" 2 false 0 0)
    (mkRequestVoteArgs 2 "n3" 2 2) (applied2 <| votedFor := "n2" |> <| role := Leader |>)) as (_ & _ & s2 & Hrun & Hv).
  - apply voting_log_ok, applied2_ok.
  - reflexivity.
  - vm_compute. reflexivity.
  - vm_compute. reflexivity.
  - vm_compute. reflexivity.
  - exists s2. exact (conj Hrun Hv).
Defined.
