(* ===== verification/Control.v ===== *)
(** * Control: what each operation does to the control state of a node

    [control] gathers the fields of [nodeState] that elections and membership
    are decided by. Most operations leave it alone; the others change it in a
    few ways only, named here. The lemmas come in two shapes: [op_total], that
    the operation does not panic on a state that satisfies the invariant
    [state_inv] and keeps it; and [op_control], what a call that returns did to
    the control state. *)
From S2P Require Import Prelude GoFloat Sha256 Types State SnapshotOps ConfigChange Log Election ElectionTheorems.

(** ** Definitions *)

Record Control := mkControl {
  c_term : Z;
  c_vote : ServerID;
  c_role : nodeRole;
  c_votes : Z;
  c_config : gmap ServerID bool;
  c_oldConfig : gmap ServerID bool;
  c_queue : Z * list configEntry * gmap ServerID configEntry;
  c_timeouts : Z * Z;
}.

Definition control (s : nodeState) : Control :=
  mkControl (currentTerm s) (votedFor s) (role s) (electionVotes s) (serverConfig s)
    (oldServerConfig s) (pendingConfigs s, configQueue s, unvotingServers s)
    (electionMinMs s, electionMaxMs s).

#[global] Arguments control : simpl never.

(** The invariant of a node state: the arrays keep their bounds, the counter of
    pending changes is the queue's length, and the election timeouts are
    usable. *)
Record state_inv (s : nodeState) : Prop := {
  inv_array : array_ok s;
  inv_queue : pendingConfigs s = Z.of_nat (length (configQueue s));
  inv_range : in_int64 (pendingConfigs s);
  inv_timeouts : 0 <= electionMinMs s < electionMaxMs s /\ electionMaxMs s <= 9223372036854;
}.

#[export] Hint Resolve inv_array : raft.

(** An operation that is no part of an election: the node stays in its term
    with its vote, or adopts a newer term without one; it may become a
    follower. *)
Definition quiet (c c' : Control) : Prop :=
  (c_term c' = c_term c /\ c_vote c' = c_vote c /\ c_votes c' = c_votes c \/
   c_term c < c_term c' /\ c_vote c' = "") /\
  (c_role c' = c_role c \/ c_role c' = Follower).

(** The membership part is unchanged. *)
Definition same_members (c c' : Control) : Prop :=
  c_queue c' = c_queue c /\ c_timeouts c' = c_timeouts c.

(** The configuration and its predecessor are both [C]. *)
Definition static (C : gmap ServerID bool) (c : Control) : Prop :=
  c_config c = C /\ c_oldConfig c = C.

#[export] Instance quiet_refl : Reflexive quiet.
Proof. intros c. by repeat split; left. Qed.

#[export] Instance quiet_trans : Transitive quiet.
Proof.
  intros a b c [H1 R1] [H2 R2]. split.
  - destruct H1 as [(T1 & V1 & E1)|[T1 V1]], H2 as [(T2 & V2 & E2)|[T2 V2]].
    + left. by rewrite T2, V2, E2.
    + right. split; [lia | done].
    + right. rewrite T2, V2. done.
    + right. split; [lia | done].
  - destruct R1 as [R1|R1], R2 as [R2|R2]; rewrite ?R2, ?R1; auto.
Qed.

Lemma quiet_same c c' : c' = c -> quiet c c'.
Proof. by intros ->. Qed.

Lemma state_inv_intro s s' :
  state_inv s -> array_ok s' -> same_members (control s) (control s') -> state_inv s'.
Proof.
  intros [_ Hq Hr Ht] Ha [E1 E2]. injection E1 as E1 E3 _. injection E2 as E4 E5.
  split; [done | by rewrite E1, E3 | by rewrite E1 | by rewrite E4, E5].
Qed.

Lemma state_inv_same s s' :
  state_inv s -> array_ok s' -> control s' = control s -> state_inv s'.
Proof. intros Hs Ha E. apply (state_inv_intro s); [done | done |]. by rewrite E. Qed.

(** [run_step] consumes one bind of an equation [op s = Some _]. *)
Ltac run_step :=
  match goal with
  | H : (mbind _ ?m) = Some _ |- _ =>
      let r := fresh "r" in let E := fresh "E" in
      destruct m as [r|] eqn:E; [simpl in H | discriminate H]
  | H : Some _ = Some _ |- _ => injection H as H; subst
  | H : None = Some _ |- _ => discriminate H
  | H : context [match ?x with _ => _ end] |- _ => is_var x; destruct x
  | H : (if ?b then _ else _) = Some _ |- _ => destruct b eqn:?
  | H : match ?x with _ => _ end = Some _ |- _ => destruct x eqn:?
  end.

Ltac run_all := repeat (run_step; simplify_eq); try done.

(** ** Operations outside elections *)

Lemma takeSnapshot_control g s s' ok : takeSnapshot g s = Some (s', ok) -> control s' = control s.
Proof.
  unfold takeSnapshot, copyLogsToBeginning. intros H.
  repeat run_step; done.
Qed.

Lemma appendEntry_control me e s s' : appendEntry me e s = Some s' -> control s' = control s.
Proof. unfold appendEntry, storeEntry. intros H. repeat run_step. done. Qed.

(** A call that returns, keeps the arrays and leaves the control state alone. *)
Definition neutral {A} (s : nodeState) (r : option (nodeState * A)) : Prop :=
  exists s' a, r = Some (s', a) /\ array_ok s' /\ control s' = control s.

Lemma takeSnapshot_neutral g s : array_ok s -> neutral s (takeSnapshot g s).
Proof.
  intros Hok. destruct (takeSnapshot_total g s Hok) as (s' & ok & E & Hok' & _).
  exists s', ok. split; [done |]. split; [done |]. by eapply takeSnapshot_control.
Qed.

Lemma addCommandLog_neutral g me c q d s : array_ok s -> neutral s (addCommandLog g me c q d s).
Proof.
  intros Hok. unfold addCommandLog.
  destruct (getLastLogIdxTerm_total s Hok) as (li & lt & ->). simpl.
  set (e := mkRaftLog _ _ _ _ _ _ _).
  assert (exists s1 full, (if (logArrayCapacity <=? nextLogIdx s)%nat then
       '(s, ok) ← takeSnapshot g s;
       Some (s, negb ok || (logArrayCapacity <=? nextLogIdx s)%nat)
     else Some (s, false)) = Some (s1, full) /\ array_ok s1 /\ control s1 = control s /\
     (full = false -> (nextLogIdx s1 < logArrayCapacity)%nat)) as (s1 & full & -> & Hok1 & Hc1 & Hroom).
  { destruct (Nat.leb_spec logArrayCapacity (nextLogIdx s)).
    - destruct (takeSnapshot_neutral g s Hok) as (s1 & ok & -> & Hok1 & Hc1). simpl.
      exists s1, (negb ok || (logArrayCapacity <=? nextLogIdx s1)%nat). do 3 (split; [done |]).
      intros [_ Hf]%orb_false_iff. by apply Nat.leb_gt in Hf.
    - exists s, false. split; [done |]. split; [done |]. split; [done | lia]. }
  simpl. destruct full; [by exists s1, (-1) |].
  destruct (appendEntry_total me e s1 Hok1 (Hroom eq_refl)) as (s2 & E & Hok2 & _).
  rewrite E. simpl. exists s2, (Index e). split; [done |]. split; [done |].
  by rewrite (appendEntry_control _ _ _ _ E).
Qed.

Lemma addNoopLogLocked_neutral me s :
  array_ok s -> exists s', addNoopLogLocked me s = Some s' /\ array_ok s' /\ control s' = control s.
Proof.
  intros Hok. unfold addNoopLogLocked.
  destruct (getLastLogIdxTerm_total s Hok) as (li & lt & ->). simpl.
  destruct (Nat.leb_spec logArrayCapacity (nextLogIdx s)); [by exists s |].
  match goal with |- context [appendEntry me ?e s] => set (x := e) end.
  destruct (appendEntry_total me x s Hok ltac:(done)) as (s2 & E & Hok2 & _).
  exists s2. split; [done |]. split; [done |]. by eapply appendEntry_control.
Qed.

Lemma getAppendEntriesArgs_neutral p s : array_ok s -> neutral s (getAppendEntriesArgs p s).
Proof.
  intros Hok. unfold getAppendEntriesArgs.
  destruct (getLastLogIdxTerm_total s Hok) as (li & lt & ->). simpl.
  destruct (find_total s (map_get (nextIndex s) p) Hok) as (r & -> & Hr). simpl.
  destruct (bool_decide (r = None) && _); [by exists s, None |].
  destruct r as [i|]; simpl.
  - rewrite (proj2 (Nat.leb_le _ _)) by (destruct Hok; lia). simpl.
    specialize (Hr i eq_refl). destruct i as [|i]; simpl.
    + destruct (lastSnapshot s); simpl; (do 2 eexists; split; [done |]);
        (split; [by eapply array_ok_update | done]).
    + destruct (live_lookup_lt s i Hok ltac:(lia)) as [e ->]. simpl.
      do 2 eexists. split; [done |]. split; [by eapply array_ok_update | done].
  - do 2 eexists. split; [done |]. split; [by eapply array_ok_update | done].
Qed.

Lemma checkCommitsFrom_frame n s :
  array_ok s -> (n <= nextLogIdx s)%nat ->
  exists c, checkCommitsFrom n s = Some (s <| commitIndex := c |>).
Proof.
  intros Hok. induction n as [|i IH]; intros Hn; simpl; [exists (commitIndex s); by destruct s |].
  destruct (live_lookup_lt s i Hok ltac:(lia)) as [e ->]. simpl.
  case_match; [exists (commitIndex s); by destruct s |]. case_match; [by eexists | apply IH; lia].
Qed.

Lemma checkCommits_frame s :
  array_ok s -> exists c, checkCommits s = Some (s <| commitIndex := c |>).
Proof. intros Hok. by apply checkCommitsFrom_frame. Qed.

Lemma updateLastApplied_neutral s :
  array_ok s -> exists s' r, updateLastApplied s = Some (s', r) /\ array_ok s' /\
    control s' = control s /\ logs s' = logs s /\ nextLogIdx s' = nextLogIdx s /\
    commitIndex s' = commitIndex s /\
    forall i, r = Some i -> (i < nextLogIdx s)%nat /\ lastApplied s < commitIndex s /\
                            lastApplied s' = lastApplied s +! 1.
Proof.
  intros Hok. unfold updateLastApplied.
  destruct (Z.leb_spec (commitIndex s) (lastApplied s)); [by exists s, None |].
  destruct (find_total s (lastApplied s +! 1) Hok) as (r & -> & Hr). simpl.
  destruct r as [i|]; [| by exists s, None].
  do 2 eexists. split; [done |]. split; [by eapply array_ok_update |].
  do 4 (split; [done |]). intros j ?. simplify_eq. split; [by apply Hr | done].
Qed.

Lemma checkElectionTimeout_neutral r s :
  state_inv s -> exists s', checkElectionTimeout r s = Some s' /\ array_ok s' /\ control s' = control s.
Proof.
  intros [Hok _ _ [[Hmin Hlt] Hmax]]. unfold checkElectionTimeout.
  destruct (electionTimeoutStarted s); [by exists s |]. unfold Intn.
  rewrite (wrap64_id (electionMaxMs s - electionMinMs s)) by (unfold in_int64, min_int64, max_int64; lia).
  destruct (Z.leb_spec (electionMaxMs s - electionMinMs s) 0); [lia |]. simpl.
  eexists. split; [done |]. split; [by eapply array_ok_update | done].
Qed.

Lemma stopElectionTimeout_neutral s :
  array_ok s -> array_ok (stopElectionTimeout s) /\ control (stopElectionTimeout s) = control s.
Proof.
  intros Hok. unfold stopElectionTimeout, stopElectionTimeoutLocked.
  destruct (electionTimer s); [| done]. split; [by eapply array_ok_update | done].
Qed.

(** ** Operations of the election *)

Lemma acceptTerm_control t s :
  currentTerm s <= t -> quiet (control s) (control (acceptTerm t s)) /\
  same_members (control s) (control (acceptTerm t s)) /\
  c_config (control (acceptTerm t s)) = c_config (control s) /\
  c_oldConfig (control (acceptTerm t s)) = c_oldConfig (control s).
Proof.
  intros Hle. unfold acceptTerm, stepDown.
  destruct (Z.ltb_spec (currentTerm s) t); unfold updateCurrentTerm, stopElectionTimeoutLocked;
    fields; destruct (role s) eqn:Er; destruct (electionTimer s); fields;
    (split; [| done]); split; simpl; rewrite ?Er; auto.
Qed.

Lemma handleRequestToVote_total me rva s :
  array_ok s ->
  exists s' g, handleRequestToVote me rva s = Some (s', mkRequestVoteResponse me (currentTerm s') g) /\
    array_ok s' /\ same_members (control s) (control s') /\
    c_config (control s') = c_config (control s) /\ c_oldConfig (control s') = c_oldConfig (control s) /\
    if g : bool then
      may_vote rva s /\ currentTerm s' = rv_Term rva /\ votedFor s' = rv_CandidateID rva /\
      role s' = Follower
    else quiet (control s) (control s').
Proof.
  intros Hok. unfold handleRequestToVote.
  destruct (getLastLogIdxTerm_total s Hok) as (li & lt & ->). simpl.
  destruct (Z.ltb_spec (rv_Term rva) (currentTerm s)) as [Hlt|Hge]; [by exists s, false |].
  set (s1 := if currentTerm s <? rv_Term rva then updateCurrentTerm (rv_Term rva) s else s).
  assert (array_ok s1 /\ same_members (control s) (control s1) /\
          c_config (control s1) = c_config (control s) /\ c_oldConfig (control s1) = c_oldConfig (control s) /\
          currentTerm s1 = rv_Term rva /\ quiet (control s) (control s1) /\
          (canVote rva s1 = true -> may_vote rva s)) as (Hok1 & Hm & Hc & Ho & Ht & Hq & Hcan).
  { rewrite canVote_spec. unfold s1, may_vote.
    destruct (Z.ltb_spec (currentTerm s) (rv_Term rva)).
    - unfold updateCurrentTerm. split; [by eapply array_ok_update |].
      do 4 (split; [done |]). split; [split; simpl; auto | auto].
    - do 4 (split; [done |]). split; [lia |]. split; [done |]. intros. right. split; [lia | done]. }
  clearbody s1. destruct (canVote rva s1 && logOK rva li lt) eqn:Hg.
  - apply andb_true_iff in Hg as [Hg _].
    exists (stopElectionTimeoutLocked s1 <| role := Follower |> <| votedFor := rv_CandidateID rva |>
              <| currentLeader := rv_CandidateID rva |>), true.
    split; [done |]. unfold stopElectionTimeoutLocked.
    destruct (electionTimer s1); fields; (split; [by apply (array_ok_update s1) |]);
      do 3 (split; [done |]); (split; [by apply Hcan | done]).
  - exists s1, false. done.
Qed.

Lemma startElection_control me s :
  c_term (control (startElection me s)) = currentTerm s +! 1 /\
  c_vote (control (startElection me s)) = me /\ c_votes (control (startElection me s)) = 1 /\
  c_role (control (startElection me s)) = Candidate /\
  same_members (control s) (control (startElection me s)) /\
  c_config (control (startElection me s)) = c_config (control s) /\
  c_oldConfig (control (startElection me s)) = c_oldConfig (control s).
Proof. done. Qed.

Lemma updateElection_control resp s :
  let '(s', won) := updateElection resp s in
  (array_ok s -> array_ok s') /\ same_members (control s) (control s') /\
  c_config (control s') = c_config (control s) /\ c_oldConfig (control s') = c_oldConfig (control s) /\
  if decide (rvr_Term resp = currentTerm s /\ rvr_VoteGranted resp = true) then
    c_term (control s') = c_term (control s) /\ c_vote (control s') = c_vote (control s) /\
    c_role (control s') = c_role (control s) /\ c_votes (control s') = electionVotes s +! 1 /\
    (won = true <-> Z.of_nat (size (serverConfig s)) < 2 * (electionVotes s +! 1))
  else won = false /\ quiet (control s) (control s').
Proof.
  unfold updateElection. destruct (Z.ltb_spec (currentTerm s) (rvr_Term resp)) as [Hlt|Hge].
  { rewrite decide_False by lia. unfold stopElectionTimeoutLocked, updateCurrentTerm.
    destruct (electionTimer s); fields;
      (split; [intros; by eapply array_ok_update |]); do 3 (split; [done |]);
      (split; [done |]); split; simpl; auto. }
  destruct (Z.eqb_spec (rvr_Term resp) (currentTerm s)) as [Heq|Hne]; simpl.
  2: { rewrite decide_False by (intros [? _]; lia). done. }
  destruct (rvr_VoteGranted resp); [| rewrite decide_False by (intros [_ ?]; done); done].
  rewrite decide_True by done. split; [intros; by eapply array_ok_update |].
  do 6 (split; [done |]). split; [done |]. fields. by rewrite Z.ltb_lt, majority_half.
Qed.

Lemma winElection_total me s :
  array_ok s -> exists s', winElection me s = Some s' /\ array_ok s' /\
    c_term (control s') = c_term (control s) /\ c_vote (control s') = c_vote (control s) /\
    c_role (control s') = Leader /\ same_members (control s) (control s') /\
    c_config (control s') = c_config (control s) /\ c_oldConfig (control s') = c_oldConfig (control s).
Proof.
  intros Hok. unfold winElection.
  destruct (getLastLogIdxTerm_total s Hok) as (li & lt & ->). simpl.
  match goal with |- context [addNoopLogLocked me ?x] => set (s1 := x) end.
  assert (array_ok s1) as Hok1 by (by eapply array_ok_update).
  destruct (addNoopLogLocked_neutral me s1 Hok1) as (s2 & E & Hok2 & Ec).
  exists s2. split; [done |]. split; [done |]. injection Ec as E1 E2 E3 E4 E5 E6 E7 E8 E9 E10 E11.
  unfold same_members, control. simpl. rewrite E1, E2, E3, E5, E6, E7, E8, E9, E10, E11. done.
Qed.

(** ** Replication *)

Definition no_config (es : list RaftLog) : Prop := Forall (fun e => Type_ e <> LogConfiguration) es.

Lemma frame_control s s' :
  frame s s' -> quiet (control s) (control s') /\ same_members (control s) (control s').
Proof.
  intros Hf.
  assert (c_term (control s') = c_term (control s) /\ c_vote (control s') = c_vote (control s) /\
          c_votes (control s') = c_votes (control s) /\ c_role (control s') = c_role (control s)) as (E1 & E2 & E3 & E4).
  { unfold control. simpl. rewrite <- (frame_currentTerm _ _ Hf), <- (frame_votedFor _ _ Hf),
      <- (frame_electionVotes _ _ Hf), <- (frame_role _ _ Hf). done. }
  split; [split; left; done |].
  pose proof (f_equal (fun x => (pendingConfigs x, configQueue x, unvotingServers x)) Hf) as H1.
  pose proof (f_equal (fun x => (electionMinMs x, electionMaxMs x)) Hf) as H2.
  by split.
Qed.

Lemma placeEntry_static C pos e s s' :
  Type_ e <> LogConfiguration -> placeEntry pos e s = Some s' ->
  static C (control s) -> static C (control s').
Proof.
  unfold placeEntry. intros He H Hs. repeat run_step. by rewrite decide_False by done.
Qed.

Lemma mergeEntry_static C pos e s s' :
  Type_ e <> LogConfiguration -> mergeEntry pos e s = Some s' ->
  static C (control s) -> static C (control s').
Proof.
  unfold mergeEntry. intros He H Hs. destruct (nextLogIdx s <=? pos)%nat.
  { by eapply placeEntry_static. }
  repeat run_step; [| done].
  eapply placeEntry_static; [done | exact H |].
  destruct (_ <=? _); [| done]. destruct Hs as [E1 E2]. split; [| done].
  change (copyConfig (oldServerConfig s) = C). by rewrite copyConfig_id.
Qed.

Lemma mergeEntries_static C es pos s s' :
  no_config es -> mergeEntries pos es s = Some s' ->
  static C (control s) -> static C (control s').
Proof.
  revert pos s. induction es as [|e es IH]; intros pos s Hes H Hs; simpl in H; [by simplify_eq |].
  apply Forall_cons in Hes as [He Hes]. run_step.
  apply (IH _ _ Hes H). by eapply mergeEntry_static.
Qed.

Section replication.
Context `{GoPlatform}.

Lemma handleAppendEntries_control g me aea s :
  array_ok s ->
  exists s' r, handleAppendEntries g me aea s = Some (s', r) /\ array_ok s' /\
    quiet (control s) (control s') /\ same_members (control s) (control s') /\
    forall C, no_config (ae_Entries aea) -> static C (control s) -> static C (control s').
Proof.
  intros Hok. unfold handleAppendEntries.
  destruct (getLastLogIdxTerm_total s Hok) as (li & lt & ->). simpl.
  destruct (Z.ltb_spec (ae_Term aea) (currentTerm s)) as [Hlt|Hge]; [by do 2 eexists |].
  change (stepDown (if currentTerm s <? ae_Term aea then _ else _)) with (acceptTerm (ae_Term aea) s).
  pose proof (acceptTerm_fields _ _ Hge) as (_ & _ & El & Eh & En & _).
  destruct (acceptTerm_control _ _ Hge) as (Hq & Hm & Hc1 & Hc2).
  set (s1 := acceptTerm (ae_Term aea) s) in *.
  assert (array_ok s1) as Hok1 by (by eapply array_ok_update).
  assert (forall C, static C (control s) -> static C (control s1)) as Hst.
  { intros C [E1 E2]. split; congruence. }
  clearbody s1. destruct (checkPrevLog_total aea s1 Hok1) as (prev & -> & Hprev). simpl.
  destruct prev as [start|]; [| do 2 eexists; split; [done |]; eauto 10].
  set (s2 := s1 <| currentLeader := ae_LeaderID aea |>).
  assert (array_ok s2) as Hok2 by (by eapply array_ok_update).
  specialize (Hprev start eq_refl).
  destruct (Nat.leb_spec logArrayCapacity (start + length (ae_Entries aea))) as [Hfull|Hfit].
  - destruct (takeSnapshot_neutral g s2 Hok2) as (s3 & ok & -> & Hok3 & Ec). simpl.
    rewrite orb_true_r. do 2 eexists. split; [done |]. split; [done |].
    rewrite Ec. change (control s2) with (control s1). eauto.
  - simpl. destruct (mergeEntries_spec (ae_Entries aea) start s2 Hok2) as (s3 & E & Hok3 & Hf & _);
      [done | lia |].
    rewrite E. simpl. do 2 eexists. split; [done |].
    rewrite advanceCommit_fields. split; [by apply (array_ok_update s3) |].
    destruct (frame_control _ _ Hf) as [Hq3 [Hm3 Hm4]].
    match goal with |- context [control ?x] => change (control x) with (control s3) end.
    change (control s2) with (control s1) in *.
    split; [by etrans |]. destruct Hm as [Hm1 Hm2].
    split; [split; congruence |]. intros C Hno Hs.
    eapply mergeEntries_static; [done | exact E |]. by apply Hst.
Qed.

Lemma handleInstallSnapshotRequest_control me isa s :
  array_ok s ->
  let s' := (handleInstallSnapshotRequest me isa s).1 in
  array_ok s' /\ quiet (control s) (control s') /\ same_members (control s) (control s') /\
  c_config (control s') = c_config (control s) /\ c_oldConfig (control s') = c_oldConfig (control s).
Proof.
  intros Hok. unfold handleInstallSnapshotRequest.
  destruct (Z.ltb_spec (is_Term isa) (currentTerm s)); [by simpl |].
  set (s1 := if currentTerm s <? is_Term isa then _ else s).
  assert (array_ok s1 /\ quiet (control s) (control s1) /\ same_members (control s) (control s1) /\
    c_config (control s1) = c_config (control s) /\ c_oldConfig (control s1) = c_oldConfig (control s))
    as Hs1.
  { unfold s1. destruct (Z.ltb_spec (currentTerm s) (is_Term isa)); [| done].
    unfold updateCurrentTerm. split; [by eapply array_ok_update |].
    split; [split; simpl; auto | done]. }
  clearbody s1. destruct (is_LastIncludedIndex isa <=? lastApplied s1); [done |].
  destruct Hs1 as ([Hl Hh Hn] & Hs1). split; [| exact Hs1].
  constructor; simpl; fields; lia || done.
Qed.

Lemma handleAppendEntriesResponse_control me aer s :
  let s' := (handleAppendEntriesResponse me aer s).1 in
  (array_ok s -> array_ok s') /\ quiet (control s) (control s') /\
  same_members (control s) (control s') /\
  c_config (control s') = c_config (control s) /\ c_oldConfig (control s') = c_oldConfig (control s).
Proof.
  unfold handleAppendEntriesResponse. destruct (aer_Success aer); simpl.
  { split; [intros; by eapply array_ok_update | done]. }
  destruct (Z.ltb_spec (currentTerm s) (aer_Term aer)); simpl.
  - unfold updateCurrentTerm. split; [intros; by eapply array_ok_update |].
    split; [split; simpl; auto | done].
  - split; [intros; by eapply array_ok_update | done].
Qed.

(** The response to InstallSnapshot is quiet unless it is a refusal in the
    node's own term. *)
Lemma handleInstallSnapshotResponse_control me isr s :
  let s' := (handleInstallSnapshotResponse me isr s).1 in
  (array_ok s -> array_ok s') /\
  (isr_Success isr = true \/ isr_Term isr <> currentTerm s -> quiet (control s) (control s')) /\
  same_members (control s) (control s') /\
  c_config (control s') = c_config (control s) /\ c_oldConfig (control s') = c_oldConfig (control s).
Proof.
  unfold handleInstallSnapshotResponse. destruct (isr_Success isr); simpl.
  { split; [intros; by eapply array_ok_update |]. split; [by intros | done]. }
  destruct (Z.leb_spec (currentTerm s) (isr_Term isr)); simpl; [| done].
  unfold updateCurrentTerm. split; [intros; by eapply array_ok_update |].
  split; [| done]. intros [?|?]; [done |]. split; simpl; [right; simpl; split; [lia | done] | auto].
Qed.
End replication.

(** ** Membership *)

(** The election part is unchanged. *)
Definition same_election (c c' : Control) : Prop :=
  c_term c' = c_term c /\ c_vote c' = c_vote c /\ c_role c' = c_role c /\ c_votes c' = c_votes c.

Lemma same_election_quiet c c' : same_election c c' -> quiet c c'.
Proof. intros (? & ? & ? & ?). split; left; done. Qed.

Lemma addConfigLogUnlocked_total me cfg s :
  array_ok s ->
  exists s', addConfigLogUnlocked me cfg s = Some s' /\ array_ok s' /\
    same_election (control s) (control s') /\ same_members (control s) (control s').
Proof.
  intros Hok. unfold addConfigLogUnlocked.
  destruct (getLastLogIdxTerm_total s Hok) as (li & lt & ->). cbn [mbind option_bind].
  set (s1 := applyConfigurationLocked (li +! 1) cfg s).
  assert (array_ok s1 /\ nextLogIdx s1 = nextLogIdx s /\ same_election (control s) (control s1) /\
          same_members (control s) (control s1)) as (Hok1 & En & He & Hm).
  { unfold s1, applyConfigurationLocked.
    destruct (Add cfg); (split; [by apply (array_ok_update s) | done]). }
  clearbody s1. destruct (Nat.leb_spec logArrayCapacity (nextLogIdx s1)); [by exists s1 |].
  match goal with |- context [appendEntry me ?e s1] => set (x := e) end.
  destruct (appendEntry_total me x s1 Hok1 ltac:(done)) as (s2 & E & Hok2 & _).
  exists s2. split; [done |]. split; [done |]. by rewrite (appendEntry_control _ _ _ _ E).
Qed.

(** Starting the next queued change: it never pops an empty queue. *)
Lemma handleNextConfigurationChange_total s :
  state_inv s ->
  exists s' r, handleNextConfigurationChange s = Some (s', r) /\ state_inv s' /\
    same_election (control s) (control s') /\ unvotingServers s' = unvotingServers s /\
    (length (configQueue s') <= length (configQueue s))%nat /\
    (pendingConfigs s = 0 -> s' = s /\ r = None).
Proof.
  intros Hinv. pose proof Hinv as [Hok Hq Hr Ht]. unfold handleNextConfigurationChange.
  destruct (inConfigChange s || (pendingConfigs s =? 0)) eqn:E; [by exists s, None |].
  apply orb_false_iff in E as [_ E]. apply Z.eqb_neq in E.
  destruct (configQueue s) as [|entry rest] eqn:Eq.
  { rewrite Hq in E. done. }
  change (configQueue (s <| inConfigChange := true |>)) with (configQueue s).
  rewrite Eq. cbn [mbind option_bind lookup list_lookup].
  match goal with |- context [addConfigLogUnlocked _ _ ?x] => set (s1 := x) end.
  assert (array_ok s1) as Hok1 by (by eapply array_ok_update).
  destruct (addConfigLogUnlocked_total (currentLeader s1) (msg entry) s1 Hok1)
    as (s2 & E2 & Hok2 & He & Hm).
  rewrite E2. exists s2, (Some entry). split; [done |].
  destruct Hm as [Hm1 Hm2]. unfold control in Hm1, Hm2. simpl in Hm1, Hm2.
  injection Hm1 as Ep Ec Eu. injection Hm2 as Et1 Et2.
  assert (configQueue s2 = rest) as Ec2 by (by rewrite Ec).
  assert (pendingConfigs s2 = Z.of_nat (length rest)) as Ep2.
  { rewrite Ep. unfold s1. fields.
    change (pendingConfigs (s <| inConfigChange := true |>)) with (pendingConfigs s).
    rewrite Hq. cbn [length].
    rewrite wrap64_id; [lia |]. rewrite Hq in Hr. unfold in_int64, min_int64, max_int64 in *.
    cbn [length] in Hr. lia. }
  split.
  { split; [done | by rewrite Ep2, Ec2 | | by rewrite Et1, Et2].
    rewrite Ep2. rewrite Hq in Hr. cbn [length] in Hr.
    unfold in_int64, min_int64, max_int64 in *. lia. }
  split; [done |]. split; [done |]. split; [rewrite Ec2; simpl; lia | lia].
Qed.

Lemma handleConfigurationRPC_total entry s :
  state_inv s -> pendingConfigs s < max_int64 ->
  exists s' r, handleConfigurationRPC entry s = Some (s', r) /\ state_inv s' /\
    same_election (control s) (control s') /\ unvotingServers s' = unvotingServers s.
Proof.
  intros [Hok Hq Hr Ht] Hmax. unfold handleConfigurationRPC.
  destruct (handleNextConfigurationChange_total (enqueueConfig entry s)) as (s' & r & E & Hinv & He & Hu & _).
  { assert (pendingConfigs (enqueueConfig entry s) = pendingConfigs s + 1) as Ep
      by (unfold enqueueConfig; fields; by rewrite wrap64_succ).
    split; [by eapply array_ok_update | | | done].
    - rewrite Ep, Hq. unfold enqueueConfig. fields. rewrite length_app. simpl. lia.
    - rewrite Ep. unfold in_int64 in *. lia. }
  exists s', r. split; [done |]. split; [done |]. split; [exact He | exact Hu].
Qed.
