(* ===== verification/ConfigTheorems.v ===== *)
(** * ConfigTheorems: membership changes

    Why one server at a time is safe, what starting a queued change does, and
    how a follower rolls a change back. *)
From S2P Require Import Prelude GoFloat Sha256 Types State SnapshotOps ConfigChange Log Samples Control.

(** ** Quorums *)

(** More than half of the servers of a configuration, as elections and commits
    count them. *)
Definition quorum (cfg : gmap ServerID bool) (Q : gset ServerID) : Prop :=
  Q ⊆ dom cfg /\ Z.of_nat (size cfg / 2) < Z.of_nat (size Q).

(** Two sets in a universe they are together too large for meet. *)
Lemma large_sets_meet (U Q Q' : gset ServerID) :
  Q ⊆ U -> Q' ⊆ U -> (size U < size Q + size Q')%nat -> exists p, p ∈ Q /\ p ∈ Q'.
Proof.
  intros HQ HQ' Hl. destruct (decide (Q ## Q')) as [Hd|Hd].
  - exfalso. assert (size (Q ∪ Q') <= size U)%nat by (apply subseteq_size; set_solver).
    rewrite size_union in * by done. lia.
  - apply dec_stable. intros Hno. apply Hd. intros p Hp Hp'. apply Hno. eauto.
Qed.

(** One change adds or removes at most one server. *)
Lemma applyConfigurationLocked_dom k cfg s :
  let D := dom (serverConfig s) in
  let s' := applyConfigurationLocked k cfg s in
  dom (serverConfig s') = (if Add cfg then {[Server cfg]} ∪ D else D ∖ {[Server cfg]}) /\
  oldServerConfig s' = serverConfig s /\ lastConfigLogIndex s' = k.
Proof.
  unfold applyConfigurationLocked. rewrite copyConfig_id. destruct (Add cfg); fields;
    (split; [| done]); cbn; by rewrite ?dom_insert_L, ?dom_delete_L.
Qed.

(** ** Following a configuration entry *)

(** Appending a configuration entry at the end of a follower's log. *)
Lemma mergeEntry_config e s :
  log_ok s -> (nextLogIdx s < logArrayCapacity)%nat -> Type_ e = LogConfiguration ->
  Index e = lastIdx s + 1 ->
  exists s1, mergeEntry (nextLogIdx s) e s = Some s1 /\ log_ok s1 /\ base s1 = base s /\
    nextLogIdx s1 = S (nextLogIdx s) /\ logs s1 !! nextLogIdx s = Some e /\
    lastConfigLogIndex s1 = Z.of_nat (nextLogIdx s) /\ oldServerConfig s1 = serverConfig s /\
    serverConfig s1 = serverConfig (applyConfigurationLocked (Z.of_nat (nextLogIdx s)) (Config e) s).
Proof.
  intros Hlog Hcap Ht Hidx. unfold mergeEntry. rewrite (proj2 (Nat.leb_le _ _)) by lia.
  destruct (placeEntry_spec (nextLogIdx s) e s (proj1 Hlog)) as (s1 & E & Hok1 & Hf & En & El); [lia | done |].
  exists s1. split; [done |].
  assert (base s1 = base s) as Eb by (symmetry; by apply frame_base).
  assert (live s1 = live s ++ [e]) as El2.
  { rewrite El, take_ge; [done |]. rewrite length_live; [lia | apply Hlog]. }
  assert (logs s1 !! nextLogIdx s = Some e) as Hat.
  { rewrite <- (lookup_live s1) by lia. rewrite El2, list_lookup_middle; [done |].
    rewrite length_live; [done | apply Hlog]. }
  split.
  { split; [done |]. unfold contiguous. rewrite El2, Eb. apply contiguous_app; [apply Hlog |].
    apply contiguous_singleton. rewrite Hidx, length_live by apply Hlog. unfold lastIdx. lia. }
  do 3 (split; [done |]).
  unfold placeEntry in E. rewrite array_set_in in E by (destruct Hlog as [[] _]; lia). simpl in E.
  destruct (getLogHash e _) as [h|]; [simpl in E | done].
  destruct (array_set _ _ h); [simpl in E | done]. rewrite decide_True in E by done.
  injection E as <-. unfold applyConfigurationLocked. rewrite copyConfig_id. by destruct (Add (Config e)).
Qed.

(** Replacing it by a conflicting entry that is no configuration. *)
Lemma mergeEntry_conflict pos e x s :
  array_ok s -> (pos < nextLogIdx s)%nat -> logs s !! pos = Some x ->
  Index x = Index e -> Term x <> Term e -> Type_ e <> LogConfiguration ->
  exists s', mergeEntry pos e s = Some s' /\
    serverConfig s' = if decide (Index x <= lastConfigLogIndex s) then oldServerConfig s else serverConfig s.
Proof.
  intros Hok Hpos Hx Hi Ht Hty. unfold mergeEntry.
  rewrite (proj2 (Nat.leb_gt _ _)) by lia. rewrite Hx. simpl.
  rewrite (proj2 (Z.eqb_neq (Term x) (Term e))) by done. rewrite orb_true_r.
  set (s1 := if Index x <=? lastConfigLogIndex s then _ else s).
  assert (array_ok s1 /\ nextLogIdx s1 = nextLogIdx s /\ serverConfig s1 =
    if decide (Index x <= lastConfigLogIndex s) then oldServerConfig s else serverConfig s) as (Hok1 & En & Ec).
  { unfold s1. destruct (Z.leb_spec (Index x) (lastConfigLogIndex s)).
    - rewrite decide_True by done. split; [by apply (array_ok_update s) |]. split; [done |]. apply copyConfig_id.
    - by rewrite decide_False by lia. }
  destruct (placeEntry_spec pos e s1 Hok1) as (s' & E & _); [lia | destruct Hok1; lia |].
  exists s'. split; [done |]. rewrite <- Ec. unfold placeEntry in E.
  destruct (array_set (logs s1) pos e); [simpl in E | done].
  destruct (getLogHash e _); [simpl in E | done].
  destruct (array_set _ pos _); [simpl in E | done]. rewrite decide_False in E by done.
  by injection E as <-.
Qed.

(** ** Starting a change *)

(** The change [entry] is started on [s], and [s'] is the result. *)
Record change_started (entry : configEntry) (rest : list configEntry) (s s' : nodeState) : Prop := {
  cs_queue : configQueue s' = rest;
  cs_lock : inConfigChange s' = true;
  cs_log : log_ok s';
  cs_config : serverConfig s' = serverConfig (applyConfigurationLocked 0 (msg entry) s);
  cs_old : oldServerConfig s' = serverConfig s;
  cs_index : lastConfigLogIndex s' = lastIdx s + 1;
  cs_live : live s' =
    if decide (nextLogIdx s < logArrayCapacity)%nat then
      live s ++ [mkRaftLog (lastIdx s + 1) (currentTerm s) LogConfiguration [] (msg entry) "" 0]
    else live s;
}.

Lemma startChange_run entry rest s :
  configQueue s = entry :: rest -> pendingConfigs s = Z.of_nat (length (configQueue s)) ->
  log_ok s -> in_int64 (lastIdx s) -> lastIdx s < max_int64 -> inConfigChange s = false ->
  exists s', handleNextConfigurationChange s = Some (s', Some entry) /\ change_started entry rest s s'.
Proof.
  intros Eq Hq Hlog Hint Hmax Hin. unfold handleNextConfigurationChange. rewrite Hin.
  rewrite (proj2 (Z.eqb_neq _ _)) by (rewrite Hq, Eq; simpl; lia).
  cbn [orb]. change (configQueue (s <| inConfigChange := true |>)) with (configQueue s).
  rewrite Eq. cbn [mbind option_bind lookup list_lookup].
  match goal with |- context [addConfigLogUnlocked _ _ ?x] => set (s1 := x) end.
  assert (log_ok s1) as Hlog1 by (by apply (log_ok_update s)).
  unfold addConfigLogUnlocked. rewrite getLastLogIdxTerm_ok by done. cbn [mbind option_bind].
  change (lastIdx s1) with (lastIdx s). change (currentTerm s1) with (currentTerm s).
  unfold configLogEntry. rewrite (wrap64_succ _ Hint Hmax).
  set (s2 := applyConfigurationLocked (lastIdx s + 1) (msg entry) s1).
  set (e := mkRaftLog (lastIdx s + 1) _ _ _ _ _ _).
  assert (log_ok s2 /\ nextLogIdx s2 = nextLogIdx s /\ lastIdx s2 = lastIdx s /\ live s2 = live s /\
    configQueue s2 = rest /\ inConfigChange s2 = true /\
    serverConfig s2 = serverConfig (applyConfigurationLocked 0 (msg entry) s) /\
    oldServerConfig s2 = serverConfig s /\ lastConfigLogIndex s2 = lastIdx s + 1)
    as (Hlog2 & En & Elast & Elive & R1 & R2 & R3 & R4 & R5).
  { unfold s2, applyConfigurationLocked. rewrite !copyConfig_id.
    destruct (Add (msg entry)); (split; [by apply (log_ok_update s) | done]). }
  clearbody s2. rewrite En. destruct (Nat.leb_spec logArrayCapacity (nextLogIdx s)) as [Hfull|Hroom].
  - exists s2. split; [done |]. split; try done. by rewrite decide_False by lia.
  - destruct (appendEntry_spec (currentLeader s1) e s2 Hlog2) as (s3 & -> & Hlog3 & Es3 & Hl3 & _);
      [by rewrite En | by rewrite Elast |].
    cbn [mbind option_bind]. eexists. split; [done |].
    assert (forall {A} (f : nodeState -> A), f s3 = f (trackOwn (currentLeader s1) (Index e) s3) ->
      f s3 = f s2 -> f (trackOwn (currentLeader s1) (Index e) s3) = f s2) as Hf by (intros; congruence).
    split; rewrite ?(Hf _ configQueue), ?(Hf _ inConfigChange), ?(Hf _ serverConfig),
      ?(Hf _ oldServerConfig), ?(Hf _ lastConfigLogIndex) by (done || by rewrite Es3); try done.
    rewrite decide_True by done. transitivity (live s3); [done |]. by rewrite Hl3, Elive.
Qed.

(** ** Properties *)

(** C25. One change at a time keeps quorums overlapping: a majority of the
    configuration before a change and a majority of the one after it share a
    server, so that two leaders, or two commits, on either side of the change
    have a common witness. *)
Theorem single_change_overlap k cfg s Q Q' :
  quorum (serverConfig s) Q -> quorum (serverConfig (applyConfigurationLocked k cfg s)) Q' ->
  exists p, p ∈ Q /\ p ∈ Q'.
Proof.
  intros [HQ Hl] [HQ' Hl']. rewrite majority_half in Hl, Hl'.
  destruct (applyConfigurationLocked_dom k cfg s) as (Ed & _). rewrite Ed in HQ'.
  rewrite <- !size_dom in *. rewrite Ed in Hl'.
  set (D := dom (serverConfig s)) in *. set (x := Server cfg) in *.
  destruct (Add cfg).
  - apply (large_sets_meet ({[x]} ∪ D)); [set_solver | done |].
    destruct (decide (x ∈ D)) as [Hin|Hin].
    + assert ({[x]} ∪ D = D) as E by set_solver. rewrite E in *. lia.
    + rewrite size_union, size_singleton in * by set_solver. lia.
  - apply (large_sets_meet D); [done | set_solver |].
    destruct (decide (x ∈ D)) as [Hin|Hin].
    + assert (size D = size ({[x]} ∪ D ∖ {[x]})) as E
        by (f_equal; apply union_difference_L; set_solver).
      rewrite size_union, size_singleton in E by set_solver. lia.
    + assert (D ∖ {[x]} = D) as E by set_solver. rewrite E in *. lia.
Qed.

(** C33. Starting a queued change. While a change is in progress, or with an
    empty queue, nothing happens. Otherwise the oldest request is taken off the
    queue, further starts are locked out, its configuration is in force at
    once with the previous one kept, and its entry is appended after the log's
    last one, provided the array has room: when it is full the change is in
    force and reported as started without an entry. *)
Theorem handleNextConfigurationChange_spec s :
  state_inv s -> log_ok s -> in_int64 (lastIdx s) -> lastIdx s < max_int64 ->
  match configQueue s with
  | entry :: rest =>
      if inConfigChange s then handleNextConfigurationChange s = Some (s, None)
      else
        exists s', handleNextConfigurationChange s = Some (s', Some entry) /\ change_started entry rest s s'
  | [] => handleNextConfigurationChange s = Some (s, None)
  end.
Proof.
  intros [_ Hq _ _] Hlog Hint Hmax. destruct (configQueue s) as [|entry rest] eqn:Eq.
  { unfold handleNextConfigurationChange. rewrite Hq. simpl. by rewrite orb_true_r. }
  destruct (inConfigChange s) eqn:Hin; [unfold handleNextConfigurationChange; by rewrite Hin |].
  apply startChange_run; [done | by rewrite Eq | done..].
Qed.

(** C34. Rolling a change back. A follower appends a configuration entry and a
    later leader replaces it: without a snapshot the configuration is again
    the one before the entry. With a snapshot it is not: the position recorded
    for the change is an array index, which a log index exceeds from then on,
    and the discarded change stays in force. *)
Theorem configuration_rollback s e e' :
  log_ok s -> (S (nextLogIdx s) < logArrayCapacity)%nat ->
  Type_ e = LogConfiguration -> Index e = lastIdx s + 1 ->
  Index e' = Index e -> Term e' <> Term e -> Type_ e' <> LogConfiguration ->
  exists s1 s2, mergeEntry (nextLogIdx s) e s = Some s1 /\
    serverConfig s1 = serverConfig (applyConfigurationLocked 0 (Config e) s) /\
    mergeEntry (nextLogIdx s) e' s1 = Some s2 /\
    serverConfig s2 = if decide (base s <= 0) then serverConfig s else serverConfig s1.
Proof.
  intros Hlog Hcap Hty Hidx Hi Ht Hty'.
  destruct (mergeEntry_config e s Hlog) as (s1 & E1 & Hlog1 & Eb & En & Hat & Ek & Eo & Ec); [lia | done | done |].
  destruct (mergeEntry_conflict (nextLogIdx s) e' e s1) as (s2 & E2 & Ec2);
    [apply Hlog1 | lia | done | done | done | done |].
  exists s1, s2. split; [done |]. split; [rewrite Ec; unfold applyConfigurationLocked; by destruct (Add (Config e)) |].
  split; [done |]. rewrite Ec2, Ek, Eo, Hidx. unfold lastIdx.
  destruct (decide (base s <= 0)); [rewrite decide_True by lia | rewrite decide_False by lia]; done.
Qed.

(** ** Instances *)

(** Adding a fourth server to three: two of the three, and three of the four. *)
Definition trio_state : nodeState := node "n1" 2 [cmd 0 1; cmd 1 2].
Definition add_n4 : ConfigChange := mkConfigChange true "n4".

Lemma single_change_overlap_witness :
  exists p, p ∈ (["n1"; "n2"] : list ServerID) /\ p ∈ (["n2"; "n3"; "n4"] : list ServerID).
Proof.
  destruct (single_change_overlap 2 add_n4 trio_state (list_to_set ["n1"; "n2"])
    (list_to_set ["n2"; "n3"; "n4"])) as (p & H1 & H2).
  - apply (bool_decide_unpack _). vm_compute. exact I.
  - apply (bool_decide_unpack _). vm_compute. exact I.
  - apply elem_of_list_to_set in H1, H2. exists p. exact (conj H1 H2).
Defined.

Definition queued : nodeState := enqueueConfig (mkConfigEntry add_n4 1%nat 2%nat) trio_state.

Lemma enqueue_log_ok e s : log_ok s -> log_ok (enqueueConfig e s).
Proof. intros. by apply (log_ok_update s). Qed.

Lemma queued_log_ok : log_ok queued.
Proof. apply enqueue_log_ok. sample. Qed.

Lemma queued_inv : state_inv queued.
Proof.
  pose proof queued_log_ok as Hlog.
  split; [apply Hlog | vm_compute; reflexivity | vm_compute; split; discriminate | vm_compute; split; [split|]; discriminate || reflexivity].
Qed.

Lemma handleNextConfigurationChange_spec_witness :
  exists s' e, handleNextConfigurationChange queued = Some (s', Some e) /\ inConfigChange s' = true /\
    length (live s') = 3%nat.
Proof.
  pose proof queued_log_ok as Hlog.
  assert (lastIdx queued = 1) as El by (vm_compute; reflexivity).
  pose proof (handleNextConfigurationChange_spec queued queued_inv Hlog) as Hth. rewrite El in Hth.
  specialize (Hth ltac:(vm_compute; split; discriminate) ltac:(vm_compute; reflexivity)).
  assert (configQueue queued = [mkConfigEntry add_n4 1%nat 2%nat]) as Eq by (vm_compute; reflexivity).
  assert (inConfigChange queued = false) as Ei by (vm_compute; reflexivity).
  assert (nextLogIdx queued = 2%nat) as En by (vm_compute; reflexivity).
  assert (length (live queued) = 2%nat) as Ell by (vm_compute; reflexivity).
  rewrite Eq, Ei in Hth. destruct Hth as (s' & Hrun & [_ Hin _ _ _ _ Hlive]). rewrite En in Hlive.
  rewrite decide_True in Hlive by (apply (bool_decide_unpack _); vm_compute; exact I).
  exists s'. eexists. split; [exact Hrun |]. split; [exact Hin |].
  rewrite Hlive, length_app, Ell. reflexivity.
Defined.

(** With a snapshot up to index 5 the fourth server stays. *)
Definition behind_snapshot : nodeState := node_snap "n2" 2 5 1 [cmd 6 2].

Lemma configuration_rollback_witness :
  exists s1 s2, mergeEntry 1 (mkRaftLog 7 2 LogConfiguration [] add_n4 "" 0) behind_snapshot = Some s1 /\
    mergeEntry 1 (cmd 7 3) s1 = Some s2 /\ serverConfig s2 = serverConfig s1.
Proof.
  assert (log_ok behind_snapshot) as Hlog by sample.
  assert (nextLogIdx behind_snapshot = 1%nat) as En by (vm_compute; reflexivity).
  destruct (configuration_rollback behind_snapshot (mkRaftLog 7 2 LogConfiguration [] add_n4 "" 0) (cmd 7 3))
    as (s1 & s2 & H1 & _ & H2 & H3).
  - exact Hlog.
  - rewrite En. apply (bool_decide_unpack _). vm_compute. exact I.
  - reflexivity.
  - vm_compute. reflexivity.
  - reflexivity.
  - discriminate.
  - discriminate.
  - rewrite En in H1, H2. rewrite decide_False in H3 by (vm_compute; intros HH; apply HH; reflexivity).
    exists s1, s2. exact (conj H1 (conj H2 H3)).
Defined.
