(* ===== verification/Node.v ===== *)
(** * Node: the RaftNode and its goroutines (src/raft/node.go, and the RaftNode
    methods of log.go, election.go, snapshot.go and config_change.go)

    A goroutine's reaction to one message is a [Handler]: it reads and changes
    the node, may panic, and emits what it sends on channels or hands to the
    transport, in order. The select of a loop is an argument: the event the
    runtime picked. *)
From S2P Require Import Prelude GoFloat Metrics Types State Storage SnapshotOps ConfigChange Log Election.

(** ** Data *)

(** What a handler does that others can observe, in order: what it sends, and
    the calls of [SaveState] and [SaveSnapshot] it makes. The goroutine a send
    may start is a constructor too: it only forwards between the channels it
    names. *)
Inductive effect :=
| StateSaved (ps : PersistentState)                     (* n.storage.SaveState(ps) returned *)
| SnapshotSaved (snap : Snapshot)                       (* n.storage.SaveSnapshot(snap) returned *)
| SendRequestVote (peer : ServerID) (args : RequestVoteArgs)
| SendAppendEntries (peer : ServerID) (args : AppendEntriesArgs)
| SendInstallSnapshot (peer : ServerID) (args : InstallSnapshotArgs)
| Connect (peer : ServerID)
| ReplyAppendEntries (resp : AppendEntriesResponse)     (* n.aeReplyChan <- resp *)
| ReplyRequestVote (resp : RequestVoteResponse)         (* n.rvReplyChan <- resp *)
| ReplyInstallSnapshot (resp : InstallSnapshotResponse) (* n.isReplyChan <- resp *)
| RespondApply (resultCh : chan) (resp : ApplyResponse) (* resultCh <- resp *)
| AwaitApplied (errCh resultCh : chan)                  (* go func: resultCh gets what errCh gets *)
| SignalApplied (errCh : chan)                          (* ch <- nil *)
| RespondConfig (resultCh : chan) (resp : AddRemoveServerResponse)
| AwaitConfig (entry : configEntry)                     (* go n.waitForConfigApplied(entry) *)
| SignalConfig (chanApplied : chan).                    (* ch <- true *)

#[export] Instance effect_eq_dec : EqDecision effect.
Proof. solve_decision. Defined.

(** The transport, as far as its results matter here: [Listen] reports an error
    as [false]; sends are effects. *)
Record Transport := mkTransport { tr_Listen : ServerID -> bool }.

Record pendingApply := mkPendingApply { pa_args : ApplyArgs; pa_resultCh : chan }.

Record RaftNode {SM ST : Type} := mkRaftNode {
  cfg : NodeConfig.Config;
  sm : SM;
  transport : Transport;
  storage : ST;
  state : nodeState;
  connected : bool;
  pendingCommands : gmap Z chan;
  pendingConfigApplied : gmap Z chan;
  lastPersistedSnapIdx : Z;
  metrics : Metrics;
  electionStarted : Z;
}.
Arguments RaftNode : clear implicits.

Definition RaftNode_eta {SM ST} (n : RaftNode SM ST) : RaftNode SM ST :=
  mkRaftNode SM ST (cfg n) (sm n) (transport n) (storage n) (state n) (connected n)
    (pendingCommands n) (pendingConfigApplied n) (lastPersistedSnapIdx n) (metrics n)
    (electionStarted n).

Ltac node_setter f :=
  intros v s;
  let b := eval cbv beta delta [RaftNode_eta] in (RaftNode_eta s) in
  match eval pattern (f s) in b with
  | ?F _ => exact (F v)
  end.

#[export] Instance set_sm {SM ST} : Setter (@sm SM ST) := ltac:(node_setter (@sm SM ST)).
#[export] Instance set_storage {SM ST} : Setter (@storage SM ST) := ltac:(node_setter (@storage SM ST)).
#[export] Instance set_state {SM ST} : Setter (@state SM ST) := ltac:(node_setter (@state SM ST)).
#[export] Instance set_connected {SM ST} : Setter (@connected SM ST) := ltac:(node_setter (@connected SM ST)).
#[export] Instance set_pendingCommands {SM ST} : Setter (@pendingCommands SM ST) := ltac:(node_setter (@pendingCommands SM ST)).
#[export] Instance set_pendingConfigApplied {SM ST} : Setter (@pendingConfigApplied SM ST) := ltac:(node_setter (@pendingConfigApplied SM ST)).
#[export] Instance set_lastPersistedSnapIdx {SM ST} : Setter (@lastPersistedSnapIdx SM ST) := ltac:(node_setter (@lastPersistedSnapIdx SM ST)).
#[export] Instance set_metrics {SM ST} : Setter (@metrics SM ST) := ltac:(node_setter (@metrics SM ST)).
#[export] Instance set_electionStarted {SM ST} : Setter (@electionStarted SM ST) := ltac:(node_setter (@electionStarted SM ST)).

(** ** The monad *)

Definition Handler (SM ST A : Type) : Type :=
  RaftNode SM ST -> option (RaftNode SM ST * list effect * A).

Section monad.
Context {SM ST : Type}.

#[global] Instance handler_ret : MRet (Handler SM ST) := fun A x n => Some (n, [], x).
#[global] Instance handler_bind : MBind (Handler SM ST) := fun A B k m n =>
  '(n1, out1, a) ← m n;
  '(n2, out2, b) ← k a n1;
  Some (n2, out1 ++ out2, b).

Definition emit (e : effect) : Handler SM ST unit := fun n => Some (n, [e], tt).
Definition gets {A} (f : RaftNode SM ST -> A) : Handler SM ST A := fun n => Some (n, [], f n).
Definition modify (f : RaftNode SM ST -> RaftNode SM ST) : Handler SM ST unit :=
  fun n => Some (f n, [], tt).
Definition skip : Handler SM ST unit := fun n => Some (n, [], tt).

(** A call of a [nodeState] method: one that may panic and returns a value,
    one that cannot panic, one without a result. *)
Definition call {A} (f : nodeState -> option (nodeState * A)) : Handler SM ST A := fun n =>
  '(s, a) ← f (state n); Some (n <| state := s |>, [], a).
Definition calls (f : nodeState -> option nodeState) : Handler SM ST unit := fun n =>
  s ← f (state n); Some (n <| state := s |>, [], tt).
Definition update (f : nodeState -> nodeState) : Handler SM ST unit :=
  modify (fun n => n <| state := f (state n) |>).

Fixpoint each {A} (f : A -> Handler SM ST unit) (l : list A) : Handler SM ST unit :=
  match l with
  | [] => skip
  | x :: l' => _ ← f x; each f l'
  end.
End monad.

Section node.
Context {SM ST : Type} `{StateMachine SM, Storage ST, GoPlatform}.
Implicit Types n : RaftNode SM ST.

Definition id n : ServerID := NodeConfig.ID (cfg n).
Definition peers n : list ServerID := NodeConfig.Peers (cfg n).

(** What [snapshotLoop] answers a snapshot request with: nil on an error. *)
Definition gameState n : bytes := default [] (sm_Snapshot (sm n)).

(** [time.Since]: the difference of two instants, saturated. *)
Definition Since (now start : Z) : Z := Z.max min_int64 (Z.min max_int64 (now - start)).

(** ** Persistence *)

(** [persistState] is two steps of the goroutine: it reads the state under the
    state's lock, and saves what it read, under no lock. Nothing keeps another
    goroutine's [persistState] from running in between. *)
Definition readPersistent : Handler SM ST PersistentState := fun n =>
  ps ← getPersistentState (state n); Some (n, [], ps).

(** A snapshot newer than the last one saved; errors are logged only. *)
Definition saveNewSnapshot : Handler SM ST unit := fun n =>
  match getLastSnapshot (state n) with
  | Some snap =>
      if lastPersistedSnapIdx n <? LastIncludedIndex snap then
        let '(st, ok) := SaveSnapshot snap (storage n) in
        let n := n <| storage := st |> in
        Some (if ok then n <| lastPersistedSnapIdx := LastIncludedIndex snap |> else n,
              [SnapshotSaved snap], tt)
      else Some (n, [], tt)
  | None => Some (n, [], tt)
  end.

Definition savePersistent (ps : PersistentState) : Handler SM ST unit :=
  modify (fun n => n <| storage := (SaveState ps (storage n)).1 |>) ;;
  emit (StateSaved ps) ;;
  saveNewSnapshot.

Definition persistState : Handler SM ST unit :=
  ps ← readPersistent;
  savePersistent ps.

(** ** Sending *)

Definition sendInstallSnapshotRPC (target : ServerID) : Handler SM ST unit := fun n =>
  match getLastSnapshot (state n) with
  | None => Some (n, [], tt)
  | Some _ =>
      args ← prepareInstallSnapshotRPC (id n) (state n);
      Some (n, [SendInstallSnapshot target args], tt)
  end.

(** The local function [send] of [sendAppendEntriesRPCs]. *)
Definition sendOne (peer : ServerID) : Handler SM ST unit :=
  args ← call (getAppendEntriesArgs peer);
  match args with
  | None => sendInstallSnapshotRPC peer
  | Some args => emit (SendAppendEntries peer args)
  end.

Definition sendAppendEntriesRPCs : Handler SM ST unit :=
  ps ← gets peers;
  each sendOne ps ;;
  joining ← gets (fun n => getUnvotingServerIDs (state n));
  each sendOne joining.

Definition sendRequestVoteRPCs (args : RequestVoteArgs) : Handler SM ST unit :=
  ps ← gets peers;
  each (fun peer => emit (SendRequestVote peer args)) ps.

(** ** Applying committed entries *)

(** [stateMachine.Apply], its error logged only. *)
Definition applyData (data : bytes) : Handler SM ST unit := fun n =>
  '(m, _) ← sm_Apply data (sm n); Some (n <| sm := m |>, [], tt).

(** The first half of [applyLog]: the state machine and the deduplication table. *)
Definition applyCommand (entry : RaftLog) : Handler SM ST unit :=
  if decide (Type_ entry = LogCommand) then
    applyData (Data entry) ;;
    if negb (bool_decide (ClientID entry = "")) && (0 <? SeqNum entry)
    then update (setClientLastSeq (ClientID entry) (SeqNum entry))
    else skip
  else skip.

(** The second half, on the leader: the command waiting under the entry's
    index is told of success, *)
Definition completeCommand (entry : RaftLog) : Handler SM ST unit :=
  pending ← gets (fun n => pendingCommands n !! Index entry);
  match pending with
  | Some ch =>
      modify (fun n => n <| pendingCommands := delete (Index entry) (pendingCommands n) |>) ;;
      emit (SignalApplied ch)
  | None => skip
  end.

(** and so is the configuration change, after the next one may start. *)
Definition completeConfig (entry : RaftLog) : Handler SM ST unit :=
  update unlockNextConfiguration ;;
  pending ← gets (fun n => pendingConfigApplied n !! Index entry);
  match pending with
  | Some ch =>
      modify (fun n => n <| pendingConfigApplied := delete (Index entry) (pendingConfigApplied n) |>) ;;
      emit (SignalConfig ch)
  | None => skip
  end.

Definition applyLog (entry : RaftLog) : Handler SM ST unit :=
  modify (fun n => n <| metrics := recordCommit (metrics n) |>) ;;
  applyCommand entry ;;
  r ← gets (fun n => getRole (state n));
  match r with
  | Leader =>
      completeCommand entry ;;
      if decide (Type_ entry = LogConfiguration) then completeConfig entry else skip
  | _ => skip
  end.

(** The loop of [checkLogsToApply]; running out of fuel counts as a panic. *)
Fixpoint applyLogs (fuel : nat) : Handler SM ST unit :=
  match fuel with
  | O => fun _ => None
  | S fuel' =>
      found ← call updateLastApplied;
      match found with
      | None => skip
      | Some i =>
          entry ← (fun n => e ← getLog i (state n); Some (n, [], e)) : Handler SM ST RaftLog;
          applyLog entry ;;
          applyLogs fuel'
      end
  end.

Definition checkLogsToApply : Handler SM ST unit := fun n =>
  applyLogs (S (Z.to_nat (commitIndex (state n) - lastApplied (state n)))) n.

(** ** Configuration changes *)

(** What follows a configuration change that has started, in the three places
    that start one. *)
Definition awaitConfig (started : option configEntry) : Handler SM ST unit :=
  match started with
  | None => skip
  | Some entry =>
      modify (fun n => n <| pendingConfigApplied :=
        <[getLastConfigLogIndex (state n) := chanApplied entry]> (pendingConfigApplied n) |>) ;;
      emit (AwaitConfig entry)
  end.

Definition checkConfigurationsToStart : Handler SM ST unit :=
  started ← call handleNextConfigurationChange;
  awaitConfig started.

Definition promoteUnvotingServer (server : ServerID) : Handler SM ST unit :=
  found ← call (fun s => Some (removeUnvotingServer server s));
  match found with
  | None => skip
  | Some entry => started ← call (handleConfigurationRPC entry); awaitConfig started
  end.

(** One message of [handleConfigurationMessages]; the error of [Connect] is
    logged only. *)
Definition handleConfigurationMessage (req : configEntry) : Handler SM ST unit :=
  r ← gets (fun n => getRole (state n));
  match r with
  | Follower | Candidate =>
      leader ← gets (fun n => getCurrentLeader (state n));
      emit (RespondConfig (resultCh req) (mkAddRemoveServerResponse false leader))
  | Leader =>
      if Add (msg req) then
        emit (Connect (Server (msg req))) ;;
        update (addNewServer (Server (msg req))) ;;
        update (addUnvotingServer req) ;;
        sendAppendEntriesRPCs
      else
        started ← call (handleConfigurationRPC req);
        awaitConfig started
  end.

(** [waitForConfigApplied], once the channel is signalled. *)
Definition configApplied (entry : configEntry) : Handler SM ST unit :=
  leader ← gets (fun n => getCurrentLeader (state n));
  emit (RespondConfig (resultCh entry) (mkAddRemoveServerResponse true leader)).

(** ** Client commands *)

(** One request of [handleApplyRequests]; [errCh] is the channel it makes. *)
Definition handleApplyRequest (errCh : chan) (req : pendingApply) : Handler SM ST unit :=
  r ← gets (fun n => getRole (state n));
  me ← gets id;
  match r with
  | Follower | Candidate =>
      leader ← gets (fun n => getCurrentLeader (state n));
      emit (RespondApply (pa_resultCh req) (mkApplyResponse false leader))
  | Leader =>
      let args := pa_args req in
      seen ← gets (fun n => getClientLastSeq (aa_ClientID args) (state n));
      if (0 <? aa_SeqNum args) && (aa_SeqNum args <=? seen) then
        emit (RespondApply (pa_resultCh req) (mkApplyResponse true me))
      else
        data ← gets gameState;
        logIdx ← call (addCommandLog data me (aa_ClientID args) (aa_SeqNum args) (aa_Command args));
        if logIdx <? 0 then
          emit (RespondApply (pa_resultCh req) (mkApplyResponse false me))
        else
          persistState ;;
          modify (fun n => n <| pendingCommands := <[logIdx := errCh]> (pendingCommands n) |>) ;;
          sendAppendEntriesRPCs ;;
          emit (AwaitApplied errCh (pa_resultCh req))
  end.

(** What [Apply] sends on [applyChan], and what it does with the answer
    ([None] when the node stops first). *)
Definition applyRequest (clientID : string) (seqNum : Z) (command : bytes) (resultCh : chan)
    : pendingApply :=
  {| pa_args := {| aa_ClientID := clientID; aa_SeqNum := seqNum; aa_Command := command |};
     pa_resultCh := resultCh |}.

Definition Apply (start now : Z) (answer : option ApplyResponse)
    : Handler SM ST (option ApplyResponse) :=
  match answer with
  | Some resp =>
      (if ar_Success resp
       then modify (fun n => n <| metrics := recordApply (Since now start) (metrics n) |>)
       else skip) ;;
      mret (Some resp)
  | None => mret None
  end.

Definition HandleApply (start now : Z) (answer : option ApplyResponse)
    : Handler SM ST ApplyResponse :=
  resp ← Apply start now answer;
  leader ← gets (fun n => getCurrentLeader (state n));
  mret (match resp with Some resp => resp | None => mkApplyResponse false leader end).

(** What [membershipChange] sends on [confChan] for [AddServer] and [RemoveServer]. *)
Definition membershipChange (change : ConfigChange) (applied result : chan) : configEntry :=
  {| msg := change; chanApplied := applied; resultCh := result |}.

Definition AddServer (server : ServerID) : chan -> chan -> configEntry :=
  membershipChange (mkConfigChange true server).

Definition RemoveServer (server : ServerID) : chan -> chan -> configEntry :=
  membershipChange (mkConfigChange false server).

Definition HandleAddRemoveServer (args : AddRemoveServerArgs) : chan -> chan -> configEntry :=
  if ars_Add args then AddServer (ars_Server args) else RemoveServer (ars_Server args).

(** ** The role loops *)

(** What the select of a role loop receives: an inbound RPC, the signal that
    all peers are connected, a vote response, its timer (the election timer of
    a follower or candidate, the heartbeat of a leader) or the stop signal.
    All three loops listen to all of them. *)
Inductive event :=
| EvAppendEntries (args : AppendEntriesArgs)
| EvRequestVote (args : RequestVoteArgs)
| EvInstallSnapshot (args : InstallSnapshotArgs)
| EvVoteResponse (resp : RequestVoteResponse)
| EvConnected
| EvTimer
| EvStop.

(** The three RPC cases end alike: handle, persist, reply. *)
Definition serveAppendEntries (args : AppendEntriesArgs) : Handler SM ST unit :=
  me ← gets id;
  data ← gets gameState;
  resp ← call (handleAppendEntries data me args);
  persistState ;;
  emit (ReplyAppendEntries resp).

Definition serveRequestVote (args : RequestVoteArgs) : Handler SM ST unit :=
  me ← gets id;
  resp ← call (handleRequestToVote me args);
  persistState ;;
  emit (ReplyRequestVote resp).

Definition serveInstallSnapshot (args : InstallSnapshotArgs) : Handler SM ST unit :=
  me ← gets id;
  resp ← call (fun s => Some (handleInstallSnapshotRequest me args s));
  persistState ;;
  emit (ReplyInstallSnapshot resp).

Definition campaign : Handler SM ST unit :=
  me ← gets id;
  args ← call (fun s => args ← prepareRequestVoteRPC me s; Some (s, args));
  sendRequestVoteRPCs args.

(** The successive readings of [time.Now()] in one iteration are [clock 0],
    [clock 1] and [clock 2]. *)
Definition recordWin (clock : nat -> Z) (k : nat) : Handler SM ST unit :=
  modify (fun n => n <| metrics :=
    recordLeaderStart (clock (S k))
      (recordElection (Since (clock k) (electionStarted n)) (metrics n)) |>).

Definition beginElection (now : Z) : Handler SM ST unit :=
  me ← gets id;
  modify (fun n => n <| electionStarted := now |>) ;;
  update (startElection me) ;;
  persistState.

(** [rnd] is the random number behind a fresh election timeout. *)
Definition handleFollower (rnd : Z) (clock : nat -> Z) (ev : event) : Handler SM ST unit :=
  calls (checkElectionTimeout rnd) ;;
  match ev with
  | EvAppendEntries args => update stopElectionTimeout ;; serveAppendEntries args
  | EvRequestVote args => update stopElectionTimeout ;; serveRequestVote args
  | EvInstallSnapshot args => serveInstallSnapshot args
  | EvConnected => modify (fun n => n <| connected := true |>)
  | EvTimer =>
      update stopElectionTimeout ;;
      up ← gets connected;
      if negb up then skip
      else
        beginElection (clock 0%nat) ;;
        me ← gets id;
        ps ← gets peers;
        if bool_decide (ps = []) then
          calls (winElection me) ;; recordWin clock 1 ;; persistState
        else campaign
  | EvVoteResponse _ | EvStop => skip
  end.

Definition handleCandidate (rnd : Z) (clock : nat -> Z) (ev : event) : Handler SM ST unit :=
  calls (checkElectionTimeout rnd) ;;
  match ev with
  | EvAppendEntries args => serveAppendEntries args
  | EvRequestVote args => serveRequestVote args
  | EvInstallSnapshot args => serveInstallSnapshot args
  | EvVoteResponse resp =>
      won ← call (fun s => Some (updateElection resp s));
      if won : bool then
        me ← gets id;
        calls (winElection me) ;; recordWin clock 0 ;; persistState ;; sendAppendEntriesRPCs
      else skip
  | EvTimer => update stopElectionTimeout ;; beginElection (clock 0%nat) ;; campaign
  | EvConnected => modify (fun n => n <| connected := true |>)
  | EvStop => skip
  end.

Definition handleLeader (ev : event) : Handler SM ST unit :=
  match ev with
  | EvAppendEntries args => serveAppendEntries args ;; calls checkCommits
  | EvRequestVote args => serveRequestVote args ;; calls checkCommits
  | EvInstallSnapshot args => serveInstallSnapshot args ;; calls checkCommits
  | EvVoteResponse _ => calls checkCommits
  | EvConnected => modify (fun n => n <| connected := true |>) ;; calls checkCommits
  | EvTimer => sendAppendEntriesRPCs ;; calls checkCommits
  | EvStop => skip
  end.

(** One iteration of [run], after the check of [stopCh] at its top, which is a
    step of its own in Dispatch.v. *)
Definition run (rnd : Z) (clock : nat -> Z) (ev : event) : Handler SM ST unit :=
  checkLogsToApply ;;
  checkConfigurationsToStart ;;
  r ← gets (fun n => getRole (state n));
  match r with
  | Follower => handleFollower rnd clock ev
  | Candidate => handleCandidate rnd clock ev
  | Leader => handleLeader ev
  end.

(** ** The response goroutines *)

(** One message of [handleAppendEntriesRPCResponses]. *)
Definition appendEntriesResponse (resp : AppendEntriesResponse) : Handler SM ST unit :=
  r ← gets (fun n => getRole (state n));
  me ← gets id;
  if decide (r = Leader) then
    '(matchIdx, needSnapshot) ← call (fun s => Some (handleAppendEntriesResponse me resp s));
    (if needSnapshot : bool then sendInstallSnapshotRPC (aer_ID resp) else skip) ;;
    commit ← gets (fun n => getCommitIndex (state n));
    if (0 <=? matchIdx) && (commit <=? matchIdx) then promoteUnvotingServer (aer_ID resp) else skip
  else skip.

(** One message of [handleInstallSnapshotResponses]. *)
Definition installSnapshotResponse (resp : InstallSnapshotResponse) : Handler SM ST unit :=
  r ← gets (fun n => getRole (state n));
  me ← gets id;
  if decide (r = Leader) then
    matchIdx ← call (fun s => Some (handleInstallSnapshotResponse me resp s));
    commit ← gets (fun n => getCommitIndex (state n));
    if (0 <=? matchIdx) && (commit <=? matchIdx) then promoteUnvotingServer (isr_ID resp) else skip
  else skip.

(** [snapshotInstallChan] is made with room for one snapshot: a second send
    waits for [snapshotLoop]. *)
Definition snapshotInstallCap : nat := 1.

(** The install case of [snapshotLoop]: the oldest snapshot on the channel is
    restored; errors are logged only. *)
Definition snapshotLoopInstall : Handler SM ST unit := fun n =>
  match snapshotInstallChan (state n) with
  | [] => None
  | data :: rest =>
      Some (n <| state := state n <| snapshotInstallChan := rest |> |>
              <| sm := (sm_Restore data (sm n)).1 |>, [], tt)
  end.

(** ** Construction and start *)

Definition withDefaults (c : NodeConfig.Config) : NodeConfig.Config :=
  NodeConfig.mkConfig (NodeConfig.ID c) (NodeConfig.Peers c)
    (if NodeConfig.HeartbeatMs c =? 0 then 20 else NodeConfig.HeartbeatMs c)
    (if NodeConfig.ElectionMinMs c =? 0 then 150 else NodeConfig.ElectionMinMs c)
    (if NodeConfig.ElectionMaxMs c =? 0 then 300 else NodeConfig.ElectionMaxMs c).

Inductive newError := NilStateMachine | NilTransport | NilStorage.

(** The pluggable components may be nil. *)
Definition New (c : NodeConfig.Config) (machine : option SM) (tr : option Transport) (st : option ST)
    : RaftNode SM ST + newError :=
  let c := withDefaults c in
  match machine, tr, st with
  | None, _, _ => inr NilStateMachine
  | _, None, _ => inr NilTransport
  | _, _, None => inr NilStorage
  | Some machine, Some tr, Some st =>
      inl {| cfg := c; sm := machine; transport := tr; storage := st;
             state := newNodeState (NodeConfig.ID c) (NodeConfig.Peers c)
                        (NodeConfig.ElectionMinMs c) (NodeConfig.ElectionMaxMs c);
             connected := false; pendingCommands := ∅; pendingConfigApplied := ∅;
             lastPersistedSnapIdx := 0; metrics := newMetrics; electionStarted := 0 |}
  end.

(** The loop over the persisted log, from position [i]. *)
Fixpoint restoreLogs (i : nat) (ls : list RaftLog) (s : nodeState) : option nodeState :=
  match ls with
  | [] => Some s
  | rl :: ls' =>
      if (logArrayCapacity <=? i)%nat then Some s
      else
        l ← array_set (logs s) i rl;
        restoreLogs (S i) ls' (s <| logs := l |> <| nextLogIdx := S i |>)
  end.

Inductive startError := ErrLoadState | ErrLoadSnapshot | ErrRestore | ErrListen.

(** Restores the persistent state. *)
Definition restoreState (ps : option PersistentState) (s : nodeState) : option nodeState :=
  match ps with
  | Some ps =>
      if 0 <? CurrentTerm ps then
        restoreLogs 0 (Logs ps) (s <| currentTerm := CurrentTerm ps |> <| votedFor := VotedFor ps |>)
      else Some s
  | None => Some s
  end.

(** Restores the snapshot; [false] when the state machine rejects it. *)
Definition restoreSnapshot (snap : option Snapshot) n : RaftNode SM ST * bool :=
  match snap with
  | None => (n, true)
  | Some snap =>
      let n := n <| state := state n <| lastSnapshot := Some snap |>
                                     <| commitIndex := LastIncludedIndex snap |>
                                     <| lastApplied := LastIncludedIndex snap |> |> in
      let '(m, ok) := sm_Restore (SnapData snap) (sm n) in
      (n <| sm := m |>, ok)
  end.

(** The goroutines [Start] launches are the handlers above;
    [connectToPeers] ends in the event [EvConnected]. *)
Definition Start n : option (RaftNode SM ST * option startError) :=
  match LoadState (storage n) with
  | None => Some (n, Some ErrLoadState)
  | Some ps =>
      s ← restoreState ps (state n);
      let n := n <| state := s |> in
      match LoadSnapshot (storage n) with
      | None => Some (n, Some ErrLoadSnapshot)
      | Some snap =>
          let '(n, ok) := restoreSnapshot snap n in
          if negb ok then Some (n, Some ErrRestore)
          else if negb (tr_Listen (transport n) (id n)) then Some (n, Some ErrListen)
          else Some (if bool_decide (peers n = []) then n <| connected := true |> else n, None)
      end
  end.
End node.
