(* ===== verification/Servers.v ===== *)
(** * Servers: concrete nodes with everything attached

    A small state machine, the in-memory storage and a transport that listens,
    and three nodes built from them with [New] and [Start]. *)
From S2P Require Import Prelude GoFloat Metrics Types State Storage SnapshotOps ConfigChange Log Node.

(** ** A state machine *)

(** The last command. *)
Definition Register := list byte.

#[export] Instance register : StateMachine Register := {
  sm_Apply := fun data _ => Some (data, true);
  sm_Snapshot := fun s => Some s;
  sm_Restore := fun data _ => (data, true);
}.

#[export] Instance register_laws : StateMachineLaws Register.
Proof. split. intros s s' data E. simpl in *. by simplify_eq. Qed.

#[local] Existing Instance amd64.

(** ** Three servers *)

Definition trio : list ServerID := ["n1"; "n2"; "n3"].

Definition trio_config (i : ServerID) : NodeConfig.Config :=
  NodeConfig.DefaultConfig i (filter (fun p => p <> i) trio).

Definition listening : Transport := mkTransport (fun _ => true).

(** Server [i], new and started. *)
Definition new_node (i : ServerID) : RaftNode Register MemoryStorage.t :=
  match New (trio_config i) (Some ([] : Register)) (Some listening) (Some MemoryStorage.NewMemoryStorage) with
  | inl n => n
  | inr _ => mkRaftNode _ _ (trio_config i) [] listening MemoryStorage.NewMemoryStorage
               (newNodeState i [] 0 0) false ∅ ∅ 0 newMetrics 0
  end.

Definition started (i : ServerID) : RaftNode Register MemoryStorage.t :=
  match Start (new_node i) with Some (n, _) => n | None => new_node i end.
