(* ===== verification/SnapshotLoop.v ===== *)
(** * SnapshotLoop: the round trip of takeSnapshot (src/raft/snapshot.go, lines
      18-21 and 201-224)

    [takeSnapshot] runs with the state's lock held. It sends on
    [snapshotRequestChan] and waits on [snapshotResponseChan]; [snapshotLoop]
    receives the one, asks the state machine, and sends on the other. The
    handlers of the other files take what comes back as an argument, the
    [gameState] of the moment. Here are the steps of the two goroutines: as long
    as the loop lives the round trip comes to its end, with that answer; once
    the loop has returned, the caller and the lock it holds wait for ever. *)
From S2P Require Import Prelude GoFloat Metrics Types State Storage SnapshotOps ConfigChange Log Election Node Servers.

Section round_trip.
Context {SM : Type} `{StateMachine SM}.
Implicit Types m : SM.

(** ** The goroutines *)

(** The caller: before its send, between its send and its receive, and after. *)
Inductive taker := Asking | Waiting | Answered (gameState : bytes).

(** The loop: in its select, at the send of a response, and returned. *)
Inductive snapshot_loop := Select | Sending (data : bytes) | Returned.

(** The three channels are made with room for one value each. *)
Definition snapshotChanCap : nat := 1.

Record exchange := mkExchange {
  ex_taker : taker;
  ex_loop : snapshot_loop;
  ex_requests : nat;           (* snapshotRequestChan *)
  ex_responses : list bytes;   (* snapshotResponseChan *)
  ex_installs : list bytes;    (* snapshotInstallChan *)
  ex_machine : SM;
  ex_stopCh : bool;            (* closed *)
}.

(** What the loop sends back: nil on an error. *)
Definition game m : bytes := default [] (sm_Snapshot m).

Inductive xstep (x : exchange) : exchange -> Prop :=
| x_ask :
    ex_taker x = Asking -> (ex_requests x < snapshotChanCap)%nat ->
    xstep x (mkExchange Waiting (ex_loop x) (S (ex_requests x)) (ex_responses x) (ex_installs x)
               (ex_machine x) (ex_stopCh x))
| x_request k :
    ex_loop x = Select -> ex_requests x = S k ->
    xstep x (mkExchange (ex_taker x) (Sending (game (ex_machine x))) k (ex_responses x) (ex_installs x)
               (ex_machine x) (ex_stopCh x))
| x_respond data :
    ex_loop x = Sending data -> (length (ex_responses x) < snapshotChanCap)%nat ->
    xstep x (mkExchange (ex_taker x) Select (ex_requests x) (ex_responses x ++ [data]) (ex_installs x)
               (ex_machine x) (ex_stopCh x))
| x_receive data rest :
    ex_taker x = Waiting -> ex_responses x = data :: rest ->
    xstep x (mkExchange (Answered data) (ex_loop x) (ex_requests x) rest (ex_installs x)
               (ex_machine x) (ex_stopCh x))
| x_install data rest :
    ex_loop x = Select -> ex_installs x = data :: rest ->
    xstep x (mkExchange (ex_taker x) (ex_loop x) (ex_requests x) (ex_responses x) rest
               (sm_Restore data (ex_machine x)).1 (ex_stopCh x))
(** The main loop applies a command, which it does without the state's lock. *)
| x_apply data m ok :
    sm_Apply data (ex_machine x) = Some (m, ok) ->
    xstep x (mkExchange (ex_taker x) (ex_loop x) (ex_requests x) (ex_responses x) (ex_installs x) m (ex_stopCh x))
| x_stop :
    xstep x (mkExchange (ex_taker x) (ex_loop x) (ex_requests x) (ex_responses x) (ex_installs x)
               (ex_machine x) true)
| x_return :
    ex_loop x = Select -> ex_stopCh x = true ->
    xstep x (mkExchange (ex_taker x) Returned (ex_requests x) (ex_responses x) (ex_installs x)
               (ex_machine x) (ex_stopCh x)).

(** [takeSnapshot] begins: nothing of an earlier round trip is left. *)
Definition taking l (installs : list bytes) m stopped : exchange :=
  mkExchange Asking l 0 [] installs m stopped.

(** ** The invariant *)

(** Where the one request is: not sent, on its channel, being answered, on its
    way back, or delivered. [P] holds of every state the machine has been in. *)
Definition on_its_way (P : SM -> Prop) (x : exchange) : Prop :=
  P (ex_machine x) /\
  match ex_taker x, ex_loop x, ex_requests x, ex_responses x with
  | Asking, (Select | Returned), O, []
  | Waiting, (Select | Returned), 1%nat, [] => True
  | Waiting, Sending data, O, []
  | Waiting, (Select | Returned), O, [data]
  | Answered data, (Select | Returned), O, [] => exists m, P m /\ data = game m
  | _, _, _, _ => False
  end.

(** The machine is left alone. *)
Definition still_step (x x' : exchange) : Prop := xstep x x' /\ ex_machine x' = ex_machine x.

Lemma xstep_way P x x' :
  on_its_way P x -> xstep x x' -> P (ex_machine x') -> on_its_way P x'.
Proof.
  intros [HP Hw] Hs HP'. split; [done |]. destruct x as [t l q r i m s]. cbn in *.
  destruct Hs as [Ht Hq | k Hl Hq | data Hl Hr | data rest Ht Hr | data rest Hl Hi | data m' ok E | | Hl Hst];
    cbn in *; subst; try (destruct t, l, q as [|[]], r as [|? []]; done).
  - destruct l, q as [|[]], r as [|? []]; done.
  - destruct t, k, r as [|? []]; try done; by eexists.
  - destruct t, q as [|[]], r as [|? []]; done.
  - destruct l, q as [|[]], rest; done.
  - destruct t, q as [|[]], r as [|? []]; done.
  - destruct t, q as [|[]], r as [|? []]; done.
Qed.

Lemma still_runs_way P x x' : on_its_way P x -> rtc still_step x x' -> on_its_way P x'.
Proof.
  intros Hx Hr. induction Hr as [|x1 x2 x3 [Hs Em] _ IH]; [done |]. apply IH.
  apply (xstep_way P x1); [done | done |]. rewrite Em. apply Hx.
Qed.

Lemma runs_way x x' : on_its_way (fun _ => True) x -> rtc xstep x x' -> on_its_way (fun _ => True) x'.
Proof. intros Hx Hr. induction Hr as [|x1 x2 x3 Hs _ IH]; [done |]. apply IH. by apply (xstep_way _ x1). Qed.

(** ** The contract *)

(** The round trip ends. Whatever the goroutines have done since [takeSnapshot]
    began, as long as [snapshotLoop] has not returned, the answer can still be
    delivered by steps that leave the state machine alone. *)
Theorem round_trip_completes installs m stopped x :
  rtc xstep (taking Select installs m stopped) x -> ex_loop x <> Returned ->
  exists x' data, rtc still_step x x' /\ ex_taker x' = Answered data.
Proof.
  intros Hr Hl. assert (on_its_way (fun _ => True) x) as [_ Hw].
  { by apply (runs_way (taking Select installs m stopped)). }
  destruct x as [t l q r i m' s]. cbn in *.
  assert (forall d, exists x' data, rtc still_step (mkExchange Waiting Select 0 [d] i m' s) x' /\ ex_taker x' = Answered data)
    as Hback.
  { intros d. exists (mkExchange (Answered d) Select 0 [] i m' s), d. split; [| done]. apply rtc_once. split; [by apply (x_receive (mkExchange Waiting Select 0 [d] i m' s) d []) | done]. }
  assert (forall d, exists x' data, rtc still_step (mkExchange Waiting (Sending d) 0 [] i m' s) x' /\ ex_taker x' = Answered data)
    as Hsend.
  { intros d. destruct (Hback d) as (x' & data & Hx & Ht). exists x', data. split; [| done].
    eapply rtc_l; [| exact Hx]. split; [apply (x_respond (mkExchange Waiting (Sending d) 0 [] i m' s) d); [done | simpl; unfold snapshotChanCap; lia] | done]. }
  assert (exists x' data, rtc still_step (mkExchange Waiting Select 1 [] i m' s) x' /\ ex_taker x' = Answered data)
    as Hask.
  { destruct (Hsend (game m')) as (x' & data & Hx & Ht). exists x', data. split; [| done].
    eapply rtc_l; [| exact Hx]. split; [by apply (x_request (mkExchange Waiting Select 1 [] i m' s) 0) | done]. }
  destruct t as [| |data]; [| | by eexists _, data; split; [apply rtc_refl |]].
  - destruct l, q as [|[]], r as [|? []]; try done.
    destruct Hask as (x' & data & Hx & Ht). exists x', data. split; [| done].
    eapply rtc_l; [| exact Hx]. split; [apply (x_ask (mkExchange Asking Select 0 [] i m' s)); [done | simpl; unfold snapshotChanCap; lia] | done].
  - destruct l, q as [|[]], r as [|? []]; done.
Qed.

(** What is delivered is the snapshot of the state machine, if the state machine
    is left alone meanwhile: the [gameState] of the handlers. *)
Theorem round_trip_answer installs m stopped x data :
  rtc still_step (taking Select installs m stopped) x -> ex_taker x = Answered data -> data = game m.
Proof.
  intros Hr Ht. assert (on_its_way (fun m' => m' = m) x) as [_ Hw].
  { by apply (still_runs_way _ (taking Select installs m stopped)). }
  rewrite Ht in Hw. destruct (ex_loop x), (ex_requests x), (ex_responses x); try done; by destruct Hw as (? & -> & ->).
Qed.

(** After [Stop] there is no such promise: [snapshotLoop] may return first, and
    then nothing ever delivers an answer. *)
Theorem round_trip_stranded installs m x :
  rtc xstep (taking Returned installs m true) x -> forall data, ex_taker x <> Answered data.
Proof.
  intros Hr.
  enough (ex_loop x = Returned /\ ex_responses x = [] /\ forall data, ex_taker x <> Answered data) as (_ & _ & Ht) by done.
  assert (ex_loop (taking Returned installs m true) = Returned /\ ex_responses (taking Returned installs m true) = [] /\
    forall data, ex_taker (taking Returned installs m true) <> Answered data) as H0 by done.
  induction Hr as [|x1 x2 x3 Hs _ IH]; [done |]. apply IH. destruct H0 as (Hl & Hresp & Ht).
  destruct Hs; cbn; try (by (split; [| split])); congruence.
Qed.

(** The loop that has nothing to do may return as soon as [stopCh] is closed. *)
Lemma loop_returns installs m :
  xstep (taking Select installs m true) (taking Returned installs m true).
Proof. by apply (x_return (taking Select installs m true)). Qed.
End round_trip.

(** The answer is what the handlers are given. *)
Lemma game_gameState {SM ST} `{StateMachine SM} (n : RaftNode SM ST) : gameState n = game (sm n).
Proof. done. Qed.

(** ** An instance *)

(** The register is snapshotted while a snapshot waits to be installed. *)
Example round_trip_register :
  exists x, rtc still_step (taking Select [[Byte.x00]] ([Byte.x61] : Register) false) x /\
    ex_taker x = Answered [Byte.x61].
Proof.
  destruct (round_trip_completes [[Byte.x00]] ([Byte.x61] : Register) false
    (taking Select [[Byte.x00]] ([Byte.x61] : Register) false)) as (x & data & Hr & Ht); [apply rtc_refl | done |].
  exists x. split; [done |]. rewrite Ht. f_equal. by rewrite (round_trip_answer _ _ _ _ _ Hr Ht).
Qed.
