(* ===== verification/Handlers.v ===== *)
(** * Handlers: a program logic for the goroutines, and the handlers that are no
    part of an election

    [runs_to m n Q] is total correctness of a handler: it does not panic, and
    [Q] holds of the node, the effects and the result. [calm] says what a
    handler outside elections does; it composes, so that each handler's lemma
    follows from those of the calls it makes. *)
From S2P Require Import Prelude GoFloat Metrics Types State Storage SnapshotOps.
From S2P Require Import ConfigChange Log Election ElectionTheorems Control Node.

Section logic.
Context {SM ST : Type}.
Implicit Types n : RaftNode SM ST.

Definition runs_to {A} (m : Handler SM ST A) n
    (Q : RaftNode SM ST -> list effect -> A -> Prop) : Prop :=
  exists n' out a, m n = Some (n', out, a) /\ Q n' out a.

Lemma runs_to_mono {A} (m : Handler SM ST A) n (Q Q' : _ -> _ -> _ -> Prop) :
  runs_to m n Q -> (forall n' out a, Q n' out a -> Q' n' out a) -> runs_to m n Q'.
Proof. intros (n' & out & a & E & HQ) Himp. exists n', out, a. auto. Qed.

Lemma runs_to_bind {A B} (m : Handler SM ST A) (k : A -> Handler SM ST B) n Q :
  runs_to m n (fun n1 out1 a => runs_to (k a) n1 (fun n2 out2 b => Q n2 (out1 ++ out2) b)) ->
  runs_to (m ≫= k) n Q.
Proof.
  intros (n1 & out1 & a & E & n2 & out2 & b & E2 & HQ).
  exists n2, (out1 ++ out2), b. split; [| done].
  unfold mbind, handler_bind. rewrite E. cbn. by rewrite E2.
Qed.

Lemma runs_to_ret {A} (x : A) n Q : Q n [] x -> runs_to (mret x) n Q.
Proof. intros. by exists n, [], x. Qed.
Lemma runs_to_skip n Q : Q n [] tt -> runs_to skip n Q.
Proof. intros. by exists n, [], tt. Qed.
Lemma runs_to_emit e n Q : Q n [e] tt -> runs_to (emit e) n Q.
Proof. intros. by exists n, [e], tt. Qed.
Lemma runs_to_gets {A} (f : _ -> A) n Q : Q n [] (f n) -> runs_to (gets f) n Q.
Proof. intros. by exists n, [], (f n). Qed.
Lemma runs_to_modify f n Q : Q (f n) [] tt -> runs_to (modify f) n Q.
Proof. intros. by exists (f n), [], tt. Qed.
Lemma runs_to_call {A} (f : nodeState -> option (nodeState * A)) n s a Q :
  f (state n) = Some (s, a) -> Q (n <| state := s |>) [] a -> runs_to (call f) n Q.
Proof. intros E HQ. exists (n <| state := s |>), [], a. unfold call. by rewrite E. Qed.
Lemma runs_to_calls f n s Q :
  f (state n) = Some s -> Q (n <| state := s |>) [] tt -> runs_to (calls f) n Q.
Proof. intros E HQ. exists (n <| state := s |>), [], tt. unfold calls. by rewrite E. Qed.

Lemma bind_inv {A B} (m : Handler SM ST A) (k : A -> Handler SM ST B) n n' out b :
  (m ≫= k) n = Some (n', out, b) ->
  exists n1 o1 a o2, m n = Some (n1, o1, a) /\ k a n1 = Some (n', o2, b) /\ out = o1 ++ o2.
Proof.
  unfold mbind, handler_bind. destruct (m n) as [[[n1 o1] a]|]; [cbn | done].
  destruct (k a n1) as [[[n2 o2] b2]|] eqn:E; [cbn | done]. intros. simplify_eq.
  by exists n1, o1, a, o2.
Qed.

(** A panic anywhere is a panic of the whole. *)
Lemma bind_panics {A B} (m : Handler SM ST A) (k : A -> Handler SM ST B) n n1 o1 a :
  m n = Some (n1, o1, a) -> k a n1 = None -> (m ≫= k) n = None.
Proof. unfold mbind, handler_bind. intros -> E. cbn. by rewrite E. Qed.

Lemma runs_to_and {A} (m : Handler SM ST A) n (Q Q' : _ -> _ -> _ -> Prop) :
  runs_to m n Q -> runs_to m n Q' -> runs_to m n (fun n' out a => Q n' out a /\ Q' n' out a).
Proof.
  intros (n1 & o1 & a1 & E & HQ) (n2 & o2 & a2 & E2 & HQ'). rewrite E in E2. simplify_eq.
  by exists n2, o2, a2.
Qed.

Lemma runs_to_det {A} (m : Handler SM ST A) n n' out a Q :
  runs_to m n Q -> m n = Some (n', out, a) -> Q n' out a.
Proof. intros (n1 & o1 & a1 & E & HQ) E'. rewrite E' in E. by simplify_eq. Qed.
End logic.

(** [go_read] runs the reading prefix of a handler. *)
Ltac go_read := repeat (apply runs_to_bind, runs_to_gets; cbv beta).

(** ** What the network sees of the effects *)

Definition sent (out : list effect) : list (ServerID * RequestVoteArgs) :=
  omap (fun e => match e with SendRequestVote p a => Some (p, a) | _ => None end) out.

Definition replied (out : list effect) : list RequestVoteResponse :=
  omap (fun e => match e with ReplyRequestVote r => Some r | _ => None end) out.

Lemma sent_app a b : sent (a ++ b) = sent a ++ sent b.
Proof. apply omap_app. Qed.
Lemma replied_app a b : replied (a ++ b) = replied a ++ replied b.
Proof. apply omap_app. Qed.

(** ** Calm handlers *)

Section calm.
Context {SM ST : Type} `{StateMachine SM, Storage ST, GoPlatform}.
Implicit Types n : RaftNode SM ST.

(** No membership change is queued, joining or in the log: the configuration
    and its predecessor are [C]. *)
Definition frozen (C : gmap ServerID bool) n : Prop :=
  static C (control (state n)) /\ configQueue (state n) = [] /\ unvotingServers (state n) = ∅.

(** [V T c]: the node has voted for [c] in term [T]. A term and a vote agree
    with it when no vote is later and the vote of that term is the one kept. *)
Definition vote_ok (V : Z -> ServerID -> Prop) (term : Z) (vote : ServerID) : Prop :=
  forall T c, V T c -> T <= term /\ (T = term -> vote = c).

Definition live_ok V n : Prop := vote_ok V (currentTerm (state n)) (votedFor (state n)).

(** The same of what a restart would load. *)
Definition stored_ok (V : Z -> ServerID -> Prop) n : Prop :=
  match LoadState (storage n) with
  | Some (Some ps) => vote_ok V (CurrentTerm ps) (VotedFor ps)
  | _ => forall T c, ~ V T c
  end.

(** The storage meets its contract and its saves succeed. *)
Definition reliable : Prop := StorageLaws ST /\ forall ps (st : ST), (SaveState ps st).2 = true.

(** [fz]: the handler brings no configuration entry. *)
Record calm (fz : Prop) n n' (out : list effect) : Prop := {
  calm_cfg : cfg n' = cfg n;
  calm_inv : state_inv (state n');
  calm_quiet : quiet (control (state n)) (control (state n'));
  calm_frozen : fz -> forall C, frozen C n -> frozen C n';
  calm_votes : reliable -> forall V, live_ok V n -> stored_ok V n -> live_ok V n' /\ stored_ok V n';
  calm_sent : sent out = [];
  calm_replied : replied out = [];
}.

(** A vote agrees with more terms and fewer votes: quiet changes keep it. *)
Lemma quiet_vote_ok V c c' :
  quiet c c' -> vote_ok V (c_term c) (c_vote c) -> vote_ok V (c_term c') (c_vote c').
Proof.
  intros [[(Et & Ev & _)|[Hlt _]] _] Hok T x HV; [by rewrite Et, Ev; apply Hok |].
  destruct (Hok T x HV) as [? _]. split; lia.
Qed.

Lemma calm_refl fz n : state_inv (state n) -> calm fz n n [].
Proof. intros. by split. Qed.

Lemma calm_trans fz n1 n2 n3 o1 o2 :
  calm fz n1 n2 o1 -> calm fz n2 n3 o2 -> calm fz n1 n3 (o1 ++ o2).
Proof.
  intros [A1 A2 A3 A4 A5 A6 A7] [B1 B2 B3 B4 B5 B6 B7].
  split; [by rewrite B1 | done | by etrans | auto | | |].
  - intros Hr V Hl Hs. destruct (A5 Hr V Hl Hs). by apply B5.
  - by rewrite sent_app, A6, B6.
  - by rewrite replied_app, A7, B7.
Qed.

(** A change of the state only. *)
Lemma calm_state (fz : Prop) n s :
  state_inv s -> quiet (control (state n)) (control s) ->
  (fz -> forall C, frozen C n -> frozen C (n <| state := s |>)) ->
  calm fz n (n <| state := s |>) [].
Proof.
  intros Hs Hq Hf. split; [done | done | done | done | | done | done].
  intros _ V Hl Hst. split; [| done]. by apply (quiet_vote_ok V _ _ Hq).
Qed.

Lemma calm_neutral fz n s :
  state_inv (state n) -> array_ok s -> control s = control (state n) ->
  calm fz n (n <| state := s |>) [].
Proof.
  intros Hn Ha Ec. apply calm_state.
  - by apply (state_inv_same (state n)).
  - by rewrite Ec.
  - intros _ C. unfold frozen. fields. pose proof (f_equal c_queue Ec) as E. simpl in E.
    injection E as _ E1 E2. by rewrite Ec, E1, E2.
Qed.

(** A change of the fields elections do not read. *)
Lemma calm_other fz n n' out :
  state_inv (state n) -> cfg n' = cfg n -> state n' = state n -> storage n' = storage n ->
  sent out = [] -> replied out = [] -> calm fz n n' out.
Proof.
  intros Hn Ec Es Est Hs Hr.
  split; [done | by rewrite Es | by rewrite Es | | | done | done].
  - intros _ C. unfold frozen. by rewrite Es.
  - intros _ V. unfold live_ok, stored_ok. by rewrite Es, Est.
Qed.

(** The rules for sequences of calm handlers. *)
Definition calm_run {A} (fz : Prop) (m : Handler SM ST A) n : Prop :=
  runs_to m n (fun n' out _ => calm fz n n' out).

Lemma calm_det {A} fz (m : Handler SM ST A) n n' out a :
  calm_run fz m n -> m n = Some (n', out, a) -> calm fz n n' out.
Proof. intros Hm E. exact (runs_to_det _ _ _ _ _ _ Hm E). Qed.

Lemma calm_bind {A B} fz (m : Handler SM ST A) (k : A -> Handler SM ST B) n Q :
  runs_to m n (fun n1 out1 a => calm fz n n1 out1 /\ Q n1 a) ->
  (forall n1 a, state_inv (state n1) -> Q n1 a -> calm_run fz (k a) n1) ->
  calm_run fz (m ≫= k) n.
Proof.
  intros Hm Hk. apply runs_to_bind. eapply runs_to_mono; [exact Hm |].
  intros n1 o1 a [Hc HQ]. eapply runs_to_mono; [by apply Hk; [apply (calm_inv _ _ _ _ Hc) |] |].
  intros n2 o2 b Hc2. by eapply calm_trans.
Qed.

Lemma calm_seq {A B} fz (m : Handler SM ST A) (k : A -> Handler SM ST B) n :
  calm_run fz m n -> (forall n1 a, state_inv (state n1) -> calm_run fz (k a) n1) ->
  calm_run fz (m ≫= k) n.
Proof.
  intros Hm Hk. apply (calm_bind _ _ _ _ (fun _ _ => True)); [| auto].
  eapply runs_to_mono; [exact Hm | auto].
Qed.

Lemma calm_gets {A B} fz (f : _ -> A) (k : A -> Handler SM ST B) n :
  calm_run fz (k (f n)) n -> calm_run fz (gets f ≫= k) n.
Proof. intros Hk. apply runs_to_bind, runs_to_gets. exact Hk. Qed.

Lemma calm_skip fz n : state_inv (state n) -> calm_run fz skip n.
Proof. intros. by apply runs_to_skip, calm_refl. Qed.

Lemma calm_emit fz e n :
  state_inv (state n) -> sent [e] = [] -> replied [e] = [] -> calm_run fz (emit e) n.
Proof. intros. by apply runs_to_emit, calm_other. Qed.

Lemma calm_modify fz f n :
  state_inv (state n) -> cfg (f n) = cfg n -> state (f n) = state n -> storage (f n) = storage n ->
  calm_run fz (modify f) n.
Proof. intros. by apply runs_to_modify, calm_other. Qed.

Lemma calm_update fz f n :
  state_inv (state n) -> array_ok (f (state n)) -> control (f (state n)) = control (state n) ->
  calm_run fz (update f) n.
Proof. intros. by apply runs_to_modify, calm_neutral. Qed.

Lemma calm_call {A} fz (f : nodeState -> option (nodeState * A)) n :
  state_inv (state n) -> neutral (state n) (f (state n)) -> calm_run fz (call f) n.
Proof.
  intros Hn (s & a & E & Ha & Ec). eapply runs_to_call; [exact E |]. by apply calm_neutral.
Qed.

Lemma calm_each {A} fz (f : A -> Handler SM ST unit) l n :
  (forall x n, state_inv (state n) -> calm_run fz (f x) n) ->
  state_inv (state n) -> calm_run fz (each f l) n.
Proof.
  intros Hf. revert n. induction l as [|x l IH]; intros n Hn; simpl; [by apply calm_skip |].
  apply calm_seq; [by apply Hf | intros; by apply IH].
Qed.
End calm.

(** ** The calm handlers *)

Section handlers.
Context {SM ST : Type} `{StateMachine SM, Storage ST, GoPlatform}.
Implicit Types n : RaftNode SM ST.

(** What the storage would give a restart is the node's persistent state. *)
Definition durable n : Prop := LoadState (storage n) = Some (getPersistentState (state n)).

(** What a restart would find of a state saved now. *)
Definition persistent (s : nodeState) : PersistentState :=
  mkPersistentState (currentTerm s) (votedFor s) (live s).

Lemma getPersistentState_ok s :
  array_ok s -> getPersistentState s = Some (persistent s).
Proof. intros [Hl _ Hn]. unfold getPersistentState. by rewrite (proj2 (Nat.leb_le _ _)) by lia. Qed.

Lemma durable_stored V n : array_ok (state n) -> durable n -> live_ok V n -> stored_ok V n.
Proof. intros Ha Hd Hl. unfold stored_ok. rewrite Hd, getPersistentState_ok by done. exact Hl. Qed.

(** The saves [persistState] makes. *)
Definition saving n : list effect :=
  StateSaved (persistent (state n)) ::
  match getLastSnapshot (state n) with
  | Some snap => if lastPersistedSnapIdx n <? LastIncludedIndex snap then [SnapshotSaved snap] else []
  | None => []
  end.

Lemma saving_quiet n : sent (saving n) = [] /\ replied (saving n) = [].
Proof. unfold saving. destruct (getLastSnapshot _); [case_match |]; done. Qed.

Lemma saving_cong n n' :
  state n' = state n -> lastPersistedSnapIdx n' = lastPersistedSnapIdx n -> saving n' = saving n.
Proof. unfold saving. by intros -> ->. Qed.

(** The saves of a [persistState] for the term, vote, log and snapshot of [n]. *)
Definition saves_of n (out : list effect) : Prop :=
  exists n0, persistent (state n0) = persistent (state n) /\
    getLastSnapshot (state n0) = getLastSnapshot (state n) /\ out = saving n0.

Lemma saves_of_intro n n0 : state n0 = state n -> saves_of n (saving n0).
Proof. intros E. exists n0. by rewrite E. Qed.

Lemma saves_of_quiet n out : saves_of n out -> sent out = [] /\ replied out = [].
Proof. intros (n0 & _ & _ & ->). apply saving_quiet. Qed.

Lemma saveNewSnapshot_run n :
  runs_to saveNewSnapshot n (fun n' out _ =>
    StateSaved (persistent (state n)) :: out = saving n /\
    n' = n <| storage := storage n' |> <| lastPersistedSnapIdx := lastPersistedSnapIdx n' |> /\
    (StorageLaws ST -> LoadState (storage n') = LoadState (storage n))).
Proof.
  unfold runs_to, saveNewSnapshot, saving.
  destruct (getLastSnapshot (state n)) as [snap|]; [| do 3 eexists; by destruct n].
  case_match; [| do 3 eexists; by destruct n].
  destruct (SaveSnapshot snap (storage n)) as [st ok] eqn:E. do 3 eexists. split; [done |].
  split; [done |]. split; [by destruct ok, n |]. intros Hl.
  destruct ok; cbn; by eapply snapshot_keeps_state.
Qed.

Lemma persistState_run n :
  array_ok (state n) ->
  runs_to persistState n (fun n' out _ =>
    out = saving n /\ n' = n <| storage := storage n' |> <| lastPersistedSnapIdx := lastPersistedSnapIdx n' |> /\
    (reliable (ST := ST) -> durable n')).
Proof.
  intros Ha. unfold persistState. apply runs_to_bind.
  exists n, [], (persistent (state n)). unfold readPersistent. rewrite getPersistentState_ok by done.
  split; [done |]. unfold savePersistent. apply runs_to_bind, runs_to_modify, runs_to_bind, runs_to_emit.
  eapply runs_to_mono; [apply saveNewSnapshot_run |]. intros n' out _ (Eo & En & Hl). cbn [app].
  split; [exact Eo |]. split; [rewrite En; by destruct n |].
  intros [Hlaws Hsave]. unfold durable. rewrite (Hl Hlaws), En. fields.
  rewrite getPersistentState_ok by done.
  eapply load_saved_state. rewrite <- (Hsave (persistent (state n)) (storage n)). apply surjective_pairing.
Qed.

Lemma persistState_calm fz n : state_inv (state n) -> calm_run fz persistState n.
Proof.
  intros Hn. eapply runs_to_mono; [apply persistState_run; eauto with raft |].
  intros n' out _ (-> & En & Hd). destruct (saving_quiet n) as [Hs1 Hs2].
  assert (cfg n' = cfg n /\ state n' = state n) as [Ec Es] by (rewrite En; done).
  split; [done | by rewrite Es | by rewrite Es | | | done | done].
  - intros _ C. unfold frozen. by rewrite Es.
  - intros Hr V Hl _. assert (live_ok V n') by (unfold live_ok; by rewrite Es).
    split; [done |]. apply durable_stored; [rewrite Es; eauto with raft | auto | done].
Qed.

Lemma sendInstallSnapshotRPC_calm fz p n :
  state_inv (state n) -> calm_run fz (sendInstallSnapshotRPC p) n.
Proof.
  intros Hn. unfold calm_run, runs_to, sendInstallSnapshotRPC, getLastSnapshot, prepareInstallSnapshotRPC.
  destruct (lastSnapshot (state n)); simpl; do 3 eexists; (split; [done |]); by apply calm_other.
Qed.

Lemma sendOne_calm fz p n : state_inv (state n) -> calm_run fz (sendOne p) n.
Proof.
  intros Hn. apply calm_seq.
  - apply calm_call; [done |]. apply getAppendEntriesArgs_neutral. eauto with raft.
  - intros n1 [args|] Hn1; [by apply calm_emit | by apply sendInstallSnapshotRPC_calm].
Qed.

Lemma sendAppendEntriesRPCs_calm fz n : state_inv (state n) -> calm_run fz sendAppendEntriesRPCs n.
Proof.
  intros Hn. apply calm_gets, calm_seq.
  - apply calm_each; [intros; by apply sendOne_calm | done].
  - intros n1 _ Hn1. apply calm_gets, calm_each; [intros; by apply sendOne_calm | done].
Qed.

(** Sending changes the replication cursors only. *)
Definition still {A} (m : Handler SM ST A) n : Prop :=
  runs_to m n (fun n' _ _ => control (state n') = control (state n)).

Lemma still_each {A} (f : A -> Handler SM ST unit) l n :
  (forall x n, array_ok (state n) ->
     runs_to (f x) n (fun n' _ _ => array_ok (state n') /\ control (state n') = control (state n))) ->
  array_ok (state n) ->
  runs_to (each f l) n (fun n' _ _ => array_ok (state n') /\ control (state n') = control (state n)).
Proof.
  intros Hf. revert n. induction l as [|x l IH]; intros n Hn; simpl; [by apply runs_to_skip |].
  apply runs_to_bind. eapply runs_to_mono; [by apply Hf |]. intros n1 o1 [] [Ha Ec].
  eapply runs_to_mono; [by apply IH |]. intros n2 o2 [] [Ha2 Ec2]. by rewrite Ec2.
Qed.

Lemma sendOne_still p n :
  array_ok (state n) ->
  runs_to (sendOne p) n (fun n' _ _ => array_ok (state n') /\ control (state n') = control (state n)).
Proof.
  intros Ha. destruct (getAppendEntriesArgs_neutral p _ Ha) as (s & r & E & Hs & Ec).
  apply runs_to_bind. eapply runs_to_call; [exact E |].
  destruct r as [args|]; [by apply runs_to_emit |].
  unfold runs_to, sendInstallSnapshotRPC, getLastSnapshot, prepareInstallSnapshotRPC.
  change (state (n <| state := s |>)) with s. destruct (lastSnapshot s); by do 3 eexists.
Qed.

Lemma sendAppendEntriesRPCs_still n : array_ok (state n) -> still sendAppendEntriesRPCs n.
Proof.
  intros Ha. unfold still. apply runs_to_bind, runs_to_gets, runs_to_bind.
  eapply runs_to_mono; [apply still_each; [apply sendOne_still | done] |].
  intros n1 o1 [] [Ha1 Ec1]. apply runs_to_bind, runs_to_gets.
  eapply runs_to_mono; [apply still_each; [apply sendOne_still | done] |].
  intros n2 o2 [] [_ Ec2]. by rewrite Ec2.
Qed.

(** What an entry does to the state machine; [None] when [Apply] panics. *)
Definition apply_sm (e : RaftLog) (m : SM) : option SM :=
  if decide (Type_ e = LogCommand) then fst <$> sm_Apply (Data e) m else Some m.

Lemma applyData_run data m' ok n Q :
  sm_Apply data (sm n) = Some (m', ok) -> Q (n <| sm := m' |>) [] tt -> runs_to (applyData data) n Q.
Proof. intros E HQ. do 3 eexists. unfold applyData. rewrite E. by split. Qed.

(** [applyLog] panics when the state machine does. *)
Lemma applyLog_applies e n n' out u : applyLog e n = Some (n', out, u) -> is_Some (apply_sm e (sm n)).
Proof.
  intros E. apply bind_inv in E as (n1 & o1 & [] & o2 & [= <- _] & E & _).
  apply bind_inv in E as (n2 & o3 & [] & o4 & E & _ & _).
  unfold apply_sm. unfold applyCommand in E. case_decide; [| by eexists].
  apply bind_inv in E as (n3 & o5 & [] & o6 & E & _ & _). unfold applyData in E. cbn [sm] in E.
  match type of E with context [sm_Apply _ ?x] => change x with (sm n) in E end.
  destruct (sm_Apply _ _) as [[m ok]|]; [by eexists | done].
Qed.

Lemma applyLog_panics e n : apply_sm e (sm n) = None -> applyLog e n = None.
Proof.
  intros Hp. destruct (applyLog e n) as [[[n' out] u]|] eqn:E; [| done].
  apply applyLog_applies in E. rewrite Hp in E. by destruct E.
Qed.

Lemma applyCommand_calm fz e n :
  state_inv (state n) -> is_Some (apply_sm e (sm n)) -> calm_run fz (applyCommand e) n.
Proof.
  intros Hn [m' Em]. unfold applyCommand. unfold apply_sm in Em.
  destruct (decide (Type_ e = LogCommand)); [| by apply calm_skip].
  destruct (sm_Apply (Data e) (sm n)) as [[m ok]|] eqn:E; [| done].
  apply calm_seq; [by eapply applyData_run; [exact E | apply calm_other] |]. intros n2 _ Hn2.
  case_match; [| by apply calm_skip].
  apply calm_update; [done | eapply array_ok_update; eauto with raft | done].
Qed.

Lemma completeCommand_calm fz e n : state_inv (state n) -> calm_run fz (completeCommand e) n.
Proof.
  intros Hn. apply calm_gets. destruct (pendingCommands n !! Index e); [| by apply calm_skip].
  apply calm_seq; [by apply calm_modify | intros; by apply calm_emit].
Qed.

Lemma completeConfig_calm fz e n : state_inv (state n) -> calm_run fz (completeConfig e) n.
Proof.
  intros Hn. apply calm_seq;
    [apply calm_update; [done | eapply array_ok_update; eauto with raft | done] |].
  intros n1 _ Hn1. apply calm_gets.
  destruct (pendingConfigApplied n1 !! Index e); [| by apply calm_skip].
  apply calm_seq; [by apply calm_modify | intros; by apply calm_emit].
Qed.

Lemma applyLog_calm fz e n :
  state_inv (state n) -> is_Some (apply_sm e (sm n)) -> calm_run fz (applyLog e) n.
Proof.
  intros Hn He. apply (calm_bind _ _ _ _ (fun n1 _ => sm n1 = sm n)).
  { by apply runs_to_modify; split; [apply calm_other |]. }
  intros n1 _ Hn1 Em. rewrite <- Em in He. apply calm_seq; [by apply applyCommand_calm |]. intros n2 _ Hn2. apply calm_gets. unfold getRole.
  destruct (role (state n2)); [by apply calm_skip.. |].
  apply calm_seq; [by apply completeCommand_calm |]. intros n3 _ Hn3.
  case_decide; [by apply completeConfig_calm | by apply calm_skip].
Qed.

Lemma awaitConfig_calm fz r n : state_inv (state n) -> calm_run fz (awaitConfig r) n.
Proof.
  intros Hn. destruct r; [| by apply calm_skip].
  apply calm_seq; [by apply calm_modify | intros; by apply calm_emit].
Qed.

Lemma checkConfigurationsToStart_calm fz n :
  state_inv (state n) -> calm_run fz checkConfigurationsToStart n.
Proof.
  intros Hn. apply calm_seq; [| intros; by apply awaitConfig_calm].
  destruct (handleNextConfigurationChange_total _ Hn) as (s & r & E & Hs & He & Hu & _ & Hz).
  eapply runs_to_call; [exact E |]. apply calm_state; [done | by apply same_election_quiet |].
  intros _ C (Hst & Hq & Huv). destruct Hz as [-> _]; [| by destruct n].
  rewrite (inv_queue _ Hn). by rewrite Hq.
Qed.

Lemma promoteUnvotingServer_calm fz p n :
  state_inv (state n) -> pendingConfigs (state n) < max_int64 ->
  calm_run fz (promoteUnvotingServer p) n.
Proof.
  intros Hn Hmax. unfold promoteUnvotingServer.
  unfold removeUnvotingServer. destruct (unvotingServers (state n) !! p) as [entry|] eqn:Eu.
  2: { apply runs_to_bind. eapply runs_to_call; [by rewrite Eu |].
       assert (n <| state := state n |> = n) as -> by (by destruct n). by apply calm_skip. }
  apply runs_to_bind. eapply runs_to_call; [by rewrite Eu |].
  set (s1 := state n <| unvotingServers := delete p (unvotingServers (state n)) |>).
  assert (state_inv s1) as Hs1.
  { destruct Hn. split; [by eapply array_ok_update | done..]. }
  assert (forall C, ~ frozen C n) as Hnf by (intros C (_ & _ & E); by rewrite E, lookup_empty in Eu).
  destruct (handleConfigurationRPC_total entry s1 Hs1 Hmax) as (s2 & r & E & Hs2 & He & _).
  apply runs_to_bind. eapply runs_to_call; [exact E |].
  eapply runs_to_mono; [by apply (awaitConfig_calm fz) |].
  intros n3 o3 [] Hc. simpl. rewrite <- (app_nil_l o3).
  eapply calm_trans; [| exact Hc].
  assert (n <| state := s1 |> <| state := s2 |> = n <| state := s2 |>) as -> by (by destruct n).
  apply calm_state; [done | | intros _ C HC; by destruct (Hnf C)].
  by apply same_election_quiet.
Qed.

Lemma handleApplyRequest_calm fz ch req n :
  state_inv (state n) -> calm_run fz (handleApplyRequest ch req) n.
Proof.
  intros Hn. unfold handleApplyRequest. apply calm_gets, calm_gets. unfold getRole.
  destruct (role (state n)); [apply calm_gets; by apply calm_emit.. |].
  apply calm_gets. case_match; [by apply calm_emit |]. apply calm_gets, calm_seq.
  { apply calm_call; [done |]. apply addCommandLog_neutral. eauto with raft. }
  intros n1 k Hn1. case_match; [by apply calm_emit |].
  apply calm_seq; [by apply persistState_calm |]. intros n2 _ Hn2.
  apply calm_seq; [by apply calm_modify |]. intros n3 _ Hn3.
  apply calm_seq; [by apply sendAppendEntriesRPCs_calm | intros; by apply calm_emit].
Qed.

Lemma handleConfigurationMessage_calm req n :
  state_inv (state n) -> pendingConfigs (state n) < max_int64 ->
  calm_run False (handleConfigurationMessage req) n.
Proof.
  intros Hn Hmax. unfold handleConfigurationMessage. apply calm_gets. unfold getRole.
  destruct (role (state n)); [apply calm_gets; by apply calm_emit.. |].
  destruct (Add (msg req)).
  - apply calm_seq; [by apply calm_emit |]. intros n1 _ Hn1. apply calm_seq.
    { apply inv_array in Hn1 as Ha1. apply calm_update; [done | |];
        unfold addNewServer; case_match; done || by eapply array_ok_update. }
    intros n2 _ Hn2. apply calm_seq; [| intros; by apply sendAppendEntriesRPCs_calm].
    apply runs_to_modify, calm_state; [| split; left; done | done].
    destruct Hn2. split; [by eapply array_ok_update | done..].
  - apply calm_seq; [| intros; by apply awaitConfig_calm].
    destruct (handleConfigurationRPC_total req _ Hn Hmax) as (s & r & E & Hs & He & _).
    eapply runs_to_call; [exact E |]. apply calm_state; [done | by apply same_election_quiet | done].
Qed.
End handlers.

(** ** Applying committed entries *)

Section applying.
Context {SM ST : Type} `{StateMachine SM, Storage ST, GoPlatform}.
Implicit Types n : RaftNode SM ST.

(** The channels of client commands that are told of success. *)
Definition signalled (out : list effect) : list chan :=
  omap (fun e => match e with SignalApplied ch => Some ch | _ => None end) out.

Lemma signalled_app a b : signalled (a ++ b) = signalled a ++ signalled b.
Proof. apply omap_app. Qed.

(** States that differ in the deduplication table and the configuration lock. *)
Definition applied_state (s s' : nodeState) : Prop :=
  s' = s <| clientLastSeq := clientLastSeq s' |> <| inConfigChange := inConfigChange s' |>.

Lemma applied_state_trans s1 s2 s3 :
  applied_state s1 s2 -> applied_state s2 s3 -> applied_state s1 s3.
Proof. unfold applied_state. intros -> ->. done. Qed.

Lemma applyCommand_run e m' n :
  apply_sm e (sm n) = Some m' ->
  runs_to (applyCommand e) n (fun n' out _ =>
    out = [] /\ n' = n <| sm := m' |> <| state := state n' |> /\
    state n' = if bool_decide (Type_ e = LogCommand /\ ClientID e <> "" /\ 0 < SeqNum e)
               then setClientLastSeq (ClientID e) (SeqNum e) (state n) else state n).
Proof.
  unfold applyCommand, apply_sm. destruct (decide (Type_ e = LogCommand)) as [Ht|Ht].
  2: { intros [= <-]. rewrite bool_decide_false by (by intros [? _]). apply runs_to_skip. by destruct n. }
  destruct (sm_Apply (Data e) (sm n)) as [[m ok]|] eqn:Ea; [| done]. intros [= <-].
  apply runs_to_bind. eapply applyData_run; [exact Ea |]. destruct (decide (ClientID e = "")) as [Hc|Hc].
  { rewrite (bool_decide_true (ClientID e = "")) by done.
    rewrite (bool_decide_false (_ /\ _)) by (by intros (_ & ? & _)).
    apply runs_to_skip. by destruct n. }
  rewrite (bool_decide_false (ClientID e = "")) by done. simpl.
  destruct (Z.ltb_spec 0 (SeqNum e)).
  - rewrite bool_decide_true by done. apply runs_to_modify. by destruct n.
  - rewrite bool_decide_false by (intros (_ & _ & ?); lia). apply runs_to_skip. by destruct n.
Qed.

Lemma completeCommand_run e n :
  runs_to (completeCommand e) n (fun n' out _ =>
    n' = n <| pendingCommands := delete (Index e) (pendingCommands n) |> /\
    signalled out = option_list (pendingCommands n !! Index e)).
Proof.
  apply runs_to_bind, runs_to_gets.
  destruct (pendingCommands n !! Index e) as [ch|] eqn:E.
  - apply runs_to_bind, runs_to_modify, runs_to_emit. done.
  - apply runs_to_skip. rewrite delete_id by done. by destruct n.
Qed.

Lemma completeConfig_run e n :
  runs_to (completeConfig e) n (fun n' out _ =>
    n' = n <| state := unlockNextConfiguration (state n) |>
           <| pendingConfigApplied := delete (Index e) (pendingConfigApplied n) |> /\
    signalled out = []).
Proof.
  apply runs_to_bind, runs_to_modify, runs_to_bind, runs_to_gets.
  match goal with |- context [pendingConfigApplied ?x !! _] =>
    change (pendingConfigApplied x) with (pendingConfigApplied n) end.
  destruct (pendingConfigApplied n !! Index e) as [ch|] eqn:E.
  - apply runs_to_bind, runs_to_modify, runs_to_emit. done.
  - apply runs_to_skip. rewrite delete_id by done. by destruct n.
Qed.

(** The outcome of [applyLog]. *)
Lemma applyLog_run e m' n :
  apply_sm e (sm n) = Some m' ->
  runs_to (applyLog e) n (fun n' out _ =>
    sm n' = m' /\ applied_state (state n) (state n') /\
    cfg n' = cfg n /\ storage n' = storage n /\
    clientLastSeq (state n') =
      (if bool_decide (Type_ e = LogCommand /\ ClientID e <> "" /\ 0 < SeqNum e)
       then <[ClientID e := SeqNum e]> (clientLastSeq (state n)) else clientLastSeq (state n)) /\
    if decide (role (state n) = Leader) then
      signalled out = option_list (pendingCommands n !! Index e) /\
      pendingCommands n' = delete (Index e) (pendingCommands n)
    else signalled out = [] /\ pendingCommands n' = pendingCommands n).
Proof.
  intros Hm. apply runs_to_bind, runs_to_modify, runs_to_bind.
  eapply runs_to_mono; [apply (applyCommand_run e m'); exact Hm |]. intros n1 o1 _ (-> & En1 & Es1).
  apply runs_to_bind, runs_to_gets. unfold getRole.
  assert (role (state n1) = role (state n)) as -> by (rewrite Es1; by case_match).
  assert (applied_state (state n) (state n1)) as Ha.
  { rewrite Es1. case_match; unfold applied_state, setClientLastSeq; simpl; by destruct (state n). }
  assert (clientLastSeq (state n1) =
      (if bool_decide (Type_ e = LogCommand /\ ClientID e <> "" /\ 0 < SeqNum e)
       then <[ClientID e := SeqNum e]> (clientLastSeq (state n)) else clientLastSeq (state n))) as Hc.
  { rewrite Es1. by case_match. }
  destruct (decide (role (state n) = Leader)) as [Hl|Hl].
  2: { destruct (role (state n)); [..| done]; apply runs_to_skip; rewrite En1; done. }
  rewrite Hl. apply runs_to_bind.
  eapply runs_to_mono; [apply completeCommand_run |]. intros n2 o2 _ (En2 & Eo2).
  assert (pendingCommands n1 = pendingCommands n) as Ep by (by rewrite En1).
  destruct (decide (Type_ e = LogConfiguration)).
  - eapply runs_to_mono; [apply completeConfig_run |]. intros n3 o3 _ (En3 & Eo3).
    rewrite En3, En2. fields. simpl. rewrite !signalled_app, Eo2, Eo3, app_nil_r, Ep.
    split; [by rewrite En1 |]. split.
    { eapply applied_state_trans; [exact Ha |].
      unfold applied_state, unlockNextConfiguration. by destruct (state n1). }
    split; [by rewrite En1 |]. split; [by rewrite En1 |]. done.
  - apply runs_to_skip. rewrite En2. fields. simpl. rewrite !signalled_app, Eo2, app_nil_r, Ep.
    split; [by rewrite En1 |]. split; [done |].
    split; [by rewrite En1 |]. split; [by rewrite En1 |]. done.
Qed.
End applying.

(** ** Serving RPCs *)

Section serving.
Context {SM ST : Type} `{StateMachine SM, Storage ST, GoPlatform}.
Implicit Types n : RaftNode SM ST.

(** A handler's effect on the node once its storage and clocks are ignored:
    [persistState] in the middle of a run. *)
Lemma persist_then {A} (m : Handler SM ST A) n Q :
  array_ok (state n) ->
  (forall n1, cfg n1 = cfg n -> state n1 = state n -> (reliable (ST := ST) -> durable n1) ->
     runs_to m n1 (fun n' out a => Q n' (saving n ++ out) a)) ->
  runs_to (persistState ;; m) n Q.
Proof.
  intros Ha Hm. apply runs_to_bind. eapply runs_to_mono; [by apply persistState_run |].
  intros n1 o1 _ (-> & En & Hd). apply Hm; [by rewrite En | by rewrite En | done].
Qed.

Lemma sent_saving n out : sent (saving n ++ out) = sent out.
Proof. rewrite sent_app. by rewrite (proj1 (saving_quiet n)). Qed.
Lemma replied_saving n out : replied (saving n ++ out) = replied out.
Proof. rewrite replied_app. by rewrite (proj2 (saving_quiet n)). Qed.

Lemma serveAppendEntries_run args n :
  state_inv (state n) ->
  runs_to (serveAppendEntries args) n (fun n' out _ =>
    calm (no_config (ae_Entries args)) n n' out /\ (reliable (ST := ST) -> durable n')).
Proof.
  intros Hn. go_read.
  destruct (handleAppendEntries_control (gameState n) (id n) args (state n) ltac:(eauto with raft))
    as (s & r & E & Ha & Hq & Hm & Hst).
  apply runs_to_bind. eapply runs_to_call; [exact E |].
  apply persist_then; [exact Ha |]. intros n1 Ec Es Hd.
  apply runs_to_emit. cbn [app].
  assert (state_inv s) as Hs by (by apply (state_inv_intro (state n))).
  split; [| exact Hd]. change (state (n <| state := s |>)) with s in *.
  split; rewrite ?Ec, ?Es, ?sent_saving, ?replied_saving; [done | done | done | | | done | done].
  - intros Hfz C (HC & Hq1 & Hu1). destruct Hm as [Hm _]. unfold control in Hm. simpl in Hm.
    injection Hm as _ E1 E2. unfold frozen. rewrite Es. change (state (n <| state := s |>)) with s.
    rewrite E1, E2. split; [by apply Hst | done].
  - intros Hr V Hl _. assert (live_ok V n1) as Hl1.
    { unfold live_ok. rewrite Es. by apply (quiet_vote_ok V _ _ Hq). }
    split; [done |]. apply durable_stored; [rewrite Es; apply Ha | auto | done].
Qed.

Lemma serveInstallSnapshot_run args n :
  state_inv (state n) ->
  runs_to (serveInstallSnapshot args) n (fun n' out _ =>
    calm True n n' out /\ (reliable (ST := ST) -> durable n')).
Proof.
  intros Hn. go_read.
  destruct (handleInstallSnapshotRequest_control (id n) args (state n) ltac:(eauto with raft))
    as (Ha & Hq & Hm & Hc1 & Hc2).
  destruct (handleInstallSnapshotRequest (id n) args (state n)) as [s r] eqn:E. simpl in *.
  apply runs_to_bind. eapply runs_to_call; [by rewrite E |].
  apply persist_then; [exact Ha |]. intros n1 Ec Es Hd.
  apply runs_to_emit. cbn [app].
  assert (state_inv s) as Hs by (by apply (state_inv_intro (state n))).
  split; [| exact Hd]. change (state (n <| state := s |>)) with s in *.
  split; rewrite ?Ec, ?Es, ?sent_saving, ?replied_saving; [done | done | done | | | done | done].
  - intros _ C ([HC1 HC2] & Hq1 & Hu1). destruct Hm as [Hm _]. unfold control in Hm. simpl in Hm.
    injection Hm as _ E1 E2. unfold frozen. rewrite Es. change (state (n <| state := s |>)) with s.
    rewrite E1, E2. split; [| done]. unfold control in *. simpl in *.
    split; simpl; congruence.
  - intros Hr V Hl _. assert (live_ok V n1) as Hl1.
    { unfold live_ok. rewrite Es. by apply (quiet_vote_ok V _ _ Hq). }
    split; [done |]. apply durable_stored; [rewrite Es; apply Ha | auto | done].
Qed.

(** A vote granted to the request's candidate. *)
Record granted (args : RequestVoteArgs) n n' (out : list effect) : Prop := {
  gr_cfg : cfg n' = cfg n;
  gr_inv : state_inv (state n');
  gr_may : may_vote args (state n);
  gr_term : currentTerm (state n') = rv_Term args;
  gr_vote : votedFor (state n') = rv_CandidateID args;
  gr_role : role (state n') = Follower;
  gr_frozen : forall C, frozen C n -> frozen C n';
  gr_durable : reliable (ST := ST) -> durable n';
  gr_sent : sent out = [];
  gr_replied : replied out = [mkRequestVoteResponse (id n) (rv_Term args) true];
}.

(** A refusal: calm, apart from the answer. *)
Definition refused n n' (out : list effect) : Prop :=
  exists out1 t, calm True n n' out1 /\ (reliable (ST := ST) -> durable n') /\ sent out = [] /\
    replied out = [mkRequestVoteResponse (id n) t false].

Lemma frozen_members C n n' :
  same_members (control (state n)) (control (state n')) ->
  c_config (control (state n')) = c_config (control (state n)) ->
  c_oldConfig (control (state n')) = c_oldConfig (control (state n)) ->
  frozen C n -> frozen C n'.
Proof.
  intros [Hm _] Hc1 Hc2 ([HC1 HC2] & Hq1 & Hu1). unfold control in *. simpl in *.
  injection Hm as _ E1 E2. unfold frozen, static. simpl. by rewrite Hc1, Hc2, E1, E2.
Qed.

Lemma serveRequestVote_run args n :
  state_inv (state n) ->
  runs_to (serveRequestVote args) n (fun n' out _ => granted args n n' out \/ refused n n' out).
Proof.
  intros Hn. go_read.
  destruct (handleRequestToVote_total (id n) args (state n) ltac:(eauto with raft))
    as (s & g & E & Ha & Hm & Hc1 & Hc2 & Hg).
  apply runs_to_bind. eapply runs_to_call; [exact E |].
  apply persist_then; [exact Ha |]. intros n1 Ec Es Hd.
  apply runs_to_emit. cbn [app].
  assert (state_inv s) as Hs by (by apply (state_inv_intro (state n))).
  change (state (n <| state := s |>)) with s in *. change (cfg (n <| state := s |>)) with (cfg n) in *.
  assert (forall C, frozen C n -> frozen C n1) as Hf by (intros C; apply frozen_members; by rewrite Es).
  destruct g.
  - left. destruct Hg as (Hmay & Ht & Hv & Hr).
    split; rewrite ?Es, ?sent_saving, ?replied_saving; try done. simpl. by rewrite Ht.
  - right. exists [], (currentTerm s). rewrite sent_saving, replied_saving. split; [| done].
    split; rewrite ?Ec, ?Es, ?sent_saving, ?replied_saving; [done | done | done | by intros _ | | done | done].
    intros Hr V Hl _. assert (live_ok V n1) as Hl1.
    { unfold live_ok. rewrite Es. by apply (quiet_vote_ok V _ _ Hg). }
    split; [done |]. apply durable_stored; [rewrite Es; apply Ha | auto | done].
Qed.
End serving.

(** ** Elections *)

Section elections.
Context {SM ST : Type} `{StateMachine SM, Storage ST, GoPlatform}.
Implicit Types n : RaftNode SM ST.

(** A campaign has begun: the next term, the node's own vote. *)
Record begun n n' : Prop := {
  be_cfg : cfg n' = cfg n;
  be_inv : state_inv (state n');
  be_term : currentTerm (state n') = currentTerm (state n) +! 1;
  be_vote : votedFor (state n') = id n;
  be_frozen : forall C, frozen C n -> frozen C n';
  be_durable : reliable (ST := ST) -> durable n';
}.

(** It goes on with the same request to every peer, *)
Record campaigned n n' (out : list effect) : Prop := {
  ca_begun : begun n n';
  ca_role : role (state n') = Candidate;
  ca_votes : electionVotes (state n') = 1;
  ca_replied : replied out = [];
  ca_sent : exists args, sent out = (fun p => (p, args)) <$> peers n /\
              rv_Term args = currentTerm (state n') /\ rv_CandidateID args = id n;
}.

(** or, without peers, is won at once. *)
Record won_alone n n' (out : list effect) : Prop := {
  wa_begun : begun n n';
  wa_role : role (state n') = Leader;
  wa_peers : peers n = [];
  wa_replied : replied out = [];
  wa_sent : sent out = [];
}.

(** A vote is counted; with it, the election may be won. *)
Record counted (resp : RequestVoteResponse) n n' (out : list effect) : Prop := {
  co_cfg : cfg n' = cfg n;
  co_inv : state_inv (state n');
  co_resp : rvr_Term resp = currentTerm (state n) /\ rvr_VoteGranted resp = true;
  co_before : role (state n) = Candidate;
  co_term : currentTerm (state n') = currentTerm (state n);
  co_vote : votedFor (state n') = votedFor (state n);
  co_frozen : forall C, frozen C n -> frozen C n';
  co_votes : reliable (ST := ST) -> forall V, live_ok V n -> stored_ok V n -> stored_ok V n';
  co_sent : sent out = [];
  co_replied : replied out = [];
  co_role :
    role (state n') = Candidate /\ electionVotes (state n') = electionVotes (state n) +! 1 \/
    role (state n') = Leader /\
      Z.of_nat (size (serverConfig (state n))) < 2 * (electionVotes (state n) +! 1);
}.

Lemma each_send_run (args : RequestVoteArgs) l n :
  runs_to (each (fun p => emit (SendRequestVote p args)) l) n (fun n' out _ =>
    n' = n /\ sent out = (fun p => (p, args)) <$> l /\ replied out = []).
Proof.
  induction l as [|p l IH]; simpl; [by apply runs_to_skip |].
  apply runs_to_bind, runs_to_emit. eapply runs_to_mono; [exact IH |].
  intros n' out _ (-> & Es & Er). by rewrite sent_app, replied_app, Es, Er.
Qed.

(** From a state with the given log, the request names its term and sender. *)
Lemma campaign_run n :
  array_ok (state n) ->
  runs_to campaign n (fun n' out _ => n' = n /\ replied out = [] /\
    exists args, sent out = (fun p => (p, args)) <$> peers n /\
      rv_Term args = currentTerm (state n) /\ rv_CandidateID args = id n).
Proof.
  intros Ha. go_read. destruct (getLastLogIdxTerm_total _ Ha) as (li & lt & E).
  apply runs_to_bind. eapply runs_to_call; [unfold prepareRequestVoteRPC; by rewrite E |].
  assert (n <| state := state n |> = n) as -> by (by destruct n).
  unfold sendRequestVoteRPCs. go_read. eapply runs_to_mono; [apply each_send_run |].
  intros n' out _ (-> & Es & Er). split; [done |]. split; [done |]. eexists. cbn [app]. by rewrite Es.
Qed.

Lemma beginElection_run now n :
  state_inv (state n) ->
  runs_to (beginElection now) n (fun n' out _ =>
    saves_of n' out /\ begun n n' /\ role (state n') = Candidate /\ electionVotes (state n') = 1).
Proof.
  intros Hn. unfold beginElection. go_read. do 2 apply runs_to_bind, runs_to_modify.
  eapply runs_to_mono; [apply persistState_run; eapply array_ok_update; eauto with raft |].
  intros n' out _ (-> & En & Hd). cbn [app].
  assert (state n' = startElection (id n) (state n)) as Es by (by rewrite En).
  assert (cfg n' = cfg n) as Ec by (by rewrite En).
  split; [apply saves_of_intro; by rewrite Es |]. split; [| by rewrite Es].
  split; rewrite ?Es; try done.
  - apply (state_inv_intro (state n)); [done | eapply array_ok_update; eauto with raft | done].
  - intros C. apply frozen_members; by rewrite Es.
Qed.

(** What [winElection] and the metrics leave behind, once persisted. *)
Record became_leader n n' : Prop := {
  bl_cfg : cfg n' = cfg n;
  bl_inv : state_inv (state n');
  bl_role : role (state n') = Leader;
  bl_term : currentTerm (state n') = currentTerm (state n);
  bl_vote : votedFor (state n') = votedFor (state n);
  bl_frozen : forall C, frozen C n -> frozen C n';
  bl_durable : reliable (ST := ST) -> durable n';
}.

Lemma win_then {A} clock k (m : Handler SM ST A) n Q :
  state_inv (state n) ->
  (forall n1 o1, saves_of n1 o1 -> became_leader n n1 ->
     runs_to m n1 (fun n' out a => Q n' (o1 ++ out) a)) ->
  runs_to (calls (winElection (id n)) ;; recordWin clock k ;; persistState ;; m) n Q.
Proof.
  intros Hn Hm. destruct (winElection_total (id n) (state n)) as (s & E & Ha & Et & Ev & Er & Hmem & Hc1 & Hc2);
    [eauto with raft |].
  apply runs_to_bind. eapply runs_to_calls; [exact E |]. apply runs_to_bind, runs_to_modify.
  apply persist_then; [exact Ha |]. intros n1 Ecfg Es Hd. cbn [app].
  eapply runs_to_mono; [apply (Hm n1 _ (saves_of_intro _ _ (eq_sym Es))) | by intros].
  split; rewrite ?Es; try done.
  - by apply (state_inv_intro (state n)).
  - intros C. apply frozen_members; by rewrite Es.
Qed.

Lemma win_run clock k n :
  state_inv (state n) ->
  runs_to (calls (winElection (id n)) ;; recordWin clock k ;; persistState) n (fun n' out _ =>
    saves_of n' out /\ became_leader n n').
Proof.
  intros Hn. destruct (winElection_total (id n) (state n)) as (s & E & Ha & Et & Ev & Er & Hm & Hc1 & Hc2);
    [eauto with raft |].
  apply runs_to_bind. eapply runs_to_calls; [exact E |]. apply runs_to_bind, runs_to_modify.
  eapply runs_to_mono; [by apply persistState_run |].
  intros n' out _ (-> & En & Hd). assert (state n' = s) as Es by (by rewrite En).
  split; [apply saves_of_intro; by rewrite Es |]. split; rewrite ?Es; try done.
  - by rewrite En.
  - by apply (state_inv_intro (state n)).
  - intros C. apply frozen_members; by rewrite Es.
Qed.
End elections.

(** ** One iteration of the main loop *)

Section iteration.
Context {SM ST : Type} `{StateMachine SM, Storage ST, GoPlatform}.
Implicit Types n : RaftNode SM ST.

(** What the reaction to an event amounts to. *)
Definition reaction (ev : event) n n' (out : list effect) : Prop :=
  match ev with
  | EvAppendEntries args => calm (no_config (ae_Entries args)) n n' out
  | EvRequestVote args => granted args n n' out \/ refused n n' out
  | EvVoteResponse resp => calm True n n' out \/ counted resp n n' out
  | EvTimer => calm True n n' out \/ campaigned n n' out \/ won_alone n n' out
  | EvInstallSnapshot _ | EvConnected | EvStop => calm True n n' out
  end.

Definition reaction_run ev (m : Handler SM ST unit) n : Prop :=
  runs_to m n (fun n' out _ => reaction ev n n' out).

(** A prefix that leaves the control state alone, named so that the reaction
    is that of the node after it. *)
Definition after_prefix ev n n' out : Prop :=
  exists n1, calm True n n1 [] /\ control (state n1) = control (state n) /\ reaction ev n1 n' out.

Lemma calm_after fz n n1 n2 o1 o2 : calm fz n n1 o1 -> calm True n1 n2 o2 -> calm fz n n2 (o1 ++ o2).
Proof. intros Hc [B1 B2 B3 B4 B5 B6 B7]. eapply calm_trans; [exact Hc |]. split; auto. Qed.

Lemma calm_before fz n n1 n2 o1 o2 : calm True n n1 o1 -> calm fz n1 n2 o2 -> calm fz n n2 (o1 ++ o2).
Proof. intros [B1 B2 B3 B4 B5 B6 B7] Hc. eapply calm_trans; [| exact Hc]. split; auto. Qed.

(** Stopping the timer before serving. *)
Lemma stop_calm n : state_inv (state n) -> calm_run True (update stopElectionTimeout) n.
Proof.
  intros Hn. destruct (stopElectionTimeout_neutral (state n)) as [Ha Ec]; [eauto with raft |].
  by apply calm_update.
Qed.

Lemma stop_frame n :
  runs_to (update stopElectionTimeout) n (fun n' out _ =>
    out = [] /\ n' = n <| state := stopElectionTimeout (state n) |>).
Proof. by apply runs_to_modify. Qed.

Lemma stop_prefix ev (m : Handler SM ST unit) n :
  state_inv (state n) ->
  (forall n1, state_inv (state n1) -> role (state n1) = role (state n) -> reaction_run ev m n1) ->
  runs_to (update stopElectionTimeout ;; m) n (fun n' out _ => after_prefix ev n n' out).
Proof.
  intros Hn Hm. apply runs_to_bind, runs_to_modify.
  destruct (stopElectionTimeout_neutral (state n)) as [Ha Ec]; [eauto with raft |].
  eapply runs_to_mono.
  - apply Hm; [by apply (state_inv_same (state n)) | exact (f_equal c_role Ec)].
  - intros n' out [] Hr. eexists. split; [by apply calm_neutral | done].
Qed.

Lemma prefix_prefix ev n n1 n' out :
  calm True n n1 [] -> control (state n1) = control (state n) -> after_prefix ev n1 n' out ->
  after_prefix ev n n' out.
Proof.
  intros Hc Er (n2 & Hc2 & Er2 & Hr). exists n2. split; [| by rewrite Er2].
  exact (calm_trans _ _ _ _ [] [] Hc Hc2).
Qed.

(** The election timer is started first. *)
Lemma timeout_prefix rnd ev (m : Handler SM ST unit) n :
  state_inv (state n) ->
  (forall n1, state_inv (state n1) -> role (state n1) = role (state n) ->
     runs_to m n1 (fun n' out _ => after_prefix ev n1 n' out)) ->
  runs_to (calls (checkElectionTimeout rnd) ;; m) n (fun n' out _ => after_prefix ev n n' out).
Proof.
  intros Hn Hm. destruct (checkElectionTimeout_neutral rnd _ Hn) as (s & E & Ha & Ec).
  apply runs_to_bind. eapply runs_to_calls; [exact E |].
  eapply runs_to_mono.
  - apply Hm; [by apply (state_inv_same (state n)) | exact (f_equal c_role Ec)].
  - intros n' out [] Hp. eapply prefix_prefix; [by apply calm_neutral | done | exact Hp].
Qed.

Lemma no_prefix ev n n' out : state_inv (state n) -> reaction ev n n' out -> after_prefix ev n n' out.
Proof. intros Hn Hr. exists n. split; [by apply calm_refl | done]. Qed.

(** The cases shared by the roles. *)
Lemma serve_reaction ev m n :
  state_inv (state n) ->
  match ev with
  | EvAppendEntries args => m = serveAppendEntries args
  | EvRequestVote args => m = serveRequestVote args
  | EvInstallSnapshot args => m = serveInstallSnapshot args
  | EvConnected => m = modify (fun n => n <| connected := true |>)
  | EvStop => m = skip
  | _ => False
  end -> reaction_run ev m n.
Proof.
  intros Hn Hm. destruct ev; try done; subst m; unfold reaction_run, reaction.
  - eapply runs_to_mono; [by apply serveAppendEntries_run | by intros ? ? [] [? _]].
  - by apply serveRequestVote_run.
  - eapply runs_to_mono; [by apply serveInstallSnapshot_run | by intros ? ? [] [? _]].
  - by apply calm_modify.
  - by apply calm_skip.
Qed.

Lemma serve_prefix ev m n :
  state_inv (state n) -> reaction_run ev m n -> runs_to m n (fun n' out _ => after_prefix ev n n' out).
Proof. intros Hn Hm. eapply runs_to_mono; [exact Hm | intros; by apply no_prefix]. Qed.

Lemma campaign_reaction clock n :
  state_inv (state n) ->
  runs_to (beginElection clock ;; campaign) n (fun n' out _ => campaigned n n' out).
Proof.
  intros Hn. apply runs_to_bind. eapply runs_to_mono; [by apply beginElection_run |].
  intros n1 o1 _ (Hsv & Hb & Hr & Hv). apply saves_of_quiet in Hsv as [Hq1 Hq2]. eapply runs_to_mono.
  { apply campaign_run. apply (be_inv _ _ Hb). }
  intros n2 o2 _ (-> & Hrep & args & Hs & Ht & Hc). cbn [app].
  assert (peers n1 = peers n) as Ep by (unfold peers; by rewrite (be_cfg _ _ Hb)).
  assert (id n1 = id n) as Ei by (unfold id; by rewrite (be_cfg _ _ Hb)).
  rewrite Ep in Hs. rewrite Ei in Hc.
  split; [done | done | done | by rewrite replied_app, Hq2 |]. rewrite sent_app, Hq1. by exists args.
Qed.

Lemma handleFollower_run rnd clock ev n :
  state_inv (state n) -> role (state n) = Follower ->
  runs_to (handleFollower rnd clock ev) n (fun n' out _ => after_prefix ev n n' out).
Proof.
  intros Hn Hrole. apply timeout_prefix; [done |]. intros n1 Hn1 Er.
  destruct ev; try (by apply serve_prefix, serve_reaction).
  - apply stop_prefix; [done |]. intros; by apply serve_reaction.
  - apply stop_prefix; [done |]. intros; by apply serve_reaction.
  - apply serve_prefix; [done |]. eapply runs_to_mono; [by apply (calm_skip True) | by left].
  - apply stop_prefix; [done |]. intros n2 Hn2 _. go_read.
    destruct (connected n2); cbn [negb].
    2: { apply runs_to_skip. left. by apply calm_refl. }
    apply runs_to_bind. eapply runs_to_mono; [by apply beginElection_run |].
    intros n3 o3 _ (Hsv & Hb & Hr & Hv). apply saves_of_quiet in Hsv as [Hq1 Hq2]. go_read.
    assert (peers n3 = peers n2) as Ep by (unfold peers; by rewrite (be_cfg _ _ Hb)).
    case_bool_decide as Hp.
    + eapply runs_to_mono; [apply win_run; apply (be_inv _ _ Hb) |].
      intros n4 o4 _ (Hsv & [Ecfg Hi Hl Et Ev Hf Hd]). right. right.
      apply saves_of_quiet in Hsv as [Hq3 Hq4]. cbn [app].
      split; [| done | by rewrite <- Ep | by rewrite replied_app, Hq2 | by rewrite sent_app, Hq1]. destruct Hb as [B1 B2 B3 B4 B5 B6].
      split; [by rewrite Ecfg | done | by rewrite Et | by rewrite Ev | auto | done].
    + eapply runs_to_mono; [apply campaign_run; apply (be_inv _ _ Hb) |].
      intros n4 o4 _ (-> & Hrep & args & Hs & Ht & Hcand). right. left.
      cbn [app]. split; [done | done | done | by rewrite replied_app, Hq2 |].
      rewrite sent_app, Hq1. exists args. rewrite <- Ep. unfold id in *. rewrite <- (be_cfg _ _ Hb). done.
Qed.

(** The vote response of a candidate. *)
Lemma vote_reaction resp clock n :
  state_inv (state n) -> role (state n) = Candidate ->
  reaction_run (EvVoteResponse resp)
    (won ← call (fun s => Some (updateElection resp s));
     if won : bool then
       me ← gets id;
       calls (winElection me) ;; recordWin clock 0 ;; persistState ;; sendAppendEntriesRPCs
     else skip) n.
Proof.
  intros Hn Hrole. pose proof (updateElection_control resp (state n)) as Hu.
  destruct (updateElection resp (state n)) as [s won] eqn:E.
  destruct Hu as (Ha & Hm & Hc1 & Hc2 & Hcase). specialize (Ha ltac:(eauto with raft)).
  apply runs_to_bind. eapply runs_to_call; [by rewrite E |].
  set (n1 := n <| state := s |>).
  assert (state_inv (state n1)) as Hn1 by (by apply (state_inv_intro (state n))).
  assert (forall C, frozen C n -> frozen C n1) as Hf by (intros C; by apply frozen_members).
  destruct (decide (rvr_Term resp = currentTerm (state n) /\ rvr_VoteGranted resp = true)) as [Hr|Hr].
  2: { destruct Hcase as [-> Hq]. apply runs_to_skip. left. cbn [app].
       apply calm_state; [done | done |]. by intros _. }
  destruct Hcase as (Et & Ev & Er & Evo & Hwon).
  unfold control in Et, Ev, Er, Evo. simpl in Et, Ev, Er, Evo.
  destruct won.
  - go_read. apply win_then; [done |]. intros n3 o3 Hsv [L1 L2 L3 L4 L5 L6 L7].
    apply saves_of_quiet in Hsv as [Hq1 Hq2].
    eapply runs_to_mono.
    { apply runs_to_and; [by apply (sendAppendEntriesRPCs_calm True) |].
      apply sendAppendEntriesRPCs_still. eauto with raft. }
    intros n4 o4 [] [[C1 C2 _ C4 C5 C6 C7] Ec]. right. cbn [app].
    assert (sent (o3 ++ o4) = [] /\ replied (o3 ++ o4) = []) as [Hs1 Hs2]
      by (by rewrite sent_app, replied_app, Hq1, Hq2).
    pose proof (f_equal c_term Ec) as Et4. pose proof (f_equal c_vote Ec) as Ev4.
    pose proof (f_equal c_role Ec) as Er4. simpl in Et4, Ev4, Er4.
    split; rewrite ?Et4, ?Ev4, ?Er4; try done.
    + by rewrite C1, L1.
    + by rewrite L4.
    + by rewrite L5.
    + intros C HC. by apply C4, L6, Hf.
    + intros Hrel V Hl Hs. apply (C5 Hrel V).
      * unfold live_ok. rewrite L4, L5. unfold live_ok in Hl. by rewrite <- Et, <- Ev in Hl.
      * apply durable_stored; [eauto with raft | auto |].
        unfold live_ok. rewrite L4, L5. unfold live_ok in Hl. by rewrite <- Et, <- Ev in Hl.
    + right. split; [done |]. by apply Hwon.
  - apply runs_to_skip. right. cbn [app]. split; try done.
    left. split; [by rewrite <- Hrole | done].
Qed.

Lemma handleCandidate_run rnd clock ev n :
  state_inv (state n) -> role (state n) = Candidate ->
  runs_to (handleCandidate rnd clock ev) n (fun n' out _ => after_prefix ev n n' out).
Proof.
  intros Hn Hrole. apply timeout_prefix; [done |]. intros n1 Hn1 Er.
  destruct ev; try (by apply serve_prefix, serve_reaction).
  - apply serve_prefix; [done |]. apply vote_reaction; [done | by rewrite Er].
  - apply stop_prefix; [done |]. intros n2 Hn2 _.
    eapply runs_to_mono; [by apply campaign_reaction | intros; by right; left].
Qed.

(** The commit index is no part of the reaction. *)
Lemma reaction_commit ev n n1 out c :
  reaction ev n n1 out -> reaction ev n (n1 <| state := state n1 <| commitIndex := c |> |>) out.
Proof.
  set (n2 := n1 <| state := state n1 <| commitIndex := c |> |>).
  assert (state_inv (state n1) -> state_inv (state n2)) as Hinv.
  { intros Hn. apply (state_inv_same (state n1)); [done | | done].
    by apply (array_ok_update (state n1)); [apply inv_array |..]. }
  assert (forall fz o, calm fz n n1 o -> calm fz n n2 o) as Hcalm.
  { intros fz o Hc. rewrite <- (app_nil_r o). eapply calm_trans; [exact Hc |].
    apply calm_neutral; [apply Hc | apply Hinv, Hc | done]. }
  assert (begun n n1 -> begun n n2) as Hbegun by (intros [? ? ? ? ? ?]; split; auto).
  destruct ev; simpl; try by apply Hcalm.
  - intros [[? ? ? ? ? ? ? ? ? ?]|(o & t & Hc & ? & ? & ?)]; [left; split; auto |].
    right. exists o, t. auto.
  - intros [Hc|[? ? ? ? ? ? ? ? ? ? ?]]; [left; auto | right; split; auto].
  - intros [Hc|[[? ? ? ? ?]|[? ? ? ? ?]]]; [left; auto | right; left; split; auto | right; right; split; auto].
Qed.

Lemma commit_reaction ev (m : Handler SM ST unit) n :
  reaction_run ev m n ->
  (forall n' out, reaction ev n n' out -> state_inv (state n')) ->
  reaction_run ev (m ;; calls checkCommits) n.
Proof.
  intros Hm Hinv. apply runs_to_bind. eapply runs_to_mono; [exact Hm |]. intros n1 o1 [] Hr.
  destruct (checkCommits_frame (state n1)) as [c E]; [eauto with raft |].
  eapply runs_to_calls; [exact E |]. rewrite app_nil_r. by apply reaction_commit.
Qed.

Lemma reaction_inv ev n n' out : reaction ev n n' out -> state_inv (state n').
Proof.
  destruct ev; simpl; try apply calm_inv.
  - intros [[]|(o & t & [] & _)]; done.
  - intros [[]|[]]; done.
  - intros [[]|[[[]]|[[]]]]; done.
Qed.

Lemma handleLeader_run ev n :
  state_inv (state n) ->
  runs_to (handleLeader ev) n (fun n' out _ => after_prefix ev n n' out).
Proof.
  intros Hn. apply serve_prefix; [done |].
  destruct ev; simpl; try (apply commit_reaction; [by apply serve_reaction | by apply reaction_inv]).
  - pose proof (calm_skip True n Hn) as Hs.
    destruct (checkCommits_frame (state n)) as [c E]; [eauto with raft |].
    eapply runs_to_calls; [exact E |]. apply reaction_commit. left. by apply calm_refl.
  - apply commit_reaction; [| by apply reaction_inv].
    eapply runs_to_mono; [by apply (sendAppendEntriesRPCs_calm True) | by left].
  - by apply (calm_skip True).
Qed.

(** The loop over committed entries, whether or not it ends. *)
Lemma applyLogs_calm fz fuel n n' out u :
  state_inv (state n) -> applyLogs fuel n = Some (n', out, u) -> calm fz n n' out.
Proof.
  revert n out. induction fuel as [|fuel IH]; intros n out Hn Hrun; [done |].
  cbn [applyLogs] in Hrun. apply bind_inv in Hrun as (n1 & o1 & r & o2 & E1 & Hrun & ->).
  assert (calm fz n n1 o1) as Hc1.
  { eapply calm_det; [| exact E1]. apply calm_call; [done |].
    destruct (updateLastApplied_neutral (state n)) as (s & r' & E & Ha & Ec & _); [eauto with raft |].
    by exists s, r'. }
  eapply calm_trans; [exact Hc1 |]. apply calm_inv in Hc1 as Hn1.
  destruct r as [i|]; [| injection Hrun as <- <- _; by apply calm_refl].
  apply bind_inv in Hrun as (n2 & o3 & e & o4 & E2 & Hrun & ->).
  unfold getLog in E2. destruct (logs (state n1) !! i) as [x|]; [| done]. injection E2 as <- <- _.
  apply bind_inv in Hrun as (n3 & o5 & [] & o6 & E3 & Hrun & ->). cbn [app].
  assert (calm fz n1 n3 o5) as Hc3.
  { eapply calm_det; [| exact E3]. apply applyLog_calm; [done | by eapply applyLog_applies]. }
  eapply calm_trans; [exact Hc3 |]. apply (IH _ _ (calm_inv _ _ _ _ Hc3) Hrun).
Qed.

Lemma applyLogs_control fuel n n' out u :
  array_ok (state n) -> applyLogs fuel n = Some (n', out, u) ->
  array_ok (state n') /\ control (state n') = control (state n).
Proof.
  revert n out. induction fuel as [|fuel IH]; intros n out Hn Hrun; [done |].
  cbn [applyLogs] in Hrun. apply bind_inv in Hrun as (n1 & o1 & r & o2 & E1 & Hrun & ->).
  destruct (updateLastApplied_neutral (state n) Hn) as (s & r' & E & Ha & Ec & _).
  unfold call in E1. rewrite E in E1. injection E1 as <- <- <-.
  destruct r' as [i|]; [| by injection Hrun as <- <- _].
  apply bind_inv in Hrun as (n2 & o3 & e & o4 & E2 & Hrun & ->).
  unfold getLog in E2. change (state (n <| state := s |>)) with s in E2.
  destruct (logs s !! i) as [x|]; [| done]. injection E2 as <- <- _.
  apply bind_inv in Hrun as (n3 & o5 & [] & o6 & E3 & Hrun & ->).
  destruct (applyLog_applies _ _ _ _ _ E3) as [m' Hm'].
  destruct (runs_to_det _ _ _ _ _ _ (applyLog_run e m' _ Hm') E3) as (_ & Hst & _).
  change (state (n <| state := s |>)) with s in Hst. unfold applied_state in Hst.
  assert (array_ok (state n3)) as Ha3.
  { rewrite Hst. by apply (array_ok_update s). }
  destruct (IH _ _ Ha3 Hrun) as [Ha4 Ec4]. split; [done |]. rewrite Ec4, Hst. exact Ec.
Qed.

Lemma checkConfigurationsToStart_election n :
  state_inv (state n) ->
  runs_to checkConfigurationsToStart n (fun n' _ _ =>
    same_election (control (state n)) (control (state n'))).
Proof.
  intros Hn. destruct (handleNextConfigurationChange_total _ Hn) as (s & r & E & _ & He & _).
  apply runs_to_bind. eapply runs_to_call; [exact E |].
  destruct r as [entry|]; [| by apply runs_to_skip].
  by apply runs_to_bind, runs_to_modify, runs_to_emit.
Qed.

(** One iteration of [run]: calm until the event, then the reaction to it. *)
Lemma run_reaction rnd clock ev n n' out u :
  state_inv (state n) -> run rnd clock ev n = Some (n', out, u) ->
  exists n1 o1 o2, out = o1 ++ o2 /\ calm True n n1 o1 /\
    same_election (control (state n)) (control (state n1)) /\ reaction ev n1 n' o2.
Proof.
  intros Hn Hrun. apply bind_inv in Hrun as (n1 & o1 & [] & o12 & E1 & Hrun & ->).
  pose proof (applyLogs_calm True _ _ _ _ _ Hn E1) as Hc1.
  apply bind_inv in Hrun as (n2 & o2 & [] & o3 & E2 & Hrun & ->).
  assert (calm True n1 n2 o2) as Hc2.
  { eapply calm_det; [by apply checkConfigurationsToStart_calm, Hc1 | exact E2]. }
  apply bind_inv in Hrun as (n3 & o4 & r & o5 & E3 & Hrun & ->).
  injection E3 as <- <- <-. unfold getRole in Hrun. cbn [app].
  assert (runs_to (match role (state n2) with
                   | Follower => handleFollower rnd clock ev
                   | Candidate => handleCandidate rnd clock ev
                   | Leader => handleLeader ev
                   end) n2 (fun n' out _ => after_prefix ev n2 n' out)) as Hrole.
  { pose proof (calm_inv _ _ _ _ Hc2). destruct (role (state n2)) eqn:Er.
    - by apply handleFollower_run.
    - by apply handleCandidate_run.
    - by apply handleLeader_run. }
  pose proof (runs_to_det _ _ _ _ _ _ Hrole Hrun) as (n4 & Hc4 & Ec4 & Hr).
  exists n4, (o1 ++ o2), o5. split; [by rewrite <- app_assoc |].
  split; [eapply calm_trans; [exact Hc1 |]; rewrite <- (app_nil_r o2); by eapply calm_trans |].
  split; [| done]. rewrite Ec4.
  pose proof (applyLogs_control _ _ _ _ _ (inv_array _ Hn) E1) as [Ha1 Ec1].
  rewrite <- Ec1. exact (runs_to_det _ _ _ _ _ _ (checkConfigurationsToStart_election n1 ltac:(apply Hc1)) E2).
Qed.
End iteration.

(** ** The response goroutines and the restart *)

Section responses.
Context {SM ST : Type} `{StateMachine SM, Storage ST, GoPlatform}.
Implicit Types n : RaftNode SM ST.

(** A change of the state that keeps the membership part. *)
Lemma calm_members n s :
  state_inv (state n) -> array_ok s -> quiet (control (state n)) (control s) ->
  same_members (control (state n)) (control s) ->
  c_config (control s) = c_config (control (state n)) ->
  c_oldConfig (control s) = c_oldConfig (control (state n)) ->
  calm True n (n <| state := s |>) [].
Proof.
  intros Hn Ha Hq Hm Hc1 Hc2. apply calm_state; [| done |].
  - by apply (state_inv_intro (state n)).
  - intros _ C. by apply frozen_members.
Qed.

Lemma caught_up_calm p k n :
  state_inv (state n) -> pendingConfigs (state n) < max_int64 ->
  calm_run True (commit ← gets (fun n => getCommitIndex (state n));
    if (0 <=? k) && (commit <=? k) then promoteUnvotingServer p else skip) n.
Proof.
  intros Hn Hmax. apply calm_gets. case_match; [by apply promoteUnvotingServer_calm | by apply calm_skip].
Qed.

Lemma appendEntriesResponse_calm resp n :
  state_inv (state n) -> pendingConfigs (state n) < max_int64 ->
  calm_run True (appendEntriesResponse resp) n.
Proof.
  intros Hn Hmax. unfold appendEntriesResponse. apply calm_gets, calm_gets.
  case_decide; [| by apply calm_skip].
  pose proof (handleAppendEntriesResponse_control (id n) resp (state n)) as (Ha & Hq & Hm & Hc1 & Hc2).
  destruct (handleAppendEntriesResponse (id n) resp (state n)) as [s [k need]] eqn:E. simpl in *.
  specialize (Ha (inv_array _ Hn)).
  apply (calm_bind _ _ _ _ (fun n1 _ => pendingConfigs (state n1) < max_int64)).
  { eapply runs_to_call; [by rewrite E |]. split; [by apply calm_members |].
    destruct Hm as [Hm _]. unfold control in Hm. simpl in Hm. injection Hm as E1 _ _.
    change (pendingConfigs s < max_int64). by rewrite E1. }
  intros n1 [k1 need1] Hn1 Hmax1.
  apply (calm_bind _ _ _ _ (fun n1 _ => pendingConfigs (state n1) < max_int64));
    [| intros n2 _ Hn2 Hmax2; by apply caught_up_calm].
  destruct need1; [| by apply runs_to_skip; split; [apply calm_refl |]].
  unfold runs_to, sendInstallSnapshotRPC, getLastSnapshot, prepareInstallSnapshotRPC.
  destruct (lastSnapshot (state n1)); simpl; do 3 eexists; (split; [done |]);
    (split; [by apply calm_other | done]).
Qed.

Lemma installSnapshotResponse_calm resp n :
  state_inv (state n) -> pendingConfigs (state n) < max_int64 ->
  isr_Success resp = true \/ isr_Term resp <> currentTerm (state n) ->
  calm_run True (installSnapshotResponse resp) n.
Proof.
  intros Hn Hmax Hresp. unfold installSnapshotResponse. apply calm_gets, calm_gets.
  case_decide; [| by apply calm_skip].
  pose proof (handleInstallSnapshotResponse_control (id n) resp (state n)) as (Ha & Hq & Hm & Hc1 & Hc2).
  destruct (handleInstallSnapshotResponse (id n) resp (state n)) as [s k] eqn:E. simpl in *.
  specialize (Ha (inv_array _ Hn)). specialize (Hq Hresp).
  apply (calm_bind _ _ _ _ (fun n1 _ => pendingConfigs (state n1) < max_int64)).
  { eapply runs_to_call; [by rewrite E |]. split; [by apply calm_members |].
    destruct Hm as [Hm _]. unfold control in Hm. simpl in Hm. injection Hm as E1 _ _.
    change (pendingConfigs s < max_int64). by rewrite E1. }
  intros n1 k1 Hn1 Hmax1. by apply caught_up_calm.
Qed.

Lemma snapshotLoopInstall_calm n n' out u :
  state_inv (state n) -> snapshotLoopInstall n = Some (n', out, u) -> calm True n n' out.
Proof.
  intros Hn. unfold snapshotLoopInstall.
  destruct (snapshotInstallChan (state n)) as [|data rest]; [done |]. intros E. simplify_eq.
  set (s := state n <| snapshotInstallChan := rest |>).
  assert (calm True n (n <| state := s |>) []) as Hc.
  { apply calm_neutral; [done | | done]. apply (array_ok_update (state n)); [apply Hn | done..]. }
  apply (calm_trans _ _ _ _ [] [] Hc). apply calm_other; [apply Hc | done..].
Qed.

(** ** Restart *)

Lemma restoreLogs_run ls i s :
  array_ok s -> (i + length ls <= logArrayCapacity)%nat -> nextLogIdx s = i ->
  exists l, restoreLogs i ls s = Some (s <| logs := l |> <| nextLogIdx := (i + length ls)%nat |>) /\
    length l = length (logs s) /\ take (i + length ls) l = take i (logs s) ++ ls.
Proof.
  revert i s. induction ls as [|rl ls IH]; intros i s [Hl Hh Hn] Hlen Hi; simpl in *.
  { exists (logs s). rewrite Nat.add_0_r, app_nil_r. split; [| done].
    rewrite <- Hi. by destruct s. }
  rewrite (proj2 (Nat.leb_gt _ _)) by lia. rewrite array_set_in by lia. simpl.
  set (s1 := s <| logs := <[i := rl]> (logs s) |> <| nextLogIdx := S i |>).
  destruct (IH (S i) s1) as (l & E & El & Et); [| lia | done |].
  { constructor; unfold s1; fields; rewrite ?length_insert; lia. }
  replace (i + S (length ls))%nat with (S i + length ls)%nat by lia.
  exists l. rewrite E. split; [done |]. unfold s1 in El, Et. fields. rewrite length_insert in El. split; [done |].
  rewrite Et, take_insert_snoc, <- app_assoc by lia. done.
Qed.

(** A node over a store that holds [ps], once started. *)
Record restored (c : NodeConfig.Config) (m : SM) (st : ST) (ps : PersistentState) n : Prop := {
  re_cfg : cfg n = withDefaults c;
  re_storage : storage n = st;
  re_term : currentTerm (state n) = CurrentTerm ps;
  re_vote : votedFor (state n) = VotedFor ps;
  re_role : role (state n) = Follower;
  re_array : array_ok (state n);
  re_live : live (state n) = Logs ps;
  re_hashes : logHashes (state n) = replicate logArrayCapacity (replicate 32 Byte.x00);
  re_snapshot : LoadSnapshot st = Some (lastSnapshot (state n));
  re_members : let s0 := newNodeState (NodeConfig.ID (withDefaults c)) (NodeConfig.Peers (withDefaults c))
                           (NodeConfig.ElectionMinMs (withDefaults c))
                           (NodeConfig.ElectionMaxMs (withDefaults c)) in
    same_members (control s0) (control (state n)) /\
    serverConfig (state n) = serverConfig s0 /\ oldServerConfig (state n) = oldServerConfig s0;
  re_applied :
    match lastSnapshot (state n) with
    | Some snap => commitIndex (state n) = LastIncludedIndex snap /\
                   lastApplied (state n) = LastIncludedIndex snap /\
                   sm_Restore (SnapData snap) m = (sm n, true)
    | None => commitIndex (state n) = -1 /\ lastApplied (state n) = -1 /\ sm n = m
    end;
}.

Lemma Start_run c (m : SM) tr (st : ST) n ps n' :
  New c (Some m) (Some tr) (Some st) = inl n ->
  LoadState st = Some (Some ps) -> 0 < CurrentTerm ps ->
  (length (Logs ps) <= logArrayCapacity)%nat ->
  Start n = Some (n', None) ->
  restored c m st ps n'.
Proof.
  unfold New. intros En Hps Hpos Hlen. injection En as <-.
  set (c' := withDefaults c). set (s0 := newNodeState _ _ _ _).
  unfold Start. cbn [storage state]. rewrite Hps.
  unfold restoreState. rewrite (proj2 (Z.ltb_lt _ _) Hpos).
  pose proof (newNodeState_frame (NodeConfig.ID c') (NodeConfig.Peers c') (NodeConfig.ElectionMinMs c')
              (NodeConfig.ElectionMaxMs c')) as F.
  change (newNodeState _ _ _ _) with s0 in F.
  destruct F as (Fl & Fh & Fn & Fs & Ft & Fv & Fr & Fc & Fa & _).
  assert (array_ok s0) as Hok0 by apply newNodeState_log_ok.
  match goal with |- context [restoreLogs 0 (Logs ps) ?x] => set (s1 := x) end.
  destruct (restoreLogs_run (Logs ps) 0 s1) as (l & -> & El & Et);
    [by apply (array_ok_update s0) | exact Hlen | exact Fn |].
  cbn [mbind option_bind Nat.add].
  set (s2 := s1 <| logs := l |> <| nextLogIdx := length (Logs ps) |>).
  assert (array_ok s2) as Hok2.
  { destruct Hok0. constructor; unfold s2, s1; fields; [by rewrite El | done | done]. }
  assert (live s2 = Logs ps) as Hlive by exact Et.
  change (storage (_ <| state := s2 |>)) with st.
  destruct (LoadSnapshot st) as [[snap|]|] eqn:Esnap; [| | done].
  - unfold restoreSnapshot. cbn [sm].
    match goal with |- context [sm_Restore (SnapData snap) ?x] => change x with m end.
    destruct (sm_Restore (SnapData snap) m) as [m' ok] eqn:Em. destruct ok; [| done]. cbn [negb].
    destruct (tr_Listen _ _); [| done]. cbn [negb]. intros E. injection E as <-.
    assert (forall b (x : RaftNode SM ST), state (if b : bool then x <| connected := true |> else x) = state x /\
      cfg (if b : bool then x <| connected := true |> else x) = cfg x /\
      sm (if b : bool then x <| connected := true |> else x) = sm x /\
      storage (if b : bool then x <| connected := true |> else x) = storage x) as Hif by (by intros []).
    match goal with |- restored _ _ _ _ (if ?b then _ else ?x) => destruct (Hif b x) as (I1 & I2 & I3 & I4) end.
    split; rewrite ?I1, ?I2, ?I3, ?I4; try done. by apply (array_ok_update s2).
  - unfold restoreSnapshot. cbn [negb]. destruct (tr_Listen _ _); [| done]. cbn [negb].
    intros E. injection E as <-.
    case_bool_decide; (split; try done).
    all: simpl; unfold s2, s1; fields; rewrite ?Fs; auto.
Qed.
End responses.
