(* ===== verification/Frames.v ===== *)
(** * Frames: what the handlers leave alone

    The configuration of a node is fixed; a handler puts a snapshot on
    [snapshotInstallChan] only to install it, at most one, and a server among
    the joining ones only when it is asked to. [moves k X m] says of a handler
    that it puts at most [k] snapshots there and adds no joining server outside
    [X]; it composes along the monad. [confined k X] is what it says of the
    state. *)
From S2P Require Import Prelude GoFloat Metrics Types State Storage SnapshotOps ConfigChange Log.
From S2P Require Import Election ElectionTheorems Control Node Handlers.

(** ** The state *)

Definition confined (k : nat) (X : gset ServerID) (s s' : nodeState) : Prop :=
  (length (snapshotInstallChan s') <= k + length (snapshotInstallChan s))%nat /\
  dom (unvotingServers s') ⊆ dom (unvotingServers s) ∪ X.

Lemma confined_trans j k X Y s1 s2 s3 :
  confined j X s1 s2 -> confined k Y s2 s3 -> confined (j + k) (X ∪ Y) s1 s3.
Proof. intros [E1 D1] [E2 D2]. split; [lia | set_solver]. Qed.

Lemma confined_none s s' :
  snapshotInstallChan s' = snapshotInstallChan s -> unvotingServers s' = unvotingServers s ->
  confined 0 ∅ s s'.
Proof. intros E1 E2. split; [by rewrite E1 | rewrite E2; set_solver]. Qed.

#[export] Instance confined_preorder : PreOrder (confined 0 ∅).
Proof.
  split; [by intros s; apply confined_none |]. intros s1 s2 s3 H1 H2.
  pose proof (confined_trans 0 0 ∅ ∅ _ _ _ H1 H2) as Ht. by rewrite union_empty_l_L in Ht.
Qed.

(** Most operations do not read or write either field. *)
Ltac idle := apply confined_none; reflexivity.
Ltac confine := intros; repeat run_step; repeat case_match; try done; try idle.

Lemma takeSnapshot_confined g s s' ok : takeSnapshot g s = Some (s', ok) -> confined 0 ∅ s s'.
Proof. unfold takeSnapshot, copyLogsToBeginning. confine. Qed.

Lemma appendEntry_confined me e s s' : appendEntry me e s = Some s' -> confined 0 ∅ s s'.
Proof. unfold appendEntry, storeEntry. confine. Qed.

Lemma stopElectionTimeout_confined s : confined 0 ∅ s (stopElectionTimeout s).
Proof. unfold stopElectionTimeout, stopElectionTimeoutLocked. confine. Qed.

Lemma stepDown_confined s : confined 0 ∅ s (stepDown s).
Proof. unfold stepDown, stopElectionTimeoutLocked. confine. Qed.

Lemma applyConfigurationLocked_confined i c s : confined 0 ∅ s (applyConfigurationLocked i c s).
Proof. unfold applyConfigurationLocked. destruct (Add c); idle. Qed.

Lemma placeEntry_confined pos e s s' : placeEntry pos e s = Some s' -> confined 0 ∅ s s'.
Proof.
  unfold placeEntry. intros E. do 3 run_step. injection E as <-. case_decide; [| idle].
  etrans; [| apply applyConfigurationLocked_confined]. idle.
Qed.

Lemma mergeEntry_confined pos e s s' : mergeEntry pos e s = Some s' -> confined 0 ∅ s s'.
Proof.
  unfold mergeEntry. destruct (_ <=? _)%nat; [apply placeEntry_confined |].
  destruct (logs s !! pos) as [cur|]; [cbn [mbind option_bind] | done].
  destruct (_ || _); [| by intros [= <-]]. intros E%placeEntry_confined.
  etrans; [| exact E]. case_match; idle.
Qed.

Lemma mergeEntries_confined pos es s s' : mergeEntries pos es s = Some s' -> confined 0 ∅ s s'.
Proof.
  revert pos s. induction es as [|e es IH]; intros pos s; cbn [mergeEntries]; [by intros [= <-] |].
  intros E. run_step. apply mergeEntry_confined in E0. etrans; [exact E0 | by eapply IH].
Qed.

Lemma checkCommits_confined s s' : checkCommits s = Some s' -> confined 0 ∅ s s'.
Proof.
  unfold checkCommits. generalize (nextLogIdx s) as n. intros n. revert s.
  induction n as [|n IH]; intros s; cbn [checkCommitsFrom]; confine; by eapply IH.
Qed.

(** [chase] follows the calls of the operations above. *)
Ltac chase :=
  repeat match goal with
  | E : takeSnapshot _ _ = Some _ |- _ => apply takeSnapshot_confined in E
  | E : appendEntry _ _ _ = Some _ |- _ => apply appendEntry_confined in E
  | E : mergeEntries _ _ _ = Some _ |- _ => apply mergeEntries_confined in E
  end;
  try done; try idle; try (by etrans).

Lemma addCommandLog_confined g me c q d s s' r : addCommandLog g me c q d s = Some (s', r) -> confined 0 ∅ s s'.
Proof. unfold addCommandLog. confine; chase. Qed.

Lemma getAppendEntriesArgs_confined p s s' r : getAppendEntriesArgs p s = Some (s', r) -> confined 0 ∅ s s'.
Proof. unfold getAppendEntriesArgs. confine. Qed.

Lemma updateLastApplied_confined s s' r : updateLastApplied s = Some (s', r) -> confined 0 ∅ s s'.
Proof. unfold updateLastApplied. confine. Qed.

Lemma checkElectionTimeout_confined rnd s s' : checkElectionTimeout rnd s = Some s' -> confined 0 ∅ s s'.
Proof. unfold checkElectionTimeout. confine. Qed.

Lemma handleNextConfigurationChange_confined s s' r :
  handleNextConfigurationChange s = Some (s', r) -> confined 0 ∅ s s'.
Proof.
  unfold handleNextConfigurationChange, addConfigLogUnlocked, applyConfigurationLocked.
  confine; chase.
Qed.

Lemma handleConfigurationRPC_confined e s s' r : handleConfigurationRPC e s = Some (s', r) -> confined 0 ∅ s s'.
Proof. apply handleNextConfigurationChange_confined. Qed.

Lemma removeUnvotingServer_confined p s : confined 0 ∅ s (removeUnvotingServer p s).1.
Proof.
  unfold removeUnvotingServer. destruct (unvotingServers s !! p); [| done].
  split; [simpl; lia |]. simpl. rewrite dom_delete_L. set_solver.
Qed.

Lemma addNewServer_confined p s : confined 0 ∅ s (addNewServer p s).
Proof. unfold addNewServer. confine. Qed.

Lemma term_confined t s : confined 0 ∅ s (if currentTerm s <? t then updateCurrentTerm t s else s).
Proof. case_match; idle. Qed.

Lemma handleAppendEntries_confined `{GoPlatform} g me args s s' r :
  handleAppendEntries g me args s = Some (s', r) -> confined 0 ∅ s s'.
Proof.
  unfold handleAppendEntries. intros E. run_step. destruct r0. run_step; [by run_step |].
  assert (confined 0 ∅ s (stepDown (if currentTerm s <? ae_Term args then updateCurrentTerm (ae_Term args) s else s)))
    as Hs by (etrans; [apply term_confined | apply stepDown_confined]).
  revert E Hs. generalize (stepDown (if currentTerm s <? ae_Term args then updateCurrentTerm (ae_Term args) s else s)).
  intros s1 E Hs. etrans; [exact Hs |]. unfold advanceCommit in E. confine; chase.
Qed.

Lemma handleRequestToVote_confined me args s s' r :
  handleRequestToVote me args s = Some (s', r) -> confined 0 ∅ s s'.
Proof. unfold handleRequestToVote, stopElectionTimeoutLocked. confine. Qed.

Lemma handleInstallSnapshotRequest_confined me args s : confined 1 ∅ s (handleInstallSnapshotRequest me args s).1.
Proof.
  unfold handleInstallSnapshotRequest. destruct (_ <? currentTerm s); [split; [simpl; lia | set_solver] |].
  pose proof (term_confined (is_Term args) s) as [Hl Hd]. revert Hl Hd.
  generalize (if currentTerm s <? is_Term args then updateCurrentTerm (is_Term args) s else s) as s1.
  intros s1 Hl Hd. cbv zeta. destruct (_ <=? _); cbn [fst]; (split; [| exact Hd]); fields;
    rewrite ?length_app; simpl; lia.
Qed.

Lemma winElection_confined me s s' : winElection me s = Some s' -> confined 0 ∅ s s'.
Proof. unfold winElection, addNoopLogLocked. confine; chase. Qed.

Lemma updateElection_confined resp s : confined 0 ∅ s (updateElection resp s).1.
Proof. unfold updateElection, stopElectionTimeoutLocked. confine. Qed.

Lemma handleAppendEntriesResponse_confined me resp s : confined 0 ∅ s (handleAppendEntriesResponse me resp s).1.
Proof. unfold handleAppendEntriesResponse. confine. Qed.

Lemma handleInstallSnapshotResponse_confined me resp s : confined 0 ∅ s (handleInstallSnapshotResponse me resp s).1.
Proof. unfold handleInstallSnapshotResponse. confine. Qed.

(** ** The handlers *)

Section handlers.
Context {SM ST : Type}.
Implicit Types n : RaftNode SM ST.

Definition moves (k : nat) (X : gset ServerID) {A} (m : Handler SM ST A) : Prop :=
  forall n n' out a, m n = Some (n', out, a) -> cfg n' = cfg n /\ confined k X (state n) (state n').

Lemma moves_after {A B} k X (m : Handler SM ST A) (f : A -> Handler SM ST B) :
  moves 0 ∅ m -> (forall a, moves k X (f a)) -> moves k X (m ≫= f).
Proof.
  intros Hm Hf n n' out b E. apply bind_inv in E as (n1 & o1 & a & o2 & E1 & E2 & ->).
  destruct (Hm _ _ _ _ E1) as [C1 D1], (Hf _ _ _ _ _ E2) as [C2 D2].
  split; [by rewrite C2 | pose proof (confined_trans 0 k ∅ X _ _ _ D1 D2) as D; by rewrite union_empty_l_L in D].
Qed.

Lemma moves_before {A B} k X (m : Handler SM ST A) (f : A -> Handler SM ST B) :
  moves k X m -> (forall a, moves 0 ∅ (f a)) -> moves k X (m ≫= f).
Proof.
  intros Hm Hf n n' out b E. apply bind_inv in E as (n1 & o1 & a & o2 & E1 & E2 & ->).
  destruct (Hm _ _ _ _ E1) as [C1 D1], (Hf _ _ _ _ _ E2) as [C2 D2].
  split; [by rewrite C2 |]. pose proof (confined_trans k 0 X ∅ _ _ _ D1 D2) as D.
  by rewrite union_empty_r_L, Nat.add_0_r in D.
Qed.

Lemma moves_more {A} k X (m : Handler SM ST A) : moves 0 ∅ m -> moves k X m.
Proof. intros Hm n n' out a E. destruct (Hm _ _ _ _ E) as [C [L D]]. split; [done |]. split; [lia | set_solver]. Qed.

Lemma moves_call {A} (f : nodeState -> option (nodeState * A)) k X :
  (forall s s' r, f s = Some (s', r) -> confined k X s s') -> moves k X (call f).
Proof.
  intros Hf n n' out a E. unfold call in E. destruct (f (state n)) as [[s b]|] eqn:Ef; [| done].
  injection E as <- _ _. split; [done | by eapply Hf].
Qed.

Lemma moves_pure {A} (f : nodeState -> nodeState * A) k X :
  (forall s, confined k X s (f s).1) -> moves k X (call (fun s => Some (f s))).
Proof. intros Hf. apply moves_call. intros s s' r [= E]. specialize (Hf s). by rewrite E in Hf. Qed.

Lemma moves_calls (f : nodeState -> option nodeState) :
  (forall s s', f s = Some s' -> confined 0 ∅ s s') -> moves 0 ∅ (calls f).
Proof.
  intros Hf n n' out a E. unfold calls in E. destruct (f (state n)) as [s|] eqn:Ef; [| done].
  injection E as <- _ _. split; [done | by eapply Hf].
Qed.

Lemma moves_still {A} (m : Handler SM ST A) :
  (forall n n' out a, m n = Some (n', out, a) -> cfg n' = cfg n /\ state n' = state n) -> moves 0 ∅ m.
Proof. intros Hm n n' out a E. destruct (Hm _ _ _ _ E) as [? ->]. done. Qed.
Lemma moves_modify f : (forall n, cfg (f n) = cfg n /\ state (f n) = state n) -> moves 0 ∅ (modify f).
Proof. intros Hf. apply moves_still. intros n n' out r [= <- _ _]. apply Hf. Qed.
Lemma moves_update f k X : (forall s, confined k X s (f s)) -> moves k X (update f).
Proof. intros Hf n n' out r [= <- _ _]. split; [done |]. apply Hf. Qed.
Lemma moves_gets {A} (f : _ -> A) : moves 0 ∅ (gets f).
Proof. apply moves_still. by intros n n' out a [= <- _ _]. Qed.
Lemma moves_emit e : moves 0 ∅ (emit e).
Proof. apply moves_still. by intros n n' out a [= <- _ _]. Qed.
Lemma moves_skip : moves 0 ∅ skip.
Proof. apply moves_still. by intros n n' out a [= <- _ _]. Qed.
Lemma moves_each {A} (f : A -> Handler SM ST unit) l : (forall x, moves 0 ∅ (f x)) -> moves 0 ∅ (each f l).
Proof. intros Hf. induction l as [|x l IH]; simpl; [apply moves_skip | by apply moves_after]. Qed.
End handlers.

(** The operations of the state, as far as a handler calls them. *)
Create HintDb moving.
#[export] Hint Resolve getAppendEntriesArgs_confined updateLastApplied_confined checkElectionTimeout_confined
  handleNextConfigurationChange_confined handleConfigurationRPC_confined handleAppendEntries_confined
  handleRequestToVote_confined winElection_confined checkCommits_confined addCommandLog_confined removeUnvotingServer_confined
  updateElection_confined handleAppendEntriesResponse_confined handleInstallSnapshotResponse_confined
  handleInstallSnapshotRequest_confined : moving.

(** [moving] proves [moves 0 ∅ m] for a handler made of these parts. *)
Ltac moving :=
  repeat first
    [ apply moves_gets | apply moves_skip | apply moves_emit
    | apply moves_call; solve [eauto with moving]
    | apply moves_pure; solve [eauto with moving]
    | apply moves_calls; solve [eauto with moving]
    | apply moves_update; intros; solve [ idle | apply stopElectionTimeout_confined | apply addNewServer_confined ]
    | apply moves_modify; intros; split; reflexivity
    | simple apply moves_after; [| intros] | simple apply moves_each; intros
    | case_match | case_decide ].

Section tasks.
Context {SM ST : Type} `{StateMachine SM, Storage ST, GoPlatform}.
Implicit Types n : RaftNode SM ST.

Lemma persistState_moves : moves 0 ∅ (persistState (SM := SM) (ST := ST)).
Proof.
  unfold persistState, savePersistent. apply moves_after; [| intros ps; moving]; apply moves_still; intros n n' out r.
  - unfold readPersistent. destruct (getPersistentState _); [| done]. by intros [= <- _ _].
  - unfold saveNewSnapshot. repeat case_match; by intros [= <- _ _].
Qed.

Lemma sendInstallSnapshotRPC_moves p : moves 0 ∅ (sendInstallSnapshotRPC (SM := SM) (ST := ST) p).
Proof.
  apply moves_still. intros n n' out a. unfold sendInstallSnapshotRPC.
  destruct (getLastSnapshot _); [| by intros [= <- _ _]].
  destruct (prepareInstallSnapshotRPC _ _); [| done]. by intros [= <- _ _].
Qed.

Lemma sendAppendEntriesRPCs_moves : moves 0 ∅ (sendAppendEntriesRPCs (SM := SM) (ST := ST)).
Proof. unfold sendAppendEntriesRPCs, sendOne. moving; apply sendInstallSnapshotRPC_moves. Qed.

Lemma awaitConfig_moves r : moves 0 ∅ (awaitConfig (SM := SM) (ST := ST) r).
Proof. unfold awaitConfig. moving. Qed.

Lemma promoteUnvotingServer_moves p : moves 0 ∅ (promoteUnvotingServer (SM := SM) (ST := ST) p).
Proof. unfold promoteUnvotingServer. moving; apply awaitConfig_moves. Qed.

Lemma applyLogs_moves fuel : moves 0 ∅ (applyLogs (SM := SM) (ST := ST) fuel).
Proof.
  induction fuel as [|fuel IH]; [by intros n n' out a |]. cbn [applyLogs].
  apply moves_after; [moving |]. intros [i|]; [| moving].
  apply moves_after; [| intros e; apply moves_after; [| done]].
  - apply moves_still. intros n n' out e. destruct (getLog _ _); [| done]. by intros [= <- _ _].
  - assert (moves 0 ∅ (applyCommand (SM := SM) (ST := ST) e)) as Hc.
    { unfold applyCommand. moving; apply moves_still; intros n n' out r; unfold applyData;
        destruct (sm_Apply _ _) as [[]|]; try done; by intros [= <- _ _]. }
    unfold applyLog, completeCommand, completeConfig. moving. exact Hc.
Qed.

Lemma campaign_moves : moves 0 ∅ (campaign (SM := SM) (ST := ST)).
Proof.
  unfold campaign, sendRequestVoteRPCs. apply moves_after; [moving | intros me].
  apply moves_after; [| intros; moving]. apply moves_call. intros s s' r E.
  destruct (prepareRequestVoteRPC me s); [| done]. by injection E as <- _.
Qed.

Lemma beginElection_moves now : moves 0 ∅ (beginElection (SM := SM) (ST := ST) now).
Proof. unfold beginElection, startElection. moving. apply persistState_moves. Qed.

(** The snapshots an event may put on the channel. *)
Definition installs (ev : event) : nat := match ev with EvInstallSnapshot _ => 1 | _ => 0 end.

Lemma serveInstallSnapshot_moves args : moves 1 ∅ (serveInstallSnapshot (SM := SM) (ST := ST) args).
Proof.
  unfold serveInstallSnapshot. apply moves_after; [moving | intros me]. apply moves_before.
  - apply moves_pure. intros s. apply handleInstallSnapshotRequest_confined.
  - intros r. moving. apply persistState_moves.
Qed.

Lemma handleFollower_moves rnd clock ev : moves (installs ev) ∅ (handleFollower (SM := SM) (ST := ST) rnd clock ev).
Proof.
  unfold handleFollower. apply moves_after; [moving | intros _]. destruct ev; cbn [installs].
  - apply moves_after; [moving | intros _; unfold serveAppendEntries; moving; apply persistState_moves].
  - apply moves_after; [moving | intros _; unfold serveRequestVote; moving; apply persistState_moves].
  - apply serveInstallSnapshot_moves.
  - moving.
  - moving.
  - unfold recordWin. moving; first [apply beginElection_moves | apply persistState_moves | apply campaign_moves].
  - moving.
Qed.

Lemma handleCandidate_moves rnd clock ev : moves (installs ev) ∅ (handleCandidate (SM := SM) (ST := ST) rnd clock ev).
Proof.
  unfold handleCandidate. apply moves_after; [moving | intros _]. destruct ev; cbn [installs].
  - unfold serveAppendEntries; moving; apply persistState_moves.
  - unfold serveRequestVote; moving; apply persistState_moves.
  - apply serveInstallSnapshot_moves.
  - unfold recordWin. moving; first [apply persistState_moves | apply sendAppendEntriesRPCs_moves].
  - moving.
  - moving; first [apply beginElection_moves | apply campaign_moves].
  - moving.
Qed.

Lemma handleLeader_moves ev : moves (installs ev) ∅ (handleLeader (SM := SM) (ST := ST) ev).
Proof.
  unfold handleLeader. destruct ev; cbn [installs].
  - unfold serveAppendEntries; moving; apply persistState_moves.
  - unfold serveRequestVote; moving; apply persistState_moves.
  - apply moves_before; [apply serveInstallSnapshot_moves | intros _; moving].
  - moving.
  - moving.
  - moving. apply sendAppendEntriesRPCs_moves.
  - moving.
Qed.

Lemma run_moves rnd clock ev : moves (installs ev) ∅ (run (SM := SM) (ST := ST) rnd clock ev).
Proof.
  unfold run. apply moves_after; [intros n n' out r; apply applyLogs_moves | intros _].
  apply moves_after; [unfold checkConfigurationsToStart; moving; apply awaitConfig_moves | intros _].
  apply moves_after; [moving | intros []];
    [apply handleFollower_moves | apply handleCandidate_moves | apply handleLeader_moves].
Qed.

Lemma appendEntriesResponse_moves resp : moves 0 ∅ (appendEntriesResponse (SM := SM) (ST := ST) resp).
Proof. unfold appendEntriesResponse. moving; first [apply sendInstallSnapshotRPC_moves | apply promoteUnvotingServer_moves]. Qed.

Lemma installSnapshotResponse_moves resp : moves 0 ∅ (installSnapshotResponse (SM := SM) (ST := ST) resp).
Proof. unfold installSnapshotResponse. moving; apply promoteUnvotingServer_moves. Qed.

Lemma handleApplyRequest_moves ch req : moves 0 ∅ (handleApplyRequest (SM := SM) (ST := ST) ch req).
Proof. unfold handleApplyRequest. moving; first [apply persistState_moves | apply sendAppendEntriesRPCs_moves]. Qed.

(** The servers a membership request makes joining ones. *)
Definition joins (req : configEntry) : gset ServerID := if Add (msg req) then {[Server (msg req)]} else ∅.

Lemma handleConfigurationMessage_moves req : moves 0 (joins req) (handleConfigurationMessage (SM := SM) (ST := ST) req).
Proof.
  unfold handleConfigurationMessage, joins. apply moves_after; [moving | intros r]. destruct r.
  1,2: apply moves_more; moving.
  destruct (Add (msg req)); [| moving; apply awaitConfig_moves].
  apply moves_after; [moving | intros _]. apply moves_after; [moving | intros _].
  apply moves_before; [| intros _; apply sendAppendEntriesRPCs_moves].
  apply moves_update. intros s. split; [simpl; lia |]. unfold addUnvotingServer. fields.
  rewrite dom_insert_L. set_solver.
Qed.
End tasks.
