(* ===== verification/Effects.v ===== *)
(** * Effects: what each handler may emit

    An effect system for the handlers: [emits P m] says that every effect of
    [m], its saves apart, satisfies [P] and that [m] does not connect the node. It composes along
    the monad, and gives for one iteration of the main loop which messages it
    can send in which role and to which event. *)
From S2P Require Import Prelude GoFloat Metrics Types State Storage SnapshotOps ConfigChange Log.
From S2P Require Import Election ElectionTheorems Control Node Handlers.

(** ** Kinds of effects *)

(** Signals to waiting clients, and goroutines started to wait. *)
Definition signal (e : effect) : Prop :=
  match e with SignalApplied _ | SignalConfig _ | AwaitConfig _ => True | _ => False end.

(** Replication messages. *)
Definition replication (e : effect) : Prop :=
  match e with SendAppendEntries _ _ | SendInstallSnapshot _ _ => True | _ => False end.

(** Vote requests. *)
Definition solicitation (e : effect) : Prop :=
  match e with SendRequestVote _ _ => True | _ => False end.

(** The reply to an RPC of the same kind. *)
Definition reply_to (ev : event) (e : effect) : Prop :=
  match ev, e with
  | EvAppendEntries _, ReplyAppendEntries _
  | EvRequestVote _, ReplyRequestVote _
  | EvInstallSnapshot _, ReplyInstallSnapshot _ => True
  | _, _ => False
  end.

Definition is_rpc (ev : event) : bool :=
  match ev with EvAppendEntries _ | EvRequestVote _ | EvInstallSnapshot _ => true | _ => false end.

Definition nothing (e : effect) : Prop := False.

(** The calls of the storage, and what leaves the node. *)
Definition is_save (e : effect) : bool :=
  match e with StateSaved _ | SnapshotSaved _ => true | _ => false end.

Definition outward (out : list effect) : list effect := filter (fun e => is_save e = false) out.

Lemma outward_app a b : outward (a ++ b) = outward a ++ outward b.
Proof. apply filter_app. Qed.

Lemma outward_saving {SM ST} (n : RaftNode SM ST) : outward (saving n) = [].
Proof. unfold saving. destruct (getLastSnapshot _); [case_match |]; done. Qed.

Lemma outward_forall (P : effect -> Prop) out : Forall P out -> Forall P (outward out).
Proof. intros HP. rewrite Forall_forall in *. intros e He. apply HP. by apply list_elem_of_filter in He as [_ He]. Qed.

Lemma forall_outward (P : effect -> Prop) out :
  (forall e, is_save e = true -> P e) -> Forall P (outward out) -> Forall P out.
Proof.
  intros Hs HP. rewrite Forall_forall in *. intros e He. destruct (is_save e) eqn:E; [by apply Hs |].
  apply HP. by apply (list_elem_of_filter (fun e => is_save e = false)).
Qed.

Lemma elem_of_outward e out : e ∈ outward out <-> is_save e = false /\ e ∈ out.
Proof. exact (list_elem_of_filter (fun e => is_save e = false) out e). Qed.

Section effects.
Context {SM ST : Type}.
Implicit Types n : RaftNode SM ST.
Implicit Types P Q : effect -> Prop.

(** ** The effect system *)

Definition emits {A} P (m : Handler SM ST A) : Prop :=
  forall n n' out a, m n = Some (n', out, a) -> connected n' = connected n /\ Forall P (outward out).

Lemma emits_mono {A} P Q (m : Handler SM ST A) : emits P m -> (forall e, P e -> Q e) -> emits Q m.
Proof.
  intros Hm Hi n n' out a E. destruct (Hm _ _ _ _ E) as [? Ho]. split; [done |].
  by eapply Forall_impl.
Qed.

Lemma emits_bind {A B} P (m : Handler SM ST A) (k : A -> Handler SM ST B) :
  emits P m -> (forall a, emits P (k a)) -> emits P (m ≫= k).
Proof.
  intros Hm Hk n n' out b E. apply bind_inv in E as (n1 & o1 & a & o2 & E1 & E2 & ->).
  destruct (Hm _ _ _ _ E1) as [C1 F1], (Hk _ _ _ _ _ E2) as [C2 F2].
  rewrite outward_app. split; [by rewrite C2 | by apply Forall_app].
Qed.

Lemma emits_emit P e : P e -> emits P (emit e).
Proof.
  intros He n n' out a [= <- <- _]. split; [done |]. unfold outward.
  rewrite filter_cons. case_decide; by constructor.
Qed.
Lemma emits_gets {A} P (f : _ -> A) : emits P (gets f).
Proof. intros n n' out a [= <- <- _]. auto. Qed.
Lemma emits_skip P : emits P skip.
Proof. intros n n' out a [= <- <- _]. auto. Qed.
Lemma emits_modify P f : (forall n, connected (f n) = connected n) -> emits P (modify f).
Proof. intros Hf n n' out a [= <- <- _]. auto. Qed.
Lemma emits_update P f : emits P (update f).
Proof. by apply emits_modify. Qed.
Lemma emits_call {A} P (f : nodeState -> option (nodeState * A)) : emits P (call f).
Proof.
  intros n n' out a E. unfold call in E. destruct (f (state n)) as [[s b]|]; [| done].
  injection E as <- <- _. auto.
Qed.
Lemma emits_calls P f : emits P (calls f).
Proof.
  intros n n' out a E. unfold calls in E. destruct (f (state n)) as [s|]; [| done].
  injection E as <- <- _. auto.
Qed.
Lemma emits_each {A} P (f : A -> Handler SM ST unit) l : (forall x, emits P (f x)) -> emits P (each f l).
Proof. intros Hf. induction l as [|x l IH]; simpl; [apply emits_skip | by apply emits_bind]. Qed.
End effects.

(** [emitting] proves [emits P m] for a handler made of these parts. *)
Ltac emitting :=
  repeat first
    [ apply emits_gets | apply emits_skip | apply emits_call | apply emits_calls
    | apply emits_update | apply emits_modify; reflexivity | apply emits_emit; exact I
    | simple apply emits_bind; [| intros] | simple apply emits_each; intros
    | case_match | case_decide ].

(** ** The handlers *)

Section handlers.
Context {SM ST : Type} `{StateMachine SM, Storage ST, GoPlatform}.
Implicit Types n : RaftNode SM ST.

Lemma persistState_emits P : emits P (persistState (SM := SM) (ST := ST)).
Proof.
  unfold persistState, savePersistent. apply emits_bind.
  { intros n n' out a. unfold readPersistent. destruct (getPersistentState _); [| done]. intros [= <- <- _]. auto. }
  intros ps. apply emits_bind; [by apply emits_modify | intros _]. apply emits_bind.
  { by intros n n' out a [= <- <- _]. }
  intros _ n n' out a. unfold saveNewSnapshot.
  destruct (getLastSnapshot (state n)); [| by intros [= <- <- _]].
  case_match; [| by intros [= <- <- _]].
  destruct (SaveSnapshot _ _) as [st []]; by intros [= <- <- _].
Qed.

Lemma applyData_emits P data : emits P (applyData (SM := SM) (ST := ST) data).
Proof.
  intros n n' out a. unfold applyData. destruct (sm_Apply _ _) as [[m ok]|]; [| done].
  by intros [= <- <- _].
Qed.

Lemma applyLog_emits e : emits (SM := SM) (ST := ST) signal (applyLog e).
Proof. unfold applyLog, applyCommand, completeCommand, completeConfig. emitting; apply applyData_emits. Qed.

Lemma applyLogs_emits fuel : emits (SM := SM) (ST := ST) signal (applyLogs fuel).
Proof.
  induction fuel as [|fuel IH]; [by intros n n' out a |]. simpl. apply emits_bind; [emitting |].
  intros [i|]; [| emitting]. apply emits_bind; [| intros e; apply emits_bind; [apply applyLog_emits | done]].
  intros n n' out a. unfold getLog. destruct (logs (state n) !! i); [| done]. intros [= <- <- _]. auto.
Qed.

Lemma checkConfigurationsToStart_emits : emits (SM := SM) (ST := ST) signal checkConfigurationsToStart.
Proof. unfold checkConfigurationsToStart, awaitConfig. emitting. Qed.

Lemma sendInstallSnapshotRPC_emits p : emits (SM := SM) (ST := ST) replication (sendInstallSnapshotRPC p).
Proof.
  intros n n' out a. unfold sendInstallSnapshotRPC.
  destruct (getLastSnapshot (state n)); [| intros [= <- <- _]; auto].
  destruct (prepareInstallSnapshotRPC _ _); [| done]. intros [= <- <- _]. split; [done |].
  by constructor; [| constructor].
Qed.

Lemma sendAppendEntriesRPCs_emits : emits (SM := SM) (ST := ST) replication sendAppendEntriesRPCs.
Proof.
  assert (forall p, emits (SM := SM) (ST := ST) replication (sendOne p)) as Hone.
  { intros p. apply emits_bind; [emitting |]. intros [args|]; [emitting | apply sendInstallSnapshotRPC_emits]. }
  unfold sendAppendEntriesRPCs. emitting; apply Hone.
Qed.

Lemma campaign_emits : emits (SM := SM) (ST := ST) solicitation campaign.
Proof. unfold campaign, sendRequestVoteRPCs. emitting. Qed.

Lemma beginElection_emits P now : emits (SM := SM) (ST := ST) P (beginElection now).
Proof. unfold beginElection. emitting. apply persistState_emits. Qed.

Lemma win_emits P me clock k : emits (SM := SM) (ST := ST) P (calls (winElection me) ;; recordWin clock k ;; persistState).
Proof. unfold recordWin. emitting. apply persistState_emits. Qed.

(** ** Serving *)

(** The handler of an inbound RPC. *)
Definition serves (ev : event) : option (Handler SM ST unit) :=
  match ev with
  | EvAppendEntries args => Some (serveAppendEntries args)
  | EvRequestVote args => Some (serveRequestVote args)
  | EvInstallSnapshot args => Some (serveInstallSnapshot args)
  | _ => None
  end.

(** [m] emits one reply to [ev], after its saves, and nothing else. *)
Definition one_reply ev (out : list effect) : Prop :=
  exists o e, out = o ++ [e] /\ outward o = [] /\ reply_to ev e.

Definition replies_once ev (m : Handler SM ST unit) : Prop :=
  forall n n' out u, m n = Some (n', out, u) -> connected n' = connected n /\ one_reply ev out.

Lemma emits_nothing {A} (m : Handler SM ST A) n n' out a :
  emits nothing m -> m n = Some (n', out, a) -> connected n' = connected n /\ outward out = [].
Proof.
  intros Hm E. destruct (Hm _ _ _ _ E) as [? F]. split; [done |].
  destruct (outward out) as [|e o]; [done |]. by apply Forall_cons in F as [[] _].
Qed.

Lemma calls_none f n n' out u :
  calls (SM := SM) (ST := ST) f n = Some (n', out, u) -> connected n' = connected n /\ out = [].
Proof. unfold calls. destruct (f (state n)); [| done]. by intros [= <- <- _]. Qed.

Lemma reply_last {A} ev (m : Handler SM ST A) (k : A -> Handler SM ST unit) :
  emits nothing m -> (forall a, replies_once ev (k a)) -> replies_once ev (m ≫= k).
Proof.
  intros Hm Hk n n' out u E. apply bind_inv in E as (n1 & o1 & a & o2 & E1 & E2 & ->).
  destruct (emits_nothing _ _ _ _ _ Hm E1) as [C1 F1], (Hk _ _ _ _ _ E2) as (C2 & o & e & -> & Ho & He).
  split; [by rewrite C2 |]. exists (o1 ++ o), e. rewrite outward_app, F1, Ho. by rewrite app_assoc.
Qed.

Lemma reply_then ev (m : Handler SM ST unit) f n n' out a :
  replies_once ev m -> (m ;; calls f) n = Some (n', out, a) ->
  connected n' = connected n /\ one_reply ev out.
Proof.
  intros Hm E. apply bind_inv in E as (n1 & o1 & u & o2 & E1 & E2 & ->).
  destruct (Hm _ _ _ _ E1) as (C1 & Ho), (calls_none _ _ _ _ _ E2) as [C2 ->].
  rewrite app_nil_r. split; [by rewrite C2 | done].
Qed.

Lemma reply_emit ev e : reply_to ev e -> replies_once ev (emit e).
Proof. intros He n n' out u [= <- <- _]. split; [done |]. by exists [], e. Qed.

Lemma serves_once ev m : serves ev = Some m -> replies_once ev m.
Proof.
  intros Hm. destruct ev; try done; injection Hm as <-;
    repeat (apply reply_last; [first [apply emits_gets | apply emits_call | apply persistState_emits] | intros]);
    by apply reply_emit.
Qed.

(** ** One iteration *)

(** What the reaction of a role loop to [ev] may emit. *)
Definition responds ev n n' (out : list effect) : Prop :=
  if is_rpc ev then connected n' = connected n /\ one_reply ev out
  else
    match ev with
    | EvConnected => connected n' = true /\ out = []
    | EvTimer => connected n' = connected n /\
        (Forall replication (outward out) /\ role (state n) = Leader \/
         Forall solicitation (outward out) /\ (role (state n) = Candidate \/ connected n = true) \/
         outward out = [])
    | EvVoteResponse _ => connected n' = connected n /\ Forall replication (outward out)
    | _ => connected n' = connected n /\ out = []
    end.

(** A prefix that emits nothing and keeps the role. *)
Lemma responds_prefix {A} (m : Handler SM ST A) (k : A -> Handler SM ST unit) n n' out u :
  (forall n1 o a, m n = Some (n1, o, a) ->
     connected n1 = connected n /\ o = [] /\ role (state n1) = role (state n)) ->
  (m ≫= k) n = Some (n', out, u) ->
  exists n1 a, k a n1 = Some (n', out, u) /\ connected n1 = connected n /\ role (state n1) = role (state n).
Proof.
  intros Hm E. apply bind_inv in E as (n1 & o1 & a & o2 & E1 & E2 & ->).
  destruct (Hm _ _ _ E1) as (C1 & -> & Hr). by exists n1, a.
Qed.

Lemma timeout_role rnd n n' o u :
  calls (checkElectionTimeout rnd) n = Some (n', o, u) -> role (state n') = role (state n).
Proof.
  unfold calls, checkElectionTimeout. destruct (electionTimeoutStarted (state n)); [by intros [= <- _ _] |].
  destruct (Intn _ _); [simpl | done]. by intros [= <- _ _].
Qed.

Lemma stop_role n n' o u :
  update stopElectionTimeout n = Some (n', o, u) -> role (state n') = role (state n).
Proof.
  intros [= <- _ _]. fields. unfold stopElectionTimeout, stopElectionTimeoutLocked.
  by destruct (electionTimer (state n)).
Qed.

Lemma prefix_timeout rnd (k : unit -> Handler SM ST unit) n n' out u :
  (calls (checkElectionTimeout rnd) ≫= k) n = Some (n', out, u) ->
  exists n1, k tt n1 = Some (n', out, u) /\ connected n1 = connected n /\ role (state n1) = role (state n).
Proof.
  intros E. apply responds_prefix in E as (n1 & [] & E); [by exists n1 |].
  intros ? ? ? E1. destruct (calls_none _ _ _ _ _ E1). repeat split; [done.. |]. by eapply timeout_role.
Qed.

Lemma prefix_stop (k : unit -> Handler SM ST unit) n n' out u :
  (update stopElectionTimeout ≫= k) n = Some (n', out, u) ->
  exists n1, k tt n1 = Some (n', out, u) /\ connected n1 = connected n /\ role (state n1) = role (state n).
Proof.
  intros E. apply responds_prefix in E as (n1 & [] & E); [by exists n1 |].
  intros ? ? ? E1. pose proof (stop_role _ _ _ _ E1). by injection E1 as <- <- _.
Qed.

(** Serving, with or without [checkCommits] after it. *)
Lemma serve_responds ev m n n' out u :
  serves ev = Some m -> m n = Some (n', out, u) -> responds ev n n' out.
Proof.
  intros Hm E. unfold responds. assert (is_rpc ev = true) as -> by (by destruct ev).
  exact (serves_once ev m Hm _ _ _ _ E).
Qed.

Lemma serve_commit_responds ev m n n' out u :
  serves ev = Some m -> (m ;; calls checkCommits) n = Some (n', out, u) -> responds ev n n' out.
Proof.
  intros Hm E. unfold responds. assert (is_rpc ev = true) as -> by (by destruct ev).
  eapply reply_then; [by apply serves_once | exact E].
Qed.

Lemma responds_moves ev n n1 n' out :
  connected n1 = connected n -> role (state n1) = role (state n) ->
  responds ev n1 n' out -> responds ev n n' out.
Proof. intros Hc Hr. unfold responds. by rewrite Hc, Hr. Qed.

(** A campaign that may begin: a vote request, or, without peers, a win. *)
Lemma beginElection_then (k : Handler SM ST unit) now n n' out u :
  emits solicitation k -> (beginElection now ;; k) n = Some (n', out, u) ->
  connected n' = connected n /\ Forall solicitation (outward out).
Proof. intros Hk E. eapply emits_bind; [apply beginElection_emits | intros; exact Hk | exact E]. Qed.

Lemma handleFollower_responds rnd clock ev n n' out u :
  role (state n) = Follower -> handleFollower rnd clock ev n = Some (n', out, u) -> responds ev n n' out.
Proof.
  intros Hr E. apply prefix_timeout in E as (n1 & E & Hc1 & Hr1).
  apply (responds_moves ev n n1); [done | done |].
  destruct ev eqn:Eev.
  - apply prefix_stop in E as (n2 & E & Hc2 & Hr2). apply (responds_moves _ n1 n2); [done | done |].
    by eapply serve_responds.
  - apply prefix_stop in E as (n2 & E & Hc2 & Hr2). apply (responds_moves _ n1 n2); [done | done |].
    by eapply serve_responds.
  - by eapply serve_responds.
  - by injection E as <- <- _.
  - by injection E as <- <- _.
  - apply prefix_stop in E as (n2 & E & Hc2 & Hr2). apply (responds_moves _ n1 n2); [done | done |].
    apply bind_inv in E as (? & ? & up & o & [= <- <- <-] & E & ->). cbn [app].
    unfold responds, is_rpc. destruct (connected n2) eqn:Ec; cbn [negb] in E; [| injection E as <- <- _; auto 6].
    eapply beginElection_then in E as [Hc3 F]; [rewrite Hc3, Ec; auto 8 |].
    unfold recordWin. emitting; [apply persistState_emits | apply campaign_emits].
  - by injection E as <- <- _.
Qed.

Lemma handleCandidate_responds rnd clock ev n n' out u :
  role (state n) = Candidate -> handleCandidate rnd clock ev n = Some (n', out, u) -> responds ev n n' out.
Proof.
  intros Hr E. apply prefix_timeout in E as (n1 & E & Hc1 & Hr1).
  apply (responds_moves ev n n1); [done | done |].
  destruct ev eqn:Eev; try (by eapply serve_responds); try (by injection E as <- <- _).
  - assert (emits (SM := SM) (ST := ST) replication (won ← call (fun s => Some (updateElection resp s));
      if won : bool then
        me ← gets id;
        calls (winElection me) ;; recordWin clock 0 ;; persistState ;; sendAppendEntriesRPCs
      else skip)) as Hem.
    { unfold recordWin. emitting; [apply persistState_emits | apply sendAppendEntriesRPCs_emits]. }
    exact (Hem _ _ _ _ E).
  - apply prefix_stop in E as (n2 & E & Hc2 & Hr2). apply (responds_moves _ n1 n2); [done | done |].
    eapply beginElection_then in E as [Hc3 F]; [| apply campaign_emits].
    split; [done |]. right; left. split; [done |]. left. by rewrite Hr2, Hr1.
Qed.

Lemma handleLeader_responds ev n n' out u :
  role (state n) = Leader -> handleLeader ev n = Some (n', out, u) -> responds ev n n' out.
Proof.
  intros Hr E. destruct ev eqn:Eev; try (by eapply serve_commit_responds);
    try (by injection E as <- <- _).
  - destruct (emits_calls replication checkCommits _ _ _ _ E) as [C F]. done.
  - apply bind_inv in E as (n1 & o1 & [] & o2 & [= <- <-] & E & ->).
    destruct (calls_none _ _ _ _ _ E) as [C ->]. split; [by rewrite C | done].
  - apply bind_inv in E as (n1 & o1 & [] & o2 & E1 & E & ->).
    destruct (sendAppendEntriesRPCs_emits _ _ _ _ E1) as [C1 F1].
    destruct (calls_none _ _ _ _ _ E) as [C2 ->].
    rewrite app_nil_r. split; [by rewrite C2 |]. by left.
Qed.

(** One iteration of the main loop: signals first, then the response to the
    event, in the role the node has. *)
Lemma run_responds rnd clock ev n n' out u :
  state_inv (state n) -> run rnd clock ev n = Some (n', out, u) ->
  exists n1 o1 o2, out = o1 ++ o2 /\ Forall signal (outward o1) /\ connected n1 = connected n /\
    role (state n1) = role (state n) /\ state_inv (state n1) /\ responds ev n1 n' o2.
Proof.
  intros Hn Hrun. apply bind_inv in Hrun as (n1 & o1 & [] & o12 & E1 & Hrun & ->).
  destruct (applyLogs_emits _ _ _ _ _ E1) as [C1 F1].
  pose proof (calm_inv _ _ _ _ (applyLogs_calm True _ _ _ _ _ Hn E1)) as Hn1.
  destruct (applyLogs_control _ _ _ _ _ (inv_array _ Hn) E1) as [_ Ec1].
  apply bind_inv in Hrun as (n2 & o2 & [] & o3 & E2 & Hrun & ->).
  destruct (checkConfigurationsToStart_emits _ _ _ _ E2) as [C2 F2].
  destruct (runs_to_det _ _ _ _ _ _ (checkConfigurationsToStart_election n1 Hn1) E2) as (_ & _ & Er2 & _).
  pose proof (calm_inv _ _ _ _ (calm_det _ _ _ _ _ _ (checkConfigurationsToStart_calm True n1 Hn1) E2)) as Hn2.
  apply bind_inv in Hrun as (? & ? & r & o5 & [= <- <- <-] & Hrun & ->). unfold getRole in Hrun.
  exists n2, (o1 ++ o2), o5. split; [by rewrite <- app_assoc |]. rewrite outward_app. split; [by apply Forall_app |].
  split; [by rewrite C2 |]. split.
  { transitivity (role (state n1)); [exact Er2 | exact (f_equal c_role Ec1)]. }
  split; [done |]. destruct (role (state n2)) eqn:Er.
  - by eapply handleFollower_responds.
  - by eapply handleCandidate_responds.
  - by eapply handleLeader_responds.
Qed.
End handlers.
