(* ===== verification/NodeTheorems.v ===== *)
(** * NodeTheorems: what a node guarantees

    Applying in order, deduplication, completion signals, persistence and
    restart, and membership as the goroutines of RaftNode carry them out. *)
From S2P Require Import Prelude GoFloat Metrics Types State Storage SnapshotOps ConfigChange Log.
From S2P Require Import Samples LogTheorems Election ElectionTheorems Control ConfigTheorems Node Servers Handlers.

(** ** Applying *)

(** The entries the loop will apply: from [lastApplied] to the commit index, as
    far as the log goes. *)
Definition toApply (s : nodeState) : list RaftLog :=
  take (Z.to_nat (Z.min (commitIndex s) (lastIdx s) - lastApplied s))
       (drop (Z.to_nat (lastApplied s + 1 - base s)) (live s)).

Lemma toApply_step s e :
  log_ok s -> base s - 1 <= lastApplied s ->
  lastApplied s < commitIndex s -> lastApplied s < lastIdx s ->
  log_at s (lastApplied s + 1) = Some e ->
  toApply s = e :: toApply (s <| lastApplied := lastApplied s + 1 |>) /\
  Index e = lastApplied s + 1.
Proof.
  intros [Hok Hc] Hb H1 H2 He. pose proof (log_at_Some _ _ _ Hc He) as [_ Hidx].
  split; [| done]. unfold toApply. fields.
  change (base (set_field lastApplied _ s)) with (base s).
  change (lastIdx (set_field lastApplied _ s)) with (lastIdx s).
  change (live (set_field lastApplied _ s)) with (live s).
  change (commitIndex (set_field lastApplied _ s)) with (commitIndex s).
  unfold log_at in He. rewrite decide_True in He by lia.
  rewrite (drop_S _ _ _ He).
  replace (Z.to_nat (Z.min _ _ - lastApplied s)) with
    (S (Z.to_nat (Z.min (commitIndex s) (lastIdx s) - (lastApplied s + 1)))) by lia.
  simpl. do 3 f_equal. lia.
Qed.

Section applying.
Context {SM ST : Type} `{StateMachine SM, Storage ST, GoPlatform}.
Implicit Types n : RaftNode SM ST.

Lemma applied_state_log s s' :
  applied_state s s' -> log_ok s ->
  log_ok s' /\ toApply s' = toApply s /\ lastApplied s' = lastApplied s /\
  commitIndex s' = commitIndex s /\ base s' = base s /\ lastIdx s' = lastIdx s /\ role s' = role s.
Proof. unfold applied_state. intros -> Hlog. split; [by apply (log_ok_update s) | done]. Qed.

(** The entries applied one after the other; [None] when [Apply] panics on one. *)
Fixpoint apply_all (es : list RaftLog) (m : SM) : option SM :=
  match es with
  | [] => Some m
  | e :: es' => m' ← apply_sm e m; apply_all es' m'
  end.

(** The invariant of the loop, for any sufficient fuel. *)
Lemma applyLogs_run fuel n :
  log_ok (state n) -> in_int64 (lastApplied (state n)) -> in_int64 (commitIndex (state n)) ->
  base (state n) - 1 <= lastApplied (state n) ->
  (Z.to_nat (commitIndex (state n) - lastApplied (state n)) < fuel)%nat ->
  match apply_all (toApply (state n)) (sm n) with
  | Some m' =>
      runs_to (applyLogs fuel) n (fun n' out _ =>
        sm n' = m' /\
        lastApplied (state n') =
          Z.max (lastApplied (state n)) (Z.min (commitIndex (state n)) (lastIdx (state n))) /\
        log_ok (state n') /\ live (state n') = live (state n) /\
        commitIndex (state n') = commitIndex (state n) /\
        (role (state n) = Leader ->
         signalled out = omap (fun e => pendingCommands n !! Index e) (toApply (state n))))
  | None => applyLogs fuel n = None
  end.
Proof.
  revert n. induction fuel as [|fuel IH]; intros n Hlog Hint Hcint Hb Hfuel; [lia |].
  set (s := state n) in *. destruct (updateLastApplied_run s Hlog Hint Hcint Hb) as [Hrun Hnext].
  cbn [applyLogs].
  destruct (decide (lastApplied s < commitIndex s /\ lastApplied s < lastIdx s)) as [[Hlc Hll]|Hd].
  2: { assert (toApply s = []) as ->.
       { unfold toApply. replace (Z.to_nat (Z.min _ _ - _)) with 0%nat by lia. done. }
       apply runs_to_bind. eapply runs_to_call; [exact Hrun |]. apply runs_to_skip.
       assert (n <| state := s |> = n) as -> by (unfold s; by destruct n).
       fold s. split; [done |]. split; [lia |]. done. }
  destruct Hnext as (i & e & Hi & He); [done |].
  set (s1 := s <| lastApplied := lastApplied s + 1 |>). set (n1 := n <| state := s1 |>).
  destruct (log_at_position _ _ _ Hi) as (Hat & _ & _).
  assert (log_ok s1) as Hlog1 by (by apply (log_ok_update s)).
  destruct (toApply_step s e Hlog Hb Hlc Hll He) as [Est Eidx]. fold s1 in Est.
  assert (call updateLastApplied n = Some (n1, [], Some i)) as Hcall.
  { unfold call. fold s. by rewrite Hrun, Hi. }
  assert (((fun n => e ← getLog i (state n); Some (n, [], e)) : Handler SM ST RaftLog) n1 = Some (n1, [], e)) as Hget.
  { unfold getLog. change (logs (state n1)) with (logs s). by rewrite <- Hat, He. }
  rewrite Est. cbn [apply_all]. destruct (apply_sm e (sm n)) as [m1|] eqn:Em; cbn [mbind option_bind].
  2: { eapply bind_panics; [exact Hcall |]. eapply bind_panics; [exact Hget |].
       unfold mbind, handler_bind. by rewrite applyLog_panics. }
  pose proof (applyLog_run e m1 n1 Em) as (n2 & o2 & [] & Hap & Hn2). revert Hn2.
  intros (Esm & Ha & _ & _ & _ & Hsig). fields.
  change (state n1) with s1 in *.
  destruct (applied_state_log _ _ Ha Hlog1) as (Hlog2 & Eta & Ela & Eci & Eb & Eli & Er).
  change (lastApplied s1) with (lastApplied s + 1) in Ela.
  change (commitIndex s1) with (commitIndex s) in Eci. change (base s1) with (base s) in Eb.
  change (lastIdx s1) with (lastIdx s) in Eli. change (role s1) with (role s) in Er.
  specialize (IH n2). rewrite Ela, Eci, Eb, Eta, Esm in IH.
  specialize (IH Hlog2 ltac:(unfold in_int64 in *; lia) Hcint ltac:(lia) ltac:(lia)).
  destruct (apply_all (toApply s1) m1) as [m'|].
  2: { eapply bind_panics; [exact Hcall |]. eapply bind_panics; [exact Hget |].
       by eapply bind_panics. }
  apply runs_to_bind. exists n1, [], (Some i). split; [exact Hcall |].
  apply runs_to_bind. exists n1, [], e. split; [exact Hget |].
  apply runs_to_bind. exists n2, o2, tt. split; [exact Hap |].
  eapply runs_to_mono; [exact IH |].
  intros n3 o3 [] (Esm3 & Ela3 & Hlog3 & Elive3 & Eci3 & Hsig3).
  split; [done |].
  split; [rewrite Ela3, Eli; lia |]. split; [done |].
  split; [rewrite Elive3, Ha; done |]. split; [done |].
  intros Hl. change (role (state n1)) with (role s) in Hsig.
  rewrite decide_True in Hsig by done. destruct Hsig as [Hs Hp].
  rewrite !app_nil_l, signalled_app, Hs, Hsig3 by (by rewrite Er). simpl.
  change (pendingCommands n1) with (pendingCommands n) in *.
  assert (omap (fun e0 => pendingCommands n2 !! Index e0) (toApply s1) =
          omap (fun e0 => pendingCommands n !! Index e0) (toApply s1)) as ->.
  { rewrite Hp. apply list_omap_ext. apply Forall_Forall2_diag, Forall_forall.
    intros x Hx. apply lookup_delete_ne. rewrite Eidx.
    apply list_elem_of_lookup_1 in Hx as [j Hx]. unfold toApply in Hx.
    apply lookup_take_Some in Hx as [Hx Hj]. rewrite lookup_drop in Hx.
    rewrite (proj2 Hlog1 _ _ Hx). change (base s1) with (base s).
    change (lastApplied s1) with (lastApplied s + 1). lia. }
  by destruct (pendingCommands n !! Index e).
Qed.

(** C4. Committed entries are applied once each, in log order. From a node
    whose log is well formed, [checkLogsToApply] terminates, feeds the state
    machine exactly the commands between [lastApplied] and the commit index
    (as far as the log reaches), leaves [lastApplied] there and the log
    alone. On the leader it signals success to exactly the commands
    registered under the applied indices, in that order. It panics exactly
    when the state machine panics on one of those commands. *)
Theorem checkLogsToApply_spec n :
  log_ok (state n) -> in_int64 (lastApplied (state n)) -> in_int64 (commitIndex (state n)) ->
  base (state n) - 1 <= lastApplied (state n) ->
  match apply_all (toApply (state n)) (sm n) with
  | Some m' =>
      runs_to checkLogsToApply n (fun n' out _ =>
        sm n' = m' /\
        lastApplied (state n') =
          Z.max (lastApplied (state n)) (Z.min (commitIndex (state n)) (lastIdx (state n))) /\
        log_ok (state n') /\ live (state n') = live (state n) /\
        (role (state n) = Leader ->
         signalled out = omap (fun e => pendingCommands n !! Index e) (toApply (state n))))
  | None => checkLogsToApply n = None
  end.
Proof.
  intros Hlog Hi Hc Hb. unfold checkLogsToApply.
  pose proof (applyLogs_run (S (Z.to_nat (commitIndex (state n) - lastApplied (state n)))) n
    Hlog Hi Hc Hb ltac:(lia)) as Hrun.
  destruct (apply_all _ _); [| done].
  eapply runs_to_mono; [exact Hrun |]. intros n' out _ (? & ? & ? & ? & ? & ?). done.
Qed.
End applying.

(** ** Sending *)

Lemma getAppendEntriesArgs_cursors p s s' r :
  getAppendEntriesArgs p s = Some (s', r) ->
  s' = s <| lastSentLogIndex := lastSentLogIndex s' |>.
Proof.
  unfold getAppendEntriesArgs. intros E. repeat run_step;
    first [reflexivity | match goal with |- ?x = _ => by destruct x end].
Qed.

Section sending.
Context {SM ST : Type} `{StateMachine SM, Storage ST, GoPlatform}.
Implicit Types n : RaftNode SM ST.

(** The server an AppendEntries or InstallSnapshot message is for. *)
Definition recipient (e : effect) : option ServerID :=
  match e with
  | SendAppendEntries p _ | SendInstallSnapshot p _ => Some p
  | _ => None
  end.

(** Sending to [ps] moves the replication cursors and emits messages to
    members of [ps] only. *)
Definition sends (ps : list ServerID) n n' (out : list effect) : Prop :=
  n' = n <| state := state n <| lastSentLogIndex := lastSentLogIndex (state n') |> |> /\
  Forall (fun e => exists p, recipient e = Some p /\ p ∈ ps) out.

Lemma sends_nil ps n : sends ps n n [].
Proof. split; [by destruct n as [? ? ? ? [] ? ? ? ? ? ?] | done]. Qed.

Lemma sends_app ps qs n1 n2 n3 o1 o2 :
  sends ps n1 n2 o1 -> sends qs n2 n3 o2 -> sends (ps ++ qs) n1 n3 (o1 ++ o2).
Proof.
  intros [E1 Hto1] [E2 Hto2]. split; [rewrite E2, E1; done |].
  apply Forall_app. split; eapply Forall_impl; [exact Hto1 | | exact Hto2 |];
    intros e (p & E & Hp); exists p; (split; [done |]); apply elem_of_app; auto.
Qed.

Lemma sends_array ps n n' out : sends ps n n' out -> array_ok (state n) -> array_ok (state n').
Proof. intros [-> _] Ha. by apply (array_ok_update (state n)). Qed.

Lemma sendOne_run p n : array_ok (state n) -> runs_to (sendOne p) n (fun n' out _ => sends [p] n n' out).
Proof.
  intros Ha. destruct (getAppendEntriesArgs_neutral p _ Ha) as (s & r & E & Hs & Ec).
  apply getAppendEntriesArgs_cursors in E as Es.
  apply runs_to_bind. eapply runs_to_call; [exact E |].
  assert (forall out, Forall (fun e => recipient e = Some p) out -> sends [p] n (n <| state := s |>) out) as Hsent.
  { intros out Hout. split; [fields; by rewrite <- Es |].
    eapply Forall_impl; [exact Hout |]. intros e He. exists p. split; [done | by left]. }
  destruct r as [args|].
  - apply runs_to_emit, Hsent. by constructor.
  - unfold runs_to, sendInstallSnapshotRPC, getLastSnapshot, prepareInstallSnapshotRPC.
    change (state (n <| state := s |>)) with s.
    destruct (lastSnapshot s); do 3 eexists; (split; [done |]); apply Hsent; by repeat constructor.
Qed.

Lemma each_sendOne_run ps n :
  array_ok (state n) -> runs_to (each sendOne ps) n (fun n' out _ => sends ps n n' out).
Proof.
  revert n. induction ps as [|p ps IH]; intros n Ha; [apply runs_to_skip, sends_nil |].
  apply runs_to_bind. eapply runs_to_mono; [by apply sendOne_run |]. intros n1 o1 [] Hs1.
  eapply runs_to_mono; [apply IH; by eapply sends_array |]. intros n2 o2 [] Hs2.
  exact (sends_app [p] ps _ _ _ _ _ Hs1 Hs2).
Qed.

Lemma sendAppendEntriesRPCs_run n :
  array_ok (state n) ->
  runs_to sendAppendEntriesRPCs n (fun n' out _ =>
    sends (peers n ++ getUnvotingServerIDs (state n)) n n' out).
Proof.
  intros Ha. go_read. apply runs_to_bind. eapply runs_to_mono; [by apply each_sendOne_run |].
  intros n1 o1 [] Hs1. go_read. eapply runs_to_mono; [apply each_sendOne_run; by eapply sends_array |].
  intros n2 o2 [] Hs2. cbn [app].
  assert (getUnvotingServerIDs (state n1) = getUnvotingServerIDs (state n)) as <-
    by (destruct Hs1 as [-> _]; done).
  by eapply sends_app.
Qed.
End sending.

(** ** Client commands *)

Section commands.
Context {SM ST : Type} `{StateMachine SM, Storage ST, GoPlatform}.
Implicit Types n : RaftNode SM ST.

(** The entry of a command: at the next index, in the current term. *)
Definition command_entry (args : ApplyArgs) (s : nodeState) : RaftLog :=
  mkRaftLog (lastIdx s + 1) (currentTerm s) LogCommand (aa_Command args) ConfigChange_zero
    (aa_ClientID args) (aa_SeqNum args).

(** A command accepted: appended at the end with the earlier entries kept,
    persisted, its channel registered under its index; then replicated, and
    answered when the channel is signalled. *)
Record accepted (errCh : chan) (req : pendingApply) n n' (out : list effect) : Prop := {
  ac_log : log_ok (state n');
  ac_entry : log_at (state n') (lastIdx (state n) + 1) = Some (command_entry (pa_args req) (state n));
  ac_last : lastIdx (state n') = lastIdx (state n) + 1;
  ac_rest : forall k, base (state n') <= k <= lastIdx (state n) ->
              log_at (state n') k = log_at (state n) k;
  ac_pending : pendingCommands n' = <[lastIdx (state n) + 1 := errCh]> (pendingCommands n);
  ac_sm : sm n' = sm n;
  ac_durable : reliable (ST := ST) -> durable n';
  ac_out : exists saves msgs, out = saves ++ msgs ++ [AwaitApplied errCh (pa_resultCh req)] /\
             saves_of n' saves /\ Forall (fun e => is_Some (recipient e)) msgs;
  ac_compact : compacted (gameState n) (state n) (state n');
  ac_applied : lastApplied (state n') = lastApplied (state n);
  ac_commit : commitIndex (state n') = commitIndex (state n);
  ac_role : role (state n') = role (state n);
}.

(** What the answer to a command depends on. *)
Definition already_applied (args : ApplyArgs) n : Prop :=
  0 < aa_SeqNum args <= map_get (clientLastSeq (state n)) (aa_ClientID args).

#[export] Instance already_applied_dec args n : Decision (already_applied args n).
Proof. unfold already_applied. apply _. Defined.

Definition has_room (s : nodeState) : Prop :=
  (nextLogIdx s < logArrayCapacity)%nat \/ base s <= lastApplied s <= lastIdx s.

#[export] Instance has_room_dec s : Decision (has_room s).
Proof. unfold has_room. apply _. Defined.

(** Whether [handleApplyRequest] answers at once. *)
Lemma already_applied_spec args n :
  (0 <? aa_SeqNum args) && (aa_SeqNum args <=? map_get (clientLastSeq (state n)) (aa_ClientID args)) =
  bool_decide (already_applied args n).
Proof.
  apply eq_bool_prop_intro. rewrite bool_decide_spec, andb_True, !Is_true_true, Z.ltb_lt, Z.leb_le. done.
Qed.

(** A leader takes a new command when there is room, or room can be made. *)
Lemma command_accepted errCh req n :
  log_ok (state n) -> 0 <= base (state n) -> lastIdx (state n) < max_int64 ->
  role (state n) = Leader -> ~ already_applied (pa_args req) n -> has_room (state n) ->
  runs_to (handleApplyRequest errCh req) n (fun n' out _ => accepted errCh req n n' out).
Proof.
  intros Hlog Hb Hmax Hl Hd Hr. pose proof (lastIdx_base (state n)) as Hlb.
  assert (in_int64 (lastIdx (state n))) as Hint by (unfold in_int64, min_int64; lia).
  go_read. unfold getRole, getCurrentLeader. rewrite Hl. go_read. unfold getClientLastSeq.
  rewrite already_applied_spec, bool_decide_false by done.
  go_read. pose proof (addCommandLog_run (gameState n) (id n) (aa_ClientID (pa_args req))
    (aa_SeqNum (pa_args req)) (aa_Command (pa_args req)) (state n) Hlog Hint Hmax) as Hadd.
  rewrite decide_True in Hadd by done.
  destruct Hadd as (s & Hrun & Hlog' & Hlast & _ & Hat & Hrest & _ & _ & Hcmp & Hap & Hci & Hro).
  apply runs_to_bind. eapply runs_to_call; [exact Hrun |]. rewrite (proj2 (Z.ltb_ge _ _)) by lia.
  apply runs_to_bind. eapply runs_to_mono; [apply persistState_run; exact (proj1 Hlog') |].
  intros n1 o1 [] (Eo1 & En1 & Hd1). apply runs_to_bind, runs_to_modify, runs_to_bind.
  set (n2 := n1 <| pendingCommands := _ |>).
  assert (state n2 = s) as Es2 by (unfold n2; by rewrite En1).
  eapply runs_to_mono; [apply sendAppendEntriesRPCs_run; rewrite Es2; exact (proj1 Hlog') |].
  intros n3 o3 [] [En3 Hto]. apply runs_to_emit.
  assert (state n3 = s <| lastSentLogIndex := lastSentLogIndex (state n3) |>) as Es3
    by (rewrite En3; fields; by rewrite Es2).
  assert (log_at (state n3) = log_at s /\ lastIdx (state n3) = lastIdx s /\ base (state n3) = base s)
    as (E1 & E2 & E3) by (by rewrite Es3).
  cbn [app]. split; rewrite ?E1, ?E2, ?E3; try done; try (by rewrite Es3).
  - rewrite Es3. by apply (log_ok_update s).
  - rewrite En3. unfold n2. fields. by rewrite En1.
  - rewrite En3. unfold n2. fields. by rewrite En1.
  - intros Hrel. unfold durable. rewrite En3.
    change (storage (n2 <| state := _ |>)) with (storage n1).
    change (state (n2 <| state := ?x |>)) with x. rewrite (Hd1 Hrel), Es2, En1. done.
  - exists o1, o3. split; [done |]. split.
    + rewrite Eo1. eexists. split; [| split; [| reflexivity]]; by rewrite Es3.
    + eapply Forall_impl; [exact Hto |]. intros e (p & -> & _). by eexists.
Qed.

(** C6. A client command, on every branch. A node that is no leader redirects
    to the one it knows; a sequence number already applied is answered at once
    and not appended again; with a full log that cannot be compacted the
    command fails. Otherwise it is appended and on stable storage before any
    message about it leaves the node, and exactly one answer is arranged for. *)
Theorem handleApplyRequest_spec errCh req n :
  log_ok (state n) -> 0 <= base (state n) -> lastIdx (state n) < max_int64 ->
  runs_to (handleApplyRequest errCh req) n (fun n' out _ =>
    let answer ok who := out = [RespondApply (pa_resultCh req) (mkApplyResponse ok who)] /\ n' = n in
    if decide (role (state n) = Leader) then
      if decide (already_applied (pa_args req) n) then answer true (id n)
      else if decide (has_room (state n)) then accepted errCh req n n' out
      else answer false (id n)
    else answer false (currentLeader (state n))).
Proof.
  intros Hlog Hb Hmax. pose proof (lastIdx_base (state n)) as Hlb.
  destruct (decide (role (state n) = Leader)) as [Hl|Hl].
  2: { go_read. unfold getRole, getCurrentLeader.
       destruct (role (state n)); [..| done]; go_read; by apply runs_to_emit. }
  destruct (decide (already_applied (pa_args req) n)) as [Hd|Hd].
  { go_read. unfold getRole, getClientLastSeq. rewrite Hl. go_read.
    rewrite already_applied_spec, bool_decide_true by done. by apply runs_to_emit. }
  destruct (decide (has_room (state n))) as [Hr|Hr]; [by apply command_accepted |].
  go_read. unfold getRole, getClientLastSeq. rewrite Hl. go_read.
  rewrite already_applied_spec, bool_decide_false by done. go_read.
  apply runs_to_bind. eapply runs_to_call.
  - pose proof (addCommandLog_run (gameState n) (id n) (aa_ClientID (pa_args req))
      (aa_SeqNum (pa_args req)) (aa_Command (pa_args req)) (state n) Hlog) as Hadd.
    rewrite decide_False in Hadd by done. apply Hadd; [unfold in_int64, min_int64; lia | done].
  - apply runs_to_emit. by destruct n.
Qed.
End commands.

(** ** Membership *)

Section membership.
Context {SM ST : Type} `{StateMachine SM, Storage ST, GoPlatform}.
Implicit Types n : RaftNode SM ST.

(** Promoting a joining server when no other change is under way. *)
Lemma promoteUnvotingServer_run p entry n :
  unvotingServers (state n) !! p = Some entry ->
  state_inv (state n) -> log_ok (state n) -> 0 <= base (state n) -> lastIdx (state n) < max_int64 ->
  inConfigChange (state n) = false -> configQueue (state n) = [] ->
  runs_to (promoteUnvotingServer p) n (fun n' out _ =>
    cfg n' = cfg n /\ array_ok (state n') /\ out = [AwaitConfig entry] /\
    unvotingServers (state n') = delete p (unvotingServers (state n)) /\
    serverConfig (state n') = serverConfig (applyConfigurationLocked 0 (msg entry) (state n))).
Proof.
  intros Hu Hn Hlog Hb Hmax Hin Hq.
  pose proof (lastIdx_base (state n)) as Hlb.
  assert (in_int64 (lastIdx (state n))) as Hint by (unfold in_int64, min_int64; lia).
  assert (pendingConfigs (state n) = 0) as Hz by (rewrite (inv_queue _ Hn), Hq; done).
  apply runs_to_bind. unfold removeUnvotingServer.
  eapply runs_to_call; [by rewrite Hu |].
  set (s1 := state n <| unvotingServers := delete p (unvotingServers (state n)) |>).
  assert (state_inv s1) as Hn1 by (destruct Hn; split; [by eapply array_ok_update | done..]).
  assert (log_ok s1) as Hlog1 by (by apply (log_ok_update (state n))).
  destruct (handleConfigurationRPC_total entry s1 Hn1) as (s' & r & E & Hinv & _ & Hu');
    [change (pendingConfigs (state n) < max_int64); by rewrite Hz |].
  destruct (startChange_run entry [] (enqueueConfig entry s1)) as (s2 & E2 & Hs2).
  { change (configQueue (state n) ++ [entry] = [entry]). by rewrite Hq. }
  { change (pendingConfigs (state n) +! 1 = Z.of_nat (length (configQueue (state n) ++ [entry]))).
    by rewrite Hz, Hq. }
  { by apply (log_ok_update s1). }
  { done. }
  { done. }
  { done. }
  unfold handleConfigurationRPC in E. rewrite E2 in E. injection E as -> <-.
  apply runs_to_bind. eapply runs_to_call; [exact E2 |].
  apply runs_to_bind, runs_to_modify, runs_to_emit.
  split; [done |]. split; [apply Hinv |]. split; [done |]. split; [exact Hu' |].
  fields. rewrite (cs_config _ _ _ _ Hs2). unfold applyConfigurationLocked. by destruct (Add (msg entry)).
Qed.
End membership.

(** ** Instances *)

#[local] Existing Instance amd64.

(** The started server n1 in the given state. *)
Definition with_state (s : nodeState) : RaftNode Register MemoryStorage.t := started "n1" <| state := s |>.

(** A leader with two entries, of which it has committed both and applied none;
    a client waits for the second. *)
Definition committed2 : nodeState :=
  leading 0 (node "n1" 2 [cmd 0 1; cmd 1 2]) "n1" "n2" <| commitIndex := 1 |>.

Definition waiting : RaftNode Register MemoryStorage.t :=
  with_state committed2 <| pendingCommands := {[1 := 7%nat]} |>.

Lemma committed2_ok : log_ok committed2.
Proof. sample. Qed.

Lemma checkLogsToApply_spec_witness :
  exists n' out, checkLogsToApply waiting = Some (n', out, tt) /\ sm n' = [Byte.x61] /\
    lastApplied (state n') = 1 /\ signalled out = [7%nat].
Proof.
  pose proof (checkLogsToApply_spec waiting) as Hth.
  change (state waiting) with committed2 in Hth. specialize (Hth committed2_ok).
  assert (lastApplied committed2 = -1) as E1 by (vm_compute; reflexivity).
  assert (commitIndex committed2 = 1) as E2 by (vm_compute; reflexivity).
  assert (base committed2 = 0) as E3 by (vm_compute; reflexivity).
  assert (lastIdx committed2 = 1) as E4 by (vm_compute; reflexivity).
  assert (toApply committed2 = [cmd 0 1; cmd 1 2]) as E5 by (vm_compute; reflexivity).
  rewrite E1, E2, E3, E4, E5 in Hth.
  destruct Hth as (n' & out & [] & Hrun & Hsm & Hla & _ & _ & Hsig).
  - vm_compute. split; discriminate.
  - vm_compute. split; discriminate.
  - vm_compute. discriminate.
  - exists n', out. split; [exact Hrun |]. split; [exact Hsm |]. split; [exact Hla |].
    exact (Hsig ltac:(vm_compute; reflexivity)).
Defined.

(** The next command of the client. *)
Lemma handleApplyRequest_spec_witness :
  exists n' out, handleApplyRequest 8%nat (applyRequest "client" 2 [Byte.x62] 9%nat) waiting = Some (n', out, tt) /\
    lastIdx (state n') = 2 /\ pendingCommands n' !! 2 = Some 8%nat.
Proof.
  pose proof (handleApplyRequest_spec 8%nat (applyRequest "client" 2 [Byte.x62] 9%nat) waiting) as Hth.
  change (state waiting) with committed2 in Hth. specialize (Hth committed2_ok).
  assert (base committed2 = 0) as E3 by (vm_compute; reflexivity).
  assert (lastIdx committed2 = 1) as E4 by (vm_compute; reflexivity).
  assert (role committed2 = Leader) as E5 by (vm_compute; reflexivity).
  rewrite E3, E4, E5 in Hth.
  destruct Hth as (n' & out & [] & Hrun & Hth); [discriminate | vm_compute; reflexivity |].
  cbv zeta in Hth. rewrite decide_True in Hth by reflexivity.
  rewrite decide_False in Hth by (apply (bool_decide_unpack _); vm_compute; exact I).
  rewrite decide_True in Hth by (apply (bool_decide_unpack _); vm_compute; exact I).
  destruct Hth as [_ _ Hl _ Hp _ _ _ _ _ _ _].
  change (lastIdx (state waiting)) with (lastIdx committed2) in Hl, Hp. rewrite E4 in Hl, Hp.
  exists n', out. split; [exact Hrun |]. split; [exact Hl |]. rewrite Hp. apply lookup_insert_eq.
Defined.

Lemma trio_state_inv : state_inv trio_state.
Proof.
  assert (log_ok trio_state) as Hlog by sample.
  split; [apply Hlog | vm_compute; reflexivity | vm_compute; split; discriminate
         | vm_compute; split; [split|]; discriminate || reflexivity].
Qed.

(** Server n4 joins the three. *)
Definition joining_n4 : nodeState := addUnvotingServer (mkConfigEntry add_n4 1%nat 2%nat) trio_state.

Lemma unvoting_log_ok e s : log_ok s -> log_ok (addUnvotingServer e s).
Proof. intros. by apply (log_ok_update s). Qed.

Lemma joining_n4_ok : log_ok joining_n4.
Proof. apply unvoting_log_ok. sample. Qed.

Lemma joining_n4_inv : state_inv joining_n4.
Proof.
  pose proof joining_n4_ok as Hlog.
  split; [apply Hlog | vm_compute; reflexivity | vm_compute; split; discriminate
         | vm_compute; split; [split|]; discriminate || reflexivity].
Qed.
