(* ===== verification/Panics.v ===== *)
(** * Panics: no goroutine of a running node panics or waits for ever

    Out-of-range accesses, the nil snapshot, the pop of an empty queue, an
    empty timeout range, a loop that runs out of fuel and a state machine that
    panics are all [None] in the handlers. From a state that satisfies
    [state_inv], over a state machine that does not panic, none of them
    happens, whatever message, command or event arrives, and the invariant is
    kept. [snapshotInstallChan] has room for one snapshot, so that a handler
    may have to wait for [snapshotLoop]; it is the only such wait here. The
    round trip of [takeSnapshot] is the subject of SnapshotLoop.v. *)
From S2P Require Import Prelude GoFloat Metrics Types State Storage SnapshotOps ConfigChange Log.
From S2P Require Import Samples Election ElectionTheorems Control ConfigTheorems Node Servers Handlers Frames NodeTheorems.

Section panics.
Context {SM ST : Type} `{StateMachine SM, Storage ST, GoPlatform}.
Implicit Types n : RaftNode SM ST.

(** ** The goroutines *)

(** What a goroutine of [Start] wakes up for: an event of the main loop, a
    message of one of the response channels, a client command, a membership
    request, an applied configuration change, or a snapshot to install. *)
Inductive task :=
| Iterate (rnd : Z) (clock : nat -> Z) (ev : event)
| OnAppendEntriesResponse (resp : AppendEntriesResponse)
| OnInstallSnapshotResponse (resp : InstallSnapshotResponse)
| OnApply (errCh : chan) (req : pendingApply)
| OnConfiguration (req : configEntry)
| OnConfigApplied (entry : configEntry)
| OnInstall.

Definition wake (t : task) : Handler SM ST unit :=
  match t with
  | Iterate rnd clock ev => run rnd clock ev
  | OnAppendEntriesResponse resp => appendEntriesResponse resp
  | OnInstallSnapshotResponse resp => installSnapshotResponse resp
  | OnApply errCh req => handleApplyRequest errCh req
  | OnConfiguration req => handleConfigurationMessage req
  | OnConfigApplied entry => configApplied entry
  | OnInstall => snapshotLoopInstall
  end.

(** What a reaction may do to the channel and the joining servers. *)
Definition puts (t : task) : nat := match t with Iterate _ _ ev => installs ev | _ => 0 end.
Definition invites (t : task) : gset ServerID := match t with OnConfiguration req => joins req | _ => ∅ end.

Lemma wake_moves t : moves (puts t) (invites t) (wake t).
Proof.
  destruct t; simpl.
  - apply run_moves.
  - apply appendEntriesResponse_moves.
  - apply installSnapshotResponse_moves.
  - apply handleApplyRequest_moves.
  - apply handleConfigurationMessage_moves.
  - unfold configApplied. moving.
  - intros n n' out u. unfold snapshotLoopInstall.
    destruct (snapshotInstallChan (state n)) as [|data rest] eqn:E; [done |]. intros [= <- _ _].
    split; [done |]. split; [rewrite E; simpl; lia | set_solver].
Qed.

(** A receive from an empty channel blocks, and so does the send that finds
    [snapshotInstallChan] full: it holds the state's lock until [snapshotLoop]
    has received. What the sender does before the send and what the loop does
    to the state machine do not touch, so that the wait counts as taking place
    before the reaction. *)
Definition enabled (t : task) n : Prop :=
  match t with
  | OnInstall => snapshotInstallChan (state n) <> []
  | _ => forall n' out, wake t n = Some (n', out, tt) ->
           (length (snapshotInstallChan (state n')) <= snapshotInstallCap)%nat
  end.

(** Go's integers are in range by their type. *)
Record in_range (s : nodeState) : Prop := {
  ir_commit : in_int64 (commitIndex s);
  ir_applied : in_int64 (lastApplied s);
  ir_pending : pendingConfigs s < max_int64;
}.

(** The state machine panics on no sequence of entries. *)
Definition sound (m : SM) : Prop := forall es, is_Some (apply_all es m).

Lemma sound_step m e : sound m -> exists m', apply_sm e m = Some m' /\ sound m'.
Proof.
  intros Hm. destruct (Hm [e]) as [m' E]. simpl in E. destruct (apply_sm e m) as [m1|] eqn:E1; [| done].
  exists m1. split; [done |]. intros es. specialize (Hm (e :: es)). simpl in Hm. by rewrite E1 in Hm.
Qed.

(** What is assumed of a node whenever a goroutine wakes up. *)
Record fit n : Prop := {
  fit_range : in_range (state n);
  fit_sound : sound (sm n);
}.

(** ** The loop over committed entries *)

Lemma applyLogs_total fuel n :
  state_inv (state n) -> in_int64 (lastApplied (state n)) -> in_int64 (commitIndex (state n)) ->
  sound (sm n) -> (Z.to_nat (commitIndex (state n) - lastApplied (state n)) < fuel)%nat ->
  runs_to (applyLogs fuel) n (fun n' _ _ => state_inv (state n')).
Proof.
  revert n. induction fuel as [|fuel IH]; intros n Hn Hla Hci Hsm Hfuel; [lia |].
  destruct (updateLastApplied_neutral (state n)) as (s & r & E & Ha & Ec & El & En & Eci & Hr);
    [eauto with raft |].
  assert (state_inv s) as Hs by (by apply (state_inv_same (state n))).
  cbn [applyLogs]. apply runs_to_bind. eapply runs_to_call; [exact E |].
  destruct r as [i|]; [| by apply runs_to_skip].
  destruct (Hr i eq_refl) as (Hi & Hlt & Ela).
  rewrite wrap64_succ in Ela by (done || unfold in_int64 in *; lia).
  destruct (lookup_lt_is_Some_2 (logs s) i) as [e He]; [destruct Ha; lia |].
  apply runs_to_bind. exists (n <| state := s |>), [], e.
  split; [unfold getLog; change (logs (state (n <| state := s |>))) with (logs s); by rewrite He |].
  destruct (sound_step (sm n) e Hsm) as (m' & Em & Hm').
  apply runs_to_bind. eapply runs_to_mono; [apply runs_to_and; [apply (applyLog_calm True); [done | by eexists] | by apply (applyLog_run e m')] |].
  intros n2 o2 [] [Hc (Es2 & Hap & _)]. change (state (n <| state := s |>)) with s in Hap.
  assert (lastApplied (state n2) = lastApplied s /\ commitIndex (state n2) = commitIndex s) as [E1 E2]
    by (by rewrite Hap).
  eapply runs_to_mono; [apply IH | done].
  - apply Hc.
  - rewrite E1, Ela. unfold in_int64 in *. lia.
  - by rewrite E2, Eci.
  - by rewrite Es2.
  - rewrite E1, E2, Eci, Ela. lia.
Qed.

Lemma run_total rnd clock ev n :
  state_inv (state n) -> fit n -> runs_to (run rnd clock ev) n (fun n' _ _ => state_inv (state n')).
Proof.
  intros Hn [[Hci Hla _] Hsm]. apply runs_to_bind.
  eapply runs_to_mono; [apply applyLogs_total; done || lia |]. intros n1 o1 [] Hn1.
  apply runs_to_bind. eapply runs_to_mono; [by apply (checkConfigurationsToStart_calm True) |].
  intros n2 o2 [] Hc2. pose proof (calm_inv _ _ _ _ Hc2) as Hn2. go_read. unfold getRole.
  destruct (role (state n2)) eqn:Er.
  - eapply runs_to_mono; [by apply handleFollower_run |].
    intros n3 o3 [] (n4 & _ & _ & Hr). by eapply reaction_inv.
  - eapply runs_to_mono; [by apply handleCandidate_run |].
    intros n3 o3 [] (n4 & _ & _ & Hr). by eapply reaction_inv.
  - eapply runs_to_mono; [by apply handleLeader_run |].
    intros n3 o3 [] (n4 & _ & _ & Hr). by eapply reaction_inv.
Qed.

Lemma installSnapshotResponse_inv resp n :
  state_inv (state n) -> pendingConfigs (state n) < max_int64 ->
  runs_to (installSnapshotResponse resp) n (fun n' _ _ => state_inv (state n')).
Proof.
  intros Hn Hmax. unfold installSnapshotResponse. go_read.
  case_decide; [| by apply runs_to_skip].
  pose proof (handleInstallSnapshotResponse_control (id n) resp (state n)) as (Ha & _ & Hm & _).
  destruct (handleInstallSnapshotResponse (id n) resp (state n)) as [s k] eqn:E. simpl in Ha, Hm.
  apply runs_to_bind. eapply runs_to_call; [by rewrite E |].
  eapply runs_to_mono; [apply caught_up_calm | intros n' out [] Hc; apply Hc].
  - apply (state_inv_intro (state n)); [done | apply Ha; eauto with raft | done].
  - destruct Hm as [Hm _]. unfold control in Hm. simpl in Hm. injection Hm as E1 _ _.
    change (pendingConfigs s < max_int64). by rewrite E1.
Qed.

(** One reaction, to whatever there is to receive. *)
Lemma wake_total t n :
  state_inv (state n) -> fit n -> (t = OnInstall -> snapshotInstallChan (state n) <> []) ->
  runs_to (wake t) n (fun n' _ _ => state_inv (state n')).
Proof.
  intros Hn Hr Hen.
  assert (forall fz (m : Handler SM ST unit), calm_run fz m n ->
    runs_to m n (fun n' _ _ => state_inv (state n'))) as Hcalm.
  { intros fz m Hm. eapply runs_to_mono; [exact Hm |]. intros n' out [] Hc. apply Hc. }
  pose proof (ir_pending _ (fit_range _ Hr)) as Hp. destruct t; simpl.
  - by apply run_total.
  - by apply (Hcalm True), appendEntriesResponse_calm.
  - by apply installSnapshotResponse_inv.
  - by apply (Hcalm True), handleApplyRequest_calm.
  - by apply (Hcalm False), handleConfigurationMessage_calm.
  - unfold configApplied. go_read. by apply runs_to_emit.
  - destruct (snapshotLoopInstall n) as [[[n' out] []]|] eqn:E.
    + exists n', out, tt. split; [done |]. by eapply calm_inv, snapshotLoopInstall_calm.
    + unfold snapshotLoopInstall in E. specialize (Hen eq_refl). by destruct (snapshotInstallChan (state n)).
Qed.

(** A reaction that is over has kept the invariant. *)
Lemma wake_inv t n n' out :
  state_inv (state n) -> in_range (state n) -> wake t n = Some (n', out, tt) -> state_inv (state n').
Proof.
  intros Hn Hr E. pose proof (ir_pending _ Hr) as Hp. destruct t; simpl in E.
  - destruct (run_reaction _ _ _ _ _ _ _ Hn E) as (n1 & o1 & o2 & _ & _ & _ & Hre). by eapply reaction_inv.
  - exact (calm_inv _ _ _ _ (calm_det _ _ _ _ _ _ (appendEntriesResponse_calm resp n Hn Hp) E)).
  - exact (runs_to_det _ _ _ _ _ _ (installSnapshotResponse_inv resp n Hn Hp) E).
  - exact (calm_inv _ _ _ _ (calm_det _ _ _ _ _ _ (handleApplyRequest_calm True errCh req n Hn) E)).
  - exact (calm_inv _ _ _ _ (calm_det _ _ _ _ _ _ (handleConfigurationMessage_calm req n Hn Hp) E)).
  - by injection E as <- _.
  - exact (calm_inv _ _ _ _ (snapshotLoopInstall_calm n n' out tt Hn E)).
Qed.

(** ** From the start *)

(** The election timeouts of a configuration leave a choice to the random
    number and fit a [time.Duration]. *)
Definition usable (c : NodeConfig.Config) : Prop :=
  0 <= NodeConfig.ElectionMinMs c < NodeConfig.ElectionMaxMs c /\
  NodeConfig.ElectionMaxMs c <= 9223372036854.

(** [Start] changes the log, the term, the vote and the snapshot only. *)
Definition startable (s s' : nodeState) : Prop :=
  array_ok s' /\ snapshotInstallChan s' = snapshotInstallChan s /\
  pendingConfigs s' = pendingConfigs s /\ configQueue s' = configQueue s /\
  electionMinMs s' = electionMinMs s /\ electionMaxMs s' = electionMaxMs s.

Lemma newNodeState_startable me ps minMs maxMs :
  let s := newNodeState me ps minMs maxMs in
  snapshotInstallChan s = [] /\ pendingConfigs s = 0 /\ configQueue s = [] /\
  electionMinMs s = minMs /\ electionMaxMs s = maxMs.
Proof.
  cbv zeta. unfold newNodeState. match goal with |- context [foldl ?f ?x ps] => set (g := f); set (s0 := x) end.
  enough (forall ps s, (snapshotInstallChan (foldl g s ps), pendingConfigs (foldl g s ps),
      configQueue (foldl g s ps), electionMinMs (foldl g s ps), electionMaxMs (foldl g s ps)) =
    (snapshotInstallChan s, pendingConfigs s, configQueue s, electionMinMs s, electionMaxMs s)) as Hg.
  { specialize (Hg ps s0). by simplify_eq Hg. }
  clear ps s0. intros ps. induction ps as [|p ps IH]; intros s; [done |]. simpl foldl. by rewrite IH.
Qed.

Lemma restoreLogs_total ls i s :
  array_ok s -> exists s', restoreLogs i ls s = Some s' /\ startable s s'.
Proof.
  revert i s. induction ls as [|rl ls IH]; intros i s Hok; simpl; [by exists s |].
  destruct (Nat.leb_spec logArrayCapacity i) as [|Hi]; [by exists s |].
  pose proof Hok as [Hl Hh Hn]. rewrite array_set_in by lia. simpl.
  match goal with |- context [restoreLogs (S i) ls ?x] => destruct (IH (S i) x) as (s' & E & Hs) end.
  - constructor; fields; rewrite ?length_insert; lia.
  - exists s'. split; [exact E |]. exact Hs.
Qed.

Lemma Start_total_inv c (m : SM) tr (st : ST) n :
  usable (withDefaults c) -> New c (Some m) (Some tr) (Some st) = inl n ->
  exists n' r, Start n = Some (n', r) /\ state_inv (state n') /\ snapshotInstallChan (state n') = [].
Proof.
  intros Hc E. unfold New in E. injection E as <-.
  set (c' := withDefaults c) in *. set (s0 := newNodeState _ _ _ _).
  assert (array_ok s0) as Hok0 by apply newNodeState_log_ok.
  assert (forall s, startable s0 s -> state_inv s /\ snapshotInstallChan s = []) as Hinv.
  { pose proof (newNodeState_startable (NodeConfig.ID c') (NodeConfig.Peers c') (NodeConfig.ElectionMinMs c')
      (NodeConfig.ElectionMaxMs c')) as F. cbv zeta in F.
    change (newNodeState _ _ _ _) with s0 in F. destruct F as (F0 & F1 & F2 & F3 & F4).
    intros s (Ha & Ech & Ep & Eq & Emin & Emax). rewrite F0 in Ech. rewrite F1 in Ep. rewrite F2 in Eq.
    rewrite F3 in Emin. rewrite F4 in Emax. split; [| done].
    split; [done | by rewrite Ep, Eq | by rewrite Ep | by rewrite Emin, Emax]. }
  unfold Start. cbn [storage state]. destruct (LoadState st) as [ps|]; [| by eexists _, _; split; [done |]; apply Hinv].
  assert (exists s, restoreState ps s0 = Some s /\ startable s0 s) as (s & -> & Hs).
  { unfold restoreState. destruct ps as [ps|]; [| by exists s0]. case_match; [| by exists s0].
    match goal with |- context [restoreLogs 0 _ ?x] => destruct (restoreLogs_total (Logs ps) 0 x) as (s & Es & Hs) end.
    - by apply (array_ok_update s0).
    - by exists s. }
  cbn [mbind option_bind]. change (storage (_ <| state := s |>)) with st.
  destruct (LoadSnapshot st) as [[snap|]|]; [| | by eexists _, _; split; [done |]; apply Hinv].
  - unfold restoreSnapshot. cbn [sm]. match goal with |- context [sm_Restore ?a ?b] => destruct (sm_Restore a b) as [m' ok] end.
    match goal with |- context [?x <| sm := m' |>] => set (n1 := x) end.
    assert (state_inv (state n1) /\ snapshotInstallChan (state n1) = []) as Hn1.
    { apply Hinv. destruct Hs as (Ha & Hs). split; [by apply (array_ok_update s); fields | exact Hs]. }
    destruct ok; cbn [negb]; [| by eexists _, _].
    destruct (tr_Listen _ _); cbn [negb]; [| by eexists _, _].
    eexists _, _. split; [done |]. by case_bool_decide.
  - unfold restoreSnapshot. cbn [negb]. destruct (tr_Listen _ _); cbn [negb].
    + eexists _, _. split; [done |]. case_bool_decide; by apply Hinv.
    + eexists _, _. split; [done |]. by apply Hinv.
Qed.

(** The nodes a started node can become, one reaction of one goroutine after
    the other, until [Stop]. *)
Inductive works n : RaftNode SM ST -> Prop :=
| works_start : works n n
| works_wake t n1 n2 out :
    works n n1 -> fit n1 -> enabled t n1 -> wake t n1 = Some (n2, out, tt) -> works n n2.

Lemma works_inv n n' :
  state_inv (state n) -> snapshotInstallChan (state n) = [] -> works n n' ->
  state_inv (state n') /\ (length (snapshotInstallChan (state n')) <= snapshotInstallCap)%nat.
Proof.
  intros Hn Hch Hw. induction Hw as [|t n1 n2 out Hw [IH1 IH2] Hr Hen E]; [split; [done | rewrite Hch; simpl; unfold snapshotInstallCap; lia] |].
  split; [eapply wake_inv; [exact IH1 | apply Hr | exact E] |].
  destruct t; try (by eapply Hen).
  destruct (wake_moves OnInstall _ _ _ _ E) as [_ [Hl _]]. simpl in Hl. lia.
Qed.

(** Only an empty channel is received from for nothing. *)
Lemma empty_enabled t n : t <> OnInstall -> snapshotInstallChan (state n) = [] -> enabled t n.
Proof.
  intros Ht Hch. assert (puts t <= 1)%nat as Hp.
  { destruct t as [? ? []| | | | | |]; simpl; lia. }
  destruct t; try done; intros n' out E; destruct (wake_moves _ _ _ _ _ E) as [_ [Hl _]];
    rewrite Hch in Hl; simpl in Hl, Hp; unfold snapshotInstallCap; lia.
Qed.

(** C7. No goroutine of a running node panics or waits for ever. A node built
    with a usable configuration starts or reports an error, whatever its
    storage holds. From then on, and until [Stop], in every state in which its
    integers are in range and its state machine panics on no entries, whatever
    message, command or event a goroutine has received and whatever was handled
    before: unless it finds [snapshotInstallChan] full, the goroutine handles
    what it has received to the end, without a panic; and when it finds the
    channel full, [snapshotLoop] can run, and the goroutine can go on after
    that. *)
Theorem no_goroutine_panics c (m : SM) tr (st : ST) n :
  usable (withDefaults c) -> New c (Some m) (Some tr) (Some st) = inl n ->
  exists n1 r, Start n = Some (n1, r) /\
    forall n2 t, works n1 n2 -> fit n2 ->
      (enabled t n2 -> exists n3 out, wake t n2 = Some (n3, out, tt)) /\
      (t <> OnInstall -> ~ enabled t n2 ->
         exists n3 out, wake OnInstall n2 = Some (n3, out, tt) /\ enabled t n3).
Proof.
  intros Hc En. destruct (Start_total_inv c m tr st n Hc En) as (n1 & r & Es & Hn1 & Hch).
  exists n1, r. split; [done |]. intros n2 t Hw Hr. destruct (works_inv _ _ Hn1 Hch Hw) as [Hn2 Hlen]. split.
  - intros Hen. destruct (wake_total t n2 Hn2 Hr) as (n3 & out & [] & E & _); [by intros -> |]. by exists n3, out.
  - intros Ht Hdis. destruct (snapshotInstallChan (state n2)) as [|data rest] eqn:Ech;
      [destruct Hdis; by apply empty_enabled |].
    destruct (wake OnInstall n2) as [[[n3 out] []]|] eqn:E; simpl in E; unfold snapshotLoopInstall in E;
      rewrite Ech in E; [| done].
    exists n3, out. split; [done |]. apply empty_enabled; [done |]. injection E as <- _.
    fields. simpl in Hlen. unfold snapshotInstallCap in Hlen. destruct rest; [done | simpl in Hlen; lia].
Qed.
End panics.

(** ** An instance *)

#[local] Existing Instance amd64.

(** A message from nowhere: entries of a huge index in a later term. *)
Definition hostile : AppendEntriesArgs := mkAppendEntriesArgs 9 "n9" (-5) 3 [cmd 4000 8; cmd 2 1] 77.

(** The sample state machine takes every command. *)
Lemma register_sound (r : Register) : sound r.
Proof.
  intros es. revert r. induction es as [|e es IH]; intros r; [by eexists |]. simpl. unfold apply_sm.
  case_decide; [exact (IH _) | exact (IH _)].
Qed.

(** The last indices of the replies. *)
Definition replied_last (out : list effect) : list Z :=
  omap (fun e => match e with ReplyAppendEntries r => Some (aer_LastIndex r) | _ => None end) out.

Lemma no_goroutine_panics_witness :
  exists n1 r n3 out, Start (new_node "n1") = Some (n1, r) /\
    wake (Iterate 0 (fun _ => 0) (EvAppendEntries hostile)) n1 = Some (n3, out, tt) /\
    replied_last out = [-1].
Proof.
  destruct (no_goroutine_panics (trio_config "n1") ([] : Register) listening MemoryStorage.NewMemoryStorage
              (new_node "n1")) as (n1 & r & Es & Hall).
  - vm_compute. repeat split; discriminate.
  - vm_compute. reflexivity.
  - assert (started "n1" = n1) as <- by (unfold started; by rewrite Es).
    destruct (Hall (started "n1") (Iterate 0 (fun _ => 0) (EvAppendEntries hostile))) as [Hrun _].
    + apply works_start.
    + split; [| exact (register_sound _)].
      split; [vm_compute; split; discriminate | vm_compute; split; discriminate | vm_compute; reflexivity].
    + destruct Hrun as (n3 & out & E).
      { apply empty_enabled; [done | vm_compute; reflexivity]. }
      exists (started "n1"), r, n3, out. split; [done |]. split; [done |].
      assert ((fun x => replied_last x.1.2) <$> wake (Iterate 0 (fun _ => 0) (EvAppendEntries hostile)) (started "n1")
              = Some [-1]) as Hv by (vm_compute; reflexivity).
      rewrite E in Hv. by injection Hv.
Defined.
