(* ===== verification/Dispatch.v ===== *)
(** * Dispatch: RPC callers and the main loop (src/raft/node.go, lines 235-242,
      313-330 and 380-400)

    [HandleRequestVote], [HandleAppendEntries] and [HandleInstallSnapshot] run
    in the goroutines of the transport. Each sends its arguments on the
    unbuffered channel of its kind and then receives from the unbuffered reply
    channel of that kind, which all callers of the kind share. The main loop
    receives one request, handles it and sends the reply. The interleavings are
    a step relation; that every caller receives the reply to its own request is
    a theorem about it. *)
From S2P Require Import Prelude GoFloat Metrics Types State Storage SnapshotOps ConfigChange Log.
From S2P Require Import RpcTransport Samples Election ElectionTheorems Control ConfigTheorems.
From S2P Require Import Node Servers Handlers Effects NodeTheorems Panics.

Section dispatch.
Context {SM ST : Type} `{StateMachine SM, Storage ST, GoPlatform}.
Implicit Types n : RaftNode SM ST.

(** ** The goroutines *)

(** A caller of a Handle method with the request [ev]: before its send, between
    its send and its receive, and after. *)
Inductive caller :=
| Calling (ev : event)
| Awaiting (ev : event)
| Returned (ev : event) (reply : effect).

(** The main loop: at its top, before it looks at [stopCh]; in the select of
    its role; at the send of a reply; and returned. *)
Inductive loop := Top | Selecting | Replying (reply : effect) | Exited.

#[export] Instance loop_eq_dec : EqDecision loop.
Proof. solve_decision. Defined.

Record process := mkProcess {
  p_node : RaftNode SM ST;
  p_loop : loop;
  p_callers : gmap nat caller;
  p_stopCh : bool;                          (* closed *)
  p_transport : RPC.RPCTransport unit;
  p_served : list (nat * event * effect);   (* requests received, with their replies *)
}.

(** [Stop] closes [stopCh] and the transport once; [once] is [stopCh] closed. *)
Definition Stop (p : process) : process :=
  if p_stopCh p then p
  else mkProcess (p_node p) (p_loop p) (p_callers p) true (RPC.Close (p_transport p)) (p_served p).

(** The steps of the main loop and of the callers change these. *)
Definition at_loop (l : loop) n (p : process) : process :=
  mkProcess n l (p_callers p) (p_stopCh p) (p_transport p) (p_served p).

Definition with_caller (c : nat) (x : caller) (p : process) : process :=
  mkProcess (p_node p) (p_loop p) (<[c := x]> (p_callers p)) (p_stopCh p) (p_transport p) (p_served p).

Definition record_served (x : nat * event * effect) (p : process) : process :=
  mkProcess (p_node p) (p_loop p) (p_callers p) (p_stopCh p) (p_transport p) (x :: p_served p).

Inductive pstep (p : process) : process -> Prop :=
(** The transport calls a Handle method. *)
| step_call c ev :
    is_rpc ev = true -> p_callers p !! c = None -> pstep p (with_caller c (Calling ev) p)
(** The top of the main loop: it returns when [stopCh] is closed, and goes on to
    the select otherwise. *)
| step_exit : p_loop p = Top -> p_stopCh p = true -> pstep p (at_loop Exited (p_node p) p)
| step_go : p_loop p = Top -> p_stopCh p = false -> pstep p (at_loop Selecting (p_node p) p)
(** The select receives a request; [reply] is what the iteration sends on the
    reply channel. *)
| step_receive c ev reply rnd clock n' out :
    p_loop p = Selecting -> p_callers p !! c = Some (Calling ev) -> in_range (state (p_node p)) ->
    enabled (Iterate rnd clock ev) (p_node p) ->
    run rnd clock ev (p_node p) = Some (n', out, tt) -> reply ∈ out -> reply_to ev reply ->
    pstep p (record_served (c, ev, reply) (with_caller c (Awaiting ev) (at_loop (Replying reply) n' p)))
(** A caller that waits on the channel of the reply receives it. *)
| step_reply c ev reply :
    p_loop p = Replying reply -> p_callers p !! c = Some (Awaiting ev) -> reply_to ev reply ->
    pstep p (with_caller c (Returned ev reply) (at_loop Top (p_node p) p))
(** The select receives something else; [stopCh] only when it is closed. *)
| step_other rnd clock ev n' out :
    p_loop p = Selecting -> is_rpc ev = false -> (ev = EvStop -> p_stopCh p = true) ->
    in_range (state (p_node p)) -> enabled (Iterate rnd clock ev) (p_node p) ->
    run rnd clock ev (p_node p) = Some (n', out, tt) -> pstep p (at_loop Top n' p)
(** Another goroutine of the node reacts. *)
| step_background t n' out :
    (forall rnd clock ev, t <> Iterate rnd clock ev) -> in_range (state (p_node p)) ->
    enabled t (p_node p) -> wake t (p_node p) = Some (n', out, tt) ->
    pstep p (at_loop (p_loop p) n' p)
| step_stop : pstep p (Stop p).

Definition launched n (tr : RPC.RPCTransport unit) : process := mkProcess n Top ∅ false tr [].

Definition runs (p p' : process) : Prop := rtc pstep p p'.

(** ** The invariant *)

(** A caller that has been received. *)
Definition of_caller (c : caller) : option (event * option effect) :=
  match c with
  | Calling _ => None
  | Awaiting ev => Some (ev, None)
  | Returned ev e => Some (ev, Some e)
  end.

Record dispatched (p : process) : Prop := {
  di_node : state_inv (state (p_node p));
  (** at most one caller waits, and only while its reply is being sent *)
  di_awaiting : forall c ev, p_callers p !! c = Some (Awaiting ev) ->
    exists reply, p_loop p = Replying reply /\ head (p_served p) = Some (c, ev, reply);
  di_replying : forall reply, p_loop p = Replying reply ->
    exists c ev, head (p_served p) = Some (c, ev, reply) /\ p_callers p !! c = Some (Awaiting ev) /\
      reply_to ev reply;
  di_returned : forall c ev reply, p_callers p !! c = Some (Returned ev reply) ->
    (c, ev, reply) ∈ p_served p /\ reply_to ev reply;
  di_calling : forall c ev, p_callers p !! c = Some (Calling ev) ->
    is_rpc ev = true /\ forall ev' reply, (c, ev', reply) ∉ p_served p;
  di_known : forall c ev reply, (c, ev, reply) ∈ p_served p -> is_Some (p_callers p !! c);
  di_once : NoDup (p_served p).*1.*1;
}.

Lemma run_wake rnd clock ev n : wake (Iterate rnd clock ev) n = run rnd clock ev n.
Proof. done. Qed.

(** A request is answered by exactly one effect of the iteration. *)
Lemma run_one_reply rnd clock ev n n' out u :
  state_inv (state n) -> is_rpc ev = true -> run rnd clock ev n = Some (n', out, u) ->
  exists o e, out = o ++ [e] /\ Forall signal (outward o) /\ reply_to ev e.
Proof.
  intros Hn Hev E. destruct (run_responds _ _ _ _ _ _ _ Hn E) as (n1 & o1 & o2 & -> & Ho & _ & _ & _ & Hr).
  unfold responds in Hr. rewrite Hev in Hr. destruct Hr as (_ & o & e & -> & Hs & He).
  exists (o1 ++ o), e. rewrite outward_app, Hs, app_nil_r. by rewrite app_assoc.
Qed.

Lemma launched_dispatched n tr : state_inv (state n) -> dispatched (launched n tr).
Proof.
  intros Hn. split; simpl; try done.
  - intros c ev reply He. by apply elem_of_nil in He.
  - constructor.
Qed.

(** Steps that move the node, and the loop between states without a reply. *)
Lemma dispatched_node p n' l tr b :
  dispatched p -> state_inv (state n') -> l = p_loop p \/ (forall r, p_loop p <> Replying r) /\ (forall r, l <> Replying r) ->
  dispatched (mkProcess n' l (p_callers p) b tr (p_served p)).
Proof.
  intros [Hn Haw Hre Hret Hcal Hkn Hon] Hn' [->|[Hl Hl']]; split; cbn [p_node p_loop p_callers p_served]; try done.
  - intros c ev Hc. destruct (Haw c ev Hc) as (r & Hr & _). by destruct (Hl r).
  - intros r Hr. by destruct (Hl' r).
Qed.

Lemma pstep_dispatched p p' : dispatched p -> pstep p p' -> dispatched p'.
Proof.
  intros Hp Hstep. pose proof Hp as [Hn Haw Hre Hret Hcal Hkn Hon].
  destruct Hstep as [c ev Hev Hc | Hl Hs | Hl Hs | c ev reply rnd clock n' out Hl Hc Hr Hen E Hin Hto
    | c ev reply Hl Hc Hto | rnd clock ev n' out Hl Hev Hes Hr Hen E | t n' out Ht Hr Hen E |].
  - assert (forall ev' reply, (c, ev', reply) ∉ p_served p) as Hnew.
    { intros ev' reply Hi. apply Hkn in Hi as [x Hx]. congruence. }
    split; cbn [p_node p_loop p_callers p_served with_caller]; try done.
    + intros c' ev' Hc'. apply lookup_insert_Some in Hc' as [[_ ?]|[_ Hc']]; [done | by apply Haw].
    + intros reply Hl. destruct (Hre reply Hl) as (c' & ev' & Hh & Hc' & Hto). exists c', ev'.
      split; [done |]. split; [| done]. rewrite lookup_insert_ne; [done | congruence].
    + intros c' ev' reply Hc'. apply lookup_insert_Some in Hc' as [[_ ?]|[_ Hc']]; [done | by apply Hret].
    + intros c' ev' Hc'. apply lookup_insert_Some in Hc' as [[<- [= <-]]|[_ Hc']]; [done | by apply Hcal].
    + intros c' ev' reply Hi. apply Hkn in Hi. apply lookup_insert_is_Some. destruct (decide (c = c')); auto.
  - apply dispatched_node; [done | done |]. right. rewrite Hl. split; by intros.
  - apply dispatched_node; [done | done |]. right. rewrite Hl. split; by intros.
  - assert (forall c' ev', p_callers p !! c' <> Some (Awaiting ev')) as Hnone.
    { intros c' ev' Hc'. destruct (Haw c' ev' Hc') as (? & ? & _). congruence. }
    destruct (Hcal c ev Hc) as [Hev Hfresh].
    split; cbn [p_node p_loop p_callers p_served head with_caller at_loop record_served].
    + by eapply (wake_inv (Iterate rnd clock ev)).
    + intros c' ev' Hc'. apply lookup_insert_Some in Hc' as [[<- [= <-]]|[_ Hc']]; [by exists reply |].
      by destruct (Hnone c' ev').
    + intros r [= <-]. exists c, ev. split; [done |]. split; [by rewrite lookup_insert_eq | done].
    + intros c' ev' r Hc'. apply lookup_insert_Some in Hc' as [[_ ?]|[_ Hc']]; [done |].
      destruct (Hret c' ev' r Hc') as [Hi Ht]. split; [by right | done].
    + intros c' ev' Hc'. apply lookup_insert_Some in Hc' as [[_ ?]|[Hne Hc']]; [done |].
      destruct (Hcal c' ev' Hc') as [He Hf]. split; [done |]. intros ev2 r Hi.
      apply elem_of_cons in Hi as [[= -> _ _]|Hi]; [done | by eapply Hf].
    + intros c' ev' r Hi. apply lookup_insert_is_Some. destruct (decide (c = c')); [by left | right; split; [done |]].
      apply elem_of_cons in Hi as [[= -> _ _]|Hi]; [done | by eapply Hkn].
    + simpl. apply NoDup_cons. split; [| done]. intros Hi.
      apply list_elem_of_fmap in Hi as ([c' ev'] & -> & Hi). apply list_elem_of_fmap in Hi as ([[c2 ev2] r2] & [= -> ->] & Hi).
      by eapply Hfresh.
  - destruct (Hre reply Hl) as (c0 & ev0 & Hh & Hc0 & Hto0).
    assert (c0 = c /\ ev0 = ev) as [-> ->].
    { destruct (Haw c ev Hc) as (r & Hl2 & Hh2). rewrite Hh2 in Hh. by injection Hh. }
    assert ((c, ev, reply) ∈ p_served p) as Hi.
    { destruct (p_served p); [done |]. injection Hh as ->. by left. }
    split; cbn [p_node p_loop p_callers p_served with_caller at_loop]; try done.
    + intros c' ev' Hc'. apply lookup_insert_Some in Hc' as [[_ ?]|[Hne Hc']]; [done |].
      destruct (Haw c' ev' Hc') as (r & _ & Hh'). rewrite Hh' in Hh. by injection Hh as -> _ _.
    + intros c' ev' r Hc'. apply lookup_insert_Some in Hc' as [[<- [= <- <-]]|[_ Hc']]; [done | by apply Hret].
    + intros c' ev' Hc'. apply lookup_insert_Some in Hc' as [[_ ?]|[_ Hc']]; [done | by apply Hcal].
    + intros c' ev' r Hi'. apply lookup_insert_is_Some. destruct (decide (c = c')); [by left | right; split; [done |]].
      by eapply Hkn.
  - apply dispatched_node; [done | by eapply (wake_inv (Iterate rnd clock ev)) |].
    right. rewrite Hl. split; by intros.
  - apply dispatched_node; [done | by eapply wake_inv | by left].
  - unfold Stop. destruct (p_stopCh p); [done |]. apply dispatched_node; [done | done | by left].
Qed.

Lemma runs_app p1 p2 p3 : runs p1 p2 -> runs p2 p3 -> runs p1 p3.
Proof. unfold runs. apply transitivity. Qed.

Lemma runs_dispatched p p' : dispatched p -> runs p p' -> dispatched p'.
Proof. intros Hp Hr. induction Hr as [|p1 p2 p3 Hs _ IH]; [done |]. apply IH. by eapply pstep_dispatched. Qed.

(** ** The contract of the Handle methods *)

(** C9. Every caller gets its own reply. In every interleaving of callers, main
    loop and the node's other goroutines, although all callers of a kind
    receive from one channel: what a Handle method returns is the reply the
    main loop computed for that very request, of the right kind; a request is
    handled at most once; and when the main loop sends a reply, the caller it
    is for is waiting for it, and is the only one that waits, so the loop does
    not block. *)
Theorem callers_get_their_replies n tr p :
  state_inv (state n) -> runs (launched n tr) p ->
  NoDup (p_served p).*1.*1 /\
  (forall c ev reply, p_callers p !! c = Some (Returned ev reply) ->
     (c, ev, reply) ∈ p_served p /\ reply_to ev reply) /\
  (forall reply, p_loop p = Replying reply ->
     exists c ev, (c, ev, reply) ∈ p_served p /\ reply_to ev reply /\
       forall c' ev', p_callers p !! c' = Some (Awaiting ev') <-> c' = c /\ ev' = ev).
Proof.
  intros Hn Hr. destruct (runs_dispatched _ _ (launched_dispatched n tr Hn) Hr) as [_ Haw Hre Hret _ _ Hon].
  split; [done |]. split; [done |]. intros reply Hl. destruct (Hre reply Hl) as (c & ev & Hh & Hc & Hto).
  exists c, ev. split; [destruct (p_served p); [done | injection Hh as ->; by left] |]. split; [done |].
  intros c' ev'. split; [| by intros [-> ->]]. intros Hc'.
  destruct (Haw c' ev' Hc') as (r & _ & Hh'). rewrite Hh' in Hh. by injection Hh.
Qed.

(** ** Answering *)

(** What is assumed of a node for the main loop to answer: it is fit, and
    restoring the snapshot that waits, if one does, keeps it so. *)
Definition ready n : Prop :=
  fit n /\ forall data rest, snapshotInstallChan (state n) = data :: rest -> sound (sm_Restore data (sm n)).1.

Definition in_capacity n : Prop := (length (snapshotInstallChan (state n)) <= snapshotInstallCap)%nat.

Lemma enabled_capacity t n n' out :
  enabled t n -> in_capacity n -> wake t n = Some (n', out, tt) -> in_capacity n'.
Proof.
  intros Hen Hc E. destruct t; try (by eapply Hen).
  destruct (wake_moves OnInstall _ _ _ _ E) as [_ [Hl _]]. unfold in_capacity in *. simpl in Hl. lia.
Qed.

Lemma pstep_capacity p p' : in_capacity (p_node p) -> pstep p p' -> in_capacity (p_node p').
Proof.
  intros Hc [c ev Hev Hc' | Hl Hs | Hl Hs | c ev reply rnd clock n' out Hl Hca Hr Hen E Hin Hto
    | c ev reply Hl Hca Hto | rnd clock ev n' out Hl Hev Hes Hr Hen E | t n' out Ht Hr Hen E |]; cbn; try done.
  - by eapply (enabled_capacity (Iterate rnd clock ev)).
  - by eapply (enabled_capacity (Iterate rnd clock ev)).
  - by eapply enabled_capacity.
  - unfold Stop. by destruct (p_stopCh p).
Qed.

Lemma runs_capacity p p' : in_capacity (p_node p) -> runs p p' -> in_capacity (p_node p').
Proof. intros Hp Hr. induction Hr as [|p1 p2 p3 Hs _ IH]; [done |]. apply IH. by eapply pstep_capacity. Qed.

(** Whatever waits on the channel is installed first. *)
Lemma make_room p :
  in_capacity (p_node p) -> ready (p_node p) ->
  exists n', runs p (at_loop (p_loop p) n' p) /\ fit n' /\ snapshotInstallChan (state n') = [].
Proof.
  intros Hc [Hf Hre]. destruct (snapshotInstallChan (state (p_node p))) as [|data rest] eqn:Ech.
  { exists (p_node p). split; [destruct p; apply rtc_refl | done]. }
  destruct (wake OnInstall (p_node p)) as [[[n' out] []]|] eqn:E; simpl in E; unfold snapshotLoopInstall in E;
    rewrite Ech in E; [| done].
  exists n'. split.
  - apply rtc_once. apply (step_background p OnInstall n' out); [done | apply Hf | by simpl; rewrite Ech |].
    simpl. unfold snapshotLoopInstall. by rewrite Ech.
  - injection E as <- _. unfold in_capacity, snapshotInstallCap in Hc. rewrite Ech in Hc. simpl in Hc.
    assert (rest = []) as -> by (destruct rest; [done | simpl in Hc; lia]).
    split; [| done]. destruct Hf as [[] ?]. split; [by split | by eapply Hre].
Qed.

(** The main loop, in its select, takes a request and answers it. *)
Lemma serve_selecting p c ev :
  dispatched p -> fit (p_node p) -> snapshotInstallChan (state (p_node p)) = [] -> p_loop p = Selecting ->
  p_callers p !! c = Some (Calling ev) ->
  exists p' reply, runs p p' /\ p_callers p' !! c = Some (Returned ev reply).
Proof.
  intros Hp Hr Hch Hl Hc. destruct (di_calling _ Hp c ev Hc) as [Hev _].
  destruct (run_total 0 (fun _ => 0) ev (p_node p) (di_node _ Hp) Hr) as (n' & out & [] & E & _).
  destruct (run_one_reply _ _ _ _ _ _ _ (di_node _ Hp) Hev E) as (o & reply & Eo & _ & Hto).
  set (p1 := record_served (c, ev, reply) (with_caller c (Awaiting ev) (at_loop (Replying reply) n' p))).
  exists (with_caller c (Returned ev reply) (at_loop Top n' p1)), reply. split; [| apply lookup_insert_eq].
  apply rtc_l with p1; [| apply rtc_once].
  - eapply step_receive; [done | done | apply Hr | by apply empty_enabled | exact E | | done].
    rewrite Eo. apply elem_of_app. right. by left.
  - by eapply (step_reply p1); [| apply lookup_insert_eq |].
Qed.

Lemma serve_caller p c ev :
  dispatched p -> in_capacity (p_node p) -> ready (p_node p) -> p_stopCh p = false ->
  p_loop p = Top \/ p_loop p = Selecting -> p_callers p !! c = Some (Calling ev) ->
  exists p' reply, runs p p' /\ p_callers p' !! c = Some (Returned ev reply).
Proof.
  intros Hp Hcap Hr Hs Hl Hc. destruct (make_room p Hcap Hr) as (n' & Hrun & Hf & Hch).
  set (p1 := at_loop (p_loop p) n' p) in *.
  assert (exists p2, runs p1 p2 /\ p_loop p2 = Selecting /\ p_node p2 = n' /\ p_callers p2 = p_callers p)
    as (p2 & Hr2 & Hl2 & En2 & Ec2).
  { destruct Hl as [Hl|Hl]; [exists (at_loop Selecting n' p1) | exists p1; by split; [apply rtc_refl |]].
    split; [| done]. apply rtc_once. by apply (step_go p1). }
  destruct (serve_selecting p2 c ev) as (p' & reply & Hr' & Hc'); rewrite ?En2, ?Ec2; try done.
  - eapply runs_dispatched; [exact Hp |]. by eapply runs_app.
  - exists p', reply. split; [| done]. eapply runs_app; [exact Hrun |]. by eapply runs_app.
Qed.

(** Between the receipt of a request and its reply nothing else is received. *)
Lemma finish_reply p :
  dispatched p -> p_loop p <> Exited ->
  exists p', runs p p' /\ (p_loop p' = Top \/ p_loop p' = Selecting) /\ p_node p' = p_node p /\
    p_stopCh p' = p_stopCh p /\
    forall c ev, p_callers p !! c = Some (Calling ev) -> p_callers p' !! c = Some (Calling ev).
Proof.
  intros Hp Hl. destruct (p_loop p) as [| |reply|] eqn:El; [| | | done].
  1,2: exists p; split; [apply rtc_refl |]; rewrite El; auto.
  destruct (di_replying _ Hp reply El) as (c0 & ev0 & _ & Hc0 & Hto).
  exists (with_caller c0 (Returned ev0 reply) (at_loop Top (p_node p) p)).
  split; [apply rtc_once; by apply step_reply |]. split; [by left |]. split; [done |]. split; [done |].
  intros c ev Hc. cbn. rewrite lookup_insert_ne; [done | congruence].
Qed.

(** The requests that may still be received once [stopCh] is closed: the select
    chooses among all channels that are ready, and [stopCh] is one of them. *)
Definition last_chance (l : loop) : nat := match l with Selecting => 1 | _ => 0 end.

Lemma stopped_step p p' :
  p_stopCh p = true -> pstep p p' ->
  p_stopCh p' = true /\
  (length (p_served p') + last_chance (p_loop p') <= length (p_served p) + last_chance (p_loop p))%nat.
Proof.
  intros Hs [c ev Hev Hc' | Hl Hs' | Hl Hs' | c ev reply rnd clock n' out Hl Hca Hr Hen E Hin Hto
    | c ev reply Hl Hca Hto | rnd clock ev n' out Hl Hev Hes Hr Hen E | t n' out Ht Hr Hen E |];
    cbn; rewrite ?Hl; simpl; try (split; [done | lia]).
  - congruence.
  - unfold Stop. rewrite Hs. split; [done | lia].
Qed.

Lemma stopped_runs p p' :
  p_stopCh p = true -> runs p p' ->
  (length (p_served p') <= length (p_served p) + last_chance (p_loop p))%nat.
Proof.
  intros Hs Hr. induction Hr as [|p1 p2 p3 Hst _ IH]; [lia |].
  destruct (stopped_step _ _ Hs Hst) as [Hs2 Hle]. specialize (IH Hs2). lia.
Qed.

(** Once the main loop has returned, nothing moves a caller. *)
Lemma exited_callers p p' c ev :
  p_loop p = Exited -> p_callers p !! c = Some (Calling ev) -> runs p p' ->
  p_loop p' = Exited /\ p_callers p' !! c = Some (Calling ev).
Proof.
  intros Hl Hc Hr. induction Hr as [|p1 p2 p3 Hs _ IH]; [done |].
  assert (p_loop p2 = Exited /\ p_callers p2 !! c = Some (Calling ev)) as [Hl2 Hc2]; [| by apply IH].
  destruct Hs as [c' ev' _ Hc' | Hl' | Hl' | c' ev' reply rnd clock n' out Hl' | c' ev' reply Hl'
    | rnd clock ev' n' out Hl' | t n' out _ _ _ _ |]; try congruence; cbn; try done.
  - split; [done |]. rewrite lookup_insert_ne; [done | congruence].
  - unfold Stop. by destruct (p_stopCh p1).
Qed.

(** The loop returns only after [Stop]. *)
Lemma exited_stopped p p' :
  (p_loop p = Exited -> p_stopCh p = true) -> runs p p' -> p_loop p' = Exited -> p_stopCh p' = true.
Proof.
  intros Hp Hr. induction Hr as [|p1 p2 p3 Hs _ IH]; [done |]. apply IH.
  destruct Hs as [| | |?|?|?|? ? ? ? ? ? ?|]; cbn; try congruence; try done.
  unfold Stop. by destruct (p_stopCh p1) eqn:E.
Qed.

(** After [Stop] the loop can return before it receives anything else. *)
Lemma stop_exits p c ev :
  dispatched p -> in_capacity (p_node p) -> fit (p_node p) -> p_stopCh p = true ->
  p_callers p !! c = Some (Calling ev) ->
  exists p', runs p p' /\ p_loop p' = Exited /\ p_callers p' !! c = Some (Calling ev).
Proof.
  intros Hp Hcap Hf Hs Hc. destruct (decide (p_loop p = Exited)) as [Hl|Hl].
  { exists p. split; [apply rtc_refl | done]. }
  destruct (finish_reply p Hp Hl) as (p1 & Hr1 & Hl1 & En1 & Es1 & Hc1). rewrite Hs in Es1. apply Hc1 in Hc.
  assert (exists p2, runs p1 p2 /\ p_loop p2 = Top /\ p_stopCh p2 = true /\ p_callers p2 = p_callers p1)
    as (p2 & Hr2 & Hl2 & Es2 & Ec2).
  { destruct Hl1 as [Hl1|Hl1]; [exists p1; by split; [apply rtc_refl |] |].
    rewrite <- En1 in Hf, Hcap.
    pose proof (runs_dispatched _ _ Hp Hr1) as Hp1.
    destruct (run_total 0 (fun _ => 0) EvStop (p_node p1) (di_node _ Hp1) Hf) as (n' & out & [] & E & _).
    exists (at_loop Top n' p1). cbn. split; [| done]. apply rtc_once.
    apply (step_other p1 0 (fun _ => 0) EvStop n' out); [done | done | done | apply Hf | | exact E].
    intros n2 o2 E2. destruct (wake_moves _ _ _ _ _ E2) as [_ [Hle _]]. unfold in_capacity in Hcap. simpl in Hle. lia. }
  exists (at_loop Exited (p_node p2) p2). split; [| split; [done | cbn; by rewrite Ec2]].
  eapply runs_app; [exact Hr1 |]. eapply runs_app; [exact Hr2 |]. apply rtc_once. by apply step_exit.
Qed.

(** C18. Requests are answered until the node stops. Before [Stop], whatever
    has happened, a caller that has not been received yet can be served to its
    return: no state of the goroutines blocks the node. Once [stopCh] is
    closed, at most one more request is received in any continuation, and that
    one by a select that was already waiting; and the main loop can return
    without receiving any. A caller it leaves behind stays where it is in every
    continuation: unlike [Apply], the Handle methods do not watch [stopCh], and
    the RPC never returns. *)
Theorem requests_are_answered n tr p c ev :
  state_inv (state n) -> in_capacity n -> runs (launched n tr) p -> ready (p_node p) ->
  p_callers p !! c = Some (Calling ev) ->
  (p_stopCh p = false -> exists p' reply, runs p p' /\ p_callers p' !! c = Some (Returned ev reply)) /\
  (p_stopCh p = true ->
     (forall p', runs p p' -> (length (p_served p') <= length (p_served p) + last_chance (p_loop p))%nat) /\
     exists p', runs p p' /\ p_loop p' = Exited /\ p_callers p' !! c = Some (Calling ev)) /\
  (p_loop p = Exited -> forall p', runs p p' -> p_callers p' !! c = Some (Calling ev)).
Proof.
  intros Hn Hcap Hr Hready Hc.
  pose proof (runs_dispatched _ _ (launched_dispatched n tr Hn) Hr) as Hp.
  pose proof (runs_capacity (launched n tr) _ Hcap Hr) as Hcap'. split; [| split].
  - intros Hs. assert (p_loop p <> Exited) as Hl.
    { intros Hl. pose proof (exited_stopped (launched n tr) p ltac:(done) Hr Hl). congruence. }
    destruct (finish_reply p Hp Hl) as (p1 & Hr1 & Hl1 & En1 & Es1 & Hc1).
    destruct (serve_caller p1 c ev) as (p' & reply & Hr' & Hc'); rewrite ?En1, ?Es1; auto.
    + by eapply runs_dispatched.
    + exists p', reply. split; [by eapply runs_app | done].
  - intros Hs. split; [intros p'; by apply stopped_runs |]. apply stop_exits; try done. apply Hready.
  - intros Hl p' Hr'. by apply (exited_callers p p' c ev).
Qed.
End dispatch.

(** ** Instances *)

#[local] Existing Instance amd64.

Definition idle : RaftNode Register MemoryStorage.t := with_state trio_state.

Definition heartbeat : event := EvAppendEntries (mkAppendEntriesArgs 2 "n2" (-1) (-1) [] (-1)).

Lemma idle_range : in_range (state idle).
Proof. split; [vm_compute; split; discriminate | vm_compute; split; discriminate | vm_compute; reflexivity]. Qed.

(** Two callers of the same kind at once. *)
Definition new_tr : RPC.RPCTransport unit := RPC.NewRPCTransport "n1".

Definition two_callers : process (SM := Register) (ST := MemoryStorage.t) :=
  with_caller 1%nat (Calling heartbeat) (with_caller 0%nat (Calling heartbeat) (launched idle new_tr)).

Lemma two_callers_run : runs (launched idle new_tr) two_callers.
Proof.
  apply rtc_l with (with_caller 0%nat (Calling heartbeat) (launched idle new_tr)).
  - exact (step_call (launched idle new_tr) 0%nat heartbeat eq_refl eq_refl).
  - apply rtc_once.
    exact (step_call (with_caller 0%nat (Calling heartbeat) (launched idle new_tr)) 1%nat heartbeat
             eq_refl eq_refl).
Qed.

Lemma idle_ready : ready idle.
Proof.
  split; [split; [exact idle_range | exact (register_sound _)] |].
  intros data rest E. assert (snapshotInstallChan (state idle) = []) as E0 by (vm_compute; reflexivity).
  by rewrite E0 in E.
Qed.

Lemma idle_capacity : in_capacity idle.
Proof. vm_compute. lia. Qed.

Lemma callers_get_their_replies_witness :
  NoDup (p_served two_callers).*1.*1 /\ exists p reply,
    runs two_callers p /\ p_callers p !! 0%nat = Some (Returned heartbeat reply) /\ reply_to heartbeat reply.
Proof.
  split; [apply (callers_get_their_replies idle new_tr); [exact trio_state_inv | exact two_callers_run] |].
  destruct (serve_caller two_callers 0%nat heartbeat) as (p & reply & Hr & Hc).
  - exact (runs_dispatched _ _ (launched_dispatched idle new_tr trio_state_inv) two_callers_run).
  - exact idle_capacity.
  - exact idle_ready.
  - reflexivity.
  - by left.
  - reflexivity.
  - exists p, reply. split; [done |]. split; [done |].
    destruct (callers_get_their_replies idle new_tr p trio_state_inv (runs_app _ _ _ two_callers_run Hr)) as (_ & Hret & _).
    by apply (Hret 0%nat).
Defined.

(** The second caller is served; or the node stops before it is received. *)
Definition two_stopped : process (SM := Register) (ST := MemoryStorage.t) :=
  at_loop Exited idle (Stop two_callers).

Lemma two_stopped_run : runs (launched idle new_tr) two_stopped.
Proof.
  apply runs_app with two_callers; [exact two_callers_run |].
  apply rtc_l with (Stop two_callers); [apply step_stop |]. apply rtc_once.
  exact (step_exit (Stop two_callers) eq_refl eq_refl).
Qed.

Lemma requests_are_answered_witness :
  (exists p reply, runs two_callers p /\ p_callers p !! 1%nat = Some (Returned heartbeat reply)) /\
  (forall p, runs two_stopped p -> (length (p_served p) <= 0)%nat) /\
  forall p, runs two_stopped p -> p_callers p !! 1%nat = Some (Calling heartbeat).
Proof.
  destruct (requests_are_answered idle new_tr two_callers 1%nat heartbeat trio_state_inv idle_capacity
    two_callers_run idle_ready eq_refl) as (Hserved & _).
  destruct (requests_are_answered idle new_tr two_stopped 1%nat heartbeat trio_state_inv idle_capacity
    two_stopped_run idle_ready eq_refl) as (_ & Hstop & Hexit).
  split; [exact (Hserved eq_refl) |]. split; [exact (proj1 (Hstop eq_refl)) | exact (Hexit eq_refl)].
Defined.
