(* ===== verification/Outbound.v ===== *)
(** * Outbound: a node over its transport (src/raft/node.go, lines 216-221 and
      587-622, with src/transport/rpc_transport.go)

    The goroutines that carry a node's messages to its transport, and the ones
    that dial the peers when it starts. A message waits until its goroutine
    runs; the order in which the goroutines run is free. *)
From S2P Require Import Prelude GoFloat Metrics Types State Storage SnapshotOps ConfigChange Log.
From S2P Require Import RpcTransport Samples Election ElectionTheorems Control ConfigTheorems.
From S2P Require Import Node Servers Handlers Effects NodeTheorems Panics.

(** ** What a node hands to its transport *)

(** The server a message goes to. *)
Definition target (e : effect) : option ServerID :=
  match e with
  | SendRequestVote p _ | SendAppendEntries p _ | SendInstallSnapshot p _ => Some p
  | _ => None
  end.

(** The membership request that makes a leader dial a server. *)
Definition adding (p : ServerID) (t : task) : bool :=
  match t with
  | OnConfiguration req => Add (msg req) && bool_decide (Server (msg req) = p)
  | _ => false
  end.

(** Effects of the goroutines other than the main loop. *)
Definition backstage (t : task) (e : effect) : Prop :=
  match e with
  | SendRequestVote _ _ => False
  | Connect p => adding p t = true
  | _ => True
  end.

(** A dial is always asked for by a membership request. *)
Definition dial_asked (t : task) (e : effect) : Prop :=
  match e with Connect p => adding p t = true | _ => True end.

Section wakes.
Context {SM ST : Type} `{StateMachine SM, Storage ST, GoPlatform}.
Implicit Types n : RaftNode SM ST.

Lemma signal_backstage t e : signal e -> backstage t e.
Proof. by destruct e. Qed.

Lemma replication_backstage t e : replication e -> backstage t e.
Proof. by destruct e. Qed.

Lemma awaitConfig_emits t r : emits (SM := SM) (ST := ST) (backstage t) (awaitConfig r).
Proof. unfold awaitConfig. emitting. Qed.

Lemma promoteUnvotingServer_emits t p : emits (SM := SM) (ST := ST) (backstage t) (promoteUnvotingServer p).
Proof. unfold promoteUnvotingServer. emitting; apply awaitConfig_emits. Qed.

Lemma sends_backstage t : emits (SM := SM) (ST := ST) (backstage t) sendAppendEntriesRPCs.
Proof. eapply emits_mono; [apply sendAppendEntriesRPCs_emits | apply replication_backstage]. Qed.

Lemma wake_emits t :
  (forall rnd clock ev, t <> Iterate rnd clock ev) -> emits (SM := SM) (ST := ST) (backstage t) (wake t).
Proof.
  intros Ht. destruct t as [rnd clock ev|resp|resp|errCh req|req|entry|]; simpl.
  - by destruct (Ht rnd clock ev).
  - unfold appendEntriesResponse. emitting;
      first [ apply promoteUnvotingServer_emits
            | eapply emits_mono; [apply sendInstallSnapshotRPC_emits | apply replication_backstage] ].
  - unfold installSnapshotResponse. emitting; apply promoteUnvotingServer_emits.
  - unfold handleApplyRequest. emitting; first [apply persistState_emits | apply sends_backstage].
  - unfold handleConfigurationMessage. emitting;
      first [ apply sends_backstage | apply awaitConfig_emits
            | apply emits_emit; simpl; by rewrite bool_decide_true, andb_true_r ].
  - unfold configApplied. emitting.
  - intros n n' out u. unfold snapshotLoopInstall. destruct (snapshotInstallChan (state n)); [done |].
    intros [= <- <- _]. by split.
Qed.

Lemma wake_dials t n n' out :
  state_inv (state n) -> wake t n = Some (n', out, tt) -> Forall (dial_asked t) (outward out).
Proof.
  intros Hn E. assert (forall e, backstage t e -> dial_asked t e) as Hb by (by intros []).
  assert ((exists rnd clock ev, t = Iterate rnd clock ev) \/ forall rnd clock ev, t <> Iterate rnd clock ev)
    as [(rnd & clock & ev & ->)|Ht] by (destruct t; eauto).
  2: { destruct (wake_emits t Ht _ _ _ _ E) as [_ F]. by eapply Forall_impl. }
  destruct (run_responds _ _ _ _ _ _ _ Hn E) as (n1 & o1 & o2 & -> & F1 & _ & _ & _ & Hr).
  rewrite outward_app. apply Forall_app. split; [eapply Forall_impl; [exact F1 | by intros []] |].
  unfold responds in Hr. destruct (is_rpc ev) eqn:Eev.
  - destruct Hr as (_ & o & e & -> & Ho & He). rewrite outward_app, Ho. by destruct ev, e; try done; constructor.
  - destruct ev; try done; try (by destruct Hr as [_ ->]).
    + eapply Forall_impl; [exact (proj2 Hr) | by intros []].
    + destruct Hr as [_ [[F _]|[[F _]| ->]]]; [| | done]; (eapply Forall_impl; [exact F | by intros []]).
Qed.

(** ** Before the peers are connected *)

(** A follower that is not connected. *)
Record waits n : Prop := {
  wt_inv : state_inv (state n);
  wt_role : role (state n) = Follower;
  wt_up : connected n = false;
  wt_peers : peers n <> [];
}.

Definition unsolicited (e : effect) : Prop := ~ solicitation e.

Lemma saves_unsolicited out : Forall unsolicited (outward out) -> Forall unsolicited out.
Proof. apply forall_outward. by intros [] ? []. Qed.

Lemma unsolicited_sent out : Forall unsolicited out -> sent out = [].
Proof.
  induction 1 as [|e out He _ IH]; [done |]. destruct e; try (exact IH). by destruct He.
Qed.

Lemma quiet_follower n n' :
  quiet (control (state n)) (control (state n')) -> role (state n) = Follower -> role (state n') = Follower.
Proof. intros [_ [E|E]] Hr; unfold control in E; simpl in E; congruence. Qed.

Lemma same_peers n n' : cfg n' = cfg n -> peers n' = peers n.
Proof. unfold peers. by intros ->. Qed.

Lemma run_waits rnd clock ev n n' out u :
  waits n -> ev <> EvConnected -> run rnd clock ev n = Some (n', out, u) -> waits n' /\ Forall unsolicited out.
Proof.
  intros [Hn Hrole Hup Hps] Hev E.
  destruct (run_responds _ _ _ _ _ _ _ Hn E) as (n1 & o1 & o2 & -> & F1 & Hc1 & Hr1 & _ & Hresp).
  assert (connected n' = false /\ Forall unsolicited o2) as [Hc' Fo2].
  { unfold responds in Hresp. rewrite Hr1, Hrole, Hc1, Hup in Hresp. destruct (is_rpc ev) eqn:Eev.
    - destruct Hresp as (Hc & o & e & -> & Ho & He). split; [done |]. apply Forall_app. split.
      + apply saves_unsolicited. by rewrite Ho.
      + apply Forall_singleton. intros Hs. by destruct ev, e.
    - destruct ev; try done; try (by destruct Hresp as [? ->]).
      + split; [apply Hresp |]. apply saves_unsolicited.
        eapply Forall_impl; [exact (proj2 Hresp) | by intros []; intros ? []].
      + destruct Hresp as [? [[_ ?]|[[_ [?|?]]|Ho]]]; try done. split; [done |].
        apply saves_unsolicited. by rewrite Ho. }
  assert (Forall unsolicited (o1 ++ o2)) as Fo.
  { apply Forall_app. split; [| done]. apply saves_unsolicited.
    eapply Forall_impl; [exact F1 | by intros []; intros ? []]. }
  split; [| done].
  destruct (run_reaction _ _ _ _ _ _ _ Hn E) as (n2 & p1 & p2 & Ep & Hcalm & Hse & Hre).
  assert (sent p2 = []) as Hsent.
  { apply unsolicited_sent. rewrite Ep in Fo. apply Forall_app in Fo as [_ Fp]. exact Fp. }
  assert (role (state n2) = Follower) as Hr2 by (eapply quiet_follower; [apply Hcalm | done]).
  assert (peers n2 = peers n) as Hp2 by apply same_peers, Hcalm.
  assert (state_inv (state n') /\ role (state n') = Follower /\ cfg n' = cfg n2) as (Hi & Hr & Hcfg).
  { split; [by eapply reaction_inv |].
    assert (forall fz o, calm fz n2 n' o -> role (state n') = Follower /\ cfg n' = cfg n2) as Hq.
    { intros fz o Hc. split; [eapply quiet_follower; [apply Hc | done] | apply Hc]. }
    destruct ev; simpl in Hre; try (by eapply Hq).
    - destruct Hre as [Hg|(o & t & Hc & _)]; [split; apply Hg | by eapply Hq].
    - destruct Hre as [Hc|Hc]; [by eapply Hq |]. destruct Hc. congruence.
    - destruct Hre as [Hc|[[_ _ _ _ (args & Hs & _)]|Hw]]; [by eapply Hq | |].
      + rewrite Hsent, Hp2 in Hs. by destruct (peers n).
      + destruct Hw. congruence. }
  split; [done | done | done |]. by rewrite (same_peers n2 n'), Hp2.
Qed.

Lemma wake_waits t n n' out :
  waits n -> in_range (state n) -> (forall rnd clock, t <> Iterate rnd clock EvConnected) ->
  wake t n = Some (n', out, tt) -> waits n' /\ Forall unsolicited out.
Proof.
  intros Hw Hr Ht E.
  assert ((exists rnd clock ev, t = Iterate rnd clock ev) \/ forall rnd clock ev, t <> Iterate rnd clock ev)
    as [(rnd & clock & ev & ->)|Hit] by (destruct t; eauto).
  { eapply run_waits; [exact Hw | | exact E]. intros ->. by eapply Ht. }
  pose proof (wake_inv t n n' out (wt_inv _ Hw) Hr E) as Hi.
  destruct (wake_emits t Hit _ _ _ _ E) as [Hc F].
  split; [| apply saves_unsolicited; eapply Forall_impl; [exact F | by intros []; intros ? []]].
  destruct Hw as [Hn Hrole Hup Hps].
  enough (role (state n') = Follower /\ cfg n' = cfg n) as [Hrole' Hcfg].
  { split; [done | done | by rewrite Hc | by rewrite (same_peers n)]. }
  destruct t as [rnd clock ev|resp|resp|errCh req|req|entry|]; simpl in E.
  - by destruct (Hit rnd clock ev).
  - unfold appendEntriesResponse, gets, mbind, handler_bind, getRole in E. rewrite Hrole in E. by simplify_eq/=.
  - unfold installSnapshotResponse, gets, mbind, handler_bind, getRole in E. rewrite Hrole in E. by simplify_eq/=.
  - unfold handleApplyRequest, gets, mbind, handler_bind, getRole in E. rewrite Hrole in E. by simplify_eq/=.
  - unfold handleConfigurationMessage, gets, mbind, handler_bind, getRole in E. rewrite Hrole in E. by simplify_eq/=.
  - unfold configApplied, gets, mbind, handler_bind in E. by simplify_eq/=.
  - unfold snapshotLoopInstall in E. destruct (snapshotInstallChan (state n)); [done |]. by simplify_eq/=.
Qed.
End wakes.

(** ** The goroutines around the transport *)

Section outbound.
Context {SM ST : Type} `{StateMachine SM, Storage ST, GoPlatform}.
Implicit Types n : RaftNode SM ST.

Record outbound := mkOutbound {
  ob_node : RaftNode SM ST;
  ob_tr : RPC.RPCTransport unit;
  ob_sending : list effect;       (* goroutines that hold a message *)
  ob_calls : list ServerID;       (* goroutines that wait for the end of a call *)
  ob_dialing : list ServerID;     (* goroutines of connectToPeers that retry *)
  ob_done : bool;                 (* connectToPeers has signalled connectedChan *)
  ob_token : bool;                (* connectedChan holds the signal *)
  ob_reached : list ServerID;     (* calls made over a connection, latest first *)
}.

(** The main loop receives from [connectedChan]. *)
Definition takes_token (t : task) : bool :=
  match t with Iterate _ _ EvConnected => true | _ => false end.

(** The loop of one goroutine of [connectToPeers] until a dial succeeds. *)
Definition dialPeer (p : ServerID) (dialled : bool) (l1 l2 : list ServerID) (o : outbound) : outbound :=
  mkOutbound (ob_node o) (RPC.Connect p dialled (ob_tr o)).1 (ob_sending o) (ob_calls o)
    (if dialled then l1 ++ l2 else l1 ++ p :: l2) (ob_done o) (ob_token o) (ob_reached o).

(** [connectToPeers] has received from [done] once per peer. *)
Definition signalConnected (o : outbound) : outbound :=
  mkOutbound (ob_node o) (ob_tr o) (ob_sending o) (ob_calls o) (ob_dialing o) true true (ob_reached o).

(** A goroutine hands its message to the transport: the call begins over the
    connection there is, and is waited for; without one it is over. *)
Definition transmit (p : ServerID) (rest : list effect) (o : outbound) : outbound :=
  match RPC.begin_call p (ob_tr o) with
  | inl c => mkOutbound (ob_node o) (ob_tr o) rest (p :: ob_calls o) (ob_dialing o) (ob_done o) (ob_token o)
               (if RPC.open_client c (ob_tr o) then p :: ob_reached o else ob_reached o)
  | inr _ => mkOutbound (ob_node o) (ob_tr o) rest (ob_calls o) (ob_dialing o) (ob_done o) (ob_token o)
               (ob_reached o)
  end.

(** A call ends, however long after. *)
Definition finish (p : ServerID) (out : RPC.outcome unit) (rest : list ServerID) (o : outbound) : outbound :=
  mkOutbound (ob_node o) (RPC.end_call p out (ob_tr o)).1 (ob_sending o) rest (ob_dialing o) (ob_done o)
    (ob_token o) (ob_reached o).

Definition redial (p : ServerID) (dialled : bool) (rest : list effect) (o : outbound) : outbound :=
  mkOutbound (ob_node o) (RPC.Connect p dialled (ob_tr o)).1 rest (ob_calls o) (ob_dialing o) (ob_done o) (ob_token o)
    (ob_reached o).

Definition react (t : task) n' (out : list effect) (o : outbound) : outbound :=
  mkOutbound n' (ob_tr o) (ob_sending o ++ outward out) (ob_calls o) (ob_dialing o) (ob_done o)
    (ob_token o && negb (takes_token t)) (ob_reached o).

(** The step a goroutine makes; the label is the task of a reaction. *)
Inductive ostep (o : outbound) : option task -> outbound -> Prop :=
| o_react t n' out :
    (takes_token t = true -> ob_token o = true) -> in_range (state (ob_node o)) ->
    wake t (ob_node o) = Some (n', out, tt) -> ostep o (Some t) (react t n' out o)
| o_dial p dialled l1 l2 :
    ob_dialing o = l1 ++ p :: l2 -> ostep o None (dialPeer p dialled l1 l2 o)
| o_signal : ob_dialing o = [] -> ob_done o = false -> ostep o None (signalConnected o)
| o_transmit p e l1 l2 :
    ob_sending o = l1 ++ e :: l2 -> target e = Some p -> ostep o None (transmit p (l1 ++ l2) o)
| o_finish p out l1 l2 :
    ob_calls o = l1 ++ p :: l2 -> ostep o None (finish p out (l1 ++ l2) o)
| o_redial p dialled l1 l2 :
    ob_sending o = l1 ++ Connect p :: l2 -> ostep o None (redial p dialled (l1 ++ l2) o).

(** Steps that are not the reaction to a request to add [p]. *)
Definition step_without (p : ServerID) (o o' : outbound) : Prop :=
  exists l, ostep o l o' /\ forall t, l = Some t -> adding p t = false.

Definition any_step (o o' : outbound) : Prop := exists l, ostep o l o'.

(** A started node with peers. *)
Definition started_over n (tr : RPC.RPCTransport unit) : outbound :=
  mkOutbound n tr [] [] (peers n) false false [].

(** Handing over a message changes the list of messages and of calls only. *)
Lemma transmit_fields p rest o :
  ob_node (transmit p rest o) = ob_node o /\ ob_sending (transmit p rest o) = rest /\
  ob_dialing (transmit p rest o) = ob_dialing o /\ ob_done (transmit p rest o) = ob_done o /\
  ob_token (transmit p rest o) = ob_token o /\ ob_tr (transmit p rest o) = ob_tr o.
Proof. unfold transmit. by destruct (RPC.begin_call p (ob_tr o)). Qed.

(** Without a connection nothing is put on the network. *)
Lemma transmit_reached p rest o q :
  RPC.connected (ob_tr o) q = false ->
  filter (fun x => x = q) (ob_reached (transmit p rest o)) = filter (fun x => x = q) (ob_reached o).
Proof.
  intros Hq. unfold transmit. destruct (RPC.begin_call p (ob_tr o)) eqn:Eb; [| done]. simpl.
  destruct (RPC.open_client _ _); [| done]. rewrite filter_cons_False; [done |]. intros ->.
  unfold RPC.begin_call in Eb. unfold RPC.connected in Hq.
  destruct (RPC.connections (ob_tr o) !! q); [| done]. by rewrite bool_decide_true in Hq by (by eexists).
Qed.

(** ** Starting up *)

Definition held_back (o : outbound) : Prop :=
  ob_dialing o <> [] ->
  ob_token o = false /\ ob_done o = false /\ waits (ob_node o) /\ Forall unsolicited (ob_sending o).

Lemma held_back_step o l o' : held_back o -> ostep o l o' -> held_back o'.
Proof.
  intros Ho Hs. destruct Hs as [t n' out Htok Hr E | p dialled l1 l2 Hd | Hd Hdone | p e l1 l2 Hse Ht
    | p out l1 l2 Hca | p dialled l1 l2 Hse]; intros Hne; cbn in Hne.
  - destruct (Ho Hne) as (Ht & Hd & Hw & Hf). cbn. rewrite Ht. split; [done |]. split; [done |].
    destruct (fun Hne => wake_waits t _ _ _ Hw Hr Hne E) as [Hw' Hf']; [| split; [done | apply Forall_app; split; [done | by apply outward_forall]]].
    intros rnd clock ->. rewrite Htok in Ht; done.
  - destruct Ho as (Ht & Hdo & Hw & Hf); [rewrite Hd; by destruct l1 |]. done.
  - done.
  - destruct (transmit_fields p (l1 ++ l2) o) as (E1 & E2 & E3 & E4 & E5 & E6). rewrite E3 in Hne.
    destruct (Ho Hne) as (Ht' & Hd & Hw & Hf). rewrite Hse in Hf. rewrite E1, E2, E4, E5.
    do 3 (split; [done |]).
    apply Forall_app in Hf as [Hf1 Hf2]. apply Forall_cons in Hf2 as [_ Hf2]. by apply Forall_app.
  - exact (Ho Hne).
  - destruct (Ho Hne) as (Ht' & Hd & Hw & Hf). rewrite Hse in Hf. cbn. do 3 (split; [done |]).
    apply Forall_app in Hf as [Hf1 Hf2]. apply Forall_cons in Hf2 as [_ Hf2]. by apply Forall_app.
Qed.

(** C10. One unreachable peer keeps a node out of elections. A node that starts
    with peers dials each of them until it answers, and takes part as a
    candidate only after the last one has: as long as one dial has not
    succeeded, in every interleaving of its goroutines and whatever it
    receives, it stays a follower and asks nobody for a vote. A cluster that
    starts with one server down elects no leader, although a majority is up. *)
Theorem no_election_until_all_connected n tr o :
  state_inv (state n) -> role (state n) = Follower -> connected n = false -> peers n <> [] ->
  rtc any_step (started_over n tr) o -> ob_dialing o <> [] ->
  role (state (ob_node o)) = Follower /\ connected (ob_node o) = false /\
  forall p args, SendRequestVote p args ∉ ob_sending o.
Proof.
  intros Hn Hr Hc Hp Hrun Hd. assert (held_back o) as Ho.
  { assert (held_back (started_over n tr)) as H0' by (intros _; split; [done |]; split; [done |]; by split).
    induction Hrun as [|o1 o2 o3 [l Hs] _ IH]; [done |]. apply IH; [done |]. by eapply held_back_step. }
  destruct (Ho Hd) as (_ & _ & Hw & Hf). split; [apply Hw |]. split; [apply Hw |].
  intros p args Hi. rewrite Forall_forall in Hf. exact (Hf _ Hi I).
Qed.

(** ** Losing a peer *)

Record lost (p : ServerID) (o : outbound) : Prop := {
  lo_inv : state_inv (state (ob_node o));
  lo_conn : RPC.connected (ob_tr o) p = false;
  lo_dial : p ∉ ob_dialing o;
  lo_sending : Connect p ∉ ob_sending o;
}.

Lemma connect_lost q b (tr : RPC.RPCTransport unit) p :
  p <> q -> RPC.connected tr p = false -> RPC.connected (RPC.Connect q b tr).1 p = false.
Proof. intros Hne Hc. rewrite RPC.Connect_lookup. by rewrite decide_False. Qed.

Lemma lost_step p o o' :
  lost p o -> step_without p o o' ->
  lost p o' /\ filter (fun q => q = p) (ob_reached o') = filter (fun q => q = p) (ob_reached o).
Proof.
  intros [Hn Hc Hd Hs] (l & Hstep & Hl). destruct Hstep as [t n' out Htok Hr E | q dialled l1 l2 Hdi | Hdi Hdone
    | q e l1 l2 Hse Ht | q out l1 l2 Hca | q dialled l1 l2 Hse].
  - split; [| done]. split; cbn; [by eapply wake_inv | done | done |]. intros Hi.
    apply elem_of_app in Hi as [Hi|Hi]; [done |].
    pose proof (wake_dials t _ _ _ Hn E) as Hf. rewrite Forall_forall in Hf. specialize (Hf _ Hi). simpl in Hf.
    by rewrite (Hl t eq_refl) in Hf.
  - rewrite Hdi in Hd. split; [| done]. split; cbn; [done | | | done].
    + apply connect_lost; [set_solver | done].
    + destruct dialled; set_solver.
  - by split; [split |].
  - rewrite Hse in Hs. split; [| by apply transmit_reached].
    destruct (transmit_fields q (l1 ++ l2) o) as (E1 & E2 & E3 & _ & _ & E6).
    split; rewrite ?E1, ?E2, ?E3, ?E6; [done | done | done | set_solver].
  - split; [| done]. split; cbn; [done | | done | done].
    destruct (RPC.connected (RPC.end_call q out (ob_tr o)).1 p) eqn:Eq; [| done].
    apply RPC.end_call_lookup in Eq. congruence.
  - rewrite Hse in Hs. split; [| done]. split; cbn; [done | | done | set_solver].
    apply connect_lost; [set_solver | done].
Qed.

(** C17. A peer lost once is lost for good. When a call to a peer ends with an
    error, however long after it began, the transport forgets the connection,
    and nothing on the node dials again: unless a membership request adds the
    peer anew, no message to it is ever put on the network, whatever the node
    receives, however its goroutines interleave and whatever calls are still
    under way, even after the peer is back. *)
Theorem lost_peer_stays_lost p o o1 o2 l1 l2 :
  state_inv (state (ob_node o)) -> p ∉ ob_dialing o -> Connect p ∉ ob_sending o ->
  ob_calls o = l1 ++ p :: l2 -> o1 = finish p RPC.Failed (l1 ++ l2) o -> rtc (step_without p) o1 o2 ->
  RPC.connected (ob_tr o2) p = false /\
  filter (fun q => q = p) (ob_reached o2) = filter (fun q => q = p) (ob_reached o1).
Proof.
  intros Hn Hd Hs Hca -> Hr.
  assert (lost p (finish p RPC.Failed (l1 ++ l2) o)) as Hl.
  { split; cbn; [done | apply (RPC.end_call_failed (R := unit)) | done | done]. }
  induction Hr as [x|x y z Hxy _ IH]; [split; [apply Hl | done] |].
  destruct (lost_step p x y Hl Hxy) as [Hy Ef]. destruct (IH Hy) as [H1' H2']. split; [done |]. by rewrite H2'.
Qed.
End outbound.

(** ** Instances *)

#[local] Existing Instance amd64.

Definition trio_node : RaftNode Register MemoryStorage.t := started "n1".

Lemma trio_node_inv : state_inv (state trio_node).
Proof.
  split; [apply (array_ok_update (newNodeState "n1" ["n2"; "n3"] 150 300)) | vm_compute; reflexivity
         | vm_compute; split; discriminate | vm_compute; split; [split|]; discriminate || reflexivity];
    [apply newNodeState_log_ok | vm_compute; reflexivity..].
Qed.

(** n2 answers the first dial, n3 never does, and n1's election timer fires. *)
Lemma no_election_until_all_connected_witness :
  exists n' out,
    wake (Iterate 0 (fun _ => 0) EvTimer) trio_node = Some (n', out, tt) /\
    role (state n') = Follower /\ out = [].
Proof.
  destruct (observe1 (wake (Iterate 0 (fun _ => 0) EvTimer) trio_node) (fun r => r.1.2) [] ltac:(vm_compute; reflexivity))
    as ([[n' out] []] & E & Ho).
  set (o1 := dialPeer "n2" true [] ["n3"] (started_over trio_node (RPC.NewRPCTransport "n1"))).
  set (o2 := react (Iterate 0 (fun _ => 0) EvTimer) n' out o1).
  exists n', out. split; [exact E |]. split; [| exact Ho].
  apply (no_election_until_all_connected trio_node (RPC.NewRPCTransport "n1") o2 trio_node_inv).
  - vm_compute. reflexivity.
  - vm_compute. reflexivity.
  - vm_compute. discriminate.
  - apply rtc_l with o1; [exists None; apply (o_dial _ "n2" true [] ["n3"]); vm_compute; reflexivity |].
    apply rtc_once. exists (Some (Iterate 0 (fun _ => 0) EvTimer)). apply (o_react o1); [done | | exact E].
    split; [vm_compute; split; discriminate | vm_compute; split; discriminate | vm_compute; reflexivity].
  - vm_compute. discriminate.
Defined.

(** Two messages to n2: the call of the first fails, and the second is not sent
    although the network would transmit it. *)
Definition beat : effect := SendAppendEntries "n2" (mkAppendEntriesArgs 1 "n1" (-1) (-1) [] (-1)).

Definition connected_n2 : RPC.RPCTransport unit := (RPC.Connect "n2" true (RPC.NewRPCTransport "n1")).1.

Definition before_failure : outbound (SM := Register) (ST := MemoryStorage.t) :=
  transmit "n2" [beat] (mkOutbound trio_node connected_n2 [beat; beat] [] [] true false []).

Lemma lost_peer_stays_lost_witness :
  let o1 := finish "n2" RPC.Failed [] before_failure in
  let o2 := transmit "n2" [] o1 in
  RPC.connected (ob_tr before_failure) "n2" = true /\ RPC.connected (ob_tr o2) "n2" = false /\
  filter (fun q => q = "n2") (ob_reached o2) = ["n2"].
Proof.
  intros o1 o2. split; [vm_compute; reflexivity |].
  apply (lost_peer_stays_lost "n2" before_failure o1 o2 [] []).
  - exact trio_node_inv.
  - intros Hi. by apply elem_of_nil in Hi.
  - intros Hi. change (ob_sending before_failure) with [beat] in Hi. by apply list_elem_of_singleton in Hi.
  - reflexivity.
  - reflexivity.
  - apply rtc_once. exists None. split; [| done]. by apply (o_transmit o1 "n2" beat [] []).
Defined.
