(* ===== verification/Membership.v ===== *)
(** * Membership: a promoted server (src/raft/config_change.go, lines 230-260,
      with src/raft/log.go, lines 298-323)

    The servers a node sends to are the peers of its configuration, which are
    fixed when it is built, and the joining servers. [avoids p m] says of a
    handler that, on a node for which [p] is neither, it emits no message to
    [p] and leaves [p] neither. It composes along the monad. *)
From S2P Require Import Prelude GoFloat Metrics Types State Storage SnapshotOps ConfigChange Log.
From S2P Require Import Samples Election ElectionTheorems Control ConfigTheorems Node Servers Handlers.
From S2P Require Import Frames Effects NodeTheorems Panics Outbound.

Section avoids.
Context {SM ST : Type}.
Implicit Types n : RaftNode SM ST.

(** [p] is on none of the lists a node sends to. *)
Definition off_list (p : ServerID) n : Prop :=
  p ∉ peers n /\ p ∉ dom (unvotingServers (state n)).

Definition spares (p : ServerID) (out : list effect) : Prop := Forall (fun e => target e <> Some p) out.

Lemma spares_outward p out : spares p (outward out) -> spares p out.
Proof. apply forall_outward. by intros []. Qed.

Definition avoids (p : ServerID) {A} (m : Handler SM ST A) : Prop :=
  forall n n' out a, off_list p n -> m n = Some (n', out, a) -> off_list p n' /\ spares p out.

Lemma moves_off_list k X {A} (m : Handler SM ST A) p n n' out a :
  moves k X m -> p ∉ X -> off_list p n -> m n = Some (n', out, a) -> off_list p n'.
Proof.
  intros Hm HX [Hp Hu] E. destruct (Hm _ _ _ _ E) as [Ec [_ Hd]].
  split; [by rewrite (same_peers n) | set_solver].
Qed.

(** A handler whose effects can go to nobody avoids everybody. *)
Lemma avoids_quiet k {A} P (m : Handler SM ST A) p :
  moves k ∅ m -> emits P m -> (forall e, P e -> target e <> Some p) -> avoids p m.
Proof.
  intros Hm He HP n n' out a Hn E. split; [by eapply moves_off_list |].
  apply spares_outward. eapply Forall_impl; [exact (proj2 (He _ _ _ _ E)) | exact HP].
Qed.

Lemma avoids_silent {A} (m : Handler SM ST A) p : moves 0 ∅ m -> emits nothing m -> avoids p m.
Proof. intros Hm He. by eapply avoids_quiet. Qed.

Lemma avoids_bind {A B} p (m : Handler SM ST A) (f : A -> Handler SM ST B) :
  avoids p m -> (forall a, avoids p (f a)) -> avoids p (m ≫= f).
Proof.
  intros Hm Hf n n' out b Hn E. apply bind_inv in E as (n1 & o1 & a & o2 & E1 & E2 & ->).
  destruct (Hm _ _ _ _ Hn E1) as [Hn1 F1], (Hf _ _ _ _ _ Hn1 E2) as [Hn2 F2].
  split; [done |]. by apply Forall_app.
Qed.

(** What is read off the node is known of a node that avoids [p]. *)
Lemma avoids_read {A B} p (f : RaftNode SM ST -> A) (k : A -> Handler SM ST B) :
  (forall n, off_list p n -> avoids p (k (f n))) -> avoids p (a ← gets f; k a).
Proof.
  intros Hk n n' out b Hn E. apply bind_inv in E as (n1 & o1 & a & o2 & E1 & E2 & ->).
  injection E1 as <- <- <-. exact (Hk n Hn _ _ _ _ Hn E2).
Qed.

Lemma avoids_emit p e : target e <> Some p -> avoids p (emit e).
Proof. intros He n n' out a Hn [= <- <- _]. split; [done |]. by apply Forall_singleton. Qed.

Lemma avoids_modify p (f : RaftNode SM ST -> RaftNode SM ST) :
  (forall n, cfg (f n) = cfg n /\ state (f n) = state n) -> avoids p (modify f).
Proof.
  intros Hf n n' out a Hn E. split; [by eapply moves_off_list; [apply (moves_modify f Hf) | | exact Hn | exact E] |].
  injection E as _ <- _. constructor.
Qed.

Lemma avoids_each p (f : ServerID -> Handler SM ST unit) l :
  p ∉ l -> (forall q, q <> p -> avoids p (f q)) -> avoids p (each f l).
Proof.
  intros Hl Hf. induction l as [|q l IH]; simpl.
  - apply avoids_silent; [apply moves_skip | apply emits_skip].
  - apply not_elem_of_cons in Hl as [Hq Hl]. apply avoids_bind; [by apply Hf | intros _; by apply IH].
Qed.
End avoids.

(** ** The handlers *)

Section handlers.
Context {SM ST : Type} `{StateMachine SM, Storage ST, GoPlatform}.
Implicit Types n : RaftNode SM ST.

(** [avoiding] proves [avoids p m] of a handler made of silent parts and of
    effects that go to nobody. *)
Ltac avoiding :=
  repeat first
    [ apply avoids_emit; discriminate
    | apply avoids_modify; intros; split; reflexivity
    | apply avoids_silent; [solve [moving] | solve [emitting]]
    | simple apply avoids_bind; [| intros]
    | case_match | case_decide ].

Lemma persistState_avoids p : avoids p (persistState (SM := SM) (ST := ST)).
Proof. apply avoids_silent; [apply persistState_moves | apply persistState_emits]. Qed.

Lemma sendInstallSnapshotRPC_avoids p q : q <> p -> avoids p (sendInstallSnapshotRPC (SM := SM) (ST := ST) q).
Proof.
  intros Hq n n' out a Hn E. split; [by eapply moves_off_list; [apply (sendInstallSnapshotRPC_moves q) | | exact Hn | exact E] |].
  unfold sendInstallSnapshotRPC in E. destruct (getLastSnapshot (state n)); [| injection E as _ <- _; constructor].
  destruct (prepareInstallSnapshotRPC _ _); [| done]. injection E as _ <- _.
  apply Forall_singleton. simpl. congruence.
Qed.

Lemma sendOne_avoids p q : q <> p -> avoids p (sendOne (SM := SM) (ST := ST) q).
Proof.
  intros Hq. apply avoids_bind; [avoiding |]. intros [args|]; [| by apply sendInstallSnapshotRPC_avoids].
  apply avoids_emit. simpl. congruence.
Qed.

Lemma sendAppendEntriesRPCs_avoids p : avoids p (sendAppendEntriesRPCs (SM := SM) (ST := ST)).
Proof.
  apply avoids_read. intros n [Hp _]. apply avoids_bind; [by apply avoids_each, sendOne_avoids | intros _].
  apply avoids_read. intros n1 [_ Hu]. apply avoids_each; [| apply sendOne_avoids].
  intros Hi. apply Hu. unfold getUnvotingServerIDs in Hi. apply list_elem_of_fmap in Hi as ([q e] & -> & Hi).
  apply elem_of_map_to_list in Hi. apply elem_of_dom. by exists e.
Qed.

Lemma campaign_avoids p : avoids p (campaign (SM := SM) (ST := ST)).
Proof.
  apply avoids_bind; [avoiding | intros me]. apply avoids_bind.
  - apply avoids_silent; [| emitting]. apply moves_call. intros s s' r E.
    destruct (prepareRequestVoteRPC me s); [| done]. by injection E as <- _.
  - intros args. apply avoids_read. intros n [Hp _]. apply avoids_each; [done |].
    intros q Hq. apply avoids_emit. simpl. congruence.
Qed.

Lemma beginElection_avoids p now : avoids p (beginElection (SM := SM) (ST := ST) now).
Proof. apply avoids_silent; [apply beginElection_moves | apply beginElection_emits]. Qed.

Lemma awaitConfig_avoids p r : avoids p (awaitConfig (SM := SM) (ST := ST) r).
Proof. unfold awaitConfig. avoiding. Qed.

Lemma promoteUnvotingServer_avoids p q : avoids p (promoteUnvotingServer (SM := SM) (ST := ST) q).
Proof. unfold promoteUnvotingServer. avoiding; apply awaitConfig_avoids. Qed.

Lemma signals_avoid {A} p (m : Handler SM ST A) : moves 0 ∅ m -> emits signal m -> avoids p m.
Proof. intros Hm He. eapply avoids_quiet; [done | done |]. by intros []. Qed.

(** The reply to an RPC goes back over the connection it came from. *)
Lemma serves_avoids p ev (m : Handler SM ST unit) : serves ev = Some m -> avoids p m.
Proof.
  intros Hev. assert (moves 1 ∅ m) as Hm.
  { destruct ev; try done; injection Hev as <-; [apply moves_more; unfold serveAppendEntries; moving; apply persistState_moves
      | apply moves_more; unfold serveRequestVote; moving; apply persistState_moves | apply serveInstallSnapshot_moves]. }
  intros n n' out u Hn E. split; [by eapply moves_off_list |].
  destruct (serves_once ev m Hev _ _ _ _ E) as (_ & o & e & -> & Ho & He). apply spares_outward.
  rewrite outward_app, Ho. destruct ev, e; try done; by repeat constructor.
Qed.

Lemma serveAppendEntries_avoids p args : avoids p (serveAppendEntries (SM := SM) (ST := ST) args).
Proof. by apply (serves_avoids p (EvAppendEntries args)). Qed.
Lemma serveRequestVote_avoids p args : avoids p (serveRequestVote (SM := SM) (ST := ST) args).
Proof. by apply (serves_avoids p (EvRequestVote args)). Qed.
Lemma serveInstallSnapshot_avoids p args : avoids p (serveInstallSnapshot (SM := SM) (ST := ST) args).
Proof. by apply (serves_avoids p (EvInstallSnapshot args)). Qed.

(** ** One reaction *)

Create HintDb avoiding.
#[local] Hint Resolve persistState_avoids sendInstallSnapshotRPC_avoids sendAppendEntriesRPCs_avoids campaign_avoids
  beginElection_avoids awaitConfig_avoids promoteUnvotingServer_avoids
  serveAppendEntries_avoids serveRequestVote_avoids serveInstallSnapshot_avoids : avoiding.

Lemma run_avoids p rnd clock ev : avoids p (run (SM := SM) (ST := ST) rnd clock ev).
Proof.
  unfold run. apply avoids_bind; [| intros _; apply avoids_bind; [| intros _; apply avoids_bind; [avoiding |]]].
  - intros n n' out u Hn E.
    exact (signals_avoid p _ (applyLogs_moves _) (applyLogs_emits _) n n' out u Hn E).
  - unfold checkConfigurationsToStart. avoiding; apply awaitConfig_avoids.
  - unfold handleFollower, handleCandidate, handleLeader, recordWin.
    intros []; destruct ev; avoiding; eauto with avoiding.
Qed.

(** What a node that has [p] on no list may still send it: the snapshot a
    leader answers a refusal by [p] with. *)
Definition late_snapshot (p : ServerID) (t : task) n (e : effect) : Prop :=
  exists resp args, t = OnAppendEntriesResponse resp /\ e = SendInstallSnapshot p args /\
    aer_ID resp = p /\ role (state n) = Leader /\
    (handleAppendEntriesResponse (id n) resp (state n)).2.2 = true.

Lemma avoids_not_sent p (m : Handler SM ST unit) n n' out u e :
  avoids p m -> off_list p n -> m n = Some (n', out, u) -> target e = Some p -> e ∉ out.
Proof.
  intros Hm Hn E Ht Hi. destruct (Hm _ _ _ _ Hn E) as [_ Hf]. unfold spares in Hf.
  rewrite Forall_forall in Hf. by apply (Hf e Hi).
Qed.

Lemma response_reaches p resp n n' out u e :
  off_list p n -> appendEntriesResponse resp n = Some (n', out, u) ->
  e ∈ out -> target e = Some p -> late_snapshot p (OnAppendEntriesResponse resp) n e.
Proof.
  intros Hn E He Ht. destruct (decide (aer_ID resp = p)) as [Hid|Hid].
  2: { exfalso. eapply avoids_not_sent; [| exact Hn | exact E | exact Ht | exact He].
       unfold appendEntriesResponse. avoiding; eauto with avoiding. }
  unfold appendEntriesResponse in E. apply bind_inv in E as (? & ? & ? & o & [= <- <- <-] & E & ->).
  apply bind_inv in E as (? & ? & ? & o1 & [= <- <- <-] & E & ->). unfold getRole in E.
  case_decide as Hr; [| by injection E as _ <- _; apply elem_of_nil in He].
  apply bind_inv in E as (n1 & o2 & [i b] & o3 & E1 & E & ->).
  assert (off_list p n1) as Hn1.
  { eapply moves_off_list; [| | exact Hn | exact E1]; [| apply not_elem_of_empty]. moving. }
  unfold call in E1. destruct (handleAppendEntriesResponse (id n) resp (state n)) as [s k] eqn:Eh.
  injection E1 as <- <- ->. simpl in He.
  apply bind_inv in E as (n2 & o4 & [] & o5 & E1 & E2 & ->).
  assert (off_list p n2) as Hn2.
  { eapply moves_off_list; [| | exact Hn1 | exact E1]; [| apply not_elem_of_empty].
    destruct b; [apply sendInstallSnapshotRPC_moves | apply moves_skip]. }
  apply elem_of_app in He as [He|He].
  2: { exfalso. eapply avoids_not_sent; [| exact Hn2 | exact E2 | exact Ht | exact He].
       avoiding; eauto with avoiding. }
  destruct b; [| by injection E1 as _ <-; apply elem_of_nil in He].
  unfold sendInstallSnapshotRPC in E1. destruct (getLastSnapshot _); [| by injection E1 as _ <-; apply elem_of_nil in He].
  destruct (prepareInstallSnapshotRPC _ _) as [args|]; [| done]. injection E1 as _ <-.
  apply list_elem_of_singleton in He as ->. exists resp, args. rewrite Eh, <- Hid. done.
Qed.

Lemma handleConfigurationMessage_avoids p req :
  adding p (OnConfiguration req) = false -> avoids p (handleConfigurationMessage (SM := SM) (ST := ST) req).
Proof.
  intros Ha. assert (Add (msg req) = true -> Server (msg req) <> p) as Hne.
  { intros Hadd. simpl in Ha. rewrite Hadd in Ha. by apply bool_decide_eq_false in Ha. }
  clear Ha. unfold handleConfigurationMessage. avoiding; eauto with avoiding.
  intros n n' out u [Hp Hu] [= <- <- _]. specialize (Hne eq_refl).
  split; [split; [exact Hp |] | constructor]. unfold addUnvotingServer. fields. rewrite dom_insert_L. set_solver.
Qed.

(** Nothing but a request to add [p] puts it back on a list. *)
Lemma wake_off_list p t n n' out :
  adding p t = false -> off_list p n -> wake t n = Some (n', out, tt) -> off_list p n'.
Proof.
  intros Ha Hn E. eapply moves_off_list; [apply wake_moves | | exact Hn | exact E].
  destruct t; simpl in *; try apply not_elem_of_empty. unfold joins. destruct (Add (msg req)); [| apply not_elem_of_empty].
  simpl in Ha. apply bool_decide_eq_false in Ha. set_solver.
Qed.

Lemma wake_reaches p t n n' out e :
  adding p t = false -> off_list p n -> wake t n = Some (n', out, tt) ->
  e ∈ out -> target e = Some p -> late_snapshot p t n e.
Proof.
  intros Ha Hn E He Ht.
  assert (avoids p (wake (SM := SM) (ST := ST) t) -> late_snapshot p t n e) as Hno
    by (intros Hm; exfalso; by eapply avoids_not_sent).
  destruct t; simpl in E.
  - apply Hno, run_avoids.
  - by eapply response_reaches.
  - apply Hno. simpl. unfold installSnapshotResponse. avoiding; eauto with avoiding.
  - apply Hno. simpl. unfold handleApplyRequest. avoiding; eauto with avoiding.
  - apply Hno. by apply handleConfigurationMessage_avoids.
  - apply Hno. simpl. unfold configApplied. avoiding.
  - unfold snapshotLoopInstall in E. destruct (snapshotInstallChan (state n)); [done |].
    injection E as _ <-. by apply elem_of_nil in He.
Qed.

(** A reaction to anything but a request to add [p]. *)
Definition wake_without (p : ServerID) n n' : Prop :=
  exists t out, adding p t = false /\ wake t n = Some (n', out, tt).

(** C32. A promoted server is cut off. A server that is no configured peer
    catches up while it is joining; promoting it makes it one of the servers
    whose majority elects and commits. From then on, whatever the node receives
    and whatever becomes of it, as long as no request adds the server anew, the
    node sends it no AppendEntries message and asks it for no vote. The one
    message it may still send is a snapshot, to answer a refusal by that server
    that arrives while the node leads. *)
Theorem promoted_server_cut_off p entry n :
  unvotingServers (state n) !! p = Some entry -> msg entry = mkConfigChange true p -> p ∉ peers n ->
  state_inv (state n) -> log_ok (state n) -> 0 <= base (state n) -> lastIdx (state n) < max_int64 ->
  inConfigChange (state n) = false -> configQueue (state n) = [] ->
  runs_to (promoteUnvotingServer p) n (fun n0 out0 _ =>
    p ∈ dom (serverConfig (state n0)) /\ (forall e, e ∈ out0 -> target e <> Some p) /\
    forall n1 t n2 out e,
      rtc (wake_without p) n0 n1 -> adding p t = false -> wake t n1 = Some (n2, out, tt) ->
      e ∈ out -> target e = Some p -> late_snapshot p t n1 e).
Proof.
  intros Hu Hmsg Hp Hn Hlog Hb Hmax Hin Hq.
  eapply runs_to_mono; [by apply (promoteUnvotingServer_run p entry) |].
  intros n0 out0 _ (Ecfg & _ & -> & Eu & Ec). split; [| split].
  - rewrite Ec. unfold applyConfigurationLocked. rewrite Hmsg. simpl. fields. rewrite dom_insert_L. set_solver.
  - intros e He. by apply list_elem_of_singleton in He as ->.
  - assert (off_list p n0) as Hn0.
    { split; [by rewrite (same_peers n) |]. rewrite Eu, dom_delete_L. set_solver. }
    intros n1 t n2 out e Hrun Ha E. eapply wake_reaches; [exact Ha | | exact E].
    clear Ecfg Eu Ec E. induction Hrun as [|x y z (t' & o & Ha' & E') _ IH]; [done |]. apply IH. exact (wake_off_list p t' x y o Ha' Hn0 E').
Qed.
End handlers.

(** ** Instances *)

#[local] Existing Instance amd64.

(** n4 joins while n1 leads. *)
Definition leading_n4 : nodeState := joining_n4 <| role := Leader |>.

Lemma leader_log_ok s : log_ok s -> log_ok (s <| role := Leader |>).
Proof. intros. by apply (log_ok_update s). Qed.

Lemma leader_state_inv s : state_inv s -> state_inv (s <| role := Leader |>).
Proof. intros []. split; [by apply (array_ok_update s) | done..]. Qed.

Lemma leading_n4_ok : log_ok leading_n4.
Proof. apply leader_log_ok, joining_n4_ok. Qed.

Lemma leading_n4_inv : state_inv leading_n4.
Proof. apply leader_state_inv, joining_n4_inv. Qed.

(** The leader promotes n4, and its timer fires twice. *)
Definition beat_timer : task := Iterate 0 (fun _ => 0) EvTimer.

(** Where the messages of the second round go. *)
Definition second_round (r : option (RaftNode Register MemoryStorage.t * list effect * unit)) : option (list ServerID) :=
  match r with
  | Some (n0, _, _) =>
      match wake beat_timer n0 with
      | Some (n1, _, _) =>
          match wake beat_timer n1 with Some (_, out, _) => Some (omap target out) | None => None end
      | None => None
      end
  | None => None
  end.

Lemma promoted_second_round :
  second_round (promoteUnvotingServer "n4" (with_state leading_n4)) = Some ["n2"; "n3"].
Proof. vm_compute. reflexivity. Qed.

Lemma second_round_inv r n0 out0 l :
  r = Some (n0, out0, tt) -> second_round r = Some l ->
  exists n1 out1 n2 out2, wake beat_timer n0 = Some (n1, out1, tt) /\ wake beat_timer n1 = Some (n2, out2, tt) /\
    omap target out2 = l.
Proof.
  intros -> Hr. unfold second_round in Hr.
  destruct (wake beat_timer n0) as [[[n1 out1] []]|] eqn:W1; [| done].
  destruct (wake beat_timer n1) as [[[n2 out2] []]|] eqn:W2; [| done].
  injection Hr as Hr. by exists n1, out1, n2, out2.
Qed.

Lemma promoted_server_cut_off_witness :
  exists n0 out0 n1 out1 n2 out2,
    promoteUnvotingServer "n4" (with_state leading_n4) = Some (n0, out0, tt) /\
    wake beat_timer n0 = Some (n1, out1, tt) /\ wake beat_timer n1 = Some (n2, out2, tt) /\
    "n4" ∈ dom (serverConfig (state n0)) /\ omap target out2 = ["n2"; "n3"] /\
    forall args, SendAppendEntries "n4" args ∉ out2.
Proof.
  destruct (promoted_server_cut_off "n4" (mkConfigEntry add_n4 1%nat 2%nat) (with_state leading_n4))
    as (n0 & out0 & [] & Hrun & Hd & _ & Hno).
  - vm_compute. reflexivity.
  - reflexivity.
  - apply (bool_decide_unpack _). vm_compute. exact I.
  - exact leading_n4_inv.
  - exact leading_n4_ok.
  - vm_compute. discriminate.
  - vm_compute. reflexivity.
  - vm_compute. reflexivity.
  - vm_compute. reflexivity.
  - destruct (second_round_inv _ n0 out0 _ Hrun promoted_second_round) as (n1 & out1 & n2 & out2 & W1 & W2 & Ht).
    exists n0, out0, n1, out1, n2, out2. split; [exact Hrun |]. split; [exact W1 |]. split; [exact W2 |].
    split; [exact Hd |]. split; [exact Ht |]. intros args Hi.
    destruct (Hno n1 beat_timer n2 out2 _ (rtc_once _ _ (ex_intro _ beat_timer (ex_intro _ out1 (conj eq_refl W1))))
      eq_refl W2 Hi eq_refl) as (resp & a & Et & _). discriminate Et.
Defined.

(** The exception is real: n1 leads with a snapshot and n4, long promoted,
    refuses a message sent to it before. *)
Definition leading_with_snapshot : RaftNode Register MemoryStorage.t :=
  with_state (node_snap "n1" 2 5 1 [cmd 6 2] <| role := Leader |>).

Lemma late_refusal_answered :
  exists n' args,
    appendEntriesResponse (mkAppendEntriesResponse "n4" 2 false 3) leading_with_snapshot
      = Some (n', [SendInstallSnapshot "n4" args], tt) /\ is_LastIncludedIndex args = 5.
Proof. eexists _, _. split; [vm_compute; reflexivity | reflexivity]. Qed.
