(* ===== verification/Races.v ===== *)
(** * Races: goroutines that run between two steps of another

    The other files treat the reaction of a goroutine as one step. Three places
    of the code are not: [checkLogsToApply] releases the lock between choosing
    an entry and reading it (src/raft/log.go, lines 277-289 and 395-401),
    [handleApplyRequests] registers the client's channel after the entry is in
    the log (src/raft/node.go, lines 433-444), and [persistState] saves, under
    no lock, what it read before (src/raft/node.go, lines 362-366). Here the
    three are written with the other goroutine's reaction in between; with
    [skip] there they are the definitions of [Node]. *)
From S2P Require Import Prelude GoFloat Metrics Types State Storage SnapshotOps ConfigChange Log.
From S2P Require Import Sha256 Samples LogTheorems Election ElectionTheorems Control ConfigTheorems.
From S2P Require Import Node Servers Handlers Effects NodeTheorems.

Section races.
Context {SM ST : Type} `{StateMachine SM, Storage ST, GoPlatform}.
Implicit Types n : RaftNode SM ST.
Implicit Types between before : Handler SM ST unit.

(** ** The steps *)

(** One round of the loop of [checkLogsToApply], with other goroutines running
    after [updateLastApplied] has returned and before [applyLog] starts. *)
Definition applyRound between before : Handler SM ST bool :=
  found ← call updateLastApplied;
  match found with
  | None => mret false
  | Some i =>
      between ;;
      entry ← (fun n => e ← getLog i (state n); Some (n, [], e)) : Handler SM ST RaftLog;
      before ;;
      applyLog entry ;;
      mret true
  end.

(** The leader's branch of [handleApplyRequests] from [addCommandLog] on, with
    other goroutines running before the channel is registered. *)
Definition submitCommand between (errCh : chan) (req : pendingApply) : Handler SM ST unit :=
  me ← gets id;
  let args := pa_args req in
  data ← gets gameState;
  logIdx ← call (addCommandLog data me (aa_ClientID args) (aa_SeqNum args) (aa_Command args));
  if logIdx <? 0 then
    emit (RespondApply (pa_resultCh req) (mkApplyResponse false me))
  else
    persistState ;;
    between ;;
    modify (fun n => n <| pendingCommands := <[logIdx := errCh]> (pendingCommands n) |>) ;;
    sendAppendEntriesRPCs ;;
    emit (AwaitApplied errCh (pa_resultCh req)).

(** [persistState] with other goroutines running after the state was read and
    before it is saved, *)
Definition persistWith between : Handler SM ST unit :=
  ps ← readPersistent;
  between ;;
  savePersistent ps.

(** and the leader's branch of [handleApplyRequests] with that. *)
Definition submitPersisting between (errCh : chan) (req : pendingApply) : Handler SM ST unit :=
  me ← gets id;
  let args := pa_args req in
  data ← gets gameState;
  logIdx ← call (addCommandLog data me (aa_ClientID args) (aa_SeqNum args) (aa_Command args));
  if logIdx <? 0 then
    emit (RespondApply (pa_resultCh req) (mkApplyResponse false me))
  else
    persistWith between ;;
    modify (fun n => n <| pendingCommands := <[logIdx := errCh]> (pendingCommands n) |>) ;;
    sendAppendEntriesRPCs ;;
    emit (AwaitApplied errCh (pa_resultCh req)).

(** Without interference these are the loop and the branch of [Node]. *)
Lemma handler_bind_ext {A B} (m : Handler SM ST A) (k k' : A -> Handler SM ST B) n :
  (forall a n', k a n' = k' a n') -> (m ≫= k) n = (m ≫= k') n.
Proof.
  intros Hk. unfold mbind, handler_bind. destruct (m n) as [[[n1 o1] a]|]; [simpl | done].
  by rewrite Hk.
Qed.

Lemma handler_bind_assoc {A B C} (m : Handler SM ST A) (k : A -> Handler SM ST B)
    (j : B -> Handler SM ST C) n :
  ((m ≫= k) ≫= j) n = (m ≫= (fun a => k a ≫= j)) n.
Proof.
  unfold mbind, handler_bind. destruct (m n) as [[[n1 o1] a]|]; [simpl | done].
  destruct (k a n1) as [[[n2 o2] b]|]; [simpl | done].
  destruct (j b n2) as [[[n3 o3] c]|]; [simpl | done]. by rewrite app_assoc.
Qed.

Lemma skip_bind {A} (k : Handler SM ST A) n : (skip ;; k) n = k n.
Proof. unfold mbind, handler_bind, skip. simpl. by destruct (k n) as [[[? ?] ?]|]. Qed.

Lemma ret_bind {A B} (a : A) (k : A -> Handler SM ST B) n : (mret a ≫= k) n = k a n.
Proof. unfold mbind, handler_bind, mret, handler_ret. simpl. by destruct (k a n) as [[[? ?] ?]|]. Qed.

Lemma applyLogs_rounds fuel n :
  applyLogs (S fuel) n = (more ← applyRound skip skip; if more : bool then applyLogs fuel else skip) n.
Proof.
  unfold applyRound. simpl. rewrite handler_bind_assoc. apply handler_bind_ext.
  intros [i|] n1; [| done].
  rewrite handler_bind_assoc, skip_bind, handler_bind_assoc. apply handler_bind_ext. intros e n2.
  rewrite handler_bind_assoc, skip_bind, handler_bind_assoc. apply handler_bind_ext. intros u n3.
  by rewrite ret_bind.
Qed.

Lemma gets_bind {A B} (f : RaftNode SM ST -> A) (k : A -> Handler SM ST B) n : (gets f ≫= k) n = k (f n) n.
Proof. unfold mbind, handler_bind, gets. simpl. by destruct (k (f n) n) as [[[? ?] ?]|]. Qed.

Lemma handleApplyRequest_submit errCh req n :
  role (state n) = Leader -> ~ already_applied (pa_args req) n ->
  handleApplyRequest errCh req n = submitCommand skip errCh req n.
Proof.
  intros Hl Hd. unfold handleApplyRequest, submitCommand. rewrite !gets_bind. unfold getRole.
  rewrite Hl. rewrite !gets_bind. unfold getClientLastSeq.
  rewrite already_applied_spec, bool_decide_false by done. rewrite gets_bind.
  apply handler_bind_ext. intros k n1. destruct (k <? 0); [done |].
  apply handler_bind_ext. intros u n2. by rewrite skip_bind.
Qed.

Lemma persistWith_skip n : persistWith skip n = persistState n.
Proof. apply handler_bind_ext. intros ps n1. apply skip_bind. Qed.

Lemma submitPersisting_skip errCh req n : submitPersisting skip errCh req n = submitCommand skip errCh req n.
Proof.
  unfold submitPersisting, submitCommand. rewrite !gets_bind. apply handler_bind_ext. intros k n1.
  destruct (k <? 0); [done |]. transitivity ((persistState ;;
    modify (fun n => n <| pendingCommands := <[k := errCh]> (pendingCommands n) |>) ;;
    sendAppendEntriesRPCs ;; emit (AwaitApplied errCh (pa_resultCh req))) n1).
  - unfold mbind at 1 5, handler_bind. by rewrite persistWith_skip.
  - apply handler_bind_ext. intros u n2. by rewrite skip_bind.
Qed.

(** ** Compaction under the loop *)

(** C8. Compaction between choosing and reading. The log is full, the leader's
    loop has chosen the next entry to apply, and a client's command arrives:
    the command compacts the log up to the entry chosen, which shifts the rest
    of the array, and the loop then reads the shifted array at the old
    position. When less than half of the log was applied, the state machine
    is given a later entry instead of the chosen one (and if that makes it panic,
    so does the loop); and in any case the snapshot
    claims to include the chosen entry although the state machine it was taken
    from had not applied it. *)
Theorem compaction_under_apply errCh req n i :
  log_ok (state n) -> 0 <= base (state n) -> lastIdx (state n) < max_int64 ->
  role (state n) = Leader -> ~ already_applied (pa_args req) n ->
  nextLogIdx (state n) = logArrayCapacity ->
  lastApplied (state n) < commitIndex (state n) -> in_int64 (commitIndex (state n)) ->
  lastApplied (state n) + 1 = base (state n) + Z.of_nat i -> (2 * i + 1 < logArrayCapacity)%nat ->
  exists chosen other,
    log_at (state n) (lastApplied (state n) + 1) = Some chosen /\
    log_at (state n) (lastApplied (state n) + 1 + Z.of_nat i + 1) = Some other /\
    match apply_sm other (sm n) with
    | Some m' =>
        runs_to (applyRound (handleApplyRequest errCh req) skip) n (fun n' _ more =>
          more = true /\ sm n' = m' /\ lastApplied (state n') = lastApplied (state n) + 1 /\
          exists snap, lastSnapshot (state n') = Some snap /\ LastIncludedIndex snap = Index chosen /\
            SnapData snap = gameState n)
    | None => applyRound (handleApplyRequest errCh req) skip n = None
    end.
Proof.
  intros Hlog Hb Hmax Hl Hd Hfull Hci Hcint Hi Hhalf. set (s := state n) in *.
  assert (lastIdx s = base s + Z.of_nat logArrayCapacity - 1) as Hli by (unfold lastIdx; by rewrite Hfull).
  destruct (updateLastApplied_run s Hlog) as [Hrun Hnext];
    [unfold in_int64, min_int64 in *; lia | done | lia |].
  assert (lastApplied s < commitIndex s /\ lastApplied s < lastIdx s) as Hlt by lia.
  rewrite decide_True in Hrun by done. destruct (Hnext Hlt) as (j & chosen & Hpos & Hat).
  destruct (log_at_position _ _ _ Hpos) as (_ & Hj & _).
  assert (j = i) as -> by lia. set (s1 := s <| lastApplied := lastApplied s + 1 |>) in *.
  set (n1 := n <| state := s1 |>).
  assert (call updateLastApplied n = Some (n1, [], Some i)) as Hcall.
  { unfold call. fold s. by rewrite Hrun, Hpos. }
  assert (runs_to (handleApplyRequest errCh req) n1 (fun n' out _ => accepted errCh req n1 n' out))
    as (n2 & o2 & [] & Hreq & Hacc).
  { apply command_accepted; [by apply (log_ok_update s) | exact Hb | exact Hmax | exact Hl | exact Hd |].
    right. change (base s <= lastApplied s + 1 <= lastIdx s). lia. }
  pose proof (ac_compact _ _ _ _ _ Hacc) as Hcmp.
  assert (base (state n2) = lastApplied s + 2) as Hb2.
  { assert (logArrayCapacity <= nextLogIdx (state n1))%nat as Hf1 by (change (nextLogIdx (state n1)) with (nextLogIdx s); lia).
    rewrite (compacted_base _ _ _ Hf1 Hcmp).
    change (lastApplied (state n1)) with (lastApplied s + 1). lia. }
  unfold compacted in Hcmp.
  rewrite decide_False in Hcmp by (change (nextLogIdx (state n1)) with (nextLogIdx s); lia).
  destruct Hcmp as (snap & Es & Ei & Edata).
  pose proof (ac_last _ _ _ _ _ Hacc) as Hla2. change (lastIdx (state n1)) with (lastIdx s) in Hla2.
  destruct (log_at_is_Some s (lastApplied s + 1 + Z.of_nat i + 1)) as [other Ho]; [apply Hlog | lia |].
  assert (log_at (state n2) (base (state n2) + Z.of_nat i) = Some other) as Ho2.
  { rewrite (ac_rest _ _ _ _ _ Hacc) by (change (lastIdx (state n1)) with (lastIdx s); lia).
    rewrite <- Ho. change (log_at (state n1)) with (log_at s). f_equal. lia. }
  assert (logs (state n2) !! i = Some other) as Hget.
  { unfold log_at in Ho2. case_decide; [| done].
    replace (Z.to_nat _) with i in Ho2 by lia.
    rewrite <- Ho2. symmetry. apply lookup_live. unfold lastIdx in Hla2. lia. }
  assert (((fun n => e ← getLog i (state n); Some (n, [], e)) : Handler SM ST RaftLog) n2 = Some (n2, [], other))
    as Hread by (unfold getLog; by rewrite Hget).
  exists chosen, other. split; [exact Hat |]. split; [exact Ho |].
  pose proof (ac_sm _ _ _ _ _ Hacc) as Esm. change (sm n1) with (sm n) in Esm.
  destruct (apply_sm other (sm n)) as [m'|] eqn:Em.
  2: { eapply bind_panics; [exact Hcall |]. eapply bind_panics; [exact Hreq |].
       eapply bind_panics; [exact Hread |]. rewrite skip_bind. unfold mbind, handler_bind.
       by rewrite applyLog_panics by (by rewrite Esm). }
  apply runs_to_bind. exists n1, [], (Some i). split; [exact Hcall |].
  apply runs_to_bind. exists n2, o2, tt. split; [exact Hreq |].
  apply runs_to_bind. exists n2, [], other. split; [exact Hread |].
  apply runs_to_bind, runs_to_skip, runs_to_bind.
  eapply runs_to_mono; [apply (applyLog_run other m'); by rewrite Esm |]. intros n3 o3 [] (Hsm & Hap & _).
  apply runs_to_ret. split; [done |]. split; [exact Hsm |].
  assert (lastApplied (state n3) = lastApplied (state n2) /\ lastSnapshot (state n3) = lastSnapshot (state n2))
    as [-> ->] by (by rewrite Hap).
  split; [exact (ac_applied _ _ _ _ _ Hacc) |]. exists snap. split; [exact Es |]. split; [| exact Edata].
  rewrite Ei. symmetry. apply (log_at_Some _ _ _ (proj2 Hlog) Hat).
Qed.
End races.

(** ** Instances *)

#[local] Existing Instance amd64.

(** A leader with a full log: entry [k] carries the byte [k]; entries up to 9
    are applied and entries up to 100 committed. *)
Definition numbered (k : nat) : RaftLog :=
  mkRaftLog (Z.of_nat k) 1 LogCommand [byte_of_Z (Z.of_nat k)] ConfigChange_zero "" 0.

Definition full_leader : nodeState :=
  fresh "n1" <| logs := numbered <$> seq 0 logArrayCapacity |> <| nextLogIdx := logArrayCapacity |>
    <| commitIndex := 100 |> <| lastApplied := 9 |> <| currentTerm := 1 |> <| role := Leader |>.

Lemma full_leader_ok : log_ok full_leader.
Proof.
  split; [split |].
  - change (length (numbered <$> seq 0 logArrayCapacity) = logArrayCapacity). by rewrite length_fmap, length_seq.
  - apply (fresh_log_ok "n1").
  - done.
  - apply contiguousb_spec. vm_compute. reflexivity.
Qed.

(** Entry 10 is chosen, a command arrives, and entry 21 is applied. *)
Lemma compaction_under_apply_witness :
  exists n' out snap,
    applyRound (handleApplyRequest 7%nat (applyRequest "client" 1 [Byte.x62] 8%nat)) skip (with_state full_leader)
      = Some (n', out, true) /\
    sm n' = [Byte.x15] /\ lastApplied (state n') = 10 /\
    lastSnapshot (state n') = Some snap /\ LastIncludedIndex snap = 10 /\ SnapData snap = [].
Proof.
  pose proof (compaction_under_apply 7%nat (applyRequest "client" 1 [Byte.x62] 8%nat) (with_state full_leader) 10) as Hth.
  change (state (with_state full_leader)) with full_leader in Hth. specialize (Hth full_leader_ok).
  assert (base full_leader = 0) as E1 by (vm_compute; reflexivity).
  assert (lastIdx full_leader = 1023) as E2 by (vm_compute; reflexivity).
  assert (lastApplied full_leader = 9) as E3 by (vm_compute; reflexivity).
  assert (commitIndex full_leader = 100) as E4 by (vm_compute; reflexivity).
  assert (gameState (with_state full_leader) = []) as E5 by (vm_compute; reflexivity).
  assert (sm (with_state full_leader) = []) as E6 by (vm_compute; reflexivity).
  rewrite E1, E2, E3, E4, E5, E6 in Hth.
  destruct Hth as (chosen & other & Hc & Ho & Hth).
  - discriminate.
  - vm_compute. reflexivity.
  - reflexivity.
  - intros [_ Hle]. vm_compute in Hle. by apply Hle.
  - reflexivity.
  - reflexivity.
  - vm_compute. split; discriminate.
  - reflexivity.
  - apply Nat.ltb_lt. vm_compute. reflexivity.
  - assert (log_at full_leader (9 + 1) = Some (numbered 10)) as Ec by (vm_compute; reflexivity).
    assert (log_at full_leader (9 + 1 + Z.of_nat 10 + 1) = Some (numbered 21)) as Eo by (vm_compute; reflexivity).
    rewrite Ec in Hc. injection Hc as <-. rewrite Eo in Ho. injection Ho as <-.
    assert (apply_sm (numbered 21) ([] : Register) = Some [Byte.x15]) as Em by (vm_compute; reflexivity).
    rewrite Em in Hth. destruct Hth as (n' & out & more & Hrun & -> & Hsm & Hla & snap & Hs & Hsi & Hsd).
    exists n', out, snap. split; [exact Hrun |]. split; [exact Hsm |].
    split; [exact Hla |]. split; [exact Hs |]. split; [rewrite Hsi; reflexivity | exact Hsd].
Defined.

(** ** The reply that never comes *)

(** A node alone in its cluster, started. *)
Definition solo : option (RaftNode Register MemoryStorage.t) :=
  match New (NodeConfig.DefaultConfig "n1" []) (Some ([] : Register)) (Some listening)
          (Some MemoryStorage.NewMemoryStorage) with
  | inl n => '(n, _) ← Start n; Some n
  | inr _ => None
  end.

(** One iteration of its main loop in which the timer fires. *)
Definition tick : Handler Register MemoryStorage.t unit := run 0 (fun _ => 0) EvTimer.

(** C30. A client that waits for ever. A genuine execution of one server: it
    starts, elects itself, and receives a command. While the goroutine that
    took the command is still busy after persisting it, the main loop commits
    the entry and applies it; the client's channel is registered after that.
    The command has been applied, nobody was told, and the channel stays in the
    map under an index that is never applied again. *)
Theorem reply_lost :
  exists n0 n1 out1 n2 out2,
    solo = Some n0 /\ (tick ;; tick ;; tick) n0 = Some (n1, out1, tt) /\ role (state n1) = Leader /\
    submitCommand (tick ;; tick) 5%nat (applyRequest "client" 1 [Byte.x61] 6%nat) n1 = Some (n2, out2, tt) /\
    sm n2 = [Byte.x61] /\ lastApplied (state n2) = lastIdx (state n2) /\
    outward out2 = [AwaitApplied 5%nat 6%nat] /\ pendingCommands n2 !! lastIdx (state n2) = Some 5%nat.
Proof.
  assert (forall {A} (o : option (RaftNode Register MemoryStorage.t * list effect * unit)) (f : _ -> A) a,
    f <$> o = Some a -> exists n out, o = Some (n, out, tt) /\ f (n, out, tt) = a) as Hobs.
  { intros A [[[n out] []]|] f a E; [injection E as <-; by exists n, out | done]. }
  destruct solo as [n0|] eqn:E0; [| vm_compute in E0; discriminate].
  destruct (Hobs _ ((tick ;; tick ;; tick) n0) (fun r => role (state r.1.1)) Leader) as (n1 & out1 & E1 & Hl).
  { assert ((n0 ← solo; (fun r => role (state r.1.1)) <$> (tick ;; tick ;; tick) n0) = Some Leader) as Hv
      by (vm_compute; reflexivity). by rewrite E0 in Hv. }
  set (m := submitCommand (tick ;; tick) 5%nat (applyRequest "client" 1 [Byte.x61] 6%nat)).
  destruct (Hobs _ (m n1) (fun r => (sm r.1.1, lastApplied (state r.1.1), lastIdx (state r.1.1), outward r.1.2,
    pendingCommands r.1.1 !! lastIdx (state r.1.1)))
    ([Byte.x61], 1, 1, [AwaitApplied 5%nat 6%nat], Some 5%nat)) as (n2 & out2 & E2 & Hv).
  { assert ((n0 ← solo; r ← (tick ;; tick ;; tick) n0;
       (fun r => (sm r.1.1, lastApplied (state r.1.1), lastIdx (state r.1.1), outward r.1.2,
         pendingCommands r.1.1 !! lastIdx (state r.1.1))) <$> m r.1.1)
       = Some ([Byte.x61], 1, 1, [AwaitApplied 5%nat 6%nat], Some 5%nat)) as Hv by (vm_compute; reflexivity).
    rewrite E0 in Hv. cbn [mbind option_bind] in Hv. rewrite E1 in Hv. exact Hv. }
  injection Hv as Hsm Hla Hli Ho Hp. exists n0, n1, out1, n2, out2.
  do 4 (split; [done |]). split; [exact Hsm |]. split; [by rewrite Hla, Hli |]. by split.
Qed.

(** ** The vote that is forgotten *)

Definition on (ev : event) : Handler Register MemoryStorage.t unit := run 0 (fun _ => 0) ev.

(** n1 of the three is connected, times out, and is elected by n2 in term 1. *)
Definition elected : Handler Register MemoryStorage.t unit :=
  on EvConnected ;; on EvTimer ;; on (EvVoteResponse (mkRequestVoteResponse "n2" 1 true)).

(** A vote request of [c] in term 2, with a log at least as long. *)
Definition campaign_of (c : ServerID) : event := EvRequestVote (mkRequestVoteArgs 2 c 5 1).

Definition grant : effect := ReplyRequestVote (mkRequestVoteResponse "n1" 2 true).

(** A stale save. A genuine execution of one server of three: as the leader of
    term 1 it takes a command; between the read and the save of that command's
    [persistState] the main loop grants n3 its vote in term 2, with the vote on
    stable storage before the answer; the save then puts term 1 back. The server
    crashes, is rebuilt over its storage, comes back in term 1, and grants n2
    its vote in term 2 as well. *)
Theorem stale_persist :
  exists n1 out1 n2 out2 n3 n4 n5 out5,
    elected (started "n1") = Some (n1, out1, tt) /\ role (state n1) = Leader /\ currentTerm (state n1) = 1 /\
    submitPersisting (on (campaign_of "n3")) 5%nat (applyRequest "client" 1 [Byte.x61] 6%nat) n1
      = Some (n2, out2, tt) /\ grant ∈ out2 /\ currentTerm (state n2) = 2 /\ votedFor (state n2) = "n3" /\
    New (trio_config "n1") (Some ([] : Register)) (Some listening) (Some (storage n2)) = inl n3 /\
    Start n3 = Some (n4, None) /\ currentTerm (state n4) = 1 /\
    on (campaign_of "n2") n4 = Some (n5, out5, tt) /\ grant ∈ out5.
Proof.
  assert (forall {A B} (o : option A) (f : A -> B) b, f <$> o = Some b -> exists a, o = Some a /\ f a = b) as Hobs.
  { intros A B [a|] f b E; [injection E as <-; by exists a | done]. }
  set (m := submitPersisting (on (campaign_of "n3")) 5%nat (applyRequest "client" 1 [Byte.x61] 6%nat)).
  destruct (Hobs _ _ (elected (started "n1")) (fun r => (role (state r.1.1), currentTerm (state r.1.1))) (Leader, 1)
    ltac:(vm_compute; reflexivity)) as ([[n1 out1] []] & E1 & [= Hl Ht]).
  destruct (Hobs _ _ (m n1) (fun r => (bool_decide (grant ∈ r.1.2), currentTerm (state r.1.1), votedFor (state r.1.1)))
    (true, 2, "n3")) as ([[n2 out2] []] & E2 & [= Hg2 Ht2 Hv2]).
  { assert ((r ← elected (started "n1"); (fun r => (bool_decide (grant ∈ r.1.2), currentTerm (state r.1.1),
      votedFor (state r.1.1))) <$> m r.1.1) = Some (true, 2, "n3")) as Hv by (vm_compute; reflexivity).
    by rewrite E1 in Hv. }
  destruct (New (trio_config "n1") (Some ([] : Register)) (Some listening) (Some (storage n2))) as [n3|] eqn:E3;
    [| done].
  set (rebuilt := r1 ← elected (started "n1"); r2 ← m r1.1.1;
    match New (trio_config "n1") (Some ([] : Register)) (Some listening) (Some (storage r2.1.1)) with
    | inl n => Start n
    | inr _ => None
    end).
  assert (rebuilt = Start n3) as Er by (unfold rebuilt; rewrite E1; cbn [mbind option_bind fst]; rewrite E2; cbn [mbind option_bind fst]; by rewrite E3).
  destruct (Hobs _ _ (Start n3) (fun r => (r.2, currentTerm (state r.1))) (None, 1)) as ([n4 err] & E4 & [= -> Ht4]).
  { rewrite <- Er. vm_compute. reflexivity. }
  destruct (Hobs _ _ (on (campaign_of "n2") n4) (fun r => bool_decide (grant ∈ r.1.2)) true) as ([[n5 out5] []] & E5 & Hg5).
  { assert ((r ← rebuilt; (fun r => bool_decide (grant ∈ r.1.2)) <$> on (campaign_of "n2") r.1) = Some true) as Hv
      by (vm_compute; reflexivity).
    rewrite Er, E4 in Hv. exact Hv. }
  apply bool_decide_eq_true in Hg2, Hg5. exists n1, out1, n2, out2, n3, n4, n5, out5.
  exact (conj E1 (conj Hl (conj Ht (conj E2 (conj Hg2 (conj Ht2 (conj Hv2 (conj E3 (conj E4
    (conj Ht4 (conj E5 Hg5))))))))))).
Qed.
