(* ===== verification/Durability.v ===== *)
(** * Durability: persisting before answering, and restarting

    A node answers an RPC, and asks for votes, only after the calls that put its
    persistent state on stable storage; a restart brings that state back. The
    saves are effects, in the order of the sends, so that a handler that replied
    first would be told apart. *)
From S2P Require Import Prelude GoFloat Metrics Types State Storage SnapshotOps ConfigChange Log.
From S2P Require Import Samples Election ElectionTheorems Control ConfigTheorems Node Servers Handlers Effects NodeTheorems.

(** ** Answers and saves *)

(** The answers of a node: replies to RPCs, and its own vote requests. *)
Definition answer (e : effect) : bool :=
  match e with
  | ReplyAppendEntries _ | ReplyRequestVote _ | ReplyInstallSnapshot _ | SendRequestVote _ _ => true
  | _ => false
  end.

(** The state that the latest of the saves put on stable storage. *)
Definition last_saved (out : list effect) : option PersistentState :=
  last (omap (fun e => match e with StateSaved ps => Some ps | _ => None end) out).

Lemma last_saved_app a b ps : last_saved b = Some ps -> last_saved (a ++ b) = Some ps.
Proof. unfold last_saved. rewrite omap_app, last_app. by intros ->. Qed.

Lemma last_saved_quiet a b : Forall (fun e => is_save e = false) b -> last_saved (a ++ b) = last_saved a.
Proof.
  intros Hb. unfold last_saved. rewrite omap_app. assert (omap (fun e => match e with StateSaved ps => Some ps
    | _ => None end) b = []) as ->; [| by rewrite app_nil_r].
  induction Hb as [|e b He _ IH]; [done |]. by destruct e.
Qed.

Lemma last_saved_saving {SM ST} (n : RaftNode SM ST) : last_saved (saving n) = Some (persistent (state n)).
Proof. unfold saving. destruct (getLastSnapshot _); [case_match |]; done. Qed.

Lemma saving_saves {SM ST} (n : RaftNode SM ST) : Forall (fun e => is_save e = true) (saving n).
Proof. unfold saving. destruct (getLastSnapshot _); [case_match |]; by repeat constructor. Qed.

(** Every answer in [out] comes after a save of the state [ps], which no other
    save before the answer has replaced. *)
Definition covered (ps : PersistentState) (out : list effect) : Prop :=
  forall o1 e o2, out = o1 ++ e :: o2 -> answer e = true -> last_saved o1 = Some ps.

Lemma covered_quiet ps out : Forall (fun e => answer e = false) out -> covered ps out.
Proof.
  intros Hq o1 e o2 -> He. apply Forall_app in Hq as [_ Hq]. apply Forall_cons in Hq as [Hq _]. congruence.
Qed.

Lemma covered_app ps a b : Forall (fun e => answer e = false) a -> covered ps b -> covered ps (a ++ b).
Proof.
  intros Ha Hb o1 e o2 E He. apply app_eq_app in E as [l [[-> E]|[-> E]]].
  - destruct l as [|x l]; simpl in E.
    + by specialize (Hb [] e o2 (eq_sym E) He).
    + injection E as -> ->. apply Forall_app in Ha as [_ Ha]. apply Forall_cons in Ha as [Ha _]. congruence.
  - apply last_saved_app. by apply (Hb l e o2).
Qed.

(** ** Persistence *)

Section persistence.
Context {SM ST : Type} `{StateMachine SM, Storage ST, GoPlatform}.
Implicit Types n : RaftNode SM ST.

(** After the saves of a node, whatever is no save. *)
Lemma covered_saves n a b :
  saves_of n a -> Forall (fun e => is_save e = false) b -> covered (persistent (state n)) (a ++ b).
Proof.
  intros (n0 & Ep & _ & ->) Hb o1 e o2 E He. rewrite <- Ep. apply app_eq_app in E as [l [[Es E]|[-> E]]].
  - destruct l as [|x l]; simpl in E.
    + rewrite app_nil_r in Es. rewrite <- Es. apply last_saved_saving.
    + injection E as <- ->. pose proof (saving_saves n0) as Hs. rewrite Es in Hs.
      apply Forall_app in Hs as [_ Hs]. apply Forall_cons in Hs as [Hs _]. by destruct e.
  - rewrite E in Hb. apply Forall_app in Hb as [Hb _]. rewrite last_saved_quiet by done. apply last_saved_saving.
Qed.

(** Not an answer: signals and replication messages are not. *)
Definition unanswering (e : effect) : Prop := answer e = false.

Definition silent {A} (m : Handler SM ST A) : Prop := emits unanswering m.

Lemma silent_answers {A} (m : Handler SM ST A) n n' out a :
  silent m -> m n = Some (n', out, a) -> Forall (fun e => answer e = false) out.
Proof.
  intros Hm E. destruct (Hm _ _ _ _ E) as [_ F]. apply forall_outward; [by intros [] | exact F].
Qed.

Lemma silent_signal {A} (m : Handler SM ST A) : emits signal m -> silent m.
Proof. intros Hm. by apply (emits_mono signal); [| intros []]. Qed.

Lemma silent_replication {A} (m : Handler SM ST A) : emits replication m -> silent m.
Proof. intros Hm. by apply (emits_mono replication); [| intros []]. Qed.

(** [m] answers only after its state was saved, and leaves it on stable storage. *)
Definition careful {A} (m : Handler SM ST A) : Prop :=
  forall n n' out a, state_inv (state n) -> m n = Some (n', out, a) ->
    covered (persistent (state n')) out /\ (existsb answer out = true -> durable n').

Definition keeps {A} (m : Handler SM ST A) : Prop :=
  forall n n' out a, state_inv (state n) -> m n = Some (n', out, a) -> state_inv (state n').
End persistence.

Lemma quiet_existsb out : Forall (fun e => answer e = false) out -> existsb answer out = false.
Proof. induction 1 as [|e out He _ IH]; [done |]. simpl. by rewrite He. Qed.

Section durability.
Context {SM ST : Type} `{StateMachine SM, Storage ST, GoPlatform}.
Context (Hrel : reliable (ST := ST)).
Implicit Types n : RaftNode SM ST.

Lemma careful_silent {A} (m : Handler SM ST A) : silent m -> careful m.
Proof.
  intros Hm n n' out a _ E. pose proof (silent_answers _ _ _ _ _ Hm E) as Hq.
  split; [by apply covered_quiet |]. by rewrite quiet_existsb.
Qed.

Lemma careful_after {A B} (m : Handler SM ST A) (k : A -> Handler SM ST B) :
  silent m -> keeps m -> (forall a, careful (k a)) -> careful (m ≫= k).
Proof.
  intros Hm Hkeep Hk n n' out b Hn E. apply bind_inv in E as (n1 & o1 & a & o2 & E1 & E2 & ->).
  pose proof (silent_answers _ _ _ _ _ Hm E1) as Hq.
  destruct (Hk a _ _ _ _ (Hkeep _ _ _ _ Hn E1) E2) as [Hc Hd].
  split; [by apply covered_app |]. by rewrite existsb_app, quiet_existsb.
Qed.

Lemma careful_gets {A B} (f : _ -> A) (k : A -> Handler SM ST B) :
  (forall a, careful (k a)) -> careful (gets f ≫= k).
Proof. apply careful_after; [apply emits_gets |]. intros n n' out a Hn [= <- _ _]. done. Qed.

(** The three RPCs persist before they reply. *)
Lemma serve_run ev m n :
  serves ev = Some m -> state_inv (state n) ->
  runs_to m n (fun n' _ _ => state_inv (state n') /\ durable n').
Proof.
  intros Hm Hn. destruct ev; try done; injection Hm as <-.
  - eapply runs_to_mono; [by apply serveAppendEntries_run |]. intros n' out _ [[] Hd]. auto.
  - eapply runs_to_mono; [by apply serveRequestVote_run |].
    intros n' out _ [[]|(o & t & [] & Hd & _)]; auto.
  - eapply runs_to_mono; [by apply serveInstallSnapshot_run |]. intros n' out _ [[] Hd]. auto.
Qed.

(** What they send: the saves of the state they leave behind, and the reply. *)
Lemma persist_reply e n :
  array_ok (state n) ->
  runs_to (persistState ;; emit e) n (fun n' out _ => exists o, out = o ++ [e] /\ saves_of n' o).
Proof.
  intros Ha. apply persist_then; [done |]. intros n1 _ Es _. apply runs_to_emit.
  exists (saving n). split; [done |]. apply saves_of_intro. by rewrite Es.
Qed.

Lemma serve_saves ev m n :
  serves ev = Some m -> state_inv (state n) ->
  runs_to m n (fun n' out _ => exists o e, out = o ++ [e] /\ is_save e = false /\ saves_of n' o).
Proof.
  intros Hm Hn. destruct ev; try done; injection Hm as <-; go_read; apply runs_to_bind.
  - destruct (handleAppendEntries_control (gameState n) (id n) args (state n) ltac:(eauto with raft))
      as (s & r & E & Ha & _).
    eapply runs_to_call; [exact E |]. eapply runs_to_mono; [by apply persist_reply |].
    intros n' out _ (o & -> & Hs). by exists o, (ReplyAppendEntries r).
  - destruct (handleRequestToVote_total (id n) args (state n) ltac:(eauto with raft)) as (s & g & E & Ha & _).
    eapply runs_to_call; [exact E |]. eapply runs_to_mono; [by apply persist_reply |].
    intros n' out _ (o & -> & Hs). eexists o, _. by split.
  - destruct (handleInstallSnapshotRequest_control (id n) args (state n) ltac:(eauto with raft)) as (Ha & _).
    destruct (handleInstallSnapshotRequest (id n) args (state n)) as [s r] eqn:E. simpl in Ha.
    eapply runs_to_call; [by rewrite E |]. eapply runs_to_mono; [by apply persist_reply |].
    intros n' out _ (o & -> & Hs). by exists o, (ReplyInstallSnapshot r).
Qed.

Lemma serve_careful ev m : serves ev = Some m -> careful m /\ keeps m.
Proof.
  intros Hm. split; intros n n' out a Hn E;
    destruct (runs_to_det _ _ _ _ _ _ (serve_run ev m n Hm Hn) E); [| done].
  split; [| auto]. destruct (runs_to_det _ _ _ _ _ _ (serve_saves ev m n Hm Hn) E) as (o & e & -> & He & Hs).
  apply covered_saves; [done | by repeat constructor].
Qed.

Lemma careful_commits (m : Handler SM ST unit) : careful m -> keeps m -> careful (m ;; calls checkCommits).
Proof.
  intros Hm Hk n n' out u Hn E. apply bind_inv in E as (n1 & o1 & [] & o2 & E1 & E2 & ->).
  destruct (checkCommits_frame (state n1)) as [c Ec]; [apply (Hk _ _ _ _ Hn E1) |].
  unfold calls in E2. rewrite Ec in E2. injection E2 as <- <- _. rewrite app_nil_r.
  exact (Hm _ _ _ _ Hn E1).
Qed.

Lemma stop_silent_keeps :
  silent (SM := SM) (ST := ST) (update stopElectionTimeout) /\
  keeps (SM := SM) (ST := ST) (update stopElectionTimeout).
Proof.
  split; [apply emits_update |]. intros n n' out u Hn E.
  exact (calm_inv _ _ _ _ (calm_det _ _ _ _ _ _ (stop_calm n Hn) E)).
Qed.

Lemma timeout_silent_keeps rnd :
  silent (SM := SM) (ST := ST) (calls (checkElectionTimeout rnd)) /\
  keeps (SM := SM) (ST := ST) (calls (checkElectionTimeout rnd)).
Proof.
  split; [apply emits_calls |]. intros n n' out u Hn E. unfold calls in E.
  destruct (checkElectionTimeout_neutral rnd _ Hn) as (s & Es & Ha & Ec). rewrite Es in E.
  injection E as <- _ _. by apply (state_inv_same (state n)).
Qed.

(** A campaign begins by persisting the candidate's own vote, and changes
    nothing after that. *)
Lemma begin_then (k : Handler SM ST unit) now :
  (forall n n' out u, state_inv (state n) -> k n = Some (n', out, u) ->
     Forall (fun e => answer e = false) out \/ n' = n /\ Forall (fun e => is_save e = false) out) ->
  careful (beginElection now ;; k).
Proof.
  intros Hk n n' out u Hn E. apply bind_inv in E as (n1 & o1 & [] & o2 & E1 & E2 & ->).
  destruct (runs_to_det _ _ _ _ _ _ (beginElection_run now n Hn) E1) as (Hs & Hb & _).
  assert (Forall (fun e => answer e = false) o1) as Hq1.
  { destruct Hs as (n0 & _ & _ & ->). eapply Forall_impl; [apply saving_saves |]. by intros []. }
  destruct (Hk n1 n' o2 u (be_inv _ _ Hb) E2) as [Hq|[-> Hq]].
  - assert (Forall (fun e => answer e = false) (o1 ++ o2)) as Ho by (by apply Forall_app).
    split; [by apply covered_quiet | by rewrite quiet_existsb].
  - split; [by apply covered_saves |]. intros _. apply (be_durable _ _ Hb Hrel).
Qed.

Lemma each_emit_run {A} (f : A -> effect) l n n' out u :
  each (fun x => emit (f x)) l n = Some (n', out, u) -> n' = n /\ out = f <$> l.
Proof.
  revert n n' out u. induction l as [|x l IH]; intros n n' out u; simpl; [by intros [= <- <- _] |].
  intros E. apply bind_inv in E as (n1 & o1 & [] & o2 & [= <- <-] & E & ->).
  apply IH in E as [-> ->]. done.
Qed.

Lemma campaign_unsaved n n' out u :
  state_inv (state n) -> campaign n = Some (n', out, u) -> n' = n /\ Forall (fun e => is_save e = false) out.
Proof.
  intros Hn E. split.
  { by destruct (runs_to_det _ _ _ _ _ _ (campaign_run n ltac:(eauto with raft)) E) as [-> _]. }
  apply bind_inv in E as (? & ? & me & o2 & [= <- <- <-] & E & ->).
  apply bind_inv in E as (n1 & o1 & args & o3 & E1 & E & ->).
  apply bind_inv in E as (? & ? & ps & o4 & [= <- <- <-] & E & ->).
  apply each_emit_run in E as [_ ->]. unfold call in E1.
  destruct (prepareRequestVoteRPC _ (state n)); [| done]. injection E1 as <- <- <-. simpl.
  apply Forall_fmap, Forall_true. done.
Qed.

Lemma handleFollower_careful rnd clock ev : careful (SM := SM) (ST := ST) (handleFollower rnd clock ev).
Proof.
  destruct (timeout_silent_keeps rnd) as [Ht1 Ht2]. destruct stop_silent_keeps as [Hs1 Hs2].
  apply careful_after; [done | done |]. intros _.
  destruct ev as [args|args|args| | | |].
  - apply careful_after; [done | done |]. intros _. by apply (serve_careful (EvAppendEntries args)).
  - apply careful_after; [done | done |]. intros _. by apply (serve_careful (EvRequestVote args)).
  - by apply (serve_careful (EvInstallSnapshot args)).
  - apply careful_silent, emits_skip.
  - intros n n' out u _ [= _ <- _]. split; [by apply covered_quiet | done].
  - apply careful_after; [done | done |]. intros _. apply careful_gets. intros up.
    destruct (negb up); [apply careful_silent, emits_skip |].
    apply begin_then. intros n n' out u Hn E.
    apply bind_inv in E as (? & ? & me & o2 & [= <- <- <-] & E & ->).
    apply bind_inv in E as (? & ? & ps & o3 & [= <- <- <-] & E & ->). cbn [app].
    case_bool_decide; [left | right; by eapply campaign_unsaved].
    assert (silent (SM := SM) (ST := ST) (calls (winElection (id n)) ;; recordWin clock 1 ;; persistState)) as Hw
      by apply win_emits.
    exact (silent_answers _ _ _ _ _ Hw E).
  - apply careful_silent, emits_skip.
Qed.

Lemma handleCandidate_careful rnd clock ev : careful (SM := SM) (ST := ST) (handleCandidate rnd clock ev).
Proof.
  destruct (timeout_silent_keeps rnd) as [Ht1 Ht2]. destruct stop_silent_keeps as [Hs1 Hs2].
  apply careful_after; [done | done |]. intros _.
  destruct ev eqn:Eev; try (by eapply (serve_careful ev); rewrite Eev).
  - apply careful_silent. unfold recordWin. apply silent_replication. emitting; [apply persistState_emits | apply sendAppendEntriesRPCs_emits].
  - intros n n' out u _ [= _ <- _]. split; [by apply covered_quiet | done].
  - apply careful_after; [done | done |]. intros _. apply begin_then.
    intros n n' out u Hn E. right. by eapply campaign_unsaved.
  - apply careful_silent, emits_skip.
Qed.

Lemma handleLeader_careful ev : careful (SM := SM) (ST := ST) (handleLeader ev).
Proof.
  unfold handleLeader. destruct ev eqn:Eev; try (apply careful_commits; by eapply (serve_careful ev); rewrite Eev);
    try (apply careful_commits; [intros n n' out u _ [= _ <- _]; by split; [apply covered_quiet |]
                                | by intros n n' out u Hn [= <- _ _]]);
    apply careful_silent, silent_replication; emitting; apply sendAppendEntriesRPCs_emits.
Qed.

(** C5. Persisted before it is said. Whatever event an iteration of the main
    loop handles, and in whatever role: before each reply to a peer's RPC and
    each vote request of its own, the iteration has called [SaveState], and the
    state saved last before it is the term, the vote and the log that the node
    has from then on; when the saves succeed, the storage holds them at the end
    of the iteration. *)
Theorem answers_are_durable rnd clock ev n n' out u :
  state_inv (state n) -> run rnd clock ev n = Some (n', out, u) ->
  let ps := mkPersistentState (currentTerm (state n')) (votedFor (state n')) (live (state n')) in
  (forall o1 e o2, out = o1 ++ e :: o2 -> answer e = true -> last_saved o1 = Some ps) /\
  (existsb answer out = true -> LoadState (storage n') = Some (Some ps)).
Proof.
  intros Hn E ps. assert (array_ok (state n')) as Hok.
  { destruct (run_reaction _ _ _ _ _ _ _ Hn E) as (n1 & o1 & o2 & _ & _ & _ & Hr).
    by eapply inv_array, reaction_inv. }
  change ps with (persistent (state n')). enough (careful (run rnd clock ev)) as Hc.
  { destruct (Hc _ _ _ _ Hn E) as [Hcov Hd]. split; [exact Hcov |]. intros Ha.
    rewrite <- getPersistentState_ok by done. exact (Hd Ha). }
  clear n n' out u Hn E ps Hok.
  apply careful_after.
  - apply silent_signal. intros n n' out u. apply applyLogs_emits.
  - intros n n' out u Hn E. apply (calm_inv _ _ _ _ (applyLogs_calm True _ _ _ _ _ Hn E)).
  - intros _. apply careful_after; [apply silent_signal, checkConfigurationsToStart_emits | |].
    + intros n n' out u Hn E.
      exact (calm_inv _ _ _ _ (calm_det _ _ _ _ _ _ (checkConfigurationsToStart_calm True n Hn) E)).
    + intros _. apply careful_gets. intros r.
      destruct r; [apply handleFollower_careful | apply handleCandidate_careful | apply handleLeader_careful].
Qed.
End durability.

(** ** Restarting *)

Section restarting.
Context {SM ST : Type} `{StateMachine SM, Storage ST, GoPlatform}.
Implicit Types n : RaftNode SM ST.

(** Every save succeeds. *)
Definition saves : Prop :=
  reliable (ST := ST) /\ forall snap (st : ST), (SaveSnapshot snap st).2 = true.

(** Nothing keeps the node from starting. *)
Lemma Start_total c (m : SM) tr (st : ST) ps snap n :
  New c (Some m) (Some tr) (Some st) = inl n ->
  LoadState st = Some (Some ps) -> (length (Logs ps) <= logArrayCapacity)%nat ->
  LoadSnapshot st = Some snap ->
  (forall s, snap = Some s -> (sm_Restore (SnapData s) m).2 = true) ->
  tr_Listen tr (NodeConfig.ID c) = true ->
  exists n', Start n = Some (n', None).
Proof.
  unfold New. intros En Hps Hlen Hsnap Hre Hli. injection En as <-.
  set (s0 := newNodeState _ _ _ _). unfold Start. cbn [storage state]. rewrite Hps.
  assert (exists s, restoreState (Some ps) s0 = Some s) as (s & ->).
  { unfold restoreState. case_match; [| by eexists].
    match goal with |- context [restoreLogs 0 _ ?x] => set (s1 := x) end.
    assert (array_ok s0) as Hok0 by apply newNodeState_log_ok.
    destruct (restoreLogs_run (Logs ps) 0 s1) as (l & -> & _); 
      [by apply (array_ok_update s0) | exact Hlen | | by eexists].
    apply (newNodeState_frame (NodeConfig.ID (withDefaults c))). }
  cbn [mbind option_bind]. change (storage (_ <| state := s |>)) with st. rewrite Hsnap.
  unfold restoreSnapshot. destruct snap as [snap|].
  - cbn [sm]. change (sm (_ <| state := _ |>)) with m.
    specialize (Hre snap eq_refl). destruct (sm_Restore (SnapData snap) m) as [m' ok]. simpl in Hre.
    subst ok. cbn [negb]. match goal with |- context [tr_Listen ?a ?b] => change (tr_Listen a b) with (tr_Listen tr (NodeConfig.ID c)) end.
    rewrite Hli. by eexists.
  - cbn [negb]. match goal with |- context [tr_Listen ?a ?b] => change (tr_Listen a b) with (tr_Listen tr (NodeConfig.ID c)) end.
    rewrite Hli. by eexists.
Qed.

(** The snapshot a restart finds after the next [persistState], when the storage
    held [old]: the node's own when it is newer than the last one saved. *)
Definition comes_back n (old : option Snapshot) : option Snapshot :=
  match lastSnapshot (state n) with
  | Some snap => if lastPersistedSnapIdx n <? LastIncludedIndex snap then Some snap else old
  | None => old
  end.

Lemma persistState_snapshot n old :
  array_ok (state n) -> saves -> LoadSnapshot (storage n) = Some old ->
  runs_to persistState n (fun n' _ _ => LoadSnapshot (storage n') = Some (comes_back n old)).
Proof.
  intros Ha [[Hlaws _] Hsave] Hold. unfold persistState. apply runs_to_bind.
  exists n, [], (persistent (state n)). unfold readPersistent. rewrite getPersistentState_ok by done.
  split; [done |]. unfold savePersistent. apply runs_to_bind, runs_to_modify, runs_to_bind, runs_to_emit.
  set (n1 := n <| storage := (SaveState (persistent (state n)) (storage n)).1 |>).
  assert (LoadSnapshot (storage n1) = Some old) as Hold1.
  { rewrite <- Hold. apply (state_keeps_snapshot (persistent (state n)) _ _ (SaveState (persistent (state n)) (storage n)).2).
    apply surjective_pairing. }
  assert (comes_back n old = comes_back n1 old) as -> by done. clearbody n1.
  unfold runs_to, saveNewSnapshot, comes_back, getLastSnapshot.
  destruct (lastSnapshot (state n1)) as [snap|]; [| by do 3 eexists].
  case_match; [| by do 3 eexists].
  pose proof (Hsave snap (storage n1)) as Hok. destruct (SaveSnapshot snap (storage n1)) as [st ok] eqn:E.
  simpl in Hok. subst ok. do 3 eexists. split; [done |]. fields. by eapply load_saved_snapshot.
Qed.

(** C15. Crash and recovery. A node in some term that has persisted its state,
    and is then rebuilt over the same storage, starts: as a follower with the
    term, the vote and the log it had. Of the snapshots, the node's own comes
    back when its index is greater than that of the last one saved, which is 0
    before the first; otherwise the storage's does, or none. With a snapshot,
    the state machine is in the state it captured and the commit index and
    [lastApplied] are at its end; without one the state machine is the new
    one, and nothing counts as committed. The hash chain and the membership do
    not come back: both are those of a new node. *)
Theorem persist_then_restart n n1 out c (m : SM) tr old :
  state_inv (state n) -> 0 < currentTerm (state n) -> saves -> StateMachineLaws SM ->
  persistState n = Some (n1, out, tt) -> LoadSnapshot (storage n) = Some old ->
  (forall snap, comes_back n old = Some snap -> exists x : SM, sm_Snapshot x = Some (SnapData snap)) ->
  tr_Listen tr (NodeConfig.ID c) = true ->
  exists n0 n2, New c (Some m) (Some tr) (Some (storage n1)) = inl n0 /\ Start n0 = Some (n2, None) /\
    role (state n2) = Follower /\ currentTerm (state n2) = currentTerm (state n) /\
    votedFor (state n2) = votedFor (state n) /\ live (state n2) = live (state n) /\
    lastSnapshot (state n2) = comes_back n old /\
    match comes_back n old with
    | Some snap =>
        (forall x : SM, sm_Snapshot x = Some (SnapData snap) -> sm n2 = x) /\
        commitIndex (state n2) = LastIncludedIndex snap /\ lastApplied (state n2) = LastIncludedIndex snap
    | None => sm n2 = m /\ commitIndex (state n2) = -1 /\ lastApplied (state n2) = -1
    end /\
    logHashes (state n2) = logHashes (state n0) /\ serverConfig (state n2) = serverConfig (state n0).
Proof.
  intros Hn Hterm Hsaves Hsm Hp Hold Hx Hli. pose proof (inv_array _ Hn) as Ha.
  destruct (runs_to_det _ _ _ _ _ _ (persistState_run n Ha) Hp) as (_ & En1 & Hd).
  specialize (Hd (proj1 Hsaves)). unfold durable in Hd.
  assert (state n1 = state n) as Es by (by rewrite En1).
  rewrite Es, getPersistentState_ok in Hd by done.
  pose proof (runs_to_det _ _ _ _ _ _ (persistState_snapshot n old Ha Hsaves Hold) Hp) as Hsnap.
  assert ((length (live (state n)) <= logArrayCapacity)%nat) as Hlen
    by (rewrite length_live by done; by destruct Ha).
  destruct (New c (Some m) (Some tr) (Some (storage n1))) as [n0|e] eqn:Enew; [| done].
  destruct (Start_total c m tr (storage n1) _ _ n0 Enew Hd Hlen Hsnap) as (n2 & E2).
  { intros y Ey. destruct (Hx y Ey) as [x Ex]. by rewrite (sm_restore_snapshot x m _ Ex). }
  { done. }
  exists n0, n2. split; [done |]. split; [done |].
  destruct (Start_run c m tr (storage n1) n0 _ n2 Enew Hd Hterm Hlen E2)
    as [_ _ R3 R4 R5 _ R7 R8 R9 (R10 & R11 & _) R12].
  rewrite Hsnap in R9. injection R9 as R9. rewrite <- R9 in R12.
  unfold New in Enew. injection Enew as <-. cbn [state].
  do 4 (split; [done |]). split; [done |]. split.
  { destruct (comes_back n old) as [snap|]; destruct R12 as (C1 & C2 & C3); [| done].
    split; [| done]. intros x Ex. rewrite (sm_restore_snapshot x m _ Ex) in C3. by injection C3. }
  split; [| exact R11]. rewrite R8. symmetry.
  apply (newNodeState_frame (NodeConfig.ID (withDefaults c))).
Qed.
End restarting.

(** ** Instances *)

#[local] Existing Instance amd64.

Lemma memory_reliable : reliable (ST := MemoryStorage.t).
Proof. split; [apply _ | done]. Qed.

(** n1, in term 2, is asked for its vote in term 3. *)
Definition vote_request : RequestVoteArgs := mkRequestVoteArgs 3 "n3" 5 2.

Lemma answers_are_durable_witness :
  exists n' out u, run 0 (fun _ => 0) (EvRequestVote vote_request) (with_state trio_state) = Some (n', out, u) /\
    exists ps o1 resp, out = o1 ++ [ReplyRequestVote resp] /\ last_saved o1 = Some ps /\ VotedFor ps = "n3" /\
      LoadState (storage n') = Some (Some ps).
Proof.
  destruct (observe1 (run 0 (fun _ => 0) (EvRequestVote vote_request) (with_state trio_state))
    (fun r : RaftNode Register MemoryStorage.t * list effect * unit =>
       (length r.1.2, tail r.1.2, votedFor (state r.1.1)))
    (2%nat, [ReplyRequestVote (mkRequestVoteResponse "n1" 3 true)], "n3") ltac:(vm_compute; reflexivity))
    as ([[n' out] u] & Hrun & Hobs).
  injection Hobs as Hlen Hat Hv. cbn [fst snd] in Hlen, Hat, Hv.
  exists n', out, u. split; [exact Hrun |].
  destruct (answers_are_durable memory_reliable 0 _ _ (with_state trio_state) _ _ _ trio_state_inv Hrun) as [Hcov Hd].
  destruct out as [|e0 [|e1 [|]]]; try done. simpl in Hat. injection Hat as ->. eexists _, [e0], _.
  split; [reflexivity |]. split; [exact (Hcov [e0] _ [] eq_refl eq_refl) |].
  split; [exact Hv |]. apply Hd. simpl. by rewrite orb_true_r.
Defined.

(** n2 with a snapshot up to 5 that captured the register "s". *)
Definition snapped : nodeState := node_snap "n2" 2 5 1 [cmd 6 2].

Lemma snapped_inv : state_inv snapped.
Proof.
  assert (log_ok snapped) as Hlog by sample.
  split; [apply Hlog | vm_compute; reflexivity | vm_compute; split; discriminate
         | vm_compute; split; [split|]; discriminate || reflexivity].
Qed.

Lemma persist_then_restart_witness :
  exists n1 out n0 n2, persistState (with_state snapped) = Some (n1, out, tt) /\
    New (trio_config "n2") (Some ([] : Register)) (Some listening) (Some (storage n1)) = inl n0 /\
    Start n0 = Some (n2, None) /\ currentTerm (state n2) = 2 /\ sm n2 = [Byte.x73].
Proof.
  destruct (persistState_run (with_state snapped) (inv_array _ snapped_inv)) as (n1 & out & [] & Hrun & _).
  assert (comes_back (with_state snapped) None = Some (mkSnapshot 5 1 [Byte.x73] ∅ (replicate 32 Byte.x07)))
    as Eback by (vm_compute; reflexivity).
  exists n1, out.
  destruct (persist_then_restart (with_state snapped) n1 out (trio_config "n2") ([] : Register) listening None)
    as (n0 & n2 & Hnew & Hst & _ & Ht & _ & _ & _ & Hsnap & _).
  - exact snapped_inv.
  - vm_compute. reflexivity.
  - split; [exact memory_reliable | reflexivity].
  - exact register_laws.
  - exact Hrun.
  - vm_compute. reflexivity.
  - rewrite Eback. intros snap [= <-]. by exists [Byte.x73].
  - reflexivity.
  - rewrite Eback in Hsnap. destruct Hsnap as [Hsm _].
    exists n0, n2. split; [exact Hrun |]. split; [exact Hnew |]. split; [exact Hst |].
    split; [| by apply Hsm]. rewrite Ht. vm_compute. reflexivity.
Defined.

(** A snapshot of the first entry alone, at index 0, is never saved: a restart
    finds the compacted log without it. *)
Lemma first_snapshot_lost :
  comes_back (with_state (node_snap "n2" 2 0 1 [cmd 1 2])) None = None.
Proof. vm_compute. reflexivity. Qed.
