(* ===== verification/Cluster.v ===== *)
(** * Cluster: several nodes and the messages between them

    A cluster is a set of nodes with the vote requests and responses in flight.
    [perform] executes one action with the handlers of Node.v; [step] are the
    actions the theorem is about. The membership is static: entries, messages
    and requests that change it are left out. Messages of the other RPCs say
    anything within the bounds of [admissible], so nothing is assumed about the
    logs. An action runs to its end before the next one of any node begins: a
    node crashes between two of them, and restarts from its storage. *)
From S2P Require Import Prelude GoFloat Metrics Types State Storage SnapshotOps.
From S2P Require Import ConfigChange Log Election ElectionTheorems Control Node Handlers.

(** ** The model *)

Section cluster.
Context {SM ST : Type} `{StateMachine SM, Storage ST, GoPlatform}.

(** [net/rpc] delivers a request at most once and a reply at most once, in any
    order. A request in flight is paired with its target, a reply with the
    node that asked. [winners] records the elections won, for the theorem. *)
Record cluster := mkCluster {
  nodes : gmap ServerID (RaftNode SM ST);
  requests : list (ServerID * RequestVoteArgs);
  responses : list (ServerID * RequestVoteResponse);
  winners : list (Z * ServerID);
}.

Definition elected (n n' : RaftNode SM ST) : bool :=
  negb (bool_decide (role (state n) = Leader)) && bool_decide (role (state n') = Leader).

(** Node [i] has gone from [n] to [n'] with effects [out], serving [origin]. *)
Definition absorb (origin i : ServerID) (n n' : RaftNode SM ST) (out : list effect) (c : cluster)
    : cluster :=
  {| nodes := <[i := n']> (nodes c);
     requests := sent out ++ requests c;
     responses := (pair origin <$> replied out) ++ responses c;
     winners := if elected n n' then (currentTerm (state n'), i) :: winners c else winners c |}.

Inductive action :=
| Event (i : ServerID) (ev : event) (rnd : Z) (clock : nat -> Z)
| DeliverRequest (k : nat) (rnd : Z) (clock : nat -> Z)
| DeliverResponse (k : nat) (rnd : Z) (clock : nat -> Z)
| LoseRequest (k : nat)
| LoseResponse (k : nat)
| AppendResponse (i : ServerID) (resp : AppendEntriesResponse)
| SnapshotResponse (i : ServerID) (resp : InstallSnapshotResponse)
| ClientRequest (i : ServerID) (ch : chan) (req : pendingApply)
| RestoreSnapshot (i : ServerID)
| Restart (i : ServerID) (m : SM) (tr : Transport).

Variable config : ServerID -> NodeConfig.Config.

(** A handler of node [i]. *)
Definition handle (i : ServerID) (h : Handler SM ST unit) (origin : ServerID) (c : cluster)
    : option cluster :=
  n ← nodes c !! i;
  '(n', out, _) ← h n;
  Some (absorb origin i n n' out c).

Definition perform (a : action) (c : cluster) : option cluster :=
  match a with
  | Event i ev rnd clock => handle i (run rnd clock ev) "" c
  | DeliverRequest k rnd clock =>
      '(i, args) ← requests c !! k;
      handle i (run rnd clock (EvRequestVote args)) (rv_CandidateID args)
        (mkCluster (nodes c) (delete k (requests c)) (responses c) (winners c))
  | DeliverResponse k rnd clock =>
      '(i, resp) ← responses c !! k;
      handle i (run rnd clock (EvVoteResponse resp)) ""
        (mkCluster (nodes c) (requests c) (delete k (responses c)) (winners c))
  | LoseRequest k => Some (mkCluster (nodes c) (delete k (requests c)) (responses c) (winners c))
  | LoseResponse k => Some (mkCluster (nodes c) (requests c) (delete k (responses c)) (winners c))
  | AppendResponse i resp => handle i (appendEntriesResponse resp) "" c
  | SnapshotResponse i resp => handle i (installSnapshotResponse resp) "" c
  | ClientRequest i ch req => handle i (handleApplyRequest ch req) "" c
  | RestoreSnapshot i => handle i snapshotLoopInstall "" c
  | Restart i m tr =>
      n ← nodes c !! i;
      match New (config i) (Some m) (Some tr) (Some (storage n)) with
      | inl n0 =>
          '(n', err) ← Start n0;
          match err with
          | None => Some (mkCluster (<[i := n']> (nodes c)) (requests c) (responses c) (winners c))
          | Some _ => None
          end
      | inr _ => None
      end
  end.

(** Which actions the theorem covers. Vote messages come from the network
    only; log entries carry no configuration; a term is not at the end of its
    range; and a refusal of InstallSnapshot does not carry the term the leader
    is in (see [handleInstallSnapshotResponse_forgets_vote]). *)
Definition admissible (c : cluster) (a : action) : Prop :=
  match a with
  | Event i ev _ _ =>
      match ev with
      | EvRequestVote _ | EvVoteResponse _ => False
      | EvAppendEntries args => no_config (ae_Entries args)
      | EvTimer => forall n, nodes c !! i = Some n -> currentTerm (state n) < max_int64
      | _ => True
      end
  | SnapshotResponse i resp =>
      isr_Success resp = true \/
      forall n, nodes c !! i = Some n -> isr_Term resp <> currentTerm (state n)
  | _ => True
  end.

Definition step (c c' : cluster) : Prop :=
  exists a, admissible c a /\ perform a c = Some c'.

(** ** Initial clusters *)

Variable servers : list ServerID.

(** Every server is configured with the others as peers. *)
Record configured (i : ServerID) : Prop := {
  cf_id : NodeConfig.ID (config i) = i;
  cf_nodup : NoDup (NodeConfig.Peers (config i));
  cf_peers : forall p, p ∈ NodeConfig.Peers (config i) <-> p ∈ servers /\ p <> i;
  cf_timeouts : let c := withDefaults (config i) in
    0 <= NodeConfig.ElectionMinMs c < NodeConfig.ElectionMaxMs c /\
    NodeConfig.ElectionMaxMs c <= 9223372036854;
}.

(** All nodes started over empty stores, and nothing in flight. *)
Definition initial (c : cluster) : Prop :=
  requests c = [] /\ responses c = [] /\ winners c = [] /\
  forall i n, nodes c !! i = Some n -> i ∈ servers /\
    exists m tr st n0, New (config i) (Some m) (Some tr) (Some st) = inl n0 /\
      LoadState st = Some (Some PersistentState_zero) /\ Start n0 = Some (n, None).

Definition reachable (c : cluster) : Prop := exists c0, initial c0 /\ rtc step c0 c.
End cluster.
Arguments cluster : clear implicits.
Arguments action : clear implicits.
