(* ===== verification/ClusterTheorems.v ===== *)
(** * ClusterTheorems: election safety

    At most one node wins the election of a term, over every execution of the
    cluster of Cluster.v: any order of the nodes' reactions, any loss, delay and
    reordering of the vote messages, messages of the other RPCs within the
    bounds of [admissible], and crashes between reactions. The proof carries a history of the votes cast and counted. *)
From S2P Require Import Prelude GoFloat Metrics Types State Storage SnapshotOps ConfigChange.
From S2P Require Import Log Election ElectionTheorems Control Node Handlers Cluster.

(** ** Fresh and restarted nodes *)

(** The configuration that holds exactly the servers. *)
Definition allServers (servers : list ServerID) : gmap ServerID bool :=
  gset_to_gmap true (list_to_set servers).

Lemma newNodeState_config id peers minMs maxMs :
  let s := newNodeState id peers minMs maxMs in
  serverConfig s = allServers (id :: peers) /\ oldServerConfig s = allServers (id :: peers) /\
  c_queue (control s) = (0, [], ∅) /\ c_timeouts (control s) = (minMs, maxMs).
Proof.
  cbv zeta. unfold newNodeState.
  match goal with |- context [foldl ?f ?x peers] => set (g := f); set (s0 := x) end.
  enough (forall ps s seen,
    serverConfig s = gset_to_gmap true seen -> oldServerConfig s = gset_to_gmap true seen ->
    c_queue (control s) = (0, [], ∅) -> c_timeouts (control s) = (minMs, maxMs) ->
    serverConfig (foldl g s ps) = gset_to_gmap true (list_to_set ps ∪ seen) /\
    oldServerConfig (foldl g s ps) = gset_to_gmap true (list_to_set ps ∪ seen) /\
    c_queue (control (foldl g s ps)) = (0, [], ∅) /\
    c_timeouts (control (foldl g s ps)) = (minMs, maxMs)) as Hg.
  { assert (serverConfig s0 = gset_to_gmap true {[id]}) as E0.
    { apply map_eq. intros k. change (serverConfig s0) with ({[id := true]} : gmap string bool).
      rewrite lookup_gset_to_gmap. destruct (decide (id = k)) as [->|Hk].
      - rewrite lookup_singleton_eq, option_guard_True; [done | set_solver].
      - rewrite lookup_singleton_ne, option_guard_False by set_solver. done. }
    destruct (Hg peers s0 {[id]}) as (-> & -> & -> & ->); [done | done | done | done |].
    unfold allServers. simpl. by rewrite (union_comm_L {[id]}). }
  clearbody s0. induction ps as [|p ps IH]; intros s seen H1 H2 H3 H4; simpl.
  { by rewrite union_empty_l_L. }
  assert (list_to_set ps ∪ ({[p]} ∪ seen) = ({[p]} ∪ list_to_set ps ∪ seen : gset string)) as <-
    by (by rewrite (assoc_L (∪)), (comm_L (∪) {[p]} (list_to_set ps))).
  apply IH.
  - unfold g. fields. by rewrite H1, gset_to_gmap_union_singleton.
  - unfold g. fields. by rewrite H2, gset_to_gmap_union_singleton.
  - exact H3.
  - exact H4.
Qed.

Lemma allServers_perm l l' : (forall p, p ∈ l <-> p ∈ l') -> allServers l = allServers l'.
Proof. intros Hl. unfold allServers. f_equal. apply set_eq. intros p. rewrite !elem_of_list_to_set. apply Hl. Qed.

Lemma size_allServers l : NoDup l -> size (allServers l) = length l.
Proof.
  intros Hl. unfold allServers. rewrite <- size_dom, dom_gset_to_gmap. by apply size_list_to_set.
Qed.

Section start.
Context {SM ST : Type} `{StateMachine SM, Storage ST, GoPlatform}.

Lemma restoreLogs_control ls i s :
  array_ok s -> exists s', restoreLogs i ls s = Some s' /\ array_ok s' /\ control s' = control s.
Proof.
  revert i s. induction ls as [|rl ls IH]; intros i s [Hl Hh Hn]; simpl; [by exists s |].
  destruct (Nat.leb_spec logArrayCapacity i); [by exists s |].
  rewrite array_set_in by lia. simpl.
  match goal with |- context [restoreLogs (S i) ls ?x] => destruct (IH (S i) x) as (s' & -> & Ha & Ec) end.
  { constructor; fields; rewrite ?length_insert; lia. }
  by exists s'.
Qed.

(** The term and the vote that a store gives back. *)
Definition loaded (ps : option PersistentState) (s : nodeState) : Prop :=
  match ps with
  | Some ps => if 0 <? CurrentTerm ps
               then currentTerm s = CurrentTerm ps /\ votedFor s = VotedFor ps
               else currentTerm s = 0 /\ votedFor s = ""
  | None => currentTerm s = 0 /\ votedFor s = ""
  end.

Lemma restoreState_control ps s0 :
  array_ok s0 -> currentTerm s0 = 0 -> votedFor s0 = "" -> role s0 = Follower ->
  exists s1, restoreState ps s0 = Some s1 /\ array_ok s1 /\ role s1 = Follower /\
    c_config (control s1) = c_config (control s0) /\ c_oldConfig (control s1) = c_oldConfig (control s0) /\
    c_queue (control s1) = c_queue (control s0) /\ c_timeouts (control s1) = c_timeouts (control s0) /\
    loaded ps s1.
Proof.
  intros Hok Ft Fv Fr. unfold restoreState, loaded. destruct ps as [ps|]; [| by exists s0].
  destruct (0 <? CurrentTerm ps); [| by exists s0].
  match goal with |- context [restoreLogs 0 (Logs ps) ?x] =>
    destruct (restoreLogs_control (Logs ps) 0 x) as (s1 & E & Ha & Ec) end;
    [by apply (array_ok_update s0) |].
  exists s1. split; [done |]. split; [done |]. rewrite Ec.
  pose proof (f_equal c_role Ec) as E1. pose proof (f_equal c_term Ec) as E2.
  pose proof (f_equal c_vote Ec) as E3. simpl in E1, E2, E3. by rewrite E1, E2, E3.
Qed.

Lemma restoreSnapshot_control snap (n1 n2 : RaftNode SM ST) ok :
  restoreSnapshot snap n1 = (n2, ok) ->
  cfg n2 = cfg n1 /\ storage n2 = storage n1 /\ logs (state n2) = logs (state n1) /\
  logHashes (state n2) = logHashes (state n1) /\ nextLogIdx (state n2) = nextLogIdx (state n1) /\
  control (state n2) = control (state n1).
Proof.
  unfold restoreSnapshot. destruct snap as [snap|]; [| by intros [= <- <-]].
  destruct (sm_Restore _ _). by intros [= <- <-].
Qed.

(** What a started node keeps of its store. *)
Lemma Start_control c (m : SM) tr (st : ST) n0 n :
  New c (Some m) (Some tr) (Some st) = inl n0 -> Start n0 = Some (n, None) ->
  cfg n = withDefaults c /\ storage n = st /\ array_ok (state n) /\
  role (state n) = Follower /\
  c_config (control (state n)) = allServers (NodeConfig.ID c :: NodeConfig.Peers c) /\
  c_oldConfig (control (state n)) = allServers (NodeConfig.ID c :: NodeConfig.Peers c) /\
  c_queue (control (state n)) = (0, [], ∅) /\
  c_timeouts (control (state n)) =
    (NodeConfig.ElectionMinMs (withDefaults c), NodeConfig.ElectionMaxMs (withDefaults c)) /\
  exists ps, LoadState st = Some ps /\ loaded ps (state n).
Proof.
  unfold New. intros En0. injection En0 as <-. unfold Start. cbn [storage state].
  set (c' := withDefaults c). set (s0 := newNodeState _ _ _ _).
  pose proof (newNodeState_frame (NodeConfig.ID c') (NodeConfig.Peers c') (NodeConfig.ElectionMinMs c')
              (NodeConfig.ElectionMaxMs c')) as F.
  pose proof (newNodeState_config (NodeConfig.ID c') (NodeConfig.Peers c') (NodeConfig.ElectionMinMs c')
              (NodeConfig.ElectionMaxMs c')) as G.
  change (newNodeState _ _ _ _) with s0 in F, G.
  destruct F as (_ & _ & _ & _ & Ft & Fv & Fr & _). destruct G as (G1 & G2 & G3 & G4).
  assert (array_ok s0) as Hok0 by apply newNodeState_log_ok.
  destruct (LoadState st) as [ps|] eqn:Eps; [| done].
  destruct (restoreState_control ps s0 Hok0 Ft Fv Fr) as (s1 & -> & Hok1 & R1 & R2 & R3 & R4 & R5 & R6).
  cbn [mbind option_bind].
  change (storage (_ <| state := s1 |>)) with st.
  destruct (LoadSnapshot st) as [snap|]; [| done].
  match goal with |- context [restoreSnapshot snap ?x] => set (n1 := x) end.
  destruct (restoreSnapshot snap n1) as [n2 ok] eqn:E2.
  apply restoreSnapshot_control in E2 as (N1 & N2 & N3 & N4 & N5 & N6).
  change (state n1) with s1 in *.
  destruct ok; [| done]. destruct (tr_Listen _ _); [| done]. cbn [negb]. intros En. injection En as <-.
  assert (forall b (x : RaftNode SM ST),
    cfg (if b : bool then x <| connected := true |> else x) = cfg x /\
    storage (if b : bool then x <| connected := true |> else x) = storage x /\
    state (if b : bool then x <| connected := true |> else x) = state x) as Hif by (by intros []).
  match goal with |- context [if ?b then _ else n2] => destruct (Hif b n2) as (-> & -> & ->) end.
  pose proof (f_equal c_role N6) as M1. pose proof (f_equal c_term N6) as M2.
  pose proof (f_equal c_vote N6) as M3. simpl in M1, M2, M3.
  rewrite N6, R2, R3, R4, R5, M1. split; [done |]. split; [done |].
  split; [by apply (array_ok_update s1) |]. split; [done |].
  split; [exact G1 |]. split; [exact G2 |]. split; [exact G3 |]. split; [exact G4 |].
  exists ps. split; [done |]. unfold loaded in *. by rewrite M2, M3.
Qed.
End start.

(** ** The history and the invariant *)

Section safety.
Context {SM ST : Type} `{StateMachine SM, Storage ST, GoPlatform}.
Context (config : ServerID -> NodeConfig.Config) (servers : list ServerID).
  Hypothesis servers_nodup : NoDup servers.
  Hypothesis servers_named : "" ∉ servers.
  Hypothesis servers_few : Z.of_nat (length servers) < max_int64.
  Hypothesis servers_configured : forall i, i ∈ servers -> configured config servers i.
  Hypothesis storage_reliable : reliable (ST := ST).

Implicit Types c : cluster SM ST.
Implicit Types n : RaftNode SM ST.

(** The history: who has voted for whom in which term, and whose votes a
    candidate has counted. *)
Implicit Types V : ServerID -> Z -> ServerID -> Prop.
Implicit Types G : ServerID -> Z -> list ServerID.

Definition C : gmap ServerID bool := allServers servers.

(** The servers asked by candidate [x] for term [t], at the stage of the
    request, of the granted reply, or counted. *)
Definition asked (x : ServerID) (t : Z) (l : list (ServerID * RequestVoteArgs)) : list ServerID :=
  omap (fun '(p, a) => if decide (rv_CandidateID a = x /\ rv_Term a = t) then Some p else None) l.

Definition granting (x : ServerID) (t : Z) (l : list (ServerID * RequestVoteResponse)) : list ServerID :=
  omap (fun '(y, r) => if decide (y = x /\ rvr_Term r = t /\ rvr_VoteGranted r = true)
                       then Some (rvr_ID r) else None) l.

Definition tokens c G x t : list ServerID :=
  asked x t (requests c) ++ granting x t (responses c) ++ G x t.

Record node_ok V (i : ServerID) n : Prop := {
  no_server : i ∈ servers;
  no_cfg : cfg n = withDefaults (config i);
  no_inv : state_inv (state n);
  no_frozen : frozen C n;
  no_term : 0 <= currentTerm (state n);
  no_live : live_ok (V i) n;
  no_stored : stored_ok (V i) n;
}.

Record inv c V G : Prop := {
  inv_nodes : forall i n, nodes c !! i = Some n -> node_ok V i n;
  inv_positive : forall i t x, V i t x -> 0 < t /\ x ∈ servers;
  inv_once : forall i t x y, V i t x -> V i t y -> x = y;
  inv_nodup : forall x t, NoDup (tokens c G x t);
  inv_asked : forall x t p, p ∈ tokens c G x t -> p ∈ servers /\ p <> x /\ V x t x;
  inv_granting : forall x t p, p ∈ granting x t (responses c) -> V p t x;
  inv_counted : forall x t p, p ∈ G x t -> V p t x;
  inv_votes : forall i n, nodes c !! i = Some n -> role (state n) = Candidate ->
    V i (currentTerm (state n)) i ->
    electionVotes (state n) = 1 + Z.of_nat (length (G i (currentTerm (state n))));
  inv_winners : forall t i, (t, i) ∈ winners c ->
    exists Q, NoDup Q /\ (length servers < 2 * length Q)%nat /\
      forall p, p ∈ Q -> p ∈ servers /\ V p t i;
}.

(** Two majorities meet. *)
Lemma majorities_meet (Q Q' : list ServerID) :
  NoDup Q -> NoDup Q' -> (forall p, p ∈ Q -> p ∈ servers) -> (forall p, p ∈ Q' -> p ∈ servers) ->
  (length servers < 2 * length Q)%nat -> (length servers < 2 * length Q')%nat ->
  exists p, p ∈ Q /\ p ∈ Q'.
Proof.
  intros HQ HQ' Hin Hin' Hl Hl'.
  destruct (decide (Exists (fun p => p ∈ Q') Q)) as [He|He]; [by apply Exists_exists in He |].
  exfalso. assert (length (Q ++ Q') <= length servers)%nat; [| rewrite length_app in *; lia].
  apply submseteq_length, NoDup_submseteq.
  - apply NoDup_app. split; [done |]. split; [| done]. intros p Hp Hp'. apply He, Exists_exists. eauto.
  - intros p [Hp|Hp]%elem_of_app; auto.
Qed.

Lemma inv_safe c V G t i j :
  inv c V G -> (t, i) ∈ winners c -> (t, j) ∈ winners c -> i = j.
Proof.
  intros Hinv Hi Hj.
  destruct (inv_winners _ _ _ Hinv _ _ Hi) as (Q & HQ & Hl & Hin).
  destruct (inv_winners _ _ _ Hinv _ _ Hj) as (Q' & HQ' & Hl' & Hin').
  destruct (majorities_meet Q Q') as (p & Hp & Hp'); [done | done | | | done | done |].
  - intros p Hp. by apply Hin. - intros p Hp. by apply Hin'.
  - eapply inv_once; [done | by apply Hin | by apply Hin'].
Qed.

(** ** Calm changes of one node *)

Definition set_node (i : ServerID) n c : cluster SM ST :=
  mkCluster (<[i := n]> (nodes c)) (requests c) (responses c) (winners c).

Lemma calm_node_ok V i n n' out : calm True n n' out -> node_ok V i n -> node_ok V i n'.
Proof.
  intros [C1 C2 [C3 _] C4 C5 _ _] [N1 N2 N3 N4 N5 N6 N7].
  destruct (C5 storage_reliable (V i) N6 N7) as [Hl Hs].
  split; [done | by rewrite C1 | done | by apply C4 | | done | done].
  destruct C3 as [(E & _)|[E _]]; simpl in E; lia.
Qed.

Lemma inv_set_calm c V G i n n' out :
  inv c V G -> nodes c !! i = Some n -> calm True n n' out -> inv (set_node i n' c) V G.
Proof.
  intros Hinv Hi Hc. destruct Hinv as [I1 I2 I3 I4 I5 I6 I7 I8 I9].
  split; try done; simpl.
  - intros j m. destruct (decide (i = j)) as [->|Hj]; [rewrite lookup_insert_eq | rewrite lookup_insert_ne by done].
    + intros E. simplify_eq. eapply calm_node_ok; [exact Hc | by apply I1].
    + by apply I1.
  - intros j m. destruct (decide (i = j)) as [->|Hj]; [rewrite lookup_insert_eq | rewrite lookup_insert_ne by done].
    + intros E Hr HV. simplify_eq. destruct (calm_quiet _ _ _ _ Hc) as [Hq Hrole]. simpl in Hq, Hrole.
      destruct Hrole as [Hrole|Hrole]; [| congruence].
      destruct Hq as [(Et & _ & Ev)|[Hlt _]].
      * rewrite Et, Ev in *. apply (I8 j n Hi); [congruence | done].
      * destruct (no_live _ _ _ (I1 j n Hi) _ _ HV) as [Hle _]. lia.
    + by apply I8.
Qed.

(** ** The messages *)

Lemma asked_app x t a b : asked x t (a ++ b) = asked x t a ++ asked x t b.
Proof. apply omap_app. Qed.
Lemma granting_app x t a b : granting x t (a ++ b) = granting x t a ++ granting x t b.
Proof. apply omap_app. Qed.

(** One request to each of [ps]. *)
Lemma asked_broadcast y u x t args ps :
  rv_CandidateID args = x -> rv_Term args = t ->
  asked y u ((fun p => (p, args)) <$> ps) = if decide (y = x /\ u = t) then ps else [].
Proof.
  intros Hx Ht. induction ps as [|p ps IH]; [by case_decide |].
  change (asked y u ((fun p => (p, args)) <$> p :: ps)) with
    (match (if decide (rv_CandidateID args = y /\ rv_Term args = u) then Some p else None) with
     | Some q => q :: asked y u ((fun p => (p, args)) <$> ps)
     | None => asked y u ((fun p => (p, args)) <$> ps)
     end).
  rewrite IH, Hx, Ht. destruct (decide (y = x /\ u = t)) as [[-> ->]|Hne]; [by rewrite decide_True |].
  rewrite decide_False; [done |]. intros [<- <-]. by apply Hne.
Qed.

Lemma granting_cons x t y r l :
  granting x t ((y, r) :: l) =
    (if decide (y = x /\ rvr_Term r = t /\ rvr_VoteGranted r = true) then [rvr_ID r] else [])
      ++ granting x t l.
Proof. unfold granting. simpl. by case_decide. Qed.

Lemma asked_delete x t l k p a :
  l !! k = Some (p, a) ->
  asked x t l ≡ₚ (if decide (rv_CandidateID a = x /\ rv_Term a = t) then [p] else []) ++ asked x t (delete k l).
Proof.
  intros Hk. unfold asked. rewrite (delete_Permutation l k (p, a) Hk) at 1. simpl.
  by case_decide.
Qed.

Lemma granting_delete x t l k y r :
  l !! k = Some (y, r) ->
  granting x t l ≡ₚ (if decide (y = x /\ rvr_Term r = t /\ rvr_VoteGranted r = true) then [rvr_ID r] else [])
    ++ granting x t (delete k l).
Proof.
  intros Hk. unfold granting. rewrite (delete_Permutation l k (y, r) Hk) at 1. simpl.
  by case_decide.
Qed.

(** Losing messages. *)
Lemma inv_fewer c c' V G :
  inv c V G -> nodes c' = nodes c -> winners c' = winners c ->
  (forall x t, exists lost, tokens c G x t ≡ₚ lost ++ tokens c' G x t) ->
  (forall x t p, p ∈ granting x t (responses c') -> p ∈ granting x t (responses c)) ->
  inv c' V G.
Proof.
  intros [I1 I2 I3 I4 I5 I6 I7 I8 I9] En Ew Ht Hg. split; rewrite ?En, ?Ew; try done.
  - intros x t. destruct (Ht x t) as [lost E]. specialize (I4 x t). rewrite E in I4.
    by apply NoDup_app in I4 as (_ & _ & ?).
  - intros x t p Hp. apply I5. destruct (Ht x t) as [lost ->]. apply elem_of_app. by right.
  - intros x t p Hp. by apply I6, Hg.
Qed.

(** ** Voting *)

Definition cast V (i : ServerID) (t : Z) (x : ServerID) : ServerID -> Z -> ServerID -> Prop :=
  fun j u y => V j u y \/ (j = i /\ u = t /\ y = x).

(** Node [i], at or below term [t], votes for [x]: no earlier vote of that term
    is for anyone else. *)
Definition may_cast V (i : ServerID) (t : Z) (x : ServerID) : Prop :=
  0 < t /\ x ∈ servers /\ forall u y, V i u y -> u <= t /\ (u = t -> y = x).

Lemma cast_positive V i t x :
  may_cast V i t x -> (forall j u y, V j u y -> 0 < u /\ y ∈ servers) ->
  forall j u y, cast V i t x j u y -> 0 < u /\ y ∈ servers.
Proof. intros (? & ? & _) HV j u y [Hv|(-> & -> & ->)]; [by eapply HV | done]. Qed.

Lemma cast_once V i t x :
  may_cast V i t x -> (forall j u y z, V j u y -> V j u z -> y = z) ->
  forall j u y z, cast V i t x j u y -> cast V i t x j u z -> y = z.
Proof.
  intros (_ & _ & Hm) HV j u y z [Hy|(-> & -> & ->)] [Hz|(E1 & E2 & ->)]; subst; try done.
  - by eapply HV.
  - by eapply Hm.
  - symmetry. by eapply Hm.
Qed.

Lemma cast_live V i t x n :
  may_cast V i t x -> currentTerm (state n) = t -> votedFor (state n) = x ->
  live_ok (cast V i t x i) n.
Proof.
  intros (_ & _ & Hm) Et Ev u y [Hv|(_ & -> & ->)]; rewrite Et, Ev; [| done].
  destruct (Hm u y Hv) as [? Hy]. split; [done |]. intros. symmetry. by apply Hy.
Qed.

(** The other nodes do not notice. *)
Lemma cast_node_ok V i t x j n : j <> i -> node_ok V j n -> node_ok (cast V i t x) j n.
Proof.
  intros Hj [N1 N2 N3 N4 N5 N6 N7].
  assert (forall u y, cast V i t x j u y -> V j u y) as Hv by (by intros u y [?|(-> & _)]).
  split; try done.
  - intros u y HV. by apply N6, Hv.
  - unfold stored_ok in *. destruct (LoadState (storage n)) as [[ps|]|];
      [intros u y HV; by apply N7, Hv | intros u y HV; by eapply N7, Hv..].
Qed.

(** The voter itself, once its state is stored. *)
Lemma cast_voter_ok V i t x n n' :
  may_cast V i t x -> node_ok V i n -> cfg n' = cfg n -> state_inv (state n') ->
  (forall D, frozen D n -> frozen D n') -> currentTerm (state n') = t -> votedFor (state n') = x ->
  (reliable (ST := ST) -> durable n') -> node_ok (cast V i t x) i n'.
Proof.
  intros Hm [N1 N2 N3 N4 N5 N6 N7] Ec Hi Hf Et Ev Hd.
  assert (live_ok (cast V i t x i) n') as Hl by (by apply cast_live).
  split; [done | by rewrite Ec | done | by apply Hf | rewrite Et; destruct Hm; lia | done |].
  apply durable_stored; [apply Hi | by apply Hd | done].
Qed.

Lemma granted_may_cast c V G i n args n' out :
  inv c V G -> nodes c !! i = Some n -> i ∈ asked (rv_CandidateID args) (rv_Term args) (requests c) ->
  granted args n n' out -> may_cast V i (rv_Term args) (rv_CandidateID args).
Proof.
  intros Hinv Hi Ht Hg. destruct (inv_nodes _ _ _ Hinv i n Hi) as [N1 N2 N3 N4 N5 N6 N7].
  destruct (inv_asked _ _ _ Hinv (rv_CandidateID args) (rv_Term args) i) as (_ & _ & HV).
  { unfold tokens. apply elem_of_app. by left. }
  destruct (inv_positive _ _ _ Hinv _ _ _ HV) as [Hpos Hx].
  split; [done |]. split; [done |]. intros u y Hu. destruct (N6 u y Hu) as [Hle Hy].
  destruct (gr_may _ _ _ _ Hg) as [Hlt|[Heq Hv]]; [split; lia |].
  split; [lia |]. intros ->. specialize (Hy (eq_sym Heq)).
  destruct (inv_positive _ _ _ Hinv _ _ _ Hu) as [_ Hyin].
  destruct Hv as [Hv|Hv]; [| congruence]. rewrite Hv in Hy. subst y. by destruct servers_named.
Qed.

(** A vote is granted: the token moves from the request to the reply. *)
Lemma inv_grant c V G k i n args n' out :
  inv c V G -> requests c !! k = Some (i, args) -> nodes c !! i = Some n ->
  granted args n n' out ->
  inv (absorb (rv_CandidateID args) i n n' out
         (mkCluster (nodes c) (delete k (requests c)) (responses c) (winners c)))
      (cast V i (rv_Term args) (rv_CandidateID args)) G.
Proof.
  intros Hinv Hk Hi Hg. set (x := rv_CandidateID args). set (t := rv_Term args).
  pose proof (asked_delete x t _ _ _ _ Hk) as Hdel. rewrite decide_True in Hdel by done.
  assert (i ∈ asked x t (requests c)) as Hask by (rewrite Hdel; set_solver).
  pose proof (granted_may_cast _ _ _ _ _ _ _ _ Hinv Hi Hask Hg) as Hcast. fold x t in Hcast.
  pose proof Hinv as [I1 I2 I3 I4 I5 I6 I7 I8 I9].
  destruct Hg as [G1 G2 G3 G4 G5 G6 G7 G8 G9 G10].
  assert (id n = i) as Eid.
  { unfold id. rewrite (no_cfg _ _ _ (I1 i n Hi)). simpl.
    by rewrite (cf_id _ _ _ (servers_configured i (no_server _ _ _ (I1 i n Hi)))). }
  assert (elected n n' = false) as Eel.
  { unfold elected. rewrite G6. by rewrite andb_false_r. }
  set (c1 := mkCluster (<[i:=n']> (nodes c)) (delete k (requests c))
      ((x, mkRequestVoteResponse (id n) t true) :: responses c) (winners c)).
  assert (absorb x i n n' out (mkCluster (nodes c) (delete k (requests c)) (responses c) (winners c)) = c1)
    as -> by (unfold absorb; by rewrite Eel, G9, G10).
  assert (forall y u, tokens c G y u ≡ₚ tokens c1 G y u) as Htok.
  { intros y u. unfold tokens, c1. cbn [requests responses].
    rewrite (asked_delete y u _ _ _ _ Hk), granting_cons. fold x t. cbn [rvr_Term rvr_VoteGranted rvr_ID].
    destruct (decide (x = y /\ t = u)) as [[<- <-]|Hne].
    - rewrite decide_True by done. rewrite Eid. cbn [app]. apply Permutation_middle.
    - rewrite decide_False by (intros (? & ? & _); by apply Hne). done. }
  split.
  - intros j m. simpl. destruct (decide (i = j)) as [->|Hj];
      [rewrite lookup_insert_eq | rewrite lookup_insert_ne by done].
    + intros E. simplify_eq. eapply cast_voter_ok; eauto.
    + intros E. apply cast_node_ok; [done | by apply I1].
  - by apply cast_positive.
  - by apply cast_once.
  - intros y u. rewrite <- Htok. apply I4.
  - intros y u p Hp. rewrite <- Htok in Hp. destruct (I5 y u p Hp) as (? & ? & ?). by repeat split; try left.
  - intros y u p. unfold c1. cbn [responses]. rewrite granting_cons. cbn [rvr_Term rvr_VoteGranted rvr_ID].
    case_decide as Hd; [| intros Hp; left; by apply I6].
    destruct Hd as (<- & <- & _). rewrite Eid. intros [->|Hp]%elem_of_cons; [by right | left; by apply I6].
  - intros y u p Hp. left. by apply I7.
  - intros j m. simpl. destruct (decide (i = j)) as [->|Hj];
      [rewrite lookup_insert_eq | rewrite lookup_insert_ne by done].
    + intros E Hr. simplify_eq. congruence.
    + intros E Hr [HV|(? & _)]; [by apply I8 | done].
  - intros u j Hw. destruct (I9 u j Hw) as (Q & HQ & Hl & Hin). exists Q. split; [done |]. split; [done |].
    intros p Hp. destruct (Hin p Hp). split; [done | by left].
Qed.

(** A calm reaction elects nobody and sends no vote message. *)
Lemma absorb_calm o i n n' out c : calm True n n' out -> absorb o i n n' out c = set_node i n' c.
Proof.
  intros Hc. unfold absorb, set_node. rewrite (calm_sent _ _ _ _ Hc), (calm_replied _ _ _ _ Hc).
  destruct (calm_quiet _ _ _ _ Hc) as [_ Hr]. simpl in Hr. unfold elected.
  destruct Hr as [-> | ->]; [| by rewrite andb_false_r].
  by destruct (bool_decide (role (state n) = Leader)).
Qed.

(** The calm prefix of an iteration can be taken first. *)
Lemma absorb_prefix o i n n1 n' o1 o2 c :
  calm True n n1 o1 -> same_election (control (state n)) (control (state n1)) ->
  absorb o i n n' (o1 ++ o2) c = absorb o i n1 n' o2 (set_node i n1 c).
Proof.
  intros Hc (_ & _ & Hr & _). simpl in Hr. unfold absorb, set_node, elected.
  rewrite sent_app, replied_app, (calm_sent _ _ _ _ Hc), (calm_replied _ _ _ _ Hc), Hr.
  simpl. by rewrite insert_insert_eq.
Qed.

Lemma inv_lose_request c V G k :
  inv c V G -> inv (mkCluster (nodes c) (delete k (requests c)) (responses c) (winners c)) V G.
Proof.
  intros Hinv. destruct (requests c !! k) as [[p a]|] eqn:Hk.
  - apply (inv_fewer c); try done. intros x t. unfold tokens. cbn [requests responses].
    exists (if decide (rv_CandidateID a = x /\ rv_Term a = t) then [p] else []).
    rewrite (asked_delete x t _ _ _ _ Hk). by rewrite <- app_assoc.
  - rewrite delete_out by done. by destruct c.
Qed.

Lemma inv_lose_response c V G k :
  inv c V G -> inv (mkCluster (nodes c) (requests c) (delete k (responses c)) (winners c)) V G.
Proof.
  intros Hinv. destruct (responses c !! k) as [[p a]|] eqn:Hk.
  - apply (inv_fewer c); try done.
    + intros x t. unfold tokens. cbn [requests responses].
      exists (if decide (p = x /\ rvr_Term a = t /\ rvr_VoteGranted a = true) then [rvr_ID a] else []).
      rewrite (granting_delete x t _ _ _ _ Hk).
      rewrite <- (app_assoc _ _ (G x t)). apply Permutation_app_swap_app.
    + intros x t q Hq. cbn [responses] in Hq. rewrite (granting_delete x t _ _ _ _ Hk).
      apply elem_of_app. by right.
  - rewrite delete_out by done. by destruct c.
Qed.

(** A refusal takes the request and answers without a vote. *)
Lemma inv_refuse c V G x i n n' out :
  inv c V G -> nodes c !! i = Some n -> refused n n' out -> inv (absorb x i n n' out c) V G.
Proof.
  intros Hinv Hi (o & t & Hc & _ & Hs & Hr).
  pose proof (inv_set_calm _ _ _ _ _ _ _ Hinv Hi Hc) as Hinv'.
  pose proof (absorb_calm x i _ _ _ c Hc) as Eab.
  assert (absorb x i n n' out c =
    mkCluster (nodes (set_node i n' c)) (requests c) ((x, mkRequestVoteResponse (id n) t false) :: responses c)
      (winners (set_node i n' c))) as ->.
  { rewrite <- Eab. unfold absorb. rewrite Hs, Hr. done. }
  assert (forall y u, granting y u ((x, mkRequestVoteResponse (id n) t false) :: responses c) =
                      granting y u (responses c)) as Eg.
  { intros y u. rewrite granting_cons, decide_False by (by intros (_ & _ & ?)). done. }
  apply (inv_fewer (set_node i n' c)); try done.
  - intros y u. exists []. unfold tokens. cbn [requests responses set_node]. by rewrite Eg.
  - intros y u p. cbn [responses]. by rewrite Eg.
Qed.

(** ** Campaigning *)

Lemma fresh_term c V G i n :
  inv c V G -> nodes c !! i = Some n -> forall t, currentTerm (state n) < t -> tokens c G i t = [].
Proof.
  intros Hinv Hi t Ht. destruct (tokens c G i t) as [|p l] eqn:E; [done |].
  destruct (inv_asked _ _ _ Hinv i t p) as (_ & _ & HV); [rewrite E; left |].
  destruct (no_live _ _ _ (inv_nodes _ _ _ Hinv i n Hi) _ _ HV). lia.
Qed.

(** A campaign casts the node's own vote in a term without one. *)
Lemma begun_node c V G i n n' :
  inv c V G -> nodes c !! i = Some n -> currentTerm (state n) < max_int64 -> begun n n' ->
  currentTerm (state n') = currentTerm (state n) + 1 /\
  may_cast V i (currentTerm (state n')) i /\
  node_ok (cast V i (currentTerm (state n')) i) i n'.
Proof.
  intros Hinv Hi Hmax [B1 B2 B3 B4 B5 B6]. pose proof (inv_nodes _ _ _ Hinv i n Hi) as Hn.
  pose proof Hn as [N1 N2 N3 N4 N5 N6 N7].
  assert (currentTerm (state n') = currentTerm (state n) + 1) as Et.
  { rewrite B3. apply wrap64_succ; [| done]. unfold in_int64, min_int64. lia. }
  assert (id n = i) as Eid.
  { unfold id. rewrite N2. simpl. by rewrite (cf_id _ _ _ (servers_configured i N1)). }
  assert (may_cast V i (currentTerm (state n')) i) as Hm.
  { split; [lia |]. split; [done |]. intros u y Hu. destruct (N6 u y Hu). lia. }
  split; [done |]. split; [done |].
  eapply cast_voter_ok; [exact Hm | exact Hn | done | done | done | done | by rewrite B4, Eid | done].
Qed.

(** The parts of the invariant that only gain a vote. *)
Lemma inv_winners_cast V i t x (Q : list ServerID) u j :
  (forall p, p ∈ Q -> p ∈ servers /\ V p u j) -> forall p, p ∈ Q -> p ∈ servers /\ cast V i t x p u j.
Proof. intros HQ p Hp. destruct (HQ p Hp). split; [done | by left]. Qed.

Lemma inv_campaign c V G i n n' out o :
  inv c V G -> nodes c !! i = Some n -> currentTerm (state n) < max_int64 ->
  campaigned n n' out ->
  inv (absorb o i n n' out c) (cast V i (currentTerm (state n')) i) G.
Proof.
  intros Hinv Hi Hmax [Hb Hr Hv Hrep (args & Hs & Ht & Hx)].
  destruct (begun_node _ _ _ _ _ _ Hinv Hi Hmax Hb) as (Et & Hm & Hok).
  pose proof (fresh_term _ _ _ _ _ Hinv Hi (currentTerm (state n')) ltac:(lia)) as Hfresh.
  pose proof Hinv as [I1 I2 I3 I4 I5 I6 I7 I8 I9]. pose proof (I1 i n Hi) as Hn.
  set (t := currentTerm (state n')) in *.
  assert (id n = i /\ peers n = NodeConfig.Peers (config i)) as [Eid Ep].
  { unfold id, peers. rewrite (no_cfg _ _ _ Hn). simpl.
    by rewrite (cf_id _ _ _ (servers_configured i (no_server _ _ _ Hn))). }
  destruct (servers_configured i (no_server _ _ _ Hn)) as [_ Hnd Hpe _].
  rewrite Ep in Hs. rewrite Eid in Hx.
  set (ps := NodeConfig.Peers (config i)) in *.
  set (c1 := mkCluster (<[i:=n']> (nodes c)) (((fun p => (p, args)) <$> ps) ++ requests c)
               (responses c) (winners c)).
  assert (absorb o i n n' out c = c1) as ->.
  { unfold absorb, elected. rewrite Hs, Hrep, Hr, andb_false_r. done. }
  assert (forall y u, asked y u ((fun p => (p, args)) <$> ps) = if decide (y = i /\ u = t) then ps else []) as Easked.
  { intros y u. by apply asked_broadcast. }
  assert (forall y u, tokens c1 G y u = (if decide (y = i /\ u = t) then ps else []) ++ tokens c G y u) as Etok.
  { intros y u. unfold tokens, c1. cbn [requests responses]. by rewrite asked_app, Easked, <- app_assoc. }
  split.
  - intros j m. simpl. destruct (decide (i = j)) as [->|Hj];
      [rewrite lookup_insert_eq | rewrite lookup_insert_ne by done].
    + intros E. by simplify_eq.
    + intros E. apply cast_node_ok; [done | by apply I1].
  - by apply cast_positive.
  - by apply cast_once.
  - intros y u. rewrite Etok. case_decide as Hd; [| apply I4].
    destruct Hd as [-> ->]. by rewrite Hfresh, app_nil_r.
  - intros y u p Hp. rewrite Etok in Hp. apply elem_of_app in Hp as [Hp|Hp].
    + case_decide as Hd; [| by apply not_elem_of_nil in Hp]. destruct Hd as [-> ->].
      apply Hpe in Hp as [? ?]. repeat split; [done | done | by right].
    + destruct (I5 y u p Hp) as (? & ? & ?). by repeat split; try left.
  - intros y u p Hp. left. by apply I6.
  - intros y u p Hp. left. by apply I7.
  - intros j m. simpl. destruct (decide (i = j)) as [->|Hj];
      [rewrite lookup_insert_eq | rewrite lookup_insert_ne by done].
    + intros E _ _. simplify_eq. rewrite Hv. unfold tokens in Hfresh.
      apply app_eq_nil in Hfresh as [_ Hfresh]. apply app_eq_nil in Hfresh as [_ Hfresh].
      rewrite Hfresh. done.
    + intros E Hrj [HV|(? & _)]; [by apply I8 | done].
  - intros u j Hw. destruct (I9 u j Hw) as (Q & HQ & Hl & Hin). exists Q.
    split; [done |]. split; [done |]. by apply inv_winners_cast.
Qed.

(** A server without peers wins with its own vote. *)
Lemma inv_alone c V G i n n' out o :
  inv c V G -> nodes c !! i = Some n -> currentTerm (state n) < max_int64 ->
  won_alone n n' out ->
  inv (absorb o i n n' out c) (cast V i (currentTerm (state n')) i) G.
Proof.
  intros Hinv Hi Hmax [Hb Hr Hp Hrep Hs].
  destruct (begun_node _ _ _ _ _ _ Hinv Hi Hmax Hb) as (Et & Hm & Hok).
  pose proof Hinv as [I1 I2 I3 I4 I5 I6 I7 I8 I9]. pose proof (I1 i n Hi) as Hn.
  destruct (servers_configured i (no_server _ _ _ Hn)) as [_ _ Hpe _].
  assert (peers n = NodeConfig.Peers (config i)) as Ep.
  { unfold peers. by rewrite (no_cfg _ _ _ Hn). }
  assert (length servers <= 1)%nat as Hone.
  { assert (servers ⊆+ [i]) as Hsub%submseteq_length; [| exact Hsub].
    apply NoDup_submseteq; [done |]. intros p Hps. apply list_elem_of_singleton.
    destruct (decide (p = i)); [done |]. exfalso.
    assert (p ∈ NodeConfig.Peers (config i)) as Hin by (by apply Hpe).
    rewrite <- Ep, Hp in Hin. by apply not_elem_of_nil in Hin. }
  assert (absorb o i n n' out c = mkCluster (<[i:=n']> (nodes c)) (requests c) (responses c)
    (if elected n n' then (currentTerm (state n'), i) :: winners c else winners c)) as ->
    by (unfold absorb; by rewrite Hs, Hrep).
  split; simpl.
  - intros j m. destruct (decide (i = j)) as [->|Hj];
      [rewrite lookup_insert_eq | rewrite lookup_insert_ne by done].
    + intros E. by simplify_eq.
    + intros E. apply cast_node_ok; [done | by apply I1].
  - by apply cast_positive.
  - by apply cast_once.
  - exact I4.
  - intros y u p Hpt. destruct (I5 y u p Hpt) as (? & ? & ?). by repeat split; try left.
  - intros y u p Hpt. left. by apply I6.
  - intros y u p Hpt. left. by apply I7.
  - intros j m. destruct (decide (i = j)) as [->|Hj];
      [rewrite lookup_insert_eq | rewrite lookup_insert_ne by done].
    + intros E Hrj. simplify_eq. congruence.
    + intros E Hrj [HV|(? & _)]; [by apply I8 | done].
  - intros u j Hw.
    assert ((u, j) = (currentTerm (state n'), i) \/ (u, j) ∈ winners c) as [E|Hold].
    { destruct (elected n n'); [apply elem_of_cons in Hw as [?|?]; auto | auto]. }
    + injection E as -> ->. exists [i]. split; [apply NoDup_singleton |]. simpl. split; [lia |].
      intros p ->%list_elem_of_singleton. split; [apply Hn | by right].
    + destruct (I9 u j Hold) as (Q & HQ & Hl & Hin). exists Q.
      split; [done |]. split; [done |]. by apply inv_winners_cast.
Qed.

(** ** Counting *)

Definition count G (x : ServerID) (t : Z) (p : ServerID) : ServerID -> Z -> list ServerID :=
  fun y u => if decide (y = x /\ u = t) then p :: G y u else G y u.

Lemma size_C : size C = length servers.
Proof. by apply size_allServers. Qed.

(** The candidate, the voter whose grant arrives and the voters counted before
    are distinct servers that have voted for the candidate, and there are as
    many as the votes will be. *)
Lemma counted_voters c V G k i resp n :
  inv c V G -> responses c !! k = Some (i, resp) -> nodes c !! i = Some n ->
  rvr_VoteGranted resp = true -> role (state n) = Candidate -> rvr_Term resp = currentTerm (state n) ->
  let Q := i :: rvr_ID resp :: G i (rvr_Term resp) in
  NoDup Q /\ (forall q, q ∈ Q -> q ∈ servers /\ V q (rvr_Term resp) i) /\
  electionVotes (state n) +! 1 = Z.of_nat (length Q).
Proof.
  intros Hinv Hk Hi Hg Hr Ht. pose proof Hinv as [I1 I2 I3 I4 I5 I6 I7 I8 I9]. pose proof (I1 i n Hi) as Hn.
  set (t := rvr_Term resp) in *. set (p := rvr_ID resp). cbv zeta.
  pose proof (granting_delete i t _ _ _ _ Hk) as Hdel. rewrite decide_True in Hdel by done. fold p in Hdel.
  assert (p ∈ granting i t (responses c)) as Hp by (rewrite Hdel; apply elem_of_cons; by left).
  assert (p ∈ tokens c G i t) as Hpt by (unfold tokens; rewrite !elem_of_app; auto).
  destruct (I5 i t p Hpt) as (Hps & Hpi & HV).
  assert (NoDup (i :: p :: G i t)) as HQ.
  { specialize (I4 i t). unfold tokens in I4. rewrite Hdel in I4.
    apply NoDup_app in I4 as (_ & _ & I4). rewrite <- app_assoc in I4.
    apply NoDup_app in I4 as (_ & Hnot & I4). apply NoDup_app in I4 as (_ & _ & I4).
    apply NoDup_cons. split; [| apply NoDup_cons; split; [| done]].
    - rewrite elem_of_cons. intros [E|Hin]; [done |].
      destruct (I5 i t i) as (_ & ? & _); [unfold tokens; rewrite !elem_of_app; auto | done].
    - intros Hin. apply (Hnot p); [by apply list_elem_of_singleton | apply elem_of_app; by right]. }
  assert (forall q, q ∈ i :: p :: G i t -> q ∈ servers /\ V q t i) as HQin.
  { intros q [->|[->|Hq]%elem_of_cons]%elem_of_cons.
    - split; [apply Hn | done].
    - split; [done | by apply I6].
    - split; [apply (I5 i t q); unfold tokens; rewrite !elem_of_app; auto | by apply I7]. }
  split; [done |]. split; [done |].
  assert (length (i :: p :: G i t) <= length servers)%nat as Hlen.
  { apply submseteq_length, NoDup_submseteq; [done |]. intros q Hq. by apply HQin. }
  assert (electionVotes (state n) = 1 + Z.of_nat (length (G i t))) as Evotes.
  { rewrite Ht. apply (I8 i n Hi Hr). by rewrite <- Ht. }
  simpl in *. rewrite Evotes, wrap64_succ; [lia | |]; unfold in_int64, min_int64, max_int64 in *; lia.
Qed.

(** Counting a grant moves its token from the responses to the count. *)
Lemma tokens_count c G k i resp n n' out o y u :
  responses c !! k = Some (i, resp) -> rvr_VoteGranted resp = true -> sent out = [] -> replied out = [] ->
  tokens c G y u ≡ₚ
    tokens (absorb o i n n' out (mkCluster (nodes c) (requests c) (delete k (responses c)) (winners c)))
      (count G i (rvr_Term resp) (rvr_ID resp)) y u.
Proof.
  intros Hk Hg C9 C10. unfold tokens, absorb, count. rewrite C9, C10. cbn [requests responses fmap list_fmap app].
  apply Permutation_app_head. rewrite (granting_delete y u _ _ _ _ Hk).
  destruct (decide (y = i /\ u = rvr_Term resp)) as [[-> ->]|Hne].
  - rewrite decide_True by done. cbn [app]. by apply Permutation_middle.
  - rewrite decide_False; [done |]. intros (<- & <- & _). by apply Hne.
Qed.

Lemma inv_count c V G k i resp n n' out o :
  inv c V G -> responses c !! k = Some (i, resp) -> nodes c !! i = Some n ->
  counted resp n n' out ->
  inv (absorb o i n n' out (mkCluster (nodes c) (requests c) (delete k (responses c)) (winners c)))
      V (count G i (rvr_Term resp) (rvr_ID resp)).
Proof.
  intros Hinv Hk Hi [C1 C2 [C3 C3'] C4 C5 C6 C7 C8 C9 C10 C11].
  destruct (counted_voters c V G k i resp n Hinv Hk Hi C3' C4 C3) as (HQ & HQin & Eplus).
  destruct Hinv as [I1 I2 I3 I4 I5 I6 I7 I8 I9]. pose proof (I1 i n Hi) as Hn.
  pose proof (fun y u => tokens_count c G k i resp n n' out o y u Hk C3' C9 C10) as Etok.
  set (c0 := mkCluster (nodes c) (requests c) (delete k (responses c)) (winners c)) in *.
  set (t := rvr_Term resp) in *. set (p := rvr_ID resp) in *.
  split.
  - intros j m. simpl. destruct (decide (i = j)) as [<-|Hj];
      [rewrite lookup_insert_eq | rewrite lookup_insert_ne by done; apply I1].
    intros E. injection E as <-. destruct Hn as [N1 N2 N3 N4 N5 N6 N7].
    split; [done | by rewrite C1 | done | by apply C7 | by rewrite C5 | | by apply (C8 storage_reliable)].
    unfold live_ok. by rewrite C5, C6.
  - done.
  - done.
  - intros y u. rewrite <- Etok. apply I4.
  - intros y u q Hq. rewrite <- Etok in Hq. by apply I5.
  - intros y u q. unfold absorb, c0. rewrite C10. cbn [responses fmap list_fmap app]. intros Hq. apply I6.
    rewrite (granting_delete y u _ _ _ _ Hk). apply elem_of_app. by right.
  - intros y u q. unfold count. case_decide as Hd; [| apply I7]. destruct Hd as [-> ->].
    intros Hq. apply (HQin q). by right.
  - intros j m. simpl. destruct (decide (i = j)) as [<-|Hj];
      [rewrite lookup_insert_eq | rewrite lookup_insert_ne by done].
    + intros E Hr _. injection E as <-. rewrite C5, <- C3. unfold count. rewrite decide_True by done.
      destruct C11 as [[_ ->]|[Hl _]]; [rewrite Eplus; simpl; lia | congruence].
    + intros E Hr HVj. unfold count. rewrite decide_False by (intros [-> _]; done). by apply I8.
  - intros u j Hw.
    assert (elected n n' = true /\ (u, j) = (currentTerm (state n'), i) \/ (u, j) ∈ winners c) as [[Hel E]|Hold].
    { unfold absorb, c0 in Hw. simpl in Hw.
      destruct (elected n n'); [apply elem_of_cons in Hw as [?|?]; auto | auto]. }
    + injection E as -> ->. destruct C11 as [[Hc _]|[_ Hwin]].
      { unfold elected in Hel. by rewrite Hc, andb_false_r in Hel. }
      destruct (no_frozen _ _ _ Hn) as ([HC _] & _). unfold control in HC. simpl in HC.
      rewrite HC, size_C, Eplus in Hwin.
      exists (i :: p :: G i t). rewrite C5, <- C3. split; [done |]. split; [cbn [length] in *; lia | done].
    + by apply I9.
Qed.

(** ** Every action keeps the invariant *)

Definition safe c : Prop := exists V G, inv c V G.

Lemma handle_inv i (h : Handler SM ST unit) o c c' :
  handle i h o c = Some c' ->
  exists n n' out, nodes c !! i = Some n /\ h n = Some (n', out, tt) /\ c' = absorb o i n n' out c.
Proof.
  unfold handle. destruct (nodes c !! i) as [n|]; [simpl | done].
  destruct (h n) as [[[n' out] []]|] eqn:E; [simpl | done]. intros. simplify_eq. by exists n, n', out.
Qed.

(** A handler that is calm, *)
Lemma safe_calm i (h : Handler SM ST unit) o c c' :
  safe c -> handle i h o c = Some c' ->
  (forall n n' out, state_inv (state n) -> frozen C n -> nodes c !! i = Some n ->
     h n = Some (n', out, tt) -> calm True n n' out) ->
  safe c'.
Proof.
  intros (V & G & Hinv) Hh Hcalm. apply handle_inv in Hh as (n & n' & out & Hi & E & ->).
  destruct (inv_nodes _ _ _ Hinv i n Hi) as [_ _ Hn Hf _ _ _].
  pose proof (Hcalm n n' out Hn Hf Hi E) as Hc. exists V, G. rewrite absorb_calm by done.
  by eapply inv_set_calm.
Qed.

(** or an iteration of the main loop. *)
Lemma safe_run i rnd clock ev o c c' :
  safe c -> handle i (run rnd clock ev) o c = Some c' ->
  (forall n n1 n' out, nodes c !! i = Some n -> same_election (control (state n)) (control (state n1)) ->
     safe (set_node i n1 c) -> reaction ev n1 n' out -> safe (absorb o i n1 n' out (set_node i n1 c))) ->
  safe c'.
Proof.
  intros (V & G & Hinv) Hh Hreact. apply handle_inv in Hh as (n & n' & out & Hi & E & ->).
  destruct (inv_nodes _ _ _ Hinv i n Hi) as [_ _ Hn _ _ _ _].
  destruct (run_reaction _ _ _ _ _ _ _ Hn E) as (n1 & o1 & o2 & -> & Hc & He & Hr).
  rewrite (absorb_prefix _ _ _ _ _ _ _ _ Hc He). apply (Hreact n); [done | done | | done].
  exists V, G. by eapply inv_set_calm.
Qed.

Lemma frozen_room n : state_inv (state n) -> frozen C n -> pendingConfigs (state n) < max_int64.
Proof. intros Hn (_ & Hq & _). rewrite (inv_queue _ Hn), Hq. done. Qed.

Lemma nodes_set i n c : nodes (set_node i n c) !! i = Some n.
Proof. apply lookup_insert_eq. Qed.

Lemma safe_event i ev rnd clock c c' :
  safe c -> admissible c (Event i ev rnd clock : action SM) ->
  handle i (run rnd clock ev) "" c = Some c' -> safe c'.
Proof.
  intros Hs Had Hh. eapply safe_run; [done | exact Hh |].
  intros n n1 n' out Hi He (V & G & Hinv) Hr.
  assert (forall fz, calm fz n1 n' out -> fz -> safe (absorb "" i n1 n' out (set_node i n1 c))) as Hcalm.
  { intros fz Hc Hfz. assert (calm True n1 n' out) as Hc1 by (destruct Hc; split; auto).
    exists V, G. rewrite absorb_calm by done. eapply inv_set_calm; [done | apply nodes_set | done]. }
  destruct ev; simpl in Had, Hr; try done; try (by apply (Hcalm _ Hr)).
  destruct Hr as [Hr|[Hr|Hr]]; [by apply (Hcalm _ Hr) | |].
  all: assert (currentTerm (state n1) < max_int64) as Hmax
    by (destruct He as (Et & _); simpl in Et; rewrite Et; by apply Had).
  - do 2 eexists. eapply inv_campaign; [done | apply nodes_set | done | done].
  - do 2 eexists. eapply inv_alone; [done | apply nodes_set | done | done].
Qed.

Lemma safe_request k rnd clock i args c c' :
  safe c -> requests c !! k = Some (i, args) ->
  handle i (run rnd clock (EvRequestVote args)) (rv_CandidateID args)
    (mkCluster (nodes c) (delete k (requests c)) (responses c) (winners c)) = Some c' -> safe c'.
Proof.
  intros Hs Hk Hh. set (c1 := mkCluster (nodes c) (delete k (requests c)) (responses c) (winners c)) in *.
  apply handle_inv in Hh as (n & n' & out & Hi & E & ->). destruct Hs as (V & G & Hinv).
  change (nodes c !! i = Some n) in Hi.
  destruct (inv_nodes _ _ _ Hinv i n Hi) as [_ _ Hn _ _ _ _].
  destruct (run_reaction _ _ _ _ _ _ _ Hn E) as (n1 & o1 & o2 & -> & Hc & He & Hr).
  rewrite (absorb_prefix _ _ _ _ _ _ _ _ Hc He).
  pose proof (inv_set_calm _ _ _ _ _ _ _ Hinv Hi Hc) as Hinv1.
  change (set_node i n1 c1) with (mkCluster (nodes (set_node i n1 c)) (delete k (requests (set_node i n1 c)))
    (responses (set_node i n1 c)) (winners (set_node i n1 c))).
  destruct Hr as [Hr|Hr].
  - do 2 eexists. eapply inv_grant; [exact Hinv1 | exact Hk | apply nodes_set | done].
  - exists V, G. eapply inv_refuse; [by apply inv_lose_request | apply nodes_set | done].
Qed.

Lemma safe_response k rnd clock i resp c c' :
  safe c -> responses c !! k = Some (i, resp) ->
  handle i (run rnd clock (EvVoteResponse resp)) ""
    (mkCluster (nodes c) (requests c) (delete k (responses c)) (winners c)) = Some c' -> safe c'.
Proof.
  intros Hs Hk Hh. set (c1 := mkCluster (nodes c) (requests c) (delete k (responses c)) (winners c)) in *.
  apply handle_inv in Hh as (n & n' & out & Hi & E & ->). destruct Hs as (V & G & Hinv).
  change (nodes c !! i = Some n) in Hi.
  destruct (inv_nodes _ _ _ Hinv i n Hi) as [_ _ Hn _ _ _ _].
  destruct (run_reaction _ _ _ _ _ _ _ Hn E) as (n1 & o1 & o2 & -> & Hc & He & Hr).
  rewrite (absorb_prefix _ _ _ _ _ _ _ _ Hc He).
  pose proof (inv_set_calm _ _ _ _ _ _ _ Hinv Hi Hc) as Hinv1.
  change (set_node i n1 c1) with (mkCluster (nodes (set_node i n1 c)) (requests (set_node i n1 c))
    (delete k (responses (set_node i n1 c))) (winners (set_node i n1 c))).
  destruct Hr as [Hr|Hr].
  - exists V, G. rewrite absorb_calm by done. eapply inv_set_calm; [by apply inv_lose_response | apply nodes_set | done].
  - do 2 eexists. eapply inv_count; [exact Hinv1 | exact Hk | apply nodes_set | done].
Qed.

(** A restart loads a term and a vote that agree with the history. *)
Lemma restart_node_ok V i n m tr n0 n' :
  node_ok V i n -> (forall j t x, V j t x -> 0 < t /\ x ∈ servers) ->
  New (config i) (Some m) (Some tr) (Some (storage n)) = inl n0 -> Start n0 = Some (n', None) ->
  node_ok V i n'.
Proof.
  intros [N1 N2 N3 N4 N5 N6 N7] Hpos En0 En'.
  destruct (Start_control _ _ _ _ _ _ En0 En') as (S1 & S2 & S3 & S4 & S5 & S6 & S7 & S8 & ps & Eps & S9). unfold loaded in S9.
  destruct (servers_configured i N1) as [Cid Cnd Cpe Cti].
  assert (allServers (NodeConfig.ID (config i) :: NodeConfig.Peers (config i)) = C) as EC.
  { apply allServers_perm. intros p. rewrite elem_of_cons, Cpe, Cid.
    destruct (decide (p = i)) as [->|]; tauto. }
  unfold control in S5, S6, S7, S8. simpl in S5, S6, S7, S8.
  injection S7 as Q1 Q2 Q3. injection S8 as T1 T2.
  assert (state_inv (state n')) as Hn'.
  { split; [done | by rewrite Q1, Q2 | by rewrite Q1 | by rewrite T1, T2]. }
  unfold stored_ok in N7. rewrite Eps in N7.
  assert (0 <= currentTerm (state n') /\ live_ok (V i) n') as [Ht Hl].
  { destruct ps as [ps|].
    - destruct (Z.ltb_spec 0 (CurrentTerm ps)) as [Hlt|Hle]; destruct S9 as [Et E]; unfold live_ok; rewrite ?Et.
      + split; [lia |]. by rewrite E.
      + split; [lia |]. intros t x HV. destruct (N7 t x HV), (Hpos _ _ _ HV). lia.
    - destruct S9 as [-> _]. split; [lia |]. intros t x HV. by destruct (N7 t x). }
  split; [done | done | done | | done | done |].
  - unfold frozen, static, control. simpl. by rewrite S5, S6, Q2, Q3, EC.
  - unfold stored_ok. rewrite S2, Eps. done.
Qed.

Lemma safe_step c c' : safe c -> step config c c' -> safe c'.
Proof.
  intros Hs (a & Had & Hp). destruct a; cbn [perform] in Hp.
  - by eapply safe_event.
  - destruct (requests c !! k) as [[i args]|] eqn:Hk; [simpl in Hp | done].
    eapply (safe_request k); [done | exact Hk | exact Hp].
  - destruct (responses c !! k) as [[i resp]|] eqn:Hk; [simpl in Hp | done].
    eapply (safe_response k); [done | exact Hk | exact Hp].
  - injection Hp as <-. destruct Hs as (V & G & Hinv). exists V, G. by apply inv_lose_request.
  - injection Hp as <-. destruct Hs as (V & G & Hinv). exists V, G. by apply inv_lose_response.
  - eapply safe_calm; [done | exact Hp |]. intros n n' out Hn Hf _ E.
    eapply calm_det; [| exact E]. apply appendEntriesResponse_calm; [done | by apply frozen_room].
  - eapply safe_calm; [done | exact Hp |]. intros n n' out Hn Hf Hi E.
    eapply calm_det; [| exact E]. apply installSnapshotResponse_calm; [done | by apply frozen_room |].
    destruct Had as [?|Hne]; [by left | right; by apply Hne].
  - eapply safe_calm; [done | exact Hp |]. intros n n' out Hn Hf _ E.
    eapply calm_det; [| exact E]. by apply handleApplyRequest_calm.
  - eapply safe_calm; [done | exact Hp |]. intros n n' out Hn Hf _ E.
    by eapply snapshotLoopInstall_calm.
  - destruct (nodes c !! i) as [n|] eqn:Hi; [cbn [mbind option_bind] in Hp | done].
    destruct (New (config i) (Some m) (Some tr) (Some (storage n))) as [n0|] eqn:En0; [| done].
    destruct (Start n0) as [[n' [err|]]|] eqn:En'; cbn [mbind option_bind] in Hp; try done.
    injection Hp as <-. destruct Hs as (V & G & Hinv). exists V, G.
    pose proof Hinv as [I1 I2 I3 I4 I5 I6 I7 I8 I9].
    pose proof (restart_node_ok V i n m tr n0 n' (I1 i n Hi) I2 En0 En') as Hok.
    split; try done; cbn [nodes].
    + intros j x. destruct (decide (i = j)) as [<-|Hj];
        [rewrite lookup_insert_eq | rewrite lookup_insert_ne by done; apply I1].
      intros E. by injection E as <-.
    + intros j x. destruct (decide (i = j)) as [<-|Hj];
        [rewrite lookup_insert_eq | rewrite lookup_insert_ne by done; apply I8].
      intros E Hr. injection E as <-.
      destruct (Start_control _ _ _ _ _ _ En0 En') as (_ & _ & _ & Hfol & _). congruence.
Qed.

Lemma initial_safe c : initial config servers c -> safe c.
Proof.
  intros (Hreq & Hresp & Hwin & Hnodes). exists (fun _ _ _ => False), (fun _ _ => []).
  assert (forall x t, tokens c (fun _ _ => []) x t = []) as Htok.
  { intros x t. unfold tokens. by rewrite Hreq, Hresp. }
  split; try done.
  - intros i n Hi. destruct (Hnodes i n Hi) as (Hin & m & tr & st & n0 & En0 & Hst & En).
    (* a start over an empty store is a restart of a node without votes *)
    destruct (Start_control _ _ _ _ _ _ En0 En) as (S1 & S2 & S3 & S4 & S5 & S6 & S7 & S8 & ps & Eps & S9). unfold loaded in S9.
    destruct (servers_configured i Hin) as [Cid Cnd Cpe Cti].
    assert (allServers (NodeConfig.ID (config i) :: NodeConfig.Peers (config i)) = C) as EC.
    { apply allServers_perm. intros p. rewrite elem_of_cons, Cpe, Cid.
      destruct (decide (p = i)) as [->|]; tauto. }
    unfold control in S5, S6, S7, S8. simpl in S5, S6, S7, S8.
    injection S7 as Q1 Q2 Q3. injection S8 as T1 T2.
    rewrite Hst in Eps. injection Eps as <-. destruct S9 as [Et _].
    split; [done | done | | | by rewrite Et | by intros ? ? | ].
    + split; [done | by rewrite Q1, Q2 | by rewrite Q1 | by rewrite T1, T2].
    + unfold frozen, static, control. simpl. by rewrite S5, S6, Q2, Q3, EC.
    + unfold stored_ok. rewrite S2, Hst. by intros ? ?.
  - intros x t. rewrite Htok. apply NoDup_nil_2.
  - intros x t p. rewrite Htok. by intros ?%not_elem_of_nil.
  - intros x t p. rewrite Hresp. by intros ?%not_elem_of_nil.
  - intros x t p. by intros ?%not_elem_of_nil.
  - intros t i. rewrite Hwin. by intros ?%not_elem_of_nil.
Qed.

Lemma reachable_safe c : reachable config servers c -> safe c.
Proof.
  intros (c0 & Hinit & Hsteps). apply initial_safe in Hinit.
  induction Hsteps as [|c0 c1 c2 Hstep _ IH]; [done |]. apply IH. by eapply safe_step.
Qed.
End safety.

(** ** Properties *)

(** C1. Election safety: at most one node wins the election of a term, in every
    cluster reached from fresh nodes by a sequence of reactions of its nodes.
    The servers are fixed, distinctly named and each other's peers. Votes may be
    lost, delayed and reordered; client commands, AppendEntries requests and
    responses, InstallSnapshot requests and successful responses may say
    anything and arrive at any time, except that log entries carry no
    configuration and that no server is added or removed; nodes crash between
    two reactions and restart from what they saved.

    Three things are excluded with which two nodes can win one term, or for which the
    theorem does not speak: an InstallSnapshot response that refuses in the very
    term its receiver leads in ([handleInstallSnapshotResponse_forgets_vote]:
    the vote is forgotten); two goroutines that persist at the same time
    ([stale_persist]: a saved vote is overwritten by an older state, and lost in
    a crash); and changes of the membership. A crash inside a reaction is not
    modelled. *)
Theorem election_safety {SM ST} `{StateMachine SM, Storage ST, GoPlatform} config servers
    (c : cluster SM ST) t i j :
  NoDup servers -> "" ∉ servers -> Z.of_nat (length servers) < max_int64 ->
  (forall x, x ∈ servers -> configured config servers x) -> reliable (ST := ST) ->
  reachable config servers c ->
  (t, i) ∈ winners c -> (t, j) ∈ winners c -> i = j.
Proof.
  intros H1' H2' H3' H4' H5' Hc Hi Hj.
  destruct (reachable_safe config servers H1' H2' H3' H4' H5' c Hc) as (V & G & Hinv).
  by eapply inv_safe.
Qed.
