(* ===== verification/Scenarios.v ===== *)
(** * Scenarios: executions of concrete clusters

    Three servers with the in-memory storage and a small state machine, driven
    by scripts that [vm_compute] runs through the handlers. They show the
    theorems' hypotheses to be satisfiable, and what the code does where it
    departs from the protocol. *)
From S2P Require Import Prelude GoFloat Metrics Types State Storage SnapshotOps ConfigChange Log.
From S2P Require Import Election ElectionTheorems Control Node Servers Handlers Durability Cluster ClusterTheorems.

#[local] Existing Instance amd64.

(** ** The cluster *)

Definition Cluster : Type := cluster Register MemoryStorage.t.
Definition Action : Type := action Register.

Definition genesis : Cluster :=
  mkCluster (list_to_map ((fun i => (i, started i)) <$> trio)) [] [] [].

Lemma started_ok i : i ∈ trio -> Start (new_node i) = Some (started i, None).
Proof.
  intros Hi. assert (forall o : option (RaftNode Register MemoryStorage.t * option startError),
    (fun p => p.2) <$> o = Some None ->
    o = Some (match o with Some (n, _) => n | None => new_node i end, None)) as Hobs.
  { intros [[n e]|] E; [by simplify_eq/= | done]. }
  unfold started. apply Hobs. unfold trio in Hi. rewrite !elem_of_cons, elem_of_nil in Hi.
  destruct Hi as [->|[->|[->|[]]]]; vm_compute; reflexivity.
Qed.

Lemma trio_nodup : NoDup trio.
Proof. apply (bool_decide_unpack _). vm_compute. exact I. Qed.

Lemma trio_named : "" ∉ trio.
Proof. apply (bool_decide_unpack _). vm_compute. exact I. Qed.

Lemma trio_configured i : i ∈ trio -> configured trio_config trio i.
Proof.
  intros Hi. split.
  - done.
  - apply NoDup_filter, trio_nodup.
  - intros p. simpl. rewrite list_elem_of_filter. tauto.
  - simpl. lia.
Qed.

Lemma genesis_initial : initial trio_config trio genesis.
Proof.
  do 3 (split; [done |]). intros i n Hi. unfold genesis in Hi. cbn [nodes] in Hi.
  apply elem_of_list_to_map_2 in Hi. apply list_elem_of_fmap in Hi as (j & E & Hj).
  injection E as -> ->. split; [done |].
  exists [], listening, MemoryStorage.NewMemoryStorage, (new_node j).
  split; [done |]. split; [done |]. by apply started_ok.
Qed.

(** ** Genuine executions

    In [step] the messages other than votes are arbitrary. An execution is
    genuine when each AppendEntries or InstallSnapshot message, and each
    response to one, is a message some handler has sent before. *)

(** The effects of an action. *)
Definition outputs (a : Action) (c : Cluster) : list effect :=
  let outs i (h : Handler Register MemoryStorage.t unit) :=
    match nodes c !! i with
    | Some n => match h n with Some (_, out, _) => out | None => [] end
    | None => []
    end in
  match a with
  | Event i ev rnd clock => outs i (run rnd clock ev)
  | DeliverRequest k rnd clock =>
      match requests c !! k with
      | Some (i, args) => outs i (run rnd clock (EvRequestVote args))
      | None => []
      end
  | DeliverResponse k rnd clock =>
      match responses c !! k with
      | Some (i, resp) => outs i (run rnd clock (EvVoteResponse resp))
      | None => []
      end
  | AppendResponse i resp => outs i (appendEntriesResponse resp)
  | SnapshotResponse i resp => outs i (installSnapshotResponse resp)
  | ClientRequest i ch req => outs i (handleApplyRequest ch req)
  | RestoreSnapshot i => outs i snapshotLoopInstall
  | _ => []
  end.

Definition genuine (mail : list effect) (a : Action) : bool :=
  match a with
  | Event i (EvAppendEntries args) _ _ => bool_decide (SendAppendEntries i args ∈ mail)
  | Event i (EvInstallSnapshot args) _ _ => bool_decide (SendInstallSnapshot i args ∈ mail)
  | AppendResponse _ resp => bool_decide (ReplyAppendEntries resp ∈ mail)
  | SnapshotResponse _ resp => bool_decide (ReplyInstallSnapshot resp ∈ mail)
  | _ => true
  end.

(** [admissible], decided. *)
Definition no_configb (es : list RaftLog) : bool :=
  forallb (fun e => negb (bool_decide (Type_ e = LogConfiguration))) es.

Definition admissibleb (c : Cluster) (a : Action) : bool :=
  match a with
  | Event i ev _ _ =>
      match ev with
      | EvRequestVote _ | EvVoteResponse _ => false
      | EvAppendEntries args => no_configb (ae_Entries args)
      | EvTimer => match nodes c !! i with
                   | Some n => currentTerm (state n) <? max_int64
                   | None => true
                   end
      | _ => true
      end
  | SnapshotResponse i resp => isr_Success resp
  | _ => true
  end.

Lemma admissibleb_spec c a : admissibleb c a = true -> admissible c a.
Proof.
  destruct a as [i ev rnd clock| | | | | |i resp| | |]; simpl; try done; [| by left].
  destruct ev; try done.
  - unfold no_configb. rewrite forallb_forall. intros He. apply Forall_forall. intros e Hin.
    apply list_elem_of_In in Hin. specialize (He e Hin).
    apply negb_true_iff, bool_decide_eq_false in He. done.
  - intros Ht n Hn. rewrite Hn in Ht. by apply Z.ltb_lt.
Qed.

(** A script chooses each action from the messages sent so far, the latest
    first. *)
Definition script := list (list effect -> option Action).

Fixpoint play (s : script) (mail : list effect) (c : Cluster) : option (list effect * Cluster) :=
  match s with
  | [] => Some (mail, c)
  | choose :: s' =>
      a ← choose mail;
      if admissibleb c a && genuine mail a then
        c' ← perform trio_config a c;
        play s' (rev (outputs a c) ++ mail) c'
      else None
  end.

(** Genuine executions, with the effects emitted so far. *)
Inductive genuinely : list effect -> Cluster -> list effect -> Cluster -> Prop :=
| genuinely_done mail c : genuinely mail c mail c
| genuinely_step mail mail' a c c1 c2 :
    admissible c a -> genuine mail a = true -> perform trio_config a c = Some c1 ->
    genuinely (rev (outputs a c) ++ mail) c1 mail' c2 -> genuinely mail c mail' c2.

Lemma play_genuine s mail c mail' c' : play s mail c = Some (mail', c') -> genuinely mail c mail' c'.
Proof.
  revert mail c. induction s as [|choose s IH]; intros mail c; simpl; [intros; simplify_eq; constructor |].
  destruct (choose mail) as [a|]; simpl; [| done].
  destruct (admissibleb c a && genuine mail a) eqn:E; [| done].
  apply andb_true_iff in E as [Ea Eg]. destruct (perform trio_config a c) as [c1|] eqn:E1; simpl; [| done].
  intros Hp. eapply genuinely_step; [by apply admissibleb_spec | done | exact E1 | by apply IH].
Qed.

(** Genuine executions are executions. *)
Lemma genuinely_steps mail c mail' c' : genuinely mail c mail' c' -> rtc (step trio_config) c c'.
Proof.
  induction 1 as [|mail mail' a c c1 c2 Ha Hg Hp _ IH]; [done |].
  eapply rtc_l; [| exact IH]. by exists a.
Qed.

(** The end of a genuine execution of the three servers. *)
Definition outcome (mail : list effect) (c : Cluster) : Prop := genuinely [] genesis mail c.

Lemma outcome_reachable mail c : outcome mail c -> reachable trio_config trio c.
Proof. intros Hc. exists genesis. split; [apply genesis_initial | by eapply genuinely_steps]. Qed.

(** Observing the end of a script. *)
Lemma play_observe {A} (s : script) (f : list effect -> Cluster -> A) x :
  (fun p => f p.1 p.2) <$> play s [] genesis = Some x -> exists mail c, outcome mail c /\ f mail c = x.
Proof.
  intros (mail & c & E & Hx)%observe. exists mail, c. split; [by eapply play_genuine | done].
Qed.

(** ** Script steps *)

Definition no_clock : nat -> Z := fun _ => 0.
Definition now (a : Action) : list effect -> option Action := fun _ => Some a.
Definition tick (i : ServerID) := now (Event i EvTimer 0 no_clock).
Definition connect (i : ServerID) := now (Event i EvConnected 0 no_clock).
Definition ask := now (DeliverRequest 0 0 no_clock).
Definition answer := now (DeliverResponse 0 0 no_clock).

Definition submit (i : ServerID) (ch : chan) (command : list byte) :=
  now (ClientRequest i ch (applyRequest "client" 1 command (100 + ch)%nat)).

(** Deliver the latest AppendEntries from [leader] to [i], and [i]'s latest
    response to [leader]. *)
Definition deliver (leader i : ServerID) : list effect -> option Action := fun mail =>
  args ← head (omap (fun e => match e with
    | SendAppendEntries p args => if bool_decide (p = i /\ ae_LeaderID args = leader) then Some args else None
    | _ => None
    end) mail);
  Some (Event i (EvAppendEntries args) 0 no_clock).

Definition acknowledge (leader i : ServerID) : list effect -> option Action := fun mail =>
  resp ← head (omap (fun e => match e with
    | ReplyAppendEntries resp => if bool_decide (aer_ID resp = i) then Some resp else None
    | _ => None
    end) mail);
  Some (AppendResponse leader resp).

(** n1 is elected in term 1 by n2, *)
Definition elect_n1 : script := [connect "n1"; tick "n1"; ask; answer].

(** n3 campaigns in term 1 and, after a timeout, in term 2; n1 refuses and n2
    grants. *)
Definition elect_n3 : script := elect_n1 ++ [connect "n3"; tick "n3"; tick "n3"; ask; ask; answer].

Definition X : list byte := [Byte.x58].
Definition Y : list byte := [Byte.x59].

(** Each leader of term 2 replicates a command of its own through n2. *)
Definition two_commits : script :=
  elect_n3 ++
  [submit "n1" 1%nat X; deliver "n1" "n2"; acknowledge "n1" "n2"; tick "n1"; tick "n1";
   submit "n3" 2%nat Y; deliver "n3" "n2"; acknowledge "n3" "n2"; tick "n3"; tick "n3"].

(** n1 appends X and sends it to nobody; n3, elected in term 2, replaces it by
    Y on n1 and n2; n1 is elected again, in term 3, and commits. *)
Definition overwritten : script :=
  elect_n1 ++ [submit "n1" 1%nat X] ++
  [connect "n3"; tick "n3"; tick "n3"; ask; ask; answer; submit "n3" 2%nat Y;
   deliver "n3" "n1"; deliver "n3" "n2";
   tick "n1"; ask; answer; deliver "n1" "n2"; acknowledge "n1" "n2"; tick "n1"; tick "n1"].

(** ** Properties *)

Lemma election_safety_witness :
  exists c, reachable trio_config trio c /\ (1, "n1") ∈ winners c /\
    forall j, (1, j) ∈ winners c -> j = "n1".
Proof.
  destruct (play_observe elect_n1 (fun _ => winners) [(1, "n1")] ltac:(vm_compute; reflexivity))
    as (mail & c & Hc & Hw).
  pose proof (outcome_reachable _ _ Hc) as Hr.
  assert ((1, "n1") ∈ winners c) as Hin by (rewrite Hw; left).
  exists c. split; [exact Hr |]. split; [exact Hin |]. intros j Hj.
  exact (election_safety trio_config trio c 1 j "n1" trio_nodup trio_named ltac:(vm_compute; reflexivity)
    trio_configured memory_reliable Hr Hj Hin).
Defined.

(** What is observed of server [i]. *)
Definition glance (i : ServerID) (c : Cluster) :=
  n ← nodes c !! i;
  Some (role (state n), currentTerm (state n), commitIndex (state n), lastApplied (state n),
        log_at (state n) 1, sm n).

Lemma glance_Some i c r t ci la e m :
  glance i c = Some (r, t, ci, la, e, m) ->
  exists n, nodes c !! i = Some n /\ role (state n) = r /\ currentTerm (state n) = t /\
    commitIndex (state n) = ci /\ lastApplied (state n) = la /\ log_at (state n) 1 = e /\ sm n = m.
Proof. unfold glance. destruct (nodes c !! i) as [n|]; simpl; intros; simplify_eq. by exists n. Qed.

(** Two leaders in one term. Winning is unique, leading is not: in a genuine
    execution of three servers, n1, elected in term 1, refuses a vote request
    of term 2, adopts the term and keeps leading, while n3 wins term 2 with the
    vote of n2. *)
Theorem two_leaders_in_one_term :
  exists mail c n m, outcome mail c /\ reachable trio_config trio c /\
    nodes c !! "n1" = Some n /\ nodes c !! "n3" = Some m /\
    role (state n) = Leader /\ role (state m) = Leader /\
    currentTerm (state n) = 2 /\ currentTerm (state m) = 2.
Proof.
  destruct (play_observe elect_n3 (fun _ c => (glance "n1" c, glance "n3" c)) _
              ltac:(vm_compute; reflexivity)) as (mail & c & Hc & Hg).
  injection Hg as H1 H3.
  apply glance_Some in H1 as (n & Hn & Rn & Tn & _). apply glance_Some in H3 as (m & Hm & Rm & Tm & _).
  exists mail, c, n, m. split; [done |]. split; [by eapply outcome_reachable | done].
Qed.

(** C2. Two different entries committed and applied at one index. The two
    leaders of term 2 each replicate a command at index 1 through n2, which
    accepts both in turn: n1 commits and applies one, n3 the other. Every
    message of the execution is one a handler has sent. *)
Theorem committed_entries_diverge :
  exists mail c n m x y, outcome mail c /\ reachable trio_config trio c /\
    nodes c !! "n1" = Some n /\ nodes c !! "n3" = Some m /\
    commitIndex (state n) = 1 /\ commitIndex (state m) = 1 /\
    lastApplied (state n) = 1 /\ lastApplied (state m) = 1 /\
    log_at (state n) 1 = Some x /\ log_at (state m) 1 = Some y /\
    Term x = Term y /\ Data x <> Data y /\ sm n = X /\ sm m = Y.
Proof.
  destruct (play_observe two_commits (fun _ c => (glance "n1" c, glance "n3" c)) _
              ltac:(vm_compute; reflexivity)) as (mail & c & Hc & Hg).
  injection Hg as H1 H3.
  apply glance_Some in H1 as (n & Hn & _ & _ & Cn & An & Xn & Sn).
  apply glance_Some in H3 as (m & Hm & _ & _ & Cm & Am & Xm & Sm).
  exists mail, c, n, m. do 2 eexists. split; [done |]. split; [by eapply outcome_reachable |].
  do 6 (split; [done |]). split; [exact Xn |]. split; [exact Xm |]. done.
Qed.

(** What is lost, and who is told what. *)
Definition nowhere (command : list byte) (c : Cluster) : Prop :=
  map_Forall (fun _ n => sm n <> command /\ Forall (fun e => Data e <> command) (live (state n))) (nodes c).

#[export] Instance nowhere_dec command c : Decision (nowhere command c).
Proof. unfold nowhere. apply _. Defined.

(** C14. A lost command reported as applied. The channel a client waits on is
    found by the log index alone: in the execution [overwritten] n1 accepts X at
    index 1, a later leader replaces it there, and n1, elected again, commits
    and applies the other entry and tells the client of X that X was applied. X
    is then in no log and in no state machine. *)
Theorem lost_command_reported_applied :
  exists mail c, play overwritten [] genesis = Some (mail, c) /\ outcome mail c /\
    AwaitApplied 1%nat 101%nat ∈ mail /\ SignalApplied 1%nat ∈ mail /\ nowhere X c.
Proof.
  pose (check (mail : list effect) (c : Cluster) :=
    bool_decide (AwaitApplied 1%nat 101%nat ∈ mail /\ SignalApplied 1%nat ∈ mail /\ nowhere X c)).
  destruct (observe (play overwritten [] genesis) check true
    ltac:(vm_compute; reflexivity)) as (mail & c & E & Hobs).
  apply bool_decide_eq_true in Hobs. exists mail, c. split; [done |].
  split; [by eapply play_genuine | done].
Qed.
