(* ===== verification/Json.v ===== *)
(** * Json: what the program uses of the standard library's encoding/json

    The key-value store encodes its operations and its snapshots with
    [json.Marshal] and reads them back with [json.Unmarshal]. Both are Go's
    standard library (version 1.21, that of go.mod), defined here: UTF-8 as
    unicode/utf8 has it, string literals with their escapes, and the grammar of
    JSON texts. A Go string is its bytes. *)
From S2P Require Import Prelude Sha256 Types.

Open Scope Z_scope.

(** ** UTF-8 *)

Definition RuneError : Z := 0xFFFD.

Definition within (lo hi z : Z) : bool := (lo <=? z) && (z <=? hi).

(** The rune at the front of a string and its size; an ill-formed sequence is
    [RuneError] of size 1. *)
Definition DecodeRune (s : list byte) : Z * nat :=
  match s with
  | [] => (RuneError, 0%nat)
  | b0 :: s1 =>
      let z0 := byte_to_Z b0 in
      if z0 <? 0x80 then (z0, 1%nat)
      else if within 0xC2 0xDF z0 then
        match s1 with
        | b1 :: _ =>
            let z1 := byte_to_Z b1 in
            if within 0x80 0xBF z1 then ((z0 - 0xC0) * 64 + (z1 - 0x80), 2%nat) else (RuneError, 1%nat)
        | _ => (RuneError, 1%nat)
        end
      else if within 0xE0 0xEF z0 then
        match s1 with
        | b1 :: b2 :: _ =>
            let z1 := byte_to_Z b1 in
            let z2 := byte_to_Z b2 in
            if within (if z0 =? 0xE0 then 0xA0 else 0x80) (if z0 =? 0xED then 0x9F else 0xBF) z1
                 && within 0x80 0xBF z2
            then ((z0 - 0xE0) * 4096 + (z1 - 0x80) * 64 + (z2 - 0x80), 3%nat) else (RuneError, 1%nat)
        | _ => (RuneError, 1%nat)
        end
      else if within 0xF0 0xF4 z0 then
        match s1 with
        | b1 :: b2 :: b3 :: _ =>
            let z1 := byte_to_Z b1 in
            let z2 := byte_to_Z b2 in
            let z3 := byte_to_Z b3 in
            if within (if z0 =? 0xF0 then 0x90 else 0x80) (if z0 =? 0xF4 then 0x8F else 0xBF) z1
                 && within 0x80 0xBF z2 && within 0x80 0xBF z3
            then ((z0 - 0xF0) * 262144 + (z1 - 0x80) * 4096 + (z2 - 0x80) * 64 + (z3 - 0x80), 4%nat)
            else (RuneError, 1%nat)
        | _ => (RuneError, 1%nat)
        end
      else (RuneError, 1%nat)
  end.

Definition surrogate (r : Z) : bool := within 0xD800 0xDFFF r.

(** Runes that are no Unicode scalar value are encoded as [RuneError]. *)
Definition EncodeRune (r : Z) : list byte :=
  if within 0 0x7F r then [byte_of_Z r]
  else if within 0 0x7FF r then [byte_of_Z (0xC0 + r / 64); byte_of_Z (0x80 + r mod 64)]
  else if within 0 0xFFFF r && negb (surrogate r) then
    [byte_of_Z (0xE0 + r / 4096); byte_of_Z (0x80 + r / 64 mod 64); byte_of_Z (0x80 + r mod 64)]
  else if within 0x10000 0x10FFFF r then
    [byte_of_Z (0xF0 + r / 262144); byte_of_Z (0x80 + r / 4096 mod 64);
     byte_of_Z (0x80 + r / 64 mod 64); byte_of_Z (0x80 + r mod 64)]
  else [Byte.xef; Byte.xbf; Byte.xbd].

(** A string cut into runes, each with its bytes; [skip] bytes belong to the
    rune before. *)
Fixpoint pieces (skip : nat) (s : list byte) : list (Z * list byte) :=
  match s with
  | [] => []
  | b :: s' =>
      match skip with
      | S k => pieces k s'
      | O => let '(r, size) := DecodeRune s in (r, take size s) :: pieces (size - 1) s'
      end
  end.

Definition runes (s : list byte) : list Z := (pieces 0 s).*1.

Definition encode (rs : list Z) : list byte := mjoin (EncodeRune <$> rs).

(** ** String literals *)

Definition hex_digit (z : Z) : byte := byte_of_Z (if z <? 10 then 48 + z else 87 + z).

(** Bytes below 0x80 that stand for themselves; HTML's specials do not. *)
Definition safe (b : byte) : bool :=
  (0x20 <=? byte_to_Z b) &&
  negb (bool_decide (b ∈ [Byte.x22; Byte.x5c; Byte.x3c; Byte.x3e; Byte.x26])).

(** What the encoder writes for one rune of a string. *)
Definition escape (p : Z * list byte) : list byte :=
  let '(r, raw) := p in
  if r <? 0x80 then
    match raw with
    | b :: _ =>
        if safe b then [b]
        else
          match b with
          | Byte.x22 | Byte.x5c => [Byte.x5c; b]
          | Byte.x0a => [Byte.x5c; Byte.x6e]
          | Byte.x0d => [Byte.x5c; Byte.x72]
          | Byte.x09 => [Byte.x5c; Byte.x74]
          | _ => [Byte.x5c; Byte.x75; Byte.x30; Byte.x30; hex_digit (byte_to_Z b / 16); hex_digit (byte_to_Z b mod 16)]
          end
    | [] => []
    end
  else if (r =? RuneError) && (length raw =? 1)%nat then
    [Byte.x5c; Byte.x75; Byte.x66; Byte.x66; Byte.x66; Byte.x64]
  else if (r =? 0x2028) || (r =? 0x2029) then
    [Byte.x5c; Byte.x75; Byte.x32; Byte.x30; Byte.x32; hex_digit (r mod 16)]
  else raw.

Definition quote (s : string) : list byte :=
  Byte.x22 :: mjoin (escape <$> pieces 0 (String.list_byte_of_string s)) ++ [Byte.x22].

Definition hex_value (b : byte) : option Z :=
  let z := byte_to_Z b in
  if within 48 57 z then Some (z - 48)
  else if within 97 102 z then Some (z - 87)
  else if within 65 70 z then Some (z - 55)
  else None.

(** The code unit of an escape [\uXXXX] at the front, or -1. *)
Definition getu4 (s : list byte) : Z :=
  match s with
  | Byte.x5c :: Byte.x75 :: a :: b :: c :: d :: _ =>
      match hex_value a, hex_value b, hex_value c, hex_value d with
      | Some a, Some b, Some c, Some d => ((a * 16 + b) * 16 + c) * 16 + d
      | _, _, _, _ => -1
      end
  | _ => -1
  end.

(** [utf16.DecodeRune]. *)
Definition decode_pair (r1 r2 : Z) : Z :=
  if within 0xD800 0xDBFF r1 && within 0xDC00 0xDFFF r2
  then (r1 - 0xD800) * 1024 + (r2 - 0xDC00) + 0x10000 else RuneError.

(** The next rune of a literal and the bytes it takes; control characters and
    unknown escapes are errors. *)
Definition literal_rune (s : list byte) : option (Z * nat) :=
  match s with
  | [] => None
  | Byte.x5c :: s' =>
      match s' with
      | Byte.x22 :: _ => Some (0x22, 2%nat)
      | Byte.x5c :: _ => Some (0x5C, 2%nat)
      | Byte.x2f :: _ => Some (0x2F, 2%nat)
      | Byte.x62 :: _ => Some (8, 2%nat)
      | Byte.x66 :: _ => Some (12, 2%nat)
      | Byte.x6e :: _ => Some (10, 2%nat)
      | Byte.x72 :: _ => Some (13, 2%nat)
      | Byte.x74 :: _ => Some (9, 2%nat)
      | Byte.x75 :: _ =>
          let r := getu4 s in
          if r <? 0 then None
          else if surrogate r then
            let r' := decode_pair r (getu4 (drop 6 s)) in
            if r' =? RuneError then Some (RuneError, 6%nat) else Some (r', 12%nat)
          else Some (r, 6%nat)
      | _ => None
      end
  | b :: _ => if byte_to_Z b <? 0x20 then None else Some (DecodeRune s)
  end.

(** The runes up to the closing quote, and what follows it. *)
Fixpoint literal (skip : nat) (s : list byte) : option (list Z * list byte) :=
  match s with
  | [] => None
  | b :: s' =>
      match skip with
      | S k => literal k s'
      | O =>
          if bool_decide (b = Byte.x22) then Some ([], s')
          else
            '(r, size) ← literal_rune s;
            '(rs, rest) ← literal (size - 1) s';
            Some (r :: rs, rest)
      end
  end.

(** ** Texts *)

(** Numbers are not looked into: no field of the program is a number. *)
Inductive json :=
| JNull
| JBool (b : bool)
| JNum
| JStr (s : string)
| JArr (l : list json)
| JObj (fields : list (string * json)).

Definition is_space (b : byte) : bool := bool_decide (b ∈ [Byte.x20; Byte.x09; Byte.x0d; Byte.x0a]).

Fixpoint skip_space (s : list byte) : list byte :=
  match s with
  | b :: s' => if is_space b then skip_space s' else s
  | [] => []
  end.

Definition is_digit (b : byte) : bool := within 48 57 (byte_to_Z b).

Fixpoint skip_digits (s : list byte) : list byte :=
  match s with
  | b :: s' => if is_digit b then skip_digits s' else s
  | [] => []
  end.

Definition some_digits (s : list byte) : option (list byte) :=
  match s with b :: s' => if is_digit b then Some (skip_digits s') else None | [] => None end.

(** What follows a number. *)
Definition number (s : list byte) : option (list byte) :=
  let s := match s with Byte.x2d :: s' => s' | _ => s end in
  s ← match s with Byte.x30 :: s' => Some s' | _ => some_digits s end;
  s ← match s with Byte.x2e :: s' => some_digits s' | _ => Some s end;
  match s with
  | Byte.x65 :: s' | Byte.x45 :: s' =>
      some_digits (match s' with Byte.x2b :: s'' | Byte.x2d :: s'' => s'' | _ => s' end)
  | _ => Some s
  end.

Fixpoint strip (prefix s : list byte) : option (list byte) :=
  match prefix, s with
  | [], _ => Some s
  | p :: prefix', b :: s' => if bool_decide (p = b) then strip prefix' s' else None
  | _, [] => None
  end.

(** What follows the given byte, when the text begins with it. *)
Definition after (b : byte) (s : list byte) : option (list byte) := strip [b] s.

(** What the parser is inside of. *)
Inductive mode := MValue | MElements (acc : list json) | MMembers (acc : list (string * json)).

Definition go_string (rs : list Z) : string := String.string_of_list_byte (encode rs).

(** One value (or the rest of an array or object whose contents so far are in
    the mode), with what follows it. [depth] is how deep values may still be
    nested. *)
Fixpoint parse (fuel : nat) (m : mode) (depth : Z) (s : list byte) : option (json * list byte) :=
  match fuel with
  | O => None
  | S fuel =>
      match m with
      | MValue =>
          match s with
          | Byte.x22 :: s => '(rs, s) ← literal 0 s; Some (JStr (go_string rs), s)
          | Byte.x5b :: s =>
              if depth <? 1 then None
              else
                match after Byte.x5d (skip_space s) with
                | Some s => Some (JArr [], s)
                | None => parse fuel (MElements []) (depth - 1) (skip_space s)
                end
          | Byte.x7b :: s =>
              if depth <? 1 then None
              else
                match after Byte.x7d (skip_space s) with
                | Some s => Some (JObj [], s)
                | None => parse fuel (MMembers []) (depth - 1) (skip_space s)
                end
          | Byte.x6e :: _ => s ← strip [Byte.x6e; Byte.x75; Byte.x6c; Byte.x6c] s; Some (JNull, s)
          | Byte.x74 :: _ => s ← strip [Byte.x74; Byte.x72; Byte.x75; Byte.x65] s; Some (JBool true, s)
          | Byte.x66 :: _ => s ← strip [Byte.x66; Byte.x61; Byte.x6c; Byte.x73; Byte.x65] s; Some (JBool false, s)
          | _ => s ← number s; Some (JNum, s)
          end
      | MElements acc =>
          '(v, s) ← parse fuel MValue depth s;
          match after Byte.x2c (skip_space s) with
          | Some s => parse fuel (MElements (v :: acc)) depth (skip_space s)
          | None => s ← after Byte.x5d (skip_space s); Some (JArr (rev (v :: acc)), s)
          end
      | MMembers acc =>
          s ← after Byte.x22 s;
          '(rs, s) ← literal 0 s;
          s ← after Byte.x3a (skip_space s);
          '(v, s) ← parse fuel MValue depth (skip_space s);
          match after Byte.x2c (skip_space s) with
          | Some s => parse fuel (MMembers ((go_string rs, v) :: acc)) depth (skip_space s)
          | None => s ← after Byte.x7d (skip_space s); Some (JObj (rev ((go_string rs, v) :: acc)), s)
          end
      end
  end.

Definition maxNestingDepth : Z := 10000.

(** A whole text. *)
Definition document (s : list byte) : option json :=
  '(v, rest) ← parse (2 * length s + 2) MValue maxNestingDepth (skip_space s);
  match skip_space rest with [] => Some v | _ => None end.

(** An object whose members are strings, as [Marshal] writes it. *)
Definition member (kv : string * string) : list byte := quote kv.1 ++ Byte.x3a :: quote kv.2.

Fixpoint members (l : list (string * string)) : list byte :=
  match l with
  | [] => [Byte.x7d]
  | kv :: l' => Byte.x2c :: member kv ++ members l'
  end.

Definition object (l : list (string * string)) : list byte :=
  Byte.x7b :: match l with [] => [Byte.x7d] | kv :: l' => member kv ++ members l' end.

(** ** Lemmas: bytes *)

Lemma byte_of_to_Z b : byte_of_Z (byte_to_Z b) = b.
Proof. by destruct b. Qed.

Lemma byte_to_Z_range b : 0 <= byte_to_Z b < 256.
Proof. unfold byte_to_Z. pose proof (Byte.to_N_bounded b). lia. Qed.

(** Bytes are equal when their values are. *)
Lemma byte_of_Z_is z b : z = byte_to_Z b -> byte_of_Z z = b.
Proof. intros ->. apply byte_of_to_Z. Qed.

Lemma within_spec lo hi z : within lo hi z = true <-> lo <= z <= hi.
Proof. unfold within. rewrite andb_true_iff, !Z.leb_le. done. Qed.

Lemma within_out lo hi z : (z < lo \/ hi < z) -> within lo hi z = false.
Proof. intros Hz. destruct (within lo hi z) eqn:E; [| done]. apply within_spec in E. lia. Qed.

Lemma within_false lo hi z : within lo hi z = false -> z < lo \/ hi < z.
Proof. unfold within. rewrite andb_false_iff, !Z.leb_gt. lia. Qed.

(** ** Lemmas: runes *)

(** A rune as it stands in a string: ill-formed, or the encoding of the rune,
    whatever follows. *)
Definition well_formed (p : Z * list byte) : Prop :=
  p.2 <> [] /\ EncodeRune p.1 = p.2 /\ forall t, DecodeRune (p.2 ++ t) = (p.1, length p.2).

Definition ill_formed (p : Z * list byte) : Prop :=
  exists b, p = (RuneError, [b]) /\ 0x80 <= byte_to_Z b.

(** [bytewise] proves that an encoding has the given bytes. *)
Ltac bytewise :=
  match goal with
  | |- [_] = [_] => f_equal; apply byte_of_Z_is; Z.to_euclidean_division_equations; lia
  | |- _ :: _ = _ :: _ => f_equal; [apply byte_of_Z_is; Z.to_euclidean_division_equations; lia | bytewise]
  end.

Lemma DecodeRune_piece s :
  s <> [] -> let '(r, n) := DecodeRune s in
  (1 <= n <= length s)%nat /\ (well_formed (r, take n s) \/ ill_formed (r, take n s)).
Proof.
  destruct s as [|b0 s]; [done |]. intros _. pose proof (byte_to_Z_range b0) as R0.
  assert (0x80 <= byte_to_Z b0 -> (1 <= 1 <= length (b0 :: s))%nat /\
    (well_formed (RuneError, take 1 (b0 :: s)) \/ ill_formed (RuneError, take 1 (b0 :: s)))) as Hill.
  { intros Hb. split; [simpl; lia |]. right. by exists b0. }
  unfold DecodeRune. destruct (Z.ltb_spec (byte_to_Z b0) 0x80) as [H0|H0].
  { split; [simpl; lia |]. left. split; [done |]. cbn [firstn fst snd]; rewrite ?take_0. split.
    - unfold EncodeRune. rewrite (proj2 (within_spec _ _ _)) by lia. bytewise.
    - intros t. unfold DecodeRune. cbn [app]. by rewrite (proj2 (Z.ltb_lt _ _)) by lia. }
  destruct (within 0xC2 0xDF (byte_to_Z b0)) eqn:W2.
  { destruct s as [|b1 s]; [by apply Hill |]. pose proof (byte_to_Z_range b1).
    destruct (within 0x80 0xBF (byte_to_Z b1)) eqn:W; [| by apply Hill].
    pose proof W2 as V2%within_spec. pose proof W as V%within_spec.
    split; [simpl; lia |]. left. split; [done |]. cbn [firstn fst snd]; rewrite ?take_0. split.
    - unfold EncodeRune. rewrite within_out by lia. rewrite (proj2 (within_spec _ _ _)) by lia. bytewise.
    - intros t. unfold DecodeRune. cbn [app]. rewrite (proj2 (Z.ltb_ge _ _)) by lia. by rewrite W2, W. }
  destruct (within 0xE0 0xEF (byte_to_Z b0)) eqn:W3.
  { destruct s as [|b1 [|b2 s]]; [by apply Hill | by apply Hill |].
    destruct (within (if byte_to_Z b0 =? 0xE0 then 0xA0 else 0x80) (if byte_to_Z b0 =? 0xED then 0x9F else 0xBF)
                (byte_to_Z b1) && within 0x80 0xBF (byte_to_Z b2)) eqn:W; [| by apply Hill].
    pose proof W3 as V3%within_spec. pose proof W as [V1%within_spec V4%within_spec]%andb_true_iff.
    split; [simpl; lia |]. left. split; [done |]. cbn [firstn fst snd]; rewrite ?take_0. split.
    - unfold EncodeRune, surrogate.
      destruct (Z.eqb_spec (byte_to_Z b0) 0xE0), (Z.eqb_spec (byte_to_Z b0) 0xED); try lia;
        rewrite (within_out 0 0x7F), (within_out 0 0x7FF), (proj2 (within_spec 0 0xFFFF _)),
          (within_out 0xD800 0xDFFF) by lia; cbn [negb andb]; bytewise.
    - intros t. unfold DecodeRune. cbn [app]. rewrite (proj2 (Z.ltb_ge _ _)) by lia. by rewrite W2, W3, W. }
  destruct (within 0xF0 0xF4 (byte_to_Z b0)) eqn:W4; [| by apply Hill].
  destruct s as [|b1 [|b2 [|b3 s]]]; [by apply Hill | by apply Hill | by apply Hill |].
  destruct (within (if byte_to_Z b0 =? 0xF0 then 0x90 else 0x80) (if byte_to_Z b0 =? 0xF4 then 0x8F else 0xBF)
              (byte_to_Z b1) && within 0x80 0xBF (byte_to_Z b2) && within 0x80 0xBF (byte_to_Z b3)) eqn:W;
    [| by apply Hill].
  pose proof W4 as V4%within_spec.
  pose proof W as [[V1%within_spec V2%within_spec]%andb_true_iff V3%within_spec]%andb_true_iff.
  split; [simpl; lia |]. left. split; [done |]. cbn [firstn fst snd]; rewrite ?take_0. split.
  - unfold EncodeRune, surrogate.
    destruct (Z.eqb_spec (byte_to_Z b0) 0xF0), (Z.eqb_spec (byte_to_Z b0) 0xF4); try lia;
      rewrite (within_out 0 0x7F), (within_out 0 0x7FF), (within_out 0 0xFFFF),
        (proj2 (within_spec 0x10000 0x10FFFF _)) by lia; cbn [negb andb]; bytewise.
  - intros t. unfold DecodeRune. cbn [app]. rewrite (proj2 (Z.ltb_ge _ _)) by lia. by rewrite W2, W3, W4, W.
Qed.

(** ** Lemmas: cutting a string into runes *)

Lemma pieces_skip x t : pieces (length x) (x ++ t) = pieces 0 t.
Proof. induction x as [|b x IH]; [by destruct t | exact IH]. Qed.

Lemma pieces_cons r x t :
  DecodeRune (x ++ t) = (r, length x) -> x <> [] -> pieces 0 (x ++ t) = (r, x) :: pieces 0 t.
Proof.
  intros E Hx. destruct x as [|b x]; [done |]. cbn [app pieces] in *. rewrite E.
  change (b :: x ++ t) with ((b :: x) ++ t). rewrite take_app_length. f_equal. simpl.
  rewrite Nat.sub_0_r. apply pieces_skip.
Qed.

Definition piece (p : Z * list byte) : Prop := well_formed p \/ ill_formed p.

(** Every string is its pieces. *)
Lemma pieces_spec s : Forall piece (pieces 0 s) /\ mjoin (pieces 0 s).*2 = s.
Proof.
  remember (length s) as n eqn:Hn. revert s Hn. induction n as [n IH] using lt_wf_ind. intros s ->.
  destruct s as [|b s0]; [by split |]. set (s := b :: s0) in *.
  pose proof (DecodeRune_piece s ltac:(done)) as Hp. destruct (DecodeRune s) as [r k] eqn:E.
  destruct Hp as [Hk Hp].
  assert (pieces 0 s = (r, take k s) :: pieces 0 (drop k s)) as ->.
  { rewrite <- (take_drop k s) at 1. apply pieces_cons.
    - rewrite take_drop, E, length_take. f_equal. lia.
    - intros E0. apply (f_equal length) in E0. rewrite length_take in E0. simpl in E0. lia. }
  destruct (IH (length (drop k s))) with (s := drop k s) as [IHf IHj]; [rewrite length_drop; lia | done |].
  split; [by constructor |]. change (take k s ++ mjoin (pieces 0 (drop k s)).*2 = s).
  by rewrite IHj, take_drop.
Qed.

(** Strings without ill-formed runes. *)
Definition to_valid (s : list byte) : list byte := encode (runes s).

Definition valid (s : list byte) : Prop := to_valid s = s.

Lemma byte_value z : 0 <= z < 256 -> byte_to_Z (byte_of_Z z) = z.
Proof. intros Hz. rewrite byte_to_of_Z. by apply Z.mod_small. Qed.

(** The encoding of any rune is well formed. *)
Lemma EncodeRune_piece r : exists r', well_formed (r', EncodeRune r).
Proof.
  enough (exists r', EncodeRune r <> [] /\ DecodeRune (EncodeRune r) = (r', length (EncodeRune r)) /\
    (r' <> RuneError \/ length (EncodeRune r) <> 1%nat)) as (r' & Hne & E & Hok).
  { pose proof (DecodeRune_piece (EncodeRune r) Hne) as Hp. rewrite E in Hp. destruct Hp as [_ Hp].
    rewrite take_ge in Hp by done. exists r'. destruct Hp as [Hp|(b & [= -> Eb] & _)]; [done |].
    destruct Hok as [|Hok]; [done |]. by rewrite Eb in Hok. }
  unfold EncodeRune. destruct (within 0 0x7F r) eqn:W1.
  { apply within_spec in W1. exists r. split; [done |]. unfold DecodeRune. rewrite byte_value by lia.
    rewrite (proj2 (Z.ltb_lt _ _)) by lia. split; [done |]. left. unfold RuneError. lia. }
  pose proof (within_false _ _ _ W1) as V1. destruct (within 0 0x7FF r) eqn:W2.
  { apply within_spec in W2. eexists. split; [done |]. split; [| by right]. unfold DecodeRune. cbv zeta.
    rewrite !byte_value by (Z.to_euclidean_division_equations; lia).
    rewrite (proj2 (Z.ltb_ge _ _)) by (Z.to_euclidean_division_equations; lia).
    by rewrite !(proj2 (within_spec _ _ _)) by (Z.to_euclidean_division_equations; lia). }
  pose proof (within_false _ _ _ W2) as V2. destruct (within 0 0xFFFF r && negb (surrogate r)) eqn:W3.
  { apply andb_true_iff in W3 as [W3%within_spec Hs%negb_true_iff%within_false].
    eexists. split; [done |]. split; [| by right]. unfold DecodeRune. cbv zeta.
    rewrite !byte_value by (Z.to_euclidean_division_equations; lia).
    rewrite (proj2 (Z.ltb_ge _ _)) by (Z.to_euclidean_division_equations; lia).
    rewrite (within_out 0xC2 0xDF) by (Z.to_euclidean_division_equations; lia).
    rewrite (proj2 (within_spec 0xE0 0xEF _)) by (Z.to_euclidean_division_equations; lia).
    rewrite !(proj2 (within_spec _ _ _)); [done | Z.to_euclidean_division_equations; lia |].
    destruct (Z.eqb_spec (0xE0 + r / 4096) 0xE0), (Z.eqb_spec (0xE0 + r / 4096) 0xED);
      Z.to_euclidean_division_equations; lia. }
  destruct (within 0x10000 0x10FFFF r) eqn:W4.
  { apply within_spec in W4. eexists. split; [done |]. split; [| by right]. unfold DecodeRune. cbv zeta.
    rewrite !byte_value by (Z.to_euclidean_division_equations; lia).
    rewrite (proj2 (Z.ltb_ge _ _)) by (Z.to_euclidean_division_equations; lia).
    rewrite (within_out 0xC2 0xDF), (within_out 0xE0 0xEF) by (Z.to_euclidean_division_equations; lia).
    rewrite (proj2 (within_spec 0xF0 0xF4 _)) by (Z.to_euclidean_division_equations; lia).
    rewrite !(proj2 (within_spec _ _ _));
      [done | Z.to_euclidean_division_equations; lia | Z.to_euclidean_division_equations; lia |].
    destruct (Z.eqb_spec (0xF0 + r / 262144) 0xF0), (Z.eqb_spec (0xF0 + r / 262144) 0xF4);
      Z.to_euclidean_division_equations; lia. }
  exists RuneError. split; [done |]. split; [reflexivity | by right].
Qed.

Lemma pieces_well_formed r x t : well_formed (r, x) -> pieces 0 (x ++ t) = (r, x) :: pieces 0 t.
Proof. intros (Hne & _ & Hd). by apply pieces_cons. Qed.

Lemma encode_cons r rs : encode (r :: rs) = EncodeRune r ++ encode rs.
Proof. done. Qed.

(** What is encoded from runes is well formed throughout. *)
Lemma encode_valid rs : valid (encode rs).
Proof.
  unfold valid, to_valid, runes. induction rs as [|r rs IH]; [done |]. rewrite encode_cons.
  destruct (EncodeRune_piece r) as [r' Hw]. rewrite (pieces_well_formed r') by done.
  cbn [fmap list_fmap fst]. rewrite encode_cons, IH. destruct Hw as (_ & Hw & _). cbn in Hw. by rewrite Hw.
Qed.

(** The string a literal stands for: the one it was made from, with ill-formed
    bytes replaced. *)
Definition clean (s : string) : string := go_string (runes (String.list_byte_of_string s)).

Definition clean_string (s : string) : Prop := clean s = s.

Lemma go_string_clean rs : clean_string (go_string rs).
Proof.
  unfold clean_string, clean, go_string. rewrite String.list_byte_of_string_of_list_byte. f_equal. apply encode_valid.
Qed.

(** ** Lemmas: literals *)

Lemma literal_rune_high b s : 0x80 <= byte_to_Z b -> literal_rune (b :: s) = Some (DecodeRune (b :: s)).
Proof. intros Hb. destruct b; first [by destruct Hb | reflexivity]. Qed.

Lemma literal_rune_ascii b t :
  byte_to_Z b < 0x80 ->
  exists c e, escape (byte_to_Z b, [b]) = c :: e /\ c <> Byte.x22 /\
    literal_rune (escape (byte_to_Z b, [b]) ++ t) = Some (byte_to_Z b, length (escape (byte_to_Z b, [b]))).
Proof.
  intros Hb. destruct b; first [by destruct (Zlt_not_le _ _ Hb); vm_compute | 
    eexists _, _; split; [vm_compute; reflexivity | split; [discriminate | reflexivity]]].
Qed.

Lemma escape_literal p t :
  piece p -> exists c e, escape p = c :: e /\ c <> Byte.x22 /\
    literal_rune (escape p ++ t) = Some (p.1, length (escape p)).
Proof.
  intros [(Hne & Henc & Hdec)|(b & -> & Hb)].
  2: { eexists _, _. split; [reflexivity |]. split; [discriminate | reflexivity]. }
  destruct p as [r [|b x]]; [done |]. cbn [fst snd] in *.
  pose proof (Hdec []) as Hd. rewrite app_nil_r in Hd. unfold DecodeRune in Hd.
  destruct (Z.ltb_spec (byte_to_Z b) 0x80) as [Hlt|Hge].
  { injection Hd as <- El. destruct x; [| done]. by apply literal_rune_ascii. }
  assert (0x80 <= r) as Hr.
  { destruct (Z.le_gt_cases 0x80 r) as [|Hr]; [done |]. exfalso. unfold EncodeRune in Henc.
    pose proof (byte_to_Z_range b).
    destruct (within 0 0x7F r) eqn:W.
    - apply within_spec in W. injection Henc as <- _. rewrite byte_value in Hge by lia. lia.
    - apply within_false in W. rewrite (within_out 0 0x7FF), (within_out 0 0xFFFF),
        (within_out 0x10000 0x10FFFF) in Henc by lia. cbn in Henc. injection Henc as <- <-.
      specialize (Hdec []). vm_compute in Hdec. injection Hdec as <-. lia. }
  unfold escape. rewrite (proj2 (Z.ltb_ge _ _)) by done.
  destruct ((r =? RuneError) && (length (b :: x) =? 1)%nat) eqn:Eill.
  { apply andb_true_iff in Eill as [Er%Z.eqb_eq Ex%Nat.eqb_eq]. subst r. destruct x; [| done]. discriminate Henc. }
  destruct ((r =? 0x2028) || (r =? 0x2029)) eqn:Els.
  { apply orb_true_iff in Els as [->%Z.eqb_eq| ->%Z.eqb_eq];
      (eexists _, _; split; [reflexivity |]; split; [discriminate | reflexivity]). }
  exists b, x. split; [done |]. split; [by intros -> |]. cbn [app]. rewrite literal_rune_high by done.
  f_equal. exact (Hdec t).
Qed.

Lemma literal_skip x t : literal (length x) (x ++ t) = literal 0 t.
Proof. induction x as [|b x IH]; [by destruct t | exact IH]. Qed.

Lemma literal_cons c e r t :
  c <> Byte.x22 -> literal_rune ((c :: e) ++ t) = Some (r, length (c :: e)) ->
  literal 0 ((c :: e) ++ t) = ('(rs, rest) ← literal 0 t; Some (r :: rs, rest)).
Proof.
  intros Hc E. cbn [app literal] in *. rewrite bool_decide_false by done. rewrite E. cbn [mbind option_bind].
  simpl (length _ - 1)%nat. by rewrite Nat.sub_0_r, literal_skip.
Qed.

Lemma literal_quoted s t :
  literal 0 (mjoin (escape <$> pieces 0 s) ++ Byte.x22 :: t) = Some (runes s, t).
Proof.
  unfold runes. destruct (pieces_spec s) as [Hps _]. induction Hps as [|p ps Hp _ IH]; [done |].
  cbn [fmap list_fmap]. change (mjoin (escape p :: ?l)) with (escape p ++ mjoin l). rewrite <- app_assoc.
  destruct (escape_literal p (mjoin (escape <$> ps) ++ Byte.x22 :: t) Hp) as (c & e & Ee & Hc & El).
  rewrite Ee in *. rewrite (literal_cons c e p.1) by done. by rewrite IH.
Qed.

(** ** Lemmas: objects of strings *)

Definition strings (l : list (string * string)) : list (string * json) :=
  (fun kv => (clean kv.1, JStr (clean kv.2))) <$> l.

Lemma parse_quoted fuel d s t : parse (S fuel) MValue d (quote s ++ t) = Some (JStr (clean s), t).
Proof.
  cbn [parse quote app]. rewrite <- app_assoc. cbn [app]. by rewrite literal_quoted.
Qed.

Lemma skip_space_solid b t : is_space b = false -> skip_space (b :: t) = b :: t.
Proof. intros Hb. cbn [skip_space]. by rewrite Hb. Qed.

(** The step of the parser over one member and what follows it. *)
Lemma parse_member fuel acc d kv t :
  parse (S (S fuel)) (MMembers acc) d (member kv ++ t) =
    let acc := (clean kv.1, JStr (clean kv.2)) :: acc in
    match after Byte.x2c (skip_space t) with
    | Some s => parse (S fuel) (MMembers acc) d (skip_space s)
    | None => s ← after Byte.x7d (skip_space t); Some (JObj (rev acc), s)
    end.
Proof.
  destruct kv as [k v]. unfold member, quote. cbn [fst snd]. rewrite <- !app_assoc. cbn [app].
  rewrite <- !app_assoc. cbn [app]. remember (S fuel) as n eqn:Hn. cbn [parse].
  change (after Byte.x22 (Byte.x22 :: ?x)) with (Some x). cbn [mbind option_bind]. rewrite literal_quoted.
  cbn [mbind option_bind]. change (after Byte.x3a (skip_space (Byte.x3a :: ?x))) with (Some x).
  cbn [mbind option_bind].
  change (skip_space (Byte.x22 :: ?x)) with (Byte.x22 :: x). subst n.
  pose proof (parse_quoted fuel d v t) as E. unfold quote in E. cbn [app] in E. rewrite <- app_assoc in E.
  cbn [app] in E. by rewrite E.
Qed.

Lemma parse_members l : forall kv acc fuel d t,
  (length l + 2 <= fuel)%nat ->
  parse fuel (MMembers acc) d (member kv ++ members l ++ t) = Some (JObj (rev acc ++ strings (kv :: l)), t).
Proof.
  induction l as [|kv' l IH]; intros kv acc fuel d t Hf; (destruct fuel as [|[|fuel]]; [simpl in Hf; lia.. |]);
    rewrite parse_member.
  - reflexivity.
  - cbn [members app]. cbv zeta. change (after Byte.x2c (skip_space (Byte.x2c :: ?x))) with (Some x). cbv iota.
    rewrite <- app_assoc. change (skip_space (member ?k ++ ?x)) with (member k ++ x).
    rewrite IH by (simpl in *; lia). cbn [rev strings fmap list_fmap]. by rewrite <- app_assoc.
Qed.

Lemma length_member kv : (5 <= length (member kv))%nat.
Proof. unfold member, quote. cbn [length app]. rewrite !length_app. simpl. rewrite !length_app. simpl. lia. Qed.

Lemma length_members l : (length l < length (members l))%nat.
Proof.
  induction l as [|kv l IH]; simpl; [lia |]. rewrite length_app. lia.
Qed.

(** What [Marshal] writes of string members, a document gives back. *)
Lemma document_object l : document (object l) = Some (JObj (strings l)).
Proof.
  unfold document, object. rewrite skip_space_solid by done. destruct l as [|kv l]; [reflexivity |].
  set (n := (2 * length (Byte.x7b :: member kv ++ members l) + 1)%nat).
  replace (2 * length (Byte.x7b :: member kv ++ members l) + 2)%nat with (S n) by lia.
  assert (length l + 2 <= n)%nat as Hn.
  { unfold n. cbn [length]. rewrite length_app. pose proof (length_members l). lia. }
  clearbody n. cbn [parse]. change (maxNestingDepth <? 1) with false. cbv iota.
  pose proof (parse_members l kv [] n (maxNestingDepth - 1) [] Hn) as E. rewrite app_nil_r in E.
  change (skip_space (member ?k ++ ?x)) with (member k ++ x).
  change (after Byte.x7d (member kv ++ members l)) with (@None (list byte)). cbv iota. by rewrite E.
Qed.

(** ** Lemmas: the parser's fuel *)

Lemma skip_space_le s : (length (skip_space s) <= length s)%nat.
Proof. induction s as [|b s IH]; simpl; [done |]. destruct (is_space b); simpl; lia. Qed.

Lemma skip_digits_le s : (length (skip_digits s) <= length s)%nat.
Proof. induction s as [|b s IH]; simpl; [done |]. destruct (is_digit b); simpl; lia. Qed.

Lemma some_digits_lt s r : some_digits s = Some r -> (length r < length s)%nat.
Proof.
  destruct s as [|b s]; simpl; [done |]. destruct (is_digit b); [| done]. intros [= <-].
  pose proof (skip_digits_le s). lia.
Qed.

Lemma strip_le p s r : strip p s = Some r -> (length p + length r <= length s)%nat.
Proof.
  revert s. induction p as [|a p IH]; intros s; simpl; [by intros [= ->] |].
  destruct s as [|b s]; [done |]. case_bool_decide; [| done]. intros E%IH. simpl. lia.
Qed.

Lemma literal_lt k s rs r : literal k s = Some (rs, r) -> (length r < length s)%nat.
Proof.
  revert k rs. induction s as [|b s IH]; intros k rs; cbn [literal length]; [done |]. destruct k as [|k].
  - case_bool_decide; [intros [= _ ->]; lia |]. destruct (literal_rune (b :: s)) as [[x n]|]; [| done].
    cbn [mbind option_bind]. destruct (literal (n - 1) s) as [[rs' r']|] eqn:E; [| done].
    cbn [mbind option_bind]. intros [= _ ->]. apply IH in E. lia.
  - intros E%IH. lia.
Qed.

(** The parts of a number: each takes bytes or leaves the text alone. *)
Lemma number_sign_le s : (length (match s with Byte.x2d :: s' => s' | _ => s end) <= length s)%nat.
Proof. destruct s as [|[] s]; simpl; lia. Qed.

Lemma number_integer_lt s r :
  match s with Byte.x30 :: s' => Some s' | _ => some_digits s end = Some r -> (length r < length s)%nat.
Proof. destruct s as [|[] s]; first [by apply some_digits_lt | intros [= ->]; simpl; lia]. Qed.

Lemma number_fraction_le s r :
  match s with Byte.x2e :: s' => some_digits s' | _ => Some s end = Some r -> (length r <= length s)%nat.
Proof. destruct s as [|[] s]; first [by intros [= ->] | intros E%some_digits_lt; simpl; lia]. Qed.

Lemma exponent_sign_le s :
  (length (match s with Byte.x2b :: s' | Byte.x2d :: s' => s' | _ => s end) <= length s)%nat.
Proof. destruct s as [|[] s]; simpl; lia. Qed.

Lemma number_lt s r : number s = Some r -> (length r < length s)%nat.
Proof.
  unfold number. pose proof (number_sign_le s) as H0.
  destruct (match match s with Byte.x2d :: s' => s' | _ => s end with Byte.x30 :: s' => Some s' | _ => _ end)
    as [s1|] eqn:E1; [| done]. apply number_integer_lt in E1. cbn [mbind option_bind].
  destruct (match s1 with Byte.x2e :: s' => some_digits s' | _ => Some s1 end) as [s2|] eqn:E2; [| done].
  apply number_fraction_le in E2. cbn [mbind option_bind]. intros E3.
  enough (length r <= length s2)%nat by lia. destruct s2 as [|b s2]; [injection E3 as <-; simpl; lia |].
  pose proof (exponent_sign_le s2). destruct b; first [injection E3 as <-; simpl; lia | apply some_digits_lt in E3; simpl; lia].
Qed.

(** [branches E] follows the parser's branches in [E]; [shorter] bounds what
    is left after each step taken. *)
Ltac branches E :=
  repeat match type of E with
  | (_ ≫= _) = Some _ => apply bind_Some in E as (? & ? & E)
  | (let '(_, _) := ?p in _) = _ => destruct p
  | match ?x with _ => _ end = _ => destruct x eqn:?
  end.

Ltac shorter :=
  repeat match goal with
  | H : literal _ _ = Some _ |- _ => apply literal_lt in H
  | H : after _ _ = Some _ |- _ => apply strip_le in H
  | H : strip _ _ = Some _ |- _ => apply strip_le in H
  | H : number _ = Some _ |- _ => apply number_lt in H
  | H : context [length (skip_space ?s)] |- _ =>
      lazymatch goal with
      | _ : (length (skip_space s) <= length s)%nat |- _ => fail
      | _ => pose proof (skip_space_le s)
      end
  end; cbn [length] in *.

(** A value takes at least a byte. *)
Lemma parse_lt fuel m d s v r : parse fuel m d s = Some (v, r) -> (length r < length s)%nat.
Proof.
  revert m d s v r. induction fuel as [|fuel IH]; intros m d s v r; [done |]. destruct m as [|acc|acc].
  - destruct s as [|b s]; [done |].
    assert (forall r', number (b :: s) = Some r' -> (length r' < length (b :: s))%nat) as Hn by (intros; by apply number_lt).
    cbn [parse]. intros E.
    destruct b; cbv iota in E; first
      [ apply bind_Some in E as (r' & E & [= _ ->]); by apply Hn
      | clear Hn; branches E; simplify_eq; try apply IH in E; shorter; lia ].
  - cbn [parse]. intros E. branches E; simplify_eq;
      repeat match goal with H : parse fuel _ _ _ = _ |- _ => apply IH in H end; shorter; lia.
  - cbn [parse]. intros E. branches E; simplify_eq;
      repeat match goal with H : parse fuel _ _ _ = _ |- _ => apply IH in H end; shorter; lia.
Qed.

(** Fuel a mode needs on a text. *)
Definition need (m : mode) (s : list byte) : nat :=
  match m with MElements _ => 2 * length s + 2 | _ => 2 * length s + 1 end.

(** With enough fuel the outcome does not depend on it. *)
Lemma parse_enough f1 : forall f2 m d s,
  (need m s <= f1)%nat -> (need m s <= f2)%nat -> parse f1 m d s = parse f2 m d s.
Proof.
  induction f1 as [|f1 IH]; intros [|f2] m d s H1 H2; try (destruct m; simpl in *; lia).
  destruct m as [|acc|acc]; cbn [need] in H1, H2; cbn [parse].
  - destruct s as [|b s]; [done |]. destruct b; try done; cbv iota; destruct (d <? 1); try done;
      destruct (after _ _); try done; pose proof (skip_space_le s); cbn [length] in *; apply IH; cbn [need]; lia.
  - rewrite (IH f2 MValue d s) by (cbn [need]; lia). destruct (parse f2 MValue d s) as [[v r]|] eqn:E; [| done].
    cbn [mbind option_bind]. apply parse_lt in E. destruct (after Byte.x2c (skip_space r)) as [r'|] eqn:Ea; [| done].
    shorter. apply IH; cbn [need]; pose proof (skip_space_le r'); lia.
  - destruct (after Byte.x22 s) as [s1|] eqn:E1; [| done]. cbn [mbind option_bind].
    destruct (literal 0 s1) as [[rs s2]|] eqn:E2; [| done]. cbn [mbind option_bind].
    destruct (after Byte.x3a (skip_space s2)) as [s3|] eqn:E3; [| done]. cbn [mbind option_bind].
    shorter. pose proof (skip_space_le s3).
    rewrite (IH f2 MValue d (skip_space s3)) by (cbn [need]; lia).
    destruct (parse f2 MValue d (skip_space s3)) as [[v r]|] eqn:E; [| done]. cbn [mbind option_bind]. apply parse_lt in E.
    destruct (after Byte.x2c (skip_space r)) as [r'|] eqn:Ea; [| done].
    shorter. apply IH; cbn [need]; pose proof (skip_space_le r'); lia.
Qed.

(** ** Lemmas: parts of a string *)

(** Cutting a string shorter leaves an ill-formed byte ill-formed. *)
Lemma DecodeRune_prefix b s t :
  0x80 <= byte_to_Z b -> DecodeRune (b :: s ++ t) = (RuneError, 1%nat) -> DecodeRune (b :: s) = (RuneError, 1%nat).
Proof.
  intros Hb E. pose proof (DecodeRune_piece (b :: s) ltac:(done)) as Hp.
  destruct (DecodeRune (b :: s)) as [r k] eqn:Ed. destruct Hp as [Hk [(_ & Henc & Hd)|(b' & Eb & _)]].
  - cbn [fst snd] in *. specialize (Hd (drop k (b :: s) ++ t)). rewrite app_assoc, take_drop in Hd.
    cbn [app] in Hd. rewrite E in Hd. injection Hd as <- Hl. rewrite <- Henc in Hl.
    vm_compute in Hl. discriminate.
  - assert (k = 1%nat) as ->.
    { apply (f_equal (fun p => length p.2)) in Eb. cbn [snd] in Eb. rewrite length_take in Eb. simpl in *. lia. }
    by injection Eb as -> _.
Qed.

(** A piece is cut off the front of a string. *)
Lemma pieces_inv s p ps :
  pieces 0 s = p :: ps -> exists s', s = p.2 ++ s' /\ pieces 0 s' = ps /\ piece p /\
    forall t1 t2, s' = t1 ++ t2 -> pieces 0 (p.2 ++ t1) = p :: pieces 0 t1.
Proof.
  destruct s as [|b s]; [done |]. pose proof (DecodeRune_piece (b :: s) ltac:(done)) as Hp.
  destruct (DecodeRune (b :: s)) as [r k] eqn:Ed. destruct Hp as [Hk Hp]. intros E.
  assert (pieces 0 (b :: s) = (r, take k (b :: s)) :: pieces 0 (drop k (b :: s))) as Ep.
  { rewrite <- (take_drop k (b :: s)) at 1. apply pieces_cons.
    - rewrite take_drop, Ed, length_take. f_equal. lia.
    - intros E0. apply (f_equal length) in E0. rewrite length_take in E0. simpl in *. lia. }
  rewrite E in Ep. injection Ep as -> Eps. exists (drop k (b :: s)). cbn [snd].
  split; [by rewrite take_drop |]. split; [done |]. split; [done |]. intros t1 t2 Et.
  destruct Hp as [Hw|(b' & Eb & Hb')]; [by apply pieces_well_formed |]. injection Eb as -> Eb. rewrite Eb.
  apply pieces_cons; [| done]. cbn [app]. apply (DecodeRune_prefix b' t1 t2 Hb').
  assert (k = 1%nat) as ->.
  { apply (f_equal length) in Eb. rewrite length_take in Eb. simpl in *. lia. }
  change (drop 1 (b :: s)) with s in Et. injection Eb as <-. by rewrite <- Et.
Qed.

(** A string made of consecutive pieces is cut into them again. *)
Lemma pieces_app s ps1 ps2 :
  pieces 0 s = ps1 ++ ps2 -> pieces 0 (mjoin ps1.*2) = ps1 /\ pieces 0 (mjoin ps2.*2) = ps2.
Proof.
  revert s. induction ps1 as [|p ps1 IH]; intros s E.
  - split; [done |]. cbn [app] in E. by rewrite <- E, (proj2 (pieces_spec s)).
  - destruct (pieces_inv s p (ps1 ++ ps2) E) as (s' & Es & Es' & _ & Hcut). destruct (IH s' Es') as [IH1 IH2].
    split; [| done]. change (mjoin (p :: ps1).*2) with (p.2 ++ mjoin ps1.*2).
    rewrite (Hcut _ (mjoin ps2.*2)), IH1; [done |].
    pose proof (proj2 (pieces_spec s')) as Hj. rewrite Es', fmap_app in Hj.
    by rewrite <- Hj, join_app.
Qed.

(** ** Lemmas: what a text decodes to *)

(** Strings read from a text have no ill-formed bytes. *)
Inductive clean_json : json -> Prop :=
| clean_JStr s : clean_string s -> clean_json (JStr s)
| clean_JObj fields : Forall (fun kv => clean_string kv.1 /\ clean_json kv.2) fields -> clean_json (JObj fields)
| clean_JArr l : clean_json (JArr l)
| clean_JNull : clean_json JNull
| clean_JBool b : clean_json (JBool b)
| clean_JNum : clean_json JNum.

Definition clean_mode (m : mode) : Prop :=
  match m with MMembers acc => Forall (fun kv => clean_string kv.1 /\ clean_json kv.2) acc | _ => True end.

#[local] Hint Constructors clean_json : core.
#[local] Hint Resolve go_string_clean : core.

Lemma parse_clean fuel m d s v r : clean_mode m -> parse fuel m d s = Some (v, r) -> clean_json v.
Proof.
  revert m d s v r. induction fuel as [|fuel IH]; intros m d s v r Hm; [done |]. destruct m as [|acc|acc]; cbn [parse].
  - destruct s as [|b s]; [done |]. intros E.
    destruct b; cbv iota in E; first
      [ apply bind_Some in E as (r' & E & [= <- _]); by auto
      | branches E; simplify_eq; first [by auto | eapply IH, E; by constructor] ].
  - intros E. branches E; simplify_eq; [| by auto]. by eapply IH, E.
  - intros E. branches E; simplify_eq; match goal with Hv : parse fuel MValue _ _ = _ |- _ => apply IH in Hv; [| done] end.
    + eapply IH, E. cbn [clean_mode]. constructor; [split; [apply go_string_clean | done] | done].
    + constructor. apply Forall_rev. constructor; [split; [apply go_string_clean | done] | done].
Qed.

Lemma document_clean s v : document s = Some v -> clean_json v.
Proof.
  unfold document. destruct (parse _ _ _ _) as [[v' r]|] eqn:E; [| done]. cbn [mbind option_bind].
  destruct (skip_space r); [| done]. intros [= <-]. by eapply parse_clean, E.
Qed.
