(* ===== verification/KVStore.v ===== *)
(** * KVStore: the key-value store over the library (src/examples/kv-store/main.go)

    [Module KVSM] is the state machine: a map of strings, changed by JSON
    operations and captured in JSON snapshots. The rest is [main]: the
    configuration made of the flags, and what each line of the console does. *)
From stdpp Require Import sorting.
From S2P Require Import Prelude GoFloat Sha256 Metrics Types State Storage SnapshotOps ConfigChange Log.
From S2P Require Import Samples Election ElectionTheorems Control ConfigTheorems.
From S2P Require Import Node Servers Handlers Effects NodeTheorems Panics Durability Json.

(** ** Operations *)

(** One operation; [Kind] is "set" or "del". *)
Record Op := mkOp { Kind : string; Key : string; Value : string }.

#[export] Instance Op_eq_dec : EqDecision Op.
Proof. solve_decision. Defined.

(** [json.Marshal] of an operation; the value is left out when empty. *)
Definition MarshalOp (op : Op) : list byte :=
  object ([("kind", Kind op); ("key", Key op)]
          ++ if decide (Value op = "") then [] else [("value", Value op)]).

(** A member is matched to a field up to case. *)
Definition fold_rune (r : Z) : Z :=
  if within 97 122 r then r - 32
  else if r =? 0x212A then 0x4B else if r =? 0x17F then 0x53 else r.

Definition matches (field name : string) : bool :=
  bool_decide (fold_rune <$> runes (String.list_byte_of_string name) =
               fold_rune <$> runes (String.list_byte_of_string field)).

(** A value decoded into a string that holds [old]; [false] when it is of
    another type. *)
Definition decode_string (v : json) (old : string) : string * bool :=
  match v with
  | JStr s => (s, true)
  | JNull => (old, true)
  | _ => (old, false)
  end.

(** A member decoded into an operation; unknown ones are ignored. *)
Definition decode_field (st : Op * bool) (kv : string * json) : Op * bool :=
  let '(op, ok) := st in
  let '(name, v) := kv in
  if matches "kind" name then
    let '(x, ok') := decode_string v (Kind op) in (mkOp x (Key op) (Value op), ok && ok')
  else if matches "key" name then
    let '(x, ok') := decode_string v (Key op) in (mkOp (Kind op) x (Value op), ok && ok')
  else if matches "value" name then
    let '(x, ok') := decode_string v (Value op) in (mkOp (Kind op) (Key op) x, ok && ok')
  else (op, ok).

(** [json.Unmarshal] into the zero operation; [None] is an error. *)
Definition UnmarshalOp (data : list byte) : option Op :=
  match document data with
  | Some JNull => Some (mkOp "" "" "")
  | Some (JObj fields) =>
      let '(op, ok) := foldl decode_field (mkOp "" "" "", true) fields in
      if ok then Some op else None
  | _ => None
  end.

(** ** Maps *)

(** The order of Go's strings. *)
Definition key_le (a b : string * string) : Prop := String.leb a.1 b.1 = true.

#[export] Instance key_le_dec : RelDecision key_le.
Proof. intros a b. unfold key_le. apply _. Defined.

(** [json.Marshal] of a map, which may be nil; members are sorted by key. *)
Definition MarshalMap (data : option (gmap string string)) : list byte :=
  match data with
  | None => String.list_byte_of_string "null"
  | Some m => object (merge_sort key_le (map_to_list m))
  end.

(** A member decoded into a map. *)
Definition decode_member (st : gmap string string * bool) (kv : string * json) : gmap string string * bool :=
  let '(m, ok) := st in
  let '(v, ok') := decode_string kv.2 "" in
  (<[kv.1 := v]> m, ok && ok').

(** [json.Unmarshal] into a map; [false] is an error. The text null makes the
    map nil. *)
Definition UnmarshalMap (data : list byte) (m : gmap string string) : option (gmap string string) * bool :=
  match document data with
  | Some JNull => (None, true)
  | Some (JObj fields) => let '(m, ok) := foldl decode_member (m, true) fields in (Some m, ok)
  | _ => (Some m, false)
  end.

(** ** The state machine *)

Module KVSM.
Record KVSM := mkKVSM { data : option (gmap string string) }.   (* None: a nil map *)

#[export] Instance KVSM_eq_dec : EqDecision KVSM.
Proof. solve_decision. Defined.

Definition NewKVSM : KVSM := mkKVSM (Some ∅).

(** [None] is the panic of an assignment to a nil map; [false] is an error. *)
Definition Apply (command : list byte) (kv : KVSM) : option (KVSM * bool) :=
  match UnmarshalOp command with
  | None => Some (kv, false)
  | Some op =>
      if decide (Kind op = "set") then
        m ← data kv; Some (mkKVSM (Some (<[Key op := Value op]> m)), true)
      else if decide (Kind op = "del") then
        Some (mkKVSM (delete (Key op) <$> data kv), true)
      else Some (kv, true)
  end.

Definition Snapshot (kv : KVSM) : list byte := MarshalMap (data kv).

Definition Restore (snapshot : list byte) (kv : KVSM) : KVSM * bool :=
  let '(m, ok) := UnmarshalMap snapshot ∅ in (mkKVSM m, ok).

Definition Get (key : string) (kv : KVSM) : option string := m ← data kv; m !! key.
End KVSM.

(** ** Text *)

(** [unicode.IsSpace]. *)
Definition space_rune (r : Z) : bool :=
  within 9 13 r || bool_decide (r ∈ [0x20; 0x85; 0xA0; 0x1680; 0x2028; 0x2029; 0x202F; 0x205F; 0x3000])
  || within 0x2000 0x200A r.

Definition spaces (p : Z * list byte) : bool := space_rune p.1.

Fixpoint drop_spaces (ps : list (Z * list byte)) : list (Z * list byte) :=
  match ps with
  | p :: ps' => if spaces p then drop_spaces ps' else ps
  | [] => []
  end.

Definition of_pieces (ps : list (Z * list byte)) : string := String.string_of_list_byte (mjoin ps.*2).

Definition pieces_of (s : string) : list (Z * list byte) := pieces 0 (String.list_byte_of_string s).

(** [strings.TrimSpace]. *)
Definition TrimSpace (s : string) : string :=
  of_pieces (reverse (drop_spaces (reverse (drop_spaces (pieces_of s))))).

(** [strings.Fields]; [word] is the field being read, last piece first. *)
Fixpoint fields_of (word ps : list (Z * list byte)) : list string :=
  let flush := if decide (word = []) then [] else [of_pieces (reverse word)] in
  match ps with
  | [] => flush
  | p :: ps' => if spaces p then flush ++ fields_of [] ps' else fields_of (p :: word) ps'
  end.

Definition Fields (s : string) : list string := fields_of [] (pieces_of s).

(** [strings.Split] at commas. *)
Fixpoint split_commas (word s : list byte) : list string :=
  match s with
  | [] => [String.string_of_list_byte (reverse word)]
  | b :: s' =>
      if bool_decide (b = Byte.x2c) then String.string_of_list_byte (reverse word) :: split_commas [] s'
      else split_commas (b :: word) s'
  end.

(** [strings.Join] with a blank. *)
Definition Join (l : list string) : string := String.concat " " l.

(** Upper case, as far as a rune's is an ASCII letter. *)
Definition upper_rune (r : Z) : Z :=
  if within 97 122 r then r - 32
  else if r =? 0x131 then 73 else if r =? 0x17F then 83 else r.

(** [strings.ToUpper(word)] is [name], a word of ASCII letters. *)
Definition upper_is (name word : string) : bool :=
  bool_decide (upper_rune <$> runes (String.list_byte_of_string word) = runes (String.list_byte_of_string name)).

(** ** main *)

(** The configuration made of the flags; without an id the program exits. *)
Definition main_config (id peersStr : string) : option NodeConfig.Config :=
  if decide (id = "") then None
  else
    let peers := if decide (peersStr = "") then []
                 else TrimSpace <$> split_commas [] (String.list_byte_of_string peersStr) in
    Some (NodeConfig.mkConfig id peers 50 300 500).

(** What is printed. *)
Inductive output :=
| UsageGet | UsageSet | UsageDel
| Found (key v : string)
| NotFound (key : string)
| Unknown (cmd : string)          (* printed in upper case *)
| ErrorStopped                    (* Apply returned an error *)
| NotLeader (leader : ServerID)
| Ok.

(** What a line asks for. *)
Inductive request := Nothing | Print (o : output) | Submit (op : Op).

#[export] Instance output_eq_dec : EqDecision output.
Proof. solve_decision. Defined.

#[export] Instance request_eq_dec : EqDecision request.
Proof. solve_decision. Defined.

(** A line read from the console; [None] is an index out of range. *)
Definition read_line (kv : KVSM.KVSM) (text : string) : option request :=
  let line := TrimSpace text in
  if decide (line = "") then Some Nothing
  else
    let parts := Fields line in
    cmd ← parts !! 0%nat;
    if upper_is "GET" cmd then
      if (length parts <? 2)%nat then Some (Print UsageGet)
      else
        key ← parts !! 1%nat;
        Some (Print (match KVSM.Get key kv with Some v => Found key v | None => NotFound key end))
    else if upper_is "SET" cmd then
      if (length parts <? 3)%nat then Some (Print UsageSet)
      else
        key ← parts !! 1%nat;
        Some (Submit (mkOp "set" key (Join (drop 2 parts))))
    else if upper_is "DEL" cmd then
      if (length parts <? 2)%nat then Some (Print UsageDel)
      else
        key ← parts !! 1%nat;
        Some (Submit (mkOp "del" key ""))
    else Some (Print (Unknown cmd)).

(** The outcome of [node.Apply]; [None] is an error. *)
Definition report (answer : option ApplyResponse) : output :=
  match answer with
  | None => ErrorStopped
  | Some resp => if ar_Success resp then Ok else NotLeader (ar_LeaderID resp)
  end.

(** The loop of the console: for each line, the state machine as it is when the
    line is read and the outcome of the command it may submit. Returned are what
    is printed, the commands given to [node.Apply], and [seqNum] at the end. *)
Definition line_in : Type := string * KVSM.KVSM * option ApplyResponse.

Fixpoint console (id : ServerID) (resultCh : chan) (seqNum : Z) (input : list line_in)
    : option (list output * list pendingApply * Z) :=
  match input with
  | [] => Some ([], [], seqNum)
  | (text, kv, answer) :: input' =>
      r ← read_line kv text;
      match r with
      | Nothing => console id resultCh seqNum input'
      | Print o =>
          '(out, cmds, seqNum) ← console id resultCh seqNum input';
          Some (o :: out, cmds, seqNum)
      | Submit op =>
          let seqNum := seqNum +! 1 in
          let cmd := applyRequest id seqNum (MarshalOp op) resultCh in
          '(out, cmds, seqNum) ← console id resultCh seqNum input';
          Some (report answer :: out, cmd :: cmds, seqNum)
      end
  end.

Example read_set : read_line KVSM.NewKVSM "  set k  a b " = Some (Submit (mkOp "set" "k" "a b")).
Proof. vm_compute. reflexivity. Qed.
Example read_del : read_line KVSM.NewKVSM "DEL nome" = Some (Submit (mkOp "del" "nome" "")).
Proof. vm_compute. reflexivity. Qed.
Example read_get_usage : read_line KVSM.NewKVSM "Get" = Some (Print UsageGet).
Proof. vm_compute. reflexivity. Qed.
Example read_config :
  NodeConfig.Peers <$> main_config "a" "b, c" = Some ["b"; "c"].
Proof. vm_compute. reflexivity. Qed.

(** ** Lemmas: operations and maps *)

(** An operation written out and read back has its ill-formed bytes replaced. *)
Lemma UnmarshalOp_MarshalOp op :
  UnmarshalOp (MarshalOp op) = Some (mkOp (clean (Kind op)) (clean (Key op)) (clean (Value op))).
Proof.
  unfold UnmarshalOp, MarshalOp. rewrite document_object.
  assert (clean "kind" = "kind" /\ clean "key" = "key" /\ clean "value" = "value") as (C1 & C2 & C3)
    by (vm_compute; done).
  assert (matches "kind" "kind" = true /\ matches "kind" "key" = false /\ matches "key" "key" = true /\
    matches "kind" "value" = false /\ matches "key" "value" = false /\ matches "value" "value" = true) as Hm
    by (vm_compute; done).
  destruct Hm as (M1 & M2 & M3 & M4 & M5 & M6).
  destruct (decide (Value op = "")) as [E|E]; unfold strings; cbn [app fmap list_fmap foldl fst snd].
  - rewrite C1, C2. cbn [decode_field decode_string andb]. rewrite M1.
    cbn [decode_field decode_string andb Kind Key Value]. by rewrite M2, M3, E.
  - rewrite C1, C2, C3. cbn [decode_field decode_string andb]. rewrite M1.
    cbn [decode_field decode_string andb Kind Key Value]. rewrite M2, M3.
    cbn [decode_field decode_string andb Kind Key Value]. by rewrite M4, M5, M6.
Qed.

(** Every member a string: the members are inserted one after the other. *)
Lemma decode_members l m :
  foldl decode_member (m, true) (strings l) =
    (foldl (fun m kv => <[clean kv.1 := clean kv.2]> m) m l, true).
Proof. revert m. induction l as [|kv l IH]; intros m; [done |]. cbn. apply IH. Qed.

Definition clean_member (kv : string * string) : Prop := clean_string kv.1 /\ clean_string kv.2.

(** Distinct keys: the order does not matter. *)
Lemma insert_members l : NoDup l.*1 -> Forall clean_member l ->
  foldl (fun m kv => <[clean kv.1 := clean kv.2]> m) (∅ : gmap string string) l = list_to_map l.
Proof.
  revert l. refine (rev_ind _ _ _); [done |]. intros [k v] l IH Hnd Hcl.
  rewrite foldl_snoc. rewrite fmap_app in Hnd. apply NoDup_app in Hnd as (Hnd & Hk & _).
  apply Forall_app in Hcl as [Hcl [[Hck Hcv] _]%Forall_cons]. cbn [fst snd] in *.
  rewrite IH, Hck, Hcv by done. symmetry. apply list_to_map_snoc. intros Hin. apply (Hk k Hin). by left.
Qed.

Lemma sorted_members (m : gmap string string) :
  merge_sort key_le (map_to_list m) ≡ₚ map_to_list m.
Proof. apply merge_sort_Permutation. Qed.

(** A map written out and read back. *)
Lemma UnmarshalMap_MarshalMap data :
  (forall m, data = Some m -> map_Forall (fun k v => clean_string k /\ clean_string v) m) ->
  UnmarshalMap (MarshalMap data) ∅ = (data, true).
Proof.
  intros Hc. destruct data as [m|]; [| reflexivity]. unfold UnmarshalMap, MarshalMap.
  rewrite document_object, decode_members, insert_members.
  - f_equal. f_equal. rewrite <- (list_to_map_to_list m) at 2. apply list_to_map_proper.
    + by rewrite sorted_members; apply NoDup_fst_map_to_list.
    + apply sorted_members.
  - rewrite sorted_members. apply NoDup_fst_map_to_list.
  - rewrite sorted_members. apply Forall_forall. intros [k v] Hkv%elem_of_map_to_list. by apply (Hc m eq_refl).
Qed.

(** ** Lemmas: the state machine *)

(** Maps free of ill-formed bytes, and stores of them. *)
Definition clean_map (m : gmap string string) : Prop := map_Forall (fun k v => clean_string k /\ clean_string v) m.

Definition clean_store (kv : KVSM.KVSM) : Prop := forall m, KVSM.data kv = Some m -> clean_map m.

Lemma decode_string_clean v old : clean_json v -> clean_string old -> clean_string (decode_string v old).1.
Proof. by intros []. Qed.

Definition clean_op (op : Op) : Prop := clean_string (Kind op) /\ clean_string (Key op) /\ clean_string (Value op).

Lemma UnmarshalOp_clean command op : UnmarshalOp command = Some op -> clean_op op.
Proof.
  unfold UnmarshalOp. destruct (document command) as [v|] eqn:E; [| done]. apply document_clean in E.
  destruct E as [? ?|fields Hf| | | |]; try (by intros [= <-]).
  assert (forall op0 ok, clean_op op0 -> clean_op (foldl decode_field (op0, ok) fields).1) as Hfold.
  { induction Hf as [|[name v] fields [_ Hv] _ IH]; intros op0 ok Hop; [done |]. cbn [foldl decode_field].
    destruct Hop as (H1 & H2 & H3). cbn [fst snd] in *.
    destruct (matches "kind" name), (matches "key" name), (matches "value" name);
      try (destruct (decode_string v _) as [x ok'] eqn:Ex; apply IH; apply (f_equal fst) in Ex; cbn [fst] in Ex; subst x;
        split; [| split]; try done; by apply decode_string_clean).
    by apply IH. }
  specialize (Hfold (mkOp "" "" "") true). destruct (foldl _ _ _) as [op' ok]. destruct ok; [| done].
  intros [= <-]. by apply Hfold.
Qed.

Lemma UnmarshalMap_clean data m m' ok :
  clean_map m -> UnmarshalMap data m = (Some m', ok) -> clean_map m'.
Proof.
  unfold UnmarshalMap. intros Hm. destruct (document data) as [v|] eqn:E; [| by intros [= <- _]].
  apply document_clean in E. destruct E as [? ?|fields Hf| | | |]; try (by intros [= <- _]).
  assert (forall m ok, clean_map m -> clean_map (foldl decode_member (m, ok) fields).1) as Hfold.
  { clear m Hm. induction Hf as [|[k v] fields [Hk Hv] _ IH]; intros m ok0 Hm; [done |]. cbn [foldl decode_member fst snd] in *.
    destruct (decode_string v "") as [x ok'] eqn:Ex. apply IH, map_Forall_insert_2; [| done]. split; [done |].
    apply (f_equal fst) in Ex. cbn [fst] in Ex. subst x. by apply decode_string_clean. }
  specialize (Hfold m true Hm). destruct (foldl _ _ _) as [m1 ok1]. by intros [= <- _].
Qed.

Lemma Apply_clean command kv kv' ok :
  clean_store kv -> KVSM.Apply command kv = Some (kv', ok) -> clean_store kv'.
Proof.
  unfold KVSM.Apply. intros Hc. destruct (UnmarshalOp command) as [op|] eqn:E; [| by intros [= <- _]].
  apply UnmarshalOp_clean in E as (_ & Hk & Hv). case_decide; [| case_decide]; [..| by intros [= <- _]].
  - destruct (KVSM.data kv) as [m|] eqn:Em; [| done]. intros [= <- _] m' [= <-].
    apply map_Forall_insert_2; [done | by apply Hc].
  - intros [= <- _] m'. cbn. destruct (KVSM.data kv) as [m|] eqn:Em; [| done]. intros [= <-].
    apply map_Forall_delete. by apply Hc.
Qed.

Lemma Restore_clean snapshot kv : clean_store (KVSM.Restore snapshot kv).1.
Proof.
  unfold KVSM.Restore. destruct (UnmarshalMap snapshot ∅) as [m ok] eqn:E. intros m' [= ->].
  eapply UnmarshalMap_clean, E. apply map_Forall_empty.
Qed.

(** ** Lemmas: text *)

Lemma drop_spaces_suffix ps : exists pre, ps = pre ++ drop_spaces ps.
Proof.
  induction ps as [|p ps [pre IH]]; [by exists [] |]. cbn [drop_spaces]. destruct (spaces p); [| by exists []].
  exists (p :: pre). cbn [app]. by rewrite <- IH.
Qed.

Lemma drop_spaces_head ps p rest : drop_spaces ps = p :: rest -> spaces p = false.
Proof.
  induction ps as [|q ps IH]; [done |]. cbn [drop_spaces]. destruct (spaces q) eqn:E; [done |]. by intros [= <- _].
Qed.

Lemma pieces_of_pieces ps : pieces_of (of_pieces ps) = pieces 0 (mjoin ps.*2).
Proof. unfold pieces_of, of_pieces. by rewrite String.list_byte_of_string_of_list_byte. Qed.

Lemma pieces_TrimSpace s :
  pieces_of (TrimSpace s) = reverse (drop_spaces (reverse (drop_spaces (pieces_of s)))).
Proof.
  unfold TrimSpace. rewrite pieces_of_pieces. set (d := drop_spaces (pieces_of s)).
  destruct (drop_spaces_suffix (pieces_of s)) as [pre E1]. fold d in E1.
  destruct (drop_spaces_suffix (reverse d)) as [post E2].
  assert (pieces_of s = pre ++ reverse (drop_spaces (reverse d)) ++ reverse post) as E.
  { rewrite E1 at 1. f_equal. by rewrite <- reverse_app, <- E2, reverse_involutive. }
  apply pieces_app in E as [_ E]. by apply pieces_app in E as [E _].
Qed.

Lemma fields_of_word word ps : word <> [] \/ Exists (fun p => spaces p = false) ps -> fields_of word ps <> [].
Proof.
  revert word. induction ps as [|p ps IH]; intros word [Hw|Hw]; cbn [fields_of].
  - by rewrite decide_False.
  - by apply Exists_nil in Hw.
  - destruct (spaces p); [by rewrite decide_False | apply IH; by left].
  - apply Exists_cons in Hw as [Hp|Hw]; [rewrite Hp; apply IH; by left |].
    destruct (spaces p); [| apply IH; by left]. intros [_ E]%app_eq_nil. eapply IH, E. by right.
Qed.

(** A line that is not blank has a first word. *)
Lemma Fields_TrimSpace s : TrimSpace s <> "" -> Fields (TrimSpace s) <> [].
Proof.
  intros Hs. unfold Fields. rewrite pieces_TrimSpace. apply fields_of_word. right.
  destruct (drop_spaces (reverse (drop_spaces (pieces_of s)))) as [|p rest] eqn:E.
  - contradict Hs. unfold TrimSpace. by rewrite E.
  - apply Exists_exists. exists p. rewrite reverse_cons, elem_of_app. split; [right; by apply list_elem_of_singleton |].
    by eapply drop_spaces_head.
Qed.

Lemma lookup_length {A} (l : list A) (i k : nat) : (length l <? k)%nat = false -> (i < k)%nat -> is_Some (l !! i).
Proof. rewrite Nat.ltb_ge. intros Hl Hi. apply lookup_lt_is_Some. lia. Qed.

(** No line makes [main] panic. *)
Lemma read_line_total kv text : is_Some (read_line kv text).
Proof.
  unfold read_line. case_decide as Hs; [by eexists |]. pose proof (Fields_TrimSpace text Hs) as Hf.
  destruct (Fields (TrimSpace text)) as [|cmd parts] eqn:E; [done |]. rewrite <- E. clear Hf.
  assert (Fields (TrimSpace text) !! 0%nat = Some cmd) as -> by (by rewrite E). cbn [mbind option_bind].
  destruct (upper_is "GET" cmd), (upper_is "SET" cmd), (upper_is "DEL" cmd); try (by eexists);
    (case_match eqn:El; [by eexists |]);
    (destruct (lookup_length _ 1 _ El) as [key ->]; [lia | by eexists]).
Qed.

(** ** The state machine over its lifetime *)

(** States a machine reaches: new, after commands of any bytes, and after
    restoring texts of a given kind. *)
Inductive reached (texts : list byte -> Prop) : KVSM.KVSM -> Prop :=
| reached_new : reached texts KVSM.NewKVSM
| reached_apply kv command kv' ok :
    reached texts kv -> KVSM.Apply command kv = Some (kv', ok) -> reached texts kv'
| reached_restore kv snapshot :
    reached texts kv -> texts snapshot -> reached texts (KVSM.Restore snapshot kv).1.

Lemma reached_clean texts kv : reached texts kv -> clean_store kv.
Proof.
  induction 1 as [|kv command kv' ok _ IH E|kv snapshot _ _ _].
  - intros m [= <-]. apply map_Forall_empty.
  - by eapply Apply_clean.
  - apply Restore_clean.
Qed.

Lemma clean_restores kv kv' : clean_store kv -> KVSM.Restore (KVSM.Snapshot kv) kv' = (kv, true).
Proof.
  intros Hc. unfold KVSM.Restore, KVSM.Snapshot. rewrite UnmarshalMap_MarshalMap by done. by destruct kv.
Qed.

Lemma Apply_not_nil command kv kv' ok :
  is_Some (KVSM.data kv) -> KVSM.Apply command kv = Some (kv', ok) -> is_Some (KVSM.data kv').
Proof.
  intros [m Em]. unfold KVSM.Apply. rewrite Em. cbn [mbind option_bind].
  destruct (UnmarshalOp command) as [op|]; [case_decide; [| case_decide] |]; intros [= <- _]; cbn; by eexists.
Qed.

Lemma Restore_not_nil snapshot kv :
  document snapshot <> Some JNull -> is_Some (KVSM.data (KVSM.Restore snapshot kv).1).
Proof.
  intros Hn. unfold KVSM.Restore, UnmarshalMap. destruct (document snapshot) as [[]|]; [done | by eexists | by eexists | by eexists | by eexists | | by eexists].
  destruct (foldl _ _ _). by eexists.
Qed.

(** C19. A snapshot restores the state it was taken of, whatever the machine it
    is given to held before: for every state a machine reaches by commands and
    snapshots of any bytes. Unless it restores a text that reads null, no
    command makes the machine panic. *)
Theorem snapshot_restores texts kv kv' :
  reached texts kv ->
  KVSM.Restore (KVSM.Snapshot kv) kv' = (kv, true) /\
  ((forall t, texts t -> document t <> Some JNull) -> forall command, is_Some (KVSM.Apply command kv)).
Proof.
  intros Hr. split; [by eapply clean_restores, reached_clean |]. intros Ht command.
  assert (is_Some (KVSM.data kv)) as [m Em].
  { induction Hr as [|? ? ? ? _ IH E|? ? _ _ Hs]; [by eexists | by eapply Apply_not_nil | by apply Restore_not_nil, Ht]. }
  unfold KVSM.Apply. rewrite Em. destruct (UnmarshalOp command); [case_decide; [| case_decide] |]; by eexists.
Qed.

#[export] Instance clean_store_dec kv : Decision (clean_store kv).
Proof.
  refine (match KVSM.data kv as d return Decision (forall m, d = Some m -> clean_map m) with
          | Some m => cast_if (decide (clean_map m))
          | None => left _
          end).
  - abstract (by intros m' [= <-]).
  - abstract (intros Hc; by apply n, Hc).
  - abstract done.
Defined.

(** The store as a state machine of the library, over the states free of
    ill-formed bytes; its panics are those of [KVSM.Apply]. *)
Record store := mkStore { kv_of : KVSM.KVSM; kv_clean : bool_decide (clean_store kv_of) }.

Lemma store_eq (s1 s2 : store) : kv_of s1 = kv_of s2 -> s1 = s2.
Proof. destruct s1, s2. cbn. intros ->. f_equal. apply proof_irrel. Qed.

Lemma after_command_clean command (s : store) kv' ok :
  KVSM.Apply command (kv_of s) = Some (kv', ok) -> bool_decide (clean_store kv').
Proof.
  destruct s as [kv Hkv]. apply bool_decide_unpack in Hkv as Hc. cbn [kv_of]. intros E.
  apply bool_decide_pack. by eapply Apply_clean.
Qed.

Definition after_command (command : list byte) (s : store) : option (store * bool) :=
  match KVSM.Apply command (kv_of s) as r return KVSM.Apply command (kv_of s) = r -> _ with
  | Some (kv', ok) => fun E => Some (mkStore kv' (after_command_clean command s kv' ok E), ok)
  | None => fun _ => None
  end eq_refl.

Lemma after_command_spec command (s : store) :
  match KVSM.Apply command (kv_of s) with
  | Some (kv', ok) => exists s', after_command command s = Some (s', ok) /\ kv_of s' = kv'
  | None => after_command command s = None
  end.
Proof.
  unfold after_command. generalize (after_command_clean command s) as f.
  destruct (KVSM.Apply command (kv_of s)) as [[kv' ok]|]; [| done]. intros f. by eexists.
Qed.

Lemma after_restore_clean snapshot kv : bool_decide (clean_store (KVSM.Restore snapshot kv).1).
Proof. apply bool_decide_pack, Restore_clean. Qed.

#[export] Instance store_machine : StateMachine store := {
  sm_Apply := after_command;
  sm_Snapshot s := Some (KVSM.Snapshot (kv_of s));
  sm_Restore snapshot s :=
    (mkStore (KVSM.Restore snapshot (kv_of s)).1 (after_restore_clean snapshot (kv_of s)),
     (KVSM.Restore snapshot (kv_of s)).2);
}.

(** It keeps the promise the library relies on. *)
#[export] Instance store_laws : StateMachineLaws store.
Proof.
  split. intros s s' data [= <-]. cbn [sm_Restore store_machine].
  pose proof (clean_restores (kv_of s) (kv_of s') (bool_decide_unpack _ (kv_clean s))) as E.
  f_equal; [apply store_eq; cbn [kv_of] |]; by rewrite E.
Qed.

(** A store whose map is not nil panics on no commands, *)
Lemma store_sound (s : store) : is_Some (KVSM.data (kv_of s)) -> sound s.
Proof.
  intros Hs es. revert s Hs. induction es as [|e es IH]; intros s Hs; [by eexists |]. simpl. unfold apply_sm.
  case_decide; [| by apply IH]. change (sm_Apply (Data e) s) with (after_command (Data e) s).
  pose proof (after_command_spec (Data e) s) as Hspec.
  destruct (KVSM.Apply (Data e) (kv_of s)) as [[kv' ok]|] eqn:E.
  - destruct Hspec as (s' & -> & Es'). apply (IH s'). rewrite Es'. by eapply Apply_not_nil.
  - exfalso. destruct Hs as [m Em]. unfold KVSM.Apply in E. rewrite Em in E.
    destruct (UnmarshalOp (Data e)); [case_decide; [| case_decide] |]; done.
Qed.

(** and one that has restored a snapshot that reads null takes the node down
    with the first SET it applies. *)
Lemma null_snapshot_unsound (s : store) :
  ~ sound (sm_Restore (String.list_byte_of_string "null") s).1.
Proof.
  intros Hs. set (s' := (sm_Restore _ s).1) in Hs.
  set (e := mkRaftLog 0 1 LogCommand (MarshalOp (mkOp "set" "k" "v")) ConfigChange_zero "" 0).
  assert (kv_of s' = KVSM.mkKVSM None) as Ek by (vm_compute; reflexivity).
  destruct (Hs [e]) as [m Em]. cbn [apply_all] in Em. unfold apply_sm in Em. rewrite decide_True in Em by done.
  change (sm_Apply (Data e) s') with (after_command (Data e) s') in Em.
  pose proof (after_command_spec (Data e) s') as Hspec. rewrite Ek in Hspec.
  assert (KVSM.Apply (Data e) (KVSM.mkKVSM None) = None) as En by (vm_compute; reflexivity).
  rewrite En in Hspec. by rewrite Hspec in Em.
Qed.

(** ** The console *)

(** The operations the lines submit. *)
Definition submitted_by (l : line_in) : option Op :=
  match read_line l.1.2 l.1.1 with Some (Submit op) => Some op | _ => None end.

Definition submitted (input : list line_in) : list Op := omap submitted_by input.

Lemma submitted_cons text kv answer input :
  submitted ((text, kv, answer) :: input) =
    match read_line kv text with Some (Submit op) => op :: submitted input | _ => submitted input end.
Proof. unfold submitted. cbn. unfold submitted_by. cbn. by destruct (read_line kv text) as [[]|]. Qed.

(** What an operation does to a map. *)
Definition perform (op : Op) (m : gmap string string) : gmap string string :=
  if decide (Kind op = "set") then <[clean (Key op) := clean (Value op)]> m else delete (clean (Key op)) m.

Fixpoint apply_all (commands : list (list byte)) (kv : KVSM.KVSM) : option KVSM.KVSM :=
  match commands with
  | [] => Some kv
  | c :: commands' => '(kv, _) ← KVSM.Apply c kv; apply_all commands' kv
  end.

(** A submitted operation is a set or a delete. *)
Lemma submitted_kind kv text op :
  read_line kv text = Some (Submit op) -> Kind op = "set" \/ Kind op = "del" /\ Value op = "".
Proof.
  unfold read_line. case_decide; [done |]. intros E. apply bind_Some in E as (cmd & _ & E).
  repeat (case_match; [by simplify_eq | ] || apply bind_Some in E as (? & _ & E) || (simplify_eq; by auto) || case_match).
Qed.

Lemma Apply_submitted op m :
  Kind op = "set" \/ Kind op = "del" /\ Value op = "" ->
  KVSM.Apply (MarshalOp op) (KVSM.mkKVSM (Some m)) = Some (KVSM.mkKVSM (Some (perform op m)), true).
Proof.
  intros Hk. unfold KVSM.Apply. rewrite UnmarshalOp_MarshalOp. cbn [Kind Key Value KVSM.data]. unfold perform.
  assert (clean "set" = "set" /\ clean "del" = "del") as [C1 C2] by (vm_compute; done).
  destruct Hk as [E|[E _]]; rewrite E, ?C1, ?C2; done.
Qed.

Lemma submitted_kinds input :
  Forall (fun op => Kind op = "set" \/ Kind op = "del" /\ Value op = "") (submitted input).
Proof.
  induction input as [|[[text kv] answer] input IH]; [by constructor |]. rewrite submitted_cons.
  destruct (read_line kv text) as [[]|] eqn:E; try done. constructor; [by eapply submitted_kind | done].
Qed.

(** The commands of the console: one for each operation, numbered. *)
Definition commands_of (id : ServerID) (resultCh : chan) (seqNum : Z) (ops : list Op) : list pendingApply :=
  imap (fun i op => applyRequest id (seqNum + 1 + Z.of_nat i) (MarshalOp op) resultCh) ops.

Lemma commands_of_cons id resultCh seqNum op ops :
  commands_of id resultCh seqNum (op :: ops) =
    applyRequest id (seqNum + 1) (MarshalOp op) resultCh :: commands_of id resultCh (seqNum + 1) ops.
Proof.
  unfold commands_of. cbn [imap]. f_equal; [by rewrite Z.add_0_r |].
  apply imap_ext. intros i x _. unfold compose. f_equal. lia.
Qed.

Lemma console_run id resultCh input : forall seqNum,
  0 <= seqNum -> seqNum + Z.of_nat (length input) <= max_int64 ->
  exists out, console id resultCh seqNum input =
    Some (out, commands_of id resultCh seqNum (submitted input), seqNum + Z.of_nat (length (submitted input))).
Proof.
  induction input as [|[[text kv] answer] input IH]; intros seqNum H0 Hmax.
  { exists []. simpl. by rewrite Z.add_0_r. }
  cbn [length] in Hmax. destruct (read_line_total kv text) as [r Er]. cbn [console].
  rewrite submitted_cons, Er. cbn [mbind option_bind].
  destruct r as [|o|op]; [apply IH; lia | destruct (IH seqNum) as (out & ->); [lia.. |]; by exists (o :: out) |].
  rewrite wrap64_succ by (unfold in_int64, min_int64; lia).
  destruct (IH (seqNum + 1)) as (out & ->); [lia.. |]. exists (report answer :: out).
  cbn [mbind option_bind]. rewrite commands_of_cons. do 2 f_equal. cbn [length]. lia.
Qed.

Lemma apply_all_commands id resultCh ops : forall seqNum m,
  Forall (fun op => Kind op = "set" \/ Kind op = "del" /\ Value op = "") ops ->
  apply_all ((fun c => aa_Command (pa_args c)) <$> commands_of id resultCh seqNum ops) (KVSM.mkKVSM (Some m)) =
    Some (KVSM.mkKVSM (Some (foldl (fun m op => perform op m) m ops))).
Proof.
  induction ops as [|op ops IH]; intros seqNum m; [done |]. intros [Hop Hops]%Forall_cons.
  rewrite commands_of_cons. cbn [fmap list_fmap apply_all applyRequest pa_args aa_Command].
  rewrite Apply_submitted by done. by apply IH.
Qed.

(** C20. The console never panics: whatever is typed, its lines become commands
    under the node's own id, numbered consecutively, one for each SET and DEL
    with enough words. Applied in their order to the map of any machine, they
    succeed and have the effect of the operations typed, on keys and values
    with ill-formed bytes replaced. *)
Theorem console_commands id resultCh input seqNum m :
  0 <= seqNum -> seqNum + Z.of_nat (length input) <= max_int64 ->
  exists out cmds, console id resultCh seqNum input = Some (out, cmds, seqNum + Z.of_nat (length cmds)) /\
    let ops := submitted input in
    cmds = imap (fun i op => applyRequest id (seqNum + 1 + Z.of_nat i) (MarshalOp op) resultCh) ops /\
    apply_all ((fun c => aa_Command (pa_args c)) <$> cmds) (KVSM.mkKVSM (Some m)) =
      Some (KVSM.mkKVSM (Some (foldl (fun m op => perform op m) m ops))).
Proof.
  intros H0 Hmax. destruct (console_run id resultCh input seqNum H0 Hmax) as [out E]. exists out. eexists.
  split; [| split; [reflexivity |]].
  - rewrite E. unfold commands_of. by rewrite length_imap.
  - apply (apply_all_commands id resultCh), submitted_kinds.
Qed.

(** A GET after the command of a SET or DEL of the same key has been applied:
    it prints the value set, or that there is none. *)
Lemma read_get kv text cmd key rest :
  Fields (TrimSpace text) = cmd :: key :: rest -> upper_is "GET" cmd = true ->
  read_line kv text = Some (Print (match KVSM.Get key kv with Some v => Found key v | None => NotFound key end)).
Proof.
  intros Hf Hc. unfold read_line. rewrite decide_False by (intros E; by rewrite E in Hf). rewrite Hf.
  cbn [mbind option_bind lookup list_lookup length]. rewrite Hc. done.
Qed.

(** C21. What is typed is what is read: after the operation of a SET or DEL line
    has been applied, a GET line for its key prints the value, or that there is
    none, and every other key is as before. The key must be well-formed UTF-8;
    ill-formed bytes of the value are replaced. *)
Theorem set_then_get kv0 kv text text' op cmd rest :
  read_line kv0 text = Some (Submit op) -> is_Some (KVSM.data kv) -> clean_string (Key op) ->
  Fields (TrimSpace text') = cmd :: Key op :: rest -> upper_is "GET" cmd = true ->
  exists kv', KVSM.Apply (MarshalOp op) kv = Some (kv', true) /\
    read_line kv' text' = Some (Print (if decide (Kind op = "set") then Found (Key op) (clean (Value op))
                                       else NotFound (Key op))) /\
    forall key, key <> Key op -> KVSM.Get key kv' = KVSM.Get key kv.
Proof.
  intros E [m Em] Hc Hf Hcmd. destruct kv as [d]. cbn in Em. subst d.
  eexists. split; [apply Apply_submitted; by eapply submitted_kind |]. rewrite (read_get _ _ _ _ _ Hf Hcmd).
  unfold KVSM.Get, perform. cbn [KVSM.data mbind option_bind]. rewrite Hc. split.
  - destruct (decide (Kind op = "set")); by rewrite ?lookup_insert_eq, ?lookup_delete_eq.
  - intros key Hk. destruct (decide (Kind op = "set")); by rewrite ?lookup_insert_ne, ?lookup_delete_ne by done.
Qed.

(** ** A restarted process *)

Section restarted.
Context {SM ST : Type} `{StateMachine SM, Storage ST, GoPlatform}.
Implicit Types n : RaftNode SM ST.

(** A command whose number the node has applied for its client is answered at
    once, and changes nothing. *)
Lemma old_command_answered errCh req n :
  role (state n) = Leader -> already_applied (pa_args req) n ->
  handleApplyRequest errCh req n = Some (n, [RespondApply (pa_resultCh req) (mkApplyResponse true (id n))], tt).
Proof.
  intros Hl Hd. set (out := [_]).
  enough (runs_to (handleApplyRequest errCh req) n (fun n' o _ => n' = n /\ o = out)) as (n' & o & [] & E & -> & ->)
    by exact E.
  go_read. unfold getRole, getClientLastSeq. rewrite Hl. go_read.
  rewrite already_applied_spec, bool_decide_true by done. by apply runs_to_emit.
Qed.

(** C11. The numbers of the console start again at 1 with the process. When the
    node leads a cluster that remembers commands of an earlier run, the first
    commands typed are taken for repetitions: each is answered with success and
    "OK" is printed, but nothing is appended to the log or applied. *)
Theorem restarted_console_loses_commands n resultCh input :
  role (state n) = Leader -> Z.of_nat (length input) <= max_int64 ->
  Z.of_nat (length (submitted input)) <= map_get (clientLastSeq (state n)) (id n) ->
  exists out cmds, console (id n) resultCh 0 input = Some (out, cmds, Z.of_nat (length (submitted input))) /\
    length cmds = length (submitted input) /\
    let answer := mkApplyResponse true (id n) in
    report (Some answer) = Ok /\
    forall cmd errCh, cmd ∈ cmds -> handleApplyRequest errCh cmd n = Some (n, [RespondApply resultCh answer], tt).
Proof.
  intros Hl Hmax Hle. destruct (console_run (id n) resultCh input 0) as [out E]; [lia.. |].
  exists out. eexists. split; [exact E |]. split; [apply length_imap |]. split; [done |].
  intros cmd errCh Hin. apply list_elem_of_lookup in Hin as [i Hi]. unfold commands_of in Hi.
  rewrite list_lookup_imap in Hi. apply fmap_Some in Hi as (op & Hop & ->). apply lookup_lt_Some in Hop.
  apply (old_command_answered errCh); [done |]. unfold already_applied, applyRequest. cbn. lia.
Qed.
End restarted.

(** ** The node of a process *)

Definition new_store : store := mkStore KVSM.NewKVSM I.

(** What [main] builds and starts; [None] when it exits with an error. *)
Definition boot `{GoPlatform} (config : NodeConfig.Config) (tr : Transport) : option (RaftNode store MemoryStorage.t) :=
  match New config (Some new_store) (Some tr) (Some MemoryStorage.NewMemoryStorage) with
  | inr _ => None
  | inl n => match Start n with Some (n, None) => Some n | _ => None end
  end.

(** With an id and an address to listen on, it starts: empty, as a follower. *)
Lemma boot_starts `{GoPlatform} id0 peersStr config tr :
  main_config id0 peersStr = Some config -> tr_Listen tr id0 = true ->
  exists n, boot config tr = Some n /\ role (state n) = Follower /\ kv_of (sm n) = KVSM.NewKVSM /\ id n = id0.
Proof.
  unfold main_config. case_decide; [done |]. intros [= <-] Hli.
  generalize (if decide (peersStr = "") then [] else TrimSpace <$> split_commas [] (String.list_byte_of_string peersStr)).
  intros peers. unfold boot, Start. cbn -[newNodeState newMetrics].
  set (n := _ <| state := _ |>). change (MemoryStorage.loadSnapshot (storage n)) with (Some (@None Types.Snapshot)).
  cbn [restoreSnapshot negb]. change (transport n) with tr. change (id n) with id0. rewrite Hli.
  assert (role (newNodeState id0 peers 300 500) = Follower) as Hr by apply (newNodeState_frame id0 peers).
  case_bool_decide; eexists; (split; [reflexivity |]); (split; [exact Hr |]); split; reflexivity.
Qed.

(** ** Instances *)

#[local] Existing Instance amd64.

(** What the examples type. *)
Definition set_line : string := "SET nome Henrique".
Definition get_line : string := "get nome".

Definition nome_set : KVSM.KVSM := KVSM.mkKVSM (Some {["nome" := "Henrique"]}).

Lemma snapshot_restores_witness :
  reached (fun t => document t <> Some JNull) nome_set /\
  KVSM.Restore (KVSM.Snapshot nome_set) KVSM.NewKVSM = (nome_set, true) /\
  is_Some (KVSM.Apply (MarshalOp (mkOp "del" "nome" "")) nome_set).
Proof.
  assert (reached (fun t => document t <> Some JNull) nome_set) as Hr.
  { eapply (reached_apply _ KVSM.NewKVSM (MarshalOp (mkOp "set" "nome" "Henrique")) _ true); [constructor |].
    vm_compute. reflexivity. }
  split; [exact Hr |].
  destruct (snapshot_restores (fun t => document t <> Some JNull) nome_set KVSM.NewKVSM Hr) as [E Ha].
  split; [exact E |]. apply Ha. intros t Ht. exact Ht.
Defined.

(** A snapshot that reads null makes the map nil; the next SET panics. *)
Example null_snapshot_panics :
  KVSM.Apply (MarshalOp (mkOp "set" "nome" "Henrique"))
    (KVSM.Restore (String.list_byte_of_string "null") KVSM.NewKVSM).1 = None.
Proof. vm_compute. reflexivity. Qed.

Lemma console_commands_witness :
  exists out cmds, console "n1" 0%nat 4 [(set_line, KVSM.NewKVSM, None); (get_line, nome_set, None)] = Some (out, cmds, 5) /\
    cmds = [applyRequest "n1" 5 (MarshalOp (mkOp "set" "nome" "Henrique")) 0%nat].
Proof.
  destruct (console_commands "n1" 0%nat [(set_line, KVSM.NewKVSM, None); (get_line, nome_set, None)] 4 ∅)
    as (out & cmds & E & Hc & _); [lia | vm_compute; discriminate |].
  assert (submitted [(set_line, KVSM.NewKVSM, None); (get_line, nome_set, None)] = [mkOp "set" "nome" "Henrique"]) as Es
    by (vm_compute; reflexivity).
  rewrite Es in Hc. exists out, cmds. rewrite Hc in E |- *. split; [exact E | reflexivity].
Defined.

Lemma set_then_get_witness :
  exists kv', KVSM.Apply (MarshalOp (mkOp "set" "nome" "Henrique")) KVSM.NewKVSM = Some (kv', true) /\
    read_line kv' get_line = Some (Print (Found "nome" "Henrique")).
Proof.
  assert (Fields (TrimSpace get_line) = ["get"; "nome"]) as Hf by (vm_compute; reflexivity).
  destruct (set_then_get KVSM.NewKVSM KVSM.NewKVSM set_line get_line (mkOp "set" "nome" "Henrique") "get" [])
    as (kv' & E & Hg & _); [vm_compute; reflexivity | by eexists | vm_compute; reflexivity | exact Hf | reflexivity |].
  exists kv'. split; [exact E |]. rewrite Hg. vm_compute. reflexivity.
Defined.

(** A key that is no UTF-8 is stored under another name: "OK" is printed, and
    the value is not found. *)
Definition bad_key : string := String.string_of_list_byte [Byte.xff].

Example bad_key_not_found :
  exists kv', KVSM.Apply (MarshalOp (mkOp "set" bad_key "v")) KVSM.NewKVSM = Some (kv', true) /\ KVSM.Get bad_key kv' = None.
Proof. eexists. split; vm_compute; reflexivity. Qed.

(** The node of [main] on "n1", whose process has been started again: from n2,
    the leader of term 1, it receives the log with the command of its earlier
    run, applies it, and is elected in term 2. *)
Definition first_run : RaftLog :=
  mkRaftLog 1 1 LogCommand (MarshalOp (mkOp "set" "nome" "Henrique")) ConfigChange_zero "n1" 1.

Definition replayed : list event :=
  [EvConnected;
   EvAppendEntries (mkAppendEntriesArgs 1 "n2" (-1) 0 [mkRaftLog 0 1 LogNoop [] ConfigChange_zero "" 0; first_run] 1);
   EvTimer; EvVoteResponse (mkRequestVoteResponse "n2" 2 true)].

Definition restarted : option (RaftNode store MemoryStorage.t) :=
  config ← main_config "n1" "n2,n3";
  n ← boot config listening;
  foldl (fun n ev => n ← n; '(n, _, _) ← run 0 (fun _ => 0) ev n; Some n) (Some n) replayed.

Lemma restarted_console_loses_commands_witness :
  exists n, restarted = Some n /\ KVSM.Get "nome" (kv_of (sm n)) = Some "Henrique" /\
    exists out cmds, console (id n) 0%nat 0 [("DEL nome", kv_of (sm n), Some (mkApplyResponse true (id n)))] = Some (out, cmds, 1) /\
      length cmds = 1%nat /\
      forall cmd errCh, cmd ∈ cmds ->
        handleApplyRequest errCh cmd n = Some (n, [RespondApply 0%nat (mkApplyResponse true (id n))], tt).
Proof.
  destruct (observe1 restarted (fun n => (role (state n), map_get (clientLastSeq (state n)) "n1", id n, KVSM.Get "nome" (kv_of (sm n))))
    (Leader, 1, "n1", Some "Henrique") ltac:(vm_compute; reflexivity)) as (n & E & Eo).
  injection Eo as Hrole Hseq Hid Hget. exists n. split; [exact E |]. split; [exact Hget |].
  assert (submitted [("DEL nome", kv_of (sm n), Some (mkApplyResponse true (id n)))] = [mkOp "del" "nome" ""]) as Es
    by (vm_compute; reflexivity).
  destruct (restarted_console_loses_commands n 0%nat [("DEL nome", kv_of (sm n), Some (mkApplyResponse true (id n)))] Hrole)
    as (out & cmds & Ec & Hl & _ & Ha).
  - vm_compute. discriminate.
  - rewrite Es, Hid, Hseq. reflexivity.
  - rewrite Es in Ec, Hl. exists out, cmds. split; [exact Ec |]. split; [exact Hl | exact Ha].
Defined.
